(** * RecoverX: detection, snapshot and recovery core

    A shallow embedding of [src/threat_detector.py], [src/file_monitor.py],
    [src/backup_manager.py], [src/recovery_engine.py],
    [src/automated_response.py], [src/config_manager.py] and the validation
    of [main.py], and the properties of the design document that can be
    stated over it.

    Conventions of the embedding.
    - Python [int] is [Z]; a [datetime] is a [Z], the number of microseconds
      since [datetime.min], and a reading of [datetime.now()] is an explicit
      argument.
    - Python [str] is [string]; [str.lower] is taken on ASCII letters.
    - Exceptions are values of [exn]; code that may raise returns
      [exn + A], and [try ... except Exception] is a [match] on that sum.
    - A [dict] iterated in insertion order is an association list; a [dict]
      used only through lookups is a [gmap].
    - Paths are POSIX paths in the form [pathlib] gives them; the file
      system is a finite map from absolute paths to contents, together with
      the system calls that fail.
    - Where a message prints a [datetime], the model prints its number. *)

From Stdlib Require Import ZArith Lia List Bool Ascii String DecimalString.
From Stdlib Require Import Sorted Permutation.
From stdpp Require Import gmap strings list.

Local Open Scope string_scope.
Local Open Scope list_scope.
Local Open Scope Z_scope.

(** ** Python values *)

Module Py.

(** The exception classes that the modelled code can meet; all of them are
    subclasses of [Exception]. The argument is [str(e)]. *)
Inductive exn : Type :=
| FileNotFoundError (msg : string)
| PermissionError (msg : string)
| OSError (msg : string)
| ZeroDivisionError (msg : string)
| OverflowError (msg : string).

Definition str_exn (e : exn) : string :=
  match e with
  | FileNotFoundError m | PermissionError m | OSError m
  | ZeroDivisionError m | OverflowError m => m
  end.

(** The levels of the [Logger] object that is passed around. *)
Inductive log_level : Type := Debug | Info | Warning | Error | Critical.

(** [str(n)] for an [int]. *)
Definition str_int (n : Z) : string := NilZero.string_of_int (Z.to_int n).

(** [len(l)] *)
Definition len {A} (l : list A) : Z := Z.of_nat (List.length l).

(** [sep.join(l)] *)
Fixpoint join (sep : string) (l : list string) : string :=
  match l with
  | [] => ""
  | [x] => x
  | x :: rest => x +:+ sep +:+ join sep rest
  end.

(** [c.lower()] on one character: ASCII capitals are folded, every other
    character is left as it is. *)
Definition lower_ascii (c : ascii) : ascii :=
  let n := nat_of_ascii c in
  if ((65 <=? n) && (n <=? 90))%nat then ascii_of_nat (n + 32) else c.

(** [s.lower()] *)
Fixpoint lower (s : string) : string :=
  match s with
  | EmptyString => EmptyString
  | String c rest => String (lower_ascii c) (lower rest)
  end.

(** [s.upper()], on ASCII letters as [lower]. *)
Definition upper_ascii (c : ascii) : ascii :=
  let n := nat_of_ascii c in
  if ((97 <=? n) && (n <=? 122))%nat then ascii_of_nat (n - 32) else c.

Fixpoint upper (s : string) : string :=
  match s with
  | EmptyString => EmptyString
  | String c rest => String (upper_ascii c) (upper rest)
  end.

(** [s.endswith(suffix)] *)
Definition endswith (s suffix : string) : bool :=
  let n := String.length s in
  let m := String.length suffix in
  if (m <=? n)%nat then String.eqb (substring (n - m) m s) suffix else false.

(** [x in l] for a list of strings. *)
Definition str_in (x : string) (l : list string) : bool :=
  existsb (String.eqb x) l.

(** [l[:k]] and [l[k:]], with Python's reading of a negative bound. *)
Definition slice_to {A} (l : list A) (k : Z) : list A :=
  if 0 <=? k then take (Z.to_nat k) l else take (Z.to_nat (len l + k)) l.

Definition slice_from {A} (l : list A) (k : Z) : list A :=
  if 0 <=? k then drop (Z.to_nat k) l else drop (Z.to_nat (len l + k)) l.

(** *** [datetime] and [timedelta]

    A [datetime] is the number of microseconds since [datetime.min], the
    first instant of year 1; [datetime.max], the last microsecond of year
    9999, is [datetime_max]. A [timedelta] is a number of microseconds
    whose days are within 999999999 of zero. The constructor and the
    subtraction raise [OverflowError] out of these ranges, with the texts
    of CPython; the number of days goes through a C [int] first. *)
Definition datetime_max : Z := 3652059 * 86400 * 1000000 - 1.

(** [timedelta(seconds=n)] for an [int] *)
Definition timedelta (seconds : Z) : exn + Z :=
  let days := seconds / 86400 in
  if (-999999999 <=? days) && (days <=? 999999999)
  then inr (seconds * 1000000)
  else if (-2147483648 <=? days) && (days <=? 2147483647)
  then inl (OverflowError ("days=" +:+ str_int days
                           +:+ "; must have magnitude <= 999999999"))
  else inl (OverflowError "Python int too large to convert to C int").

(** [d - delta] for a [datetime] and a [timedelta] *)
Definition datetime_sub (d delta : Z) : exn + Z :=
  let result := d - delta in
  if (0 <=? result) && (result <=? datetime_max) then inr result
  else inl (OverflowError "date value out of range").

(** [timedelta(seconds=n)] where the monitor takes the last 60 or 10
    seconds off a clock reading: both are in range for the clock of a
    running system. *)
Definition timedelta_seconds (n : Z) : Z := n * 1000000.

(** *** binary64 numbers and [int / int]

    A finite binary64 number is [mant * 2 ^ expo]. True division of two
    [int]s gives the binary64 number nearest to the exact quotient, ties to
    the even mantissa, and raises [OverflowError] when that number is not
    finite, [ZeroDivisionError] on a zero divisor. *)
Record float : Type := { mant : Z; expo : Z }.

(** Both sides of a fraction scaled by [2 ^ sh], whatever the sign of [sh]. *)
Definition shift_frac (a b sh : Z) : Z * Z :=
  if 0 <=? sh then (a * 2 ^ sh, b) else (a, b * 2 ^ (- sh)).

(** [floor (log2 (a / b))] for positive [a] and [b]. *)
Definition quot_log2 (a b : Z) : Z :=
  let s := Z.log2 a - Z.log2 b in
  let '(n, d) := shift_frac a b (- s) in
  if d <=? n then s else s - 1.

(** Nearest integer to [n / d], ties to even, for positive [d]. *)
Definition round_half_even (n d : Z) : Z :=
  let q := n / d in
  let r := n mod d in
  if (d <? 2 * r) || ((d =? 2 * r) && Z.odd q) then q + 1 else q.

Definition truediv (a b : Z) : exn + float :=
  if b =? 0 then inl (ZeroDivisionError "division by zero")
  else if a =? 0 then inr {| mant := 0; expo := 0 |}
  else
    let a' := Z.abs a in
    let b' := Z.abs b in
    let E := Z.max (quot_log2 a' b') (-1022) in
    let '(n, d) := shift_frac a' b' (52 - E) in
    let m := round_half_even n d in
    if (1023 <? E) || ((E =? 1023) && (m =? 2 ^ 53))
    then inl (OverflowError "integer division result too large for a float")
    else inr {| mant := Z.sgn a * Z.sgn b * m; expo := E - 52 |}.

(** [x > y] on binary64 numbers: the comparison of the two reals. *)
Definition float_gt (x y : float) : bool :=
  let e := Z.min (expo x) (expo y) in
  mant y * 2 ^ (expo y - e) <? mant x * 2 ^ (expo x - e).

(** The literal [1.2]: the binary64 number nearest to 6/5, which is
    [0x3FF3333333333333]. *)
Definition float_1_2 : float := {| mant := 5404319552844595; expo := -52 |}.

(** [float(n)] for an [int] that a binary64 number holds exactly. *)
Definition float_of_int (n : Z) : float := {| mant := n; expo := 0 |}.

(** [x * y] on binary64 numbers: the number nearest to the exact product,
    ties to even; [None] stands for an infinity, which is what a product
    too large gives. *)
Definition float_mul (x y : float) : option float :=
  let n := mant x * mant y in
  let '(a, b) := shift_frac (Z.abs n) 1 (expo x + expo y) in
  match truediv a b with
  | inr z => Some {| mant := Z.sgn n * mant z; expo := expo z |}
  | inl _ => None
  end.

End Py.

(** ** file_monitor.py: the event record *)

Module FileMonitor.

Record FileEvent : Type := {
  timestamp : Z;
  file_path : string;
  event_type : string;   (* 'modified', 'created', 'deleted', 'moved' *)
  file_size : Z
}.

End FileMonitor.

(** ** threat_detector.py *)

Module ThreatDetector.
Import Py FileMonitor.

Record DetectionResult : Type := {
  is_threat : bool;
  threat_score : Z;
  affected_files : list string;
  detection_reason : string;
  result_timestamp : Z
}.

(** The fields of a [ThreatDetector] that the analysis reads. *)
Record ThreatDetector : Type := {
  detection_threshold : Z;
  time_window_seconds : Z;
  suspicious_extensions : list string
}.

Definition default_extensions : list string :=
  [".encrypted"; ".locked"; ".crypto"; ".crypt"; ".enc"; ".vault"].

(** [__init__]: an absent or empty list of extensions selects the default
    one ([suspicious_extensions or [...]]); the list is then lower-cased. *)
Definition configured_extensions (extensions : option (list string))
  : list string :=
  match extensions with
  | None | Some [] => default_extensions
  | Some l => l
  end.

Definition init (threshold window : Z) (extensions : option (list string))
  : ThreatDetector :=
  {| detection_threshold := threshold;
     time_window_seconds := window;
     suspicious_extensions := map lower (configured_extensions extensions) |}.

Definition log_line : Type := (log_level * string)%type.

Section Analysis.

Variable self : ThreatDetector.

(** [datetime.now() - timedelta(seconds=self.time_window_seconds)] raises
    when the window is not a [timedelta] or reaches back before year 1. *)
Definition _filter_recent_events (now : Z) (events : list FileEvent)
  : exn + list FileEvent :=
  match timedelta (time_window_seconds self) with
  | inl e => inl e
  | inr window =>
      match datetime_sub now window with
      | inl e => inl e
      | inr cutoff_time =>
          inr (List.filter (fun event => cutoff_time <? timestamp event)
                           events)
      end
  end.

Definition _check_modification_rate (events : list FileEvent)
  : Z * list string :=
  let modification_events :=
    List.filter
      (fun event => str_in (event_type event) ["modified"; "created"])
           events in
  let modification_count := len modification_events in
  let affected := map file_path modification_events in
  if detection_threshold self <=? modification_count then
    let excess := modification_count - detection_threshold self in
    let score := Z.min (30 + excess * 5) 50 in
    (score, affected)
  else (0, []).

(** The inner [for ext in self.suspicious_extensions: ... break]. *)
Fixpoint matches_extension (exts : list string) (path_lower : string) : bool :=
  match exts with
  | [] => false
  | ext :: rest =>
      if endswith path_lower ext then true
      else matches_extension rest path_lower
  end.

(** The outer loop, with the list being appended to as accumulator. *)
Fixpoint collect_suspicious (events : list FileEvent)
         (suspicious_files : list string) : list string :=
  match events with
  | [] => suspicious_files
  | event :: rest =>
      if str_in (event_type event) ["modified"; "created"] then
        let path_lower := lower (file_path event) in
        if matches_extension (suspicious_extensions self) path_lower
        then collect_suspicious rest (suspicious_files ++ [file_path event])
        else collect_suspicious rest suspicious_files
      else collect_suspicious rest suspicious_files
  end.

Definition _check_suspicious_extensions (events : list FileEvent)
  : Z * list string :=
  let suspicious_files := collect_suspicious events [] in
  match suspicious_files with
  | [] => (0, [])
  | _ :: _ =>
      let score := Z.min (40 + len suspicious_files * 10) 60 in
      (score, suspicious_files)
  end.

(** [file_events[path].append(event)] on an insertion-ordered dict, the
    key being created with an empty list when it is new. *)
Fixpoint dict_append (d : list (string * list FileEvent)) (k : string)
         (event : FileEvent) : list (string * list FileEvent) :=
  match d with
  | [] => [(k, [event])]
  | (k', l) :: d' =>
      if String.eqb k' k then (k', l ++ [event]) :: d'
      else (k', l) :: dict_append d' k event
  end.

Definition group_modified (events : list FileEvent)
  : list (string * list FileEvent) :=
  fold_left
    (fun d event =>
       if String.eqb (event_type event) "modified"
       then dict_append d (file_path event) event
       else d)
    events [].

(** [list.sort(key=lambda x: x.timestamp)]: the stable sort. *)
Fixpoint insert_by_timestamp (x : FileEvent) (l : list FileEvent)
  : list FileEvent :=
  match l with
  | [] => [x]
  | y :: rest =>
      if timestamp x <=? timestamp y then x :: y :: rest
      else y :: insert_by_timestamp x rest
  end.

Fixpoint sort_by_timestamp (l : list FileEvent) : list FileEvent :=
  match l with
  | [] => []
  | x :: rest => insert_by_timestamp x (sort_by_timestamp rest)
  end.

(** [for i in range(1, len(l))]: [true] when the loop reaches its [break]. *)
Fixpoint scan_size_increase (l : list FileEvent) : exn + bool :=
  match l with
  | prev :: ((curr :: _) as tail) =>
      let prev_size := file_size prev in
      let curr_size := file_size curr in
      if (0 <? prev_size) && (prev_size <? curr_size) then
        match truediv curr_size prev_size with
        | inl e => inl e
        | inr size_increase_ratio =>
            if float_gt size_increase_ratio float_1_2 then inr true
            else scan_size_increase tail
        end
      else scan_size_increase tail
  | _ => inr false
  end.

(** [for file_path, file_event_list in file_events.items()] *)
Fixpoint collect_growing (d : list (string * list FileEvent))
         (suspicious_files : list string) : exn + list string :=
  match d with
  | [] => inr suspicious_files
  | (path, file_event_list) :: rest =>
      if 2 <=? len file_event_list then
        match scan_size_increase (sort_by_timestamp file_event_list) with
        | inl e => inl e
        | inr true => collect_growing rest (suspicious_files ++ [path])
        | inr false => collect_growing rest suspicious_files
        end
      else collect_growing rest suspicious_files
  end.

Definition _check_file_size_changes (events : list FileEvent)
  : exn + Z * list string :=
  match collect_growing (group_modified events) [] with
  | inl e => inl e
  | inr [] => inr (0, [])
  | inr ((_ :: _) as suspicious_files) =>
      let score := Z.min (20 + len suspicious_files * 5) 30 in
      inr (score, suspicious_files)
  end.

(** [list(set(l))] lists the distinct elements of [l] in an order that the
    language leaves open; the order is a parameter of the analysis. *)
Variable list_of_set : list string -> list string.

Definition reason_if (c : bool) (s : string) : list string :=
  if c then [s] else [].

(** The body of the [try] block of [analyze_events]. [now] is the clock
    reading of the filter, [now'] the one stored in the result. *)
Definition analyze_events_body (now now' : Z) (events : list FileEvent)
  : exn + DetectionResult * list log_line :=
  match _filter_recent_events now events with
  | inl e => inl e
  | inr [] =>
      inr ({| is_threat := false; threat_score := 0; affected_files := [];
              detection_reason := "No recent file activity";
              result_timestamp := now' |}, [])
  | inr ((_ :: _) as recent_events) =>
      let '(modification_score, mod_files) :=
        _check_modification_rate recent_events in
      let '(extension_score, ext_files) :=
        _check_suspicious_extensions recent_events in
      match _check_file_size_changes recent_events with
      | inl e => inl e
      | inr (size_score, size_files) =>
          let score := modification_score + extension_score + size_score in
          let detection_reasons :=
            reason_if (0 <? modification_score)
              ("High modification rate: " +:+ str_int (len mod_files)
               +:+ " files in " +:+ str_int (time_window_seconds self) +:+ "s")
            ++ reason_if (0 <? extension_score)
              ("Suspicious file extensions detected: "
               +:+ str_int (len ext_files) +:+ " files")
            ++ reason_if (0 <? size_score)
              ("Rapid file size changes: " +:+ str_int (len size_files)
               +:+ " files") in
          let affected := list_of_set (mod_files ++ ext_files ++ size_files) in
          let threat := 50 <=? score in
          let reason :=
            match detection_reasons with
            | [] => "No threats detected"
            | _ :: _ => join "; " detection_reasons
            end in
          let result :=
            {| is_threat := threat;
               threat_score := Z.min score 100;
               affected_files := affected;
               detection_reason := reason;
               result_timestamp := now' |} in
          let logged :=
            if threat then
              [(Warning, "THREAT DETECTED - Score: "
                         +:+ str_int (threat_score result) +:+ "/100, Reason: "
                         +:+ reason);
               (Warning, "Affected files: " +:+ str_int (len affected))]
            else
              [(Debug, "No threat detected - Score: "
                       +:+ str_int (threat_score result) +:+ "/100")] in
          inr (result, logged)
      end
  end.

(** [analyze_events]: the [except Exception] arm turns any error into a
    result that reports no threat. *)
Definition analyze_events (now now' : Z) (events : list FileEvent)
  : DetectionResult * list log_line :=
  match analyze_events_body now now' events with
  | inr r => r
  | inl e =>
      ({| is_threat := false; threat_score := 0; affected_files := [];
          detection_reason := "Analysis error: " +:+ str_exn e;
          result_timestamp := now' |},
       [(Error, "Error during threat analysis: " +:+ str_exn e)])
  end.

End Analysis.

(** [is_suspicious_extension]: [any(... for ext in ...)] *)
Definition is_suspicious_extension (self : ThreatDetector) (filename : string)
  : bool :=
  let filename_lower := lower filename in
  existsb (fun ext => endswith filename_lower ext) (suspicious_extensions self).

(** The three methods that change the configuration return the object as
    it is afterwards and what they log. *)
Definition update_detection_threshold (self : ThreatDetector)
           (new_threshold : Z) : ThreatDetector * list log_line :=
  ({| detection_threshold := new_threshold;
      time_window_seconds := time_window_seconds self;
      suspicious_extensions := suspicious_extensions self |},
   [(Info, "Detection threshold updated to: " +:+ str_int new_threshold)]).

Definition update_time_window (self : ThreatDetector) (new_window_seconds : Z)
  : ThreatDetector * list log_line :=
  ({| detection_threshold := detection_threshold self;
      time_window_seconds := new_window_seconds;
      suspicious_extensions := suspicious_extensions self |},
   [(Info, "Time window updated to: " +:+ str_int new_window_seconds
           +:+ " seconds")]).

Definition add_suspicious_extension (self : ThreatDetector)
           (extension : string) : ThreatDetector * list log_line :=
  let ext_lower := lower extension in
  if negb (str_in ext_lower (suspicious_extensions self)) then
    ({| detection_threshold := detection_threshold self;
        time_window_seconds := time_window_seconds self;
        suspicious_extensions := suspicious_extensions self ++ [ext_lower] |},
     [(Info, "Added suspicious extension: " +:+ extension)])
  else (self, []).

(** The dict that [get_detection_stats] returns. *)
Record DetectionStats : Type := {
  stats_detection_threshold : Z;
  stats_time_window_seconds : Z;
  stats_suspicious_extensions : list string;
  suspicious_extension_count : Z
}.

Definition get_detection_stats (self : ThreatDetector) : DetectionStats :=
  {| stats_detection_threshold := detection_threshold self;
     stats_time_window_seconds := time_window_seconds self;
     stats_suspicious_extensions := suspicious_extensions self;
     suspicious_extension_count := len (suspicious_extensions self) |}.

End ThreatDetector.

(** ** The operating system as the code uses it *)

Module Os.
Import Py.

(** The system calls behind [Path.exists], [stat], [unlink], [mkdir],
    reading a file and writing one. *)
Inductive io_op : Type :=
  OpExists | OpStat | OpUnlink | OpMkdir | OpRead | OpWrite.

(** Where a line of text goes: [print], or a method of the logger. *)
Inductive sink : Type := Stdout | Logger (level : log_level).

(** The part of the machine that the code reads and writes: the regular
    files under their absolute paths, the working directory, the system
    calls that fail (with the error they raise) and the text written so
    far, oldest line first. *)
Record world : Type := {
  files : gmap string string;
  cwd : string;
  faults : io_op -> string -> option exn;
  output : list (sink * string)
}.

Definition set_files (f : gmap string string) (w : world) : world :=
  {| files := f; cwd := cwd w; faults := faults w; output := output w |}.

Definition add_output (line : sink * string) (w : world) : world :=
  {| files := files w; cwd := cwd w; faults := faults w;
     output := output w ++ [line] |}.

(** [Path(p).absolute()] on a POSIX path in pathlib's normal form. *)
Definition absolute_in (dir p : string) : string :=
  match p with
  | String "/" _ => p
  | _ => dir +:+ "/" +:+ p
  end.

(** [s] cut at the last occurrence of [sep]: what is before, what is
    after. *)
Fixpoint split_last (sep : ascii) (s : string) : option (string * string) :=
  match s with
  | EmptyString => None
  | String c rest =>
      match split_last sep rest with
      | Some (before, after) => Some (String c before, after)
      | None => if Ascii.eqb c sep then Some (EmptyString, rest) else None
      end
  end.

(** [Path(p).name], [.suffix] and [.stem] *)
Definition path_name (p : string) : string :=
  match split_last "/" p with
  | Some (_, n) => n
  | None => p
  end.

Definition path_suffix (p : string) : string :=
  match split_last "." (path_name p) with
  | Some (before, after) =>
      if String.eqb before "" || String.eqb after "" then ""
      else "." +:+ after
  | None => ""
  end.

Definition path_stem (p : string) : string :=
  match split_last "." (path_name p) with
  | Some (before, after) =>
      if String.eqb before "" || String.eqb after "" then path_name p
      else before
  | None => path_name p
  end.

(** *** Computations that read and write a state and may raise *)

Definition M (S A : Type) : Type := S -> (exn + A) * S.

Definition ret {S A} (a : A) : M S A := fun s => (inr a, s).

Definition bind {S A B} (c : M S A) (k : A -> M S B) : M S B :=
  fun s =>
    match c s with
    | (inl e, s') => (inl e, s')
    | (inr a, s') => k a s'
    end.

Definition raise {S A} (e : exn) : M S A := fun s => (inl e, s).

(** [try: c  except Exception as e: handler e] *)
Definition try_except {S A} (c : M S A) (handler : exn -> M S A) : M S A :=
  fun s =>
    match c s with
    | (inl e, s') => handler e s'
    | (inr a, s') => (inr a, s')
    end.

Definition gets {S A} (f : S -> A) : M S A := fun s => (inr (f s), s).

Definition modify {S} (f : S -> S) : M S unit := fun s => (inr tt, f s).

(** A computation on a component of the state. *)
Definition zoom {S T A} (get : T -> S) (set : S -> T -> T) (c : M S A)
  : M T A :=
  fun t => let '(r, s') := c (get t) in (r, set s' t).

(** stdpp's notations [x ← c; k] and [c;; k] are used for sequencing. *)
#[global] Instance M_ret {S} : MRet (M S) := fun A => @ret S A.
#[global] Instance M_bind {S} : MBind (M S) := fun A B k c => @bind S A B c k.

(** *** System calls *)

Definition check_fault (op : io_op) (p : string) : M world unit :=
  fun w =>
    match faults w op p with
    | Some e => (inl e, w)
    | None => (inr tt, w)
    end.

Definition lookup_file (p : string) : M world (option string) :=
  gets (fun w => files w !! absolute_in (cwd w) p).

Definition no_such_file {A} (p : string) : M world A :=
  raise (FileNotFoundError
           ("[Errno 2] No such file or directory: '" +:+ p +:+ "'")).

(** [Path(p).exists()] *)
Definition path_exists (p : string) : M world bool :=
  check_fault OpExists p;;
  f ← lookup_file p;
  ret (match f with Some _ => true | None => false end).

(** [Path(p).stat().st_size] *)
Definition stat_size (p : string) : M world Z :=
  check_fault OpStat p;;
  f ← lookup_file p;
  match f with
  | Some content => ret (Z.of_nat (String.length content))
  | None => no_such_file p
  end.

(** [open(p, "rb")] read to its end. *)
Definition read_file (p : string) : M world string :=
  check_fault OpRead p;;
  f ← lookup_file p;
  match f with
  | Some content => ret content
  | None => no_such_file p
  end.

Definition write_file (p content : string) : M world unit :=
  check_fault OpWrite p;;
  modify (fun w => set_files (<[absolute_in (cwd w) p := content]> (files w)) w).

(** [shutil.copy2(src, dst)] *)
Definition copy2 (src dst : string) : M world unit :=
  content ← read_file src;
  write_file dst content.

(** [Path(p).unlink()] *)
Definition unlink (p : string) : M world unit :=
  check_fault OpUnlink p;;
  f ← lookup_file p;
  match f with
  | Some _ =>
      modify (fun w => set_files (delete (absolute_in (cwd w) p) (files w)) w)
  | None => no_such_file p
  end.

(** [Path(p).parent.mkdir(parents=True, exist_ok=True)]; directories are
    not part of [files]. *)
Definition mkdir_parent (p : string) : M world unit :=
  check_fault OpMkdir p.

Definition write_line (to : sink) (text : string) : M world unit :=
  modify (add_output (to, text)).

(** [os.path.exists] and [os.path.isfile] answer [False] when the system
    call fails; the files of the model are all regular files. *)
Definition os_path_exists (p : string) : M world bool :=
  fun w =>
    (inr match faults w OpExists p with
         | Some _ => false
         | None =>
             match files w !! absolute_in (cwd w) p with
             | Some _ => true
             | None => false
             end
         end, w).

Definition os_path_isfile (p : string) : M world bool := os_path_exists p.

(** [os.path.getsize] *)
Definition os_path_getsize (p : string) : M world Z := stat_size p.

End Os.

(** ** file_monitor.py: the ledger of recent events

    The observer thread of [watchdog] is left out; what is embedded is what
    its callbacks do to the list of recent events. *)

Module FileSystemMonitor.
Import Py Os FileMonitor.

Record FileSystemMonitor : Type := {
  monitored_directory : string;
  is_monitoring : bool;
  recent_events : list FileEvent
}.

Record state : Type := { machine : world; self : FileSystemMonitor }.

Definition set_machine (w : world) (s : state) : state :=
  {| machine := w; self := self s |}.

Definition set_recent_events (l : list FileEvent) (s : state) : state :=
  {| machine := machine s;
     self := {| monitored_directory := monitored_directory (self s);
                is_monitoring := is_monitoring (self s);
                recent_events := l |} |}.

Definition io {A} (c : M world A) : M state A := zoom machine set_machine c.

Definition log (level : log_level) (message : string) : M state unit :=
  io (write_line (Logger level) message).

(** [Logger.log_file_event] *)
Definition log_file_event (event_type file_path details : string)
  : M state unit :=
  let message := "FILE_EVENT: " +:+ event_type +:+ " - " +:+ file_path in
  let message :=
    if String.eqb details "" then message
    else message +:+ " - " +:+ details in
  log Info message.

(** [add_file_event]; [now] is the clock reading stored in the event,
    [now'] the later one from which the cutoff is taken. *)
Definition add_file_event (now now' : Z) (event_type file_path : string)
  : M state unit :=
  try_except
    (found ← io (os_path_exists file_path);
     regular ← (if found : bool then io (os_path_isfile file_path)
                else ret false);
     file_size ← (if found && regular then io (os_path_getsize file_path)
                  else ret 0);
     let file_event :=
       {| timestamp := now; file_path := file_path;
          event_type := event_type; file_size := file_size |} in
     modify (fun s =>
               set_recent_events (recent_events (self s) ++ [file_event]) s);;
     let cutoff_time := now' - timedelta_seconds 60 in
     modify (fun s =>
               set_recent_events
                 (List.filter (fun event => cutoff_time <? timestamp event)
                              (recent_events (self s))) s);;
     log_file_event event_type file_path
       ("Size: " +:+ str_int file_size +:+ " bytes"))
    (fun e => log Error ("Error processing file event: " +:+ str_exn e)).

(** [get_recent_events] and [get_modification_count] read the list. *)
Definition get_recent_events (self : FileSystemMonitor) (now seconds : Z)
  : list FileEvent :=
  let cutoff_time := now - timedelta_seconds seconds in
  List.filter (fun event => cutoff_time <? timestamp event)
              (recent_events self).

Definition get_modification_count (self : FileSystemMonitor)
           (now seconds : Z) : Z :=
  let recent := get_recent_events self now seconds in
  len (List.filter (fun event => String.eqb (event_type event) "modified")
                   recent).

Definition get_monitored_directory (self : FileSystemMonitor) : string :=
  monitored_directory self.

(** *** FileEventHandler *)

(** What [watchdog] hands to the callbacks. *)
Record FileSystemEvent : Type := {
  is_directory : bool;
  src_path : string;
  dest_path : string
}.

Section Handler.

(** Whether [set_monitor] has been called. *)
Variable has_monitor : bool.

Definition on_event (label kind : string) (logged path : string)
           (now now' : Z) (event : FileSystemEvent) : M state unit :=
  if negb (is_directory event) then
    log Debug (label +:+ logged);;
    if has_monitor then add_file_event now now' kind path else ret tt
  else ret tt.

Definition on_modified (now now' : Z) (event : FileSystemEvent)
  : M state unit :=
  on_event "File modified: " "modified" (src_path event) (src_path event)
           now now' event.

Definition on_created (now now' : Z) (event : FileSystemEvent)
  : M state unit :=
  on_event "File created: " "created" (src_path event) (src_path event)
           now now' event.

Definition on_deleted (now now' : Z) (event : FileSystemEvent)
  : M state unit :=
  on_event "File deleted: " "deleted" (src_path event) (src_path event)
           now now' event.

Definition on_moved (now now' : Z) (event : FileSystemEvent)
  : M state unit :=
  on_event "File moved: " "moved"
           (src_path event +:+ " -> " +:+ dest_path event) (dest_path event)
           now now' event.

End Handler.

End FileSystemMonitor.

(** ** backup_manager.py *)

Module BackupManager.
Import Py Os.

Record BackupRecord : Type := {
  original_path : string;
  backup_path : string;
  timestamp : Z;
  file_size : Z
}.

(** The object: [backup_records] is the dict from the absolute path of an
    original to the list of its records. *)
Record BackupManager : Type := {
  backup_directory : string;
  retention_count : Z;
  backup_records : gmap string (list BackupRecord)
}.

(** The object and the machine it runs on. *)
Record state : Type := { machine : world; self : BackupManager }.

Definition set_machine (w : world) (s : state) : state :=
  {| machine := w; self := self s |}.

Definition set_records (r : gmap string (list BackupRecord)) (s : state)
  : state :=
  {| machine := machine s;
     self := {| backup_directory := backup_directory (self s);
                retention_count := retention_count (self s);
                backup_records := r |} |}.

Definition io {A} (c : M world A) : M state A := zoom machine set_machine c.

Definition print (text : string) : M state unit := io (write_line Stdout text).

Definition absolute (p : string) : M state string :=
  gets (fun s => absolute_in (cwd (machine s)) p).

(** [__init__]; creating the backup directory leaves [files] as it is. *)
Definition init (directory : string) (retention : Z) : BackupManager :=
  {| backup_directory := directory;
     retention_count := retention;
     backup_records := ∅ |}.

(** [sort(key=lambda x: x.timestamp, reverse=True)]: the stable sort, which
    with [reverse=True] still keeps records of one timestamp in the order
    they had. *)
Fixpoint insert_newest_first (x : BackupRecord) (l : list BackupRecord)
  : list BackupRecord :=
  match l with
  | [] => [x]
  | y :: rest =>
      if timestamp y <=? timestamp x then x :: y :: rest
      else y :: insert_newest_first x rest
  end.

Fixpoint sort_newest_first (l : list BackupRecord) : list BackupRecord :=
  match l with
  | [] => []
  | x :: rest => insert_newest_first x (sort_newest_first rest)
  end.

(** The loop of [_cleanup_old_backups] over the excess records; a failing
    removal is printed and the loop goes on. *)
Fixpoint remove_excess (excess_records : list BackupRecord)
         (removed_count : Z) : M state Z :=
  match excess_records with
  | [] => ret removed_count
  | record :: rest =>
      removed_count' ←
        try_except
          (found ← io (path_exists (backup_path record));
           if found : bool then
             io (unlink (backup_path record));;
             ret (removed_count + 1)
           else ret removed_count)
          (fun e =>
             print ("Error removing old backup " +:+ backup_path record
                    +:+ ": " +:+ str_exn e);;
             ret removed_count);
      remove_excess rest removed_count'
  end.

Definition _cleanup_old_backups (original_file : string) : M state Z :=
  known ← gets (fun s => backup_records (self s) !! original_file);
  match known with
  | None => ret 0
  | Some unsorted =>
      (* records.sort(...) sorts the list that the dict holds *)
      let records := sort_newest_first unsorted in
      modify (fun s =>
                set_records (<[original_file := records]>
                               (backup_records (self s))) s);;
      retention ← gets (fun s => retention_count (self s));
      if len records <=? retention then ret 0
      else
        let excess_records := slice_from records retention in
        removed_count ← remove_excess excess_records 0;
        modify (fun s =>
                  set_records (<[original_file := slice_to records retention]>
                                 (backup_records (self s))) s);;
        ret removed_count
  end.

Section CreateBackup.

(** [t.strftime("%Y%m%d_%H%M%S_%f")[:-3]], the calendar rendering of a clock
    reading down to the millisecond. *)
Variable strftime_ms : Z -> string.

(** The [try] block of [create_backup]; [now] is the clock reading. *)
Definition create_backup_body (now : Z) (file_path : string)
  : M state BackupRecord :=
  let source_path := file_path in
  found ← io (path_exists source_path);
  if negb found then
    raise (FileNotFoundError ("Source file does not exist: " +:+ file_path))
  else
    let timestamp := now in
    let timestamp_str := strftime_ms timestamp in
    let backup_filename :=
      path_stem source_path +:+ "_" +:+ timestamp_str
      +:+ path_suffix source_path in
    directory ← gets (fun s => backup_directory (self s));
    let backup_path := directory +:+ "/" +:+ backup_filename in
    io (copy2 source_path backup_path);;
    file_size ← io (stat_size source_path);
    source_absolute ← absolute source_path;
    backup_absolute ← absolute backup_path;
    let backup_record :=
      {| original_path := source_absolute;
         backup_path := backup_absolute;
         timestamp := timestamp;
         file_size := file_size |} in
    let original_key := source_absolute in
    modify (fun s =>
              let records := backup_records (self s) in
              let present := default [] (records !! original_key) in
              set_records (<[original_key := present ++ [backup_record]]>
                             records) s);;
    _cleanup_old_backups original_key;;
    ret backup_record.

(** [create_backup]: [None] is the failure result. *)
Definition create_backup (now : Z) (file_path : string)
  : M state (option BackupRecord) :=
  try_except
    (backup_record ← create_backup_body now file_path;
     ret (Some backup_record))
    (fun e =>
       print ("Error creating backup for " +:+ file_path +:+ ": "
              +:+ str_exn e);;
       ret None).

End CreateBackup.

(** [list_backups] and [get_latest_backup] read the object only. *)
Definition list_backups (original_file : string) : M state (list BackupRecord) :=
  original_key ← absolute original_file;
  known ← gets (fun s => backup_records (self s) !! original_key);
  match known with
  | Some records => ret (sort_newest_first records)
  | None => ret []
  end.

Definition get_latest_backup (original_file : string)
  : M state (option BackupRecord) :=
  backups ← list_backups original_file;
  ret (head backups).

Section Iteration.

(** A dict is iterated in the order in which its keys were inserted, which
    the map does not keep; the order is a parameter. *)
Variable dict_items :
  gmap string (list BackupRecord) -> list (string * list BackupRecord).

(** [verify_backup]; the search through the records stops at the first one
    with the path. *)
Definition verify_backup (path : string) : M state bool :=
  try_except
    (let backup_file := path in
     found ← io (path_exists backup_file);
     if negb found then ret false
     else
       all_records ←
         gets (fun s =>
                 concat (map snd (dict_items (backup_records (self s)))));
       match List.find (fun record => String.eqb (backup_path record) path)
                       all_records with
       | Some record =>
           actual_size ← io (stat_size backup_file);
           ret (actual_size =? file_size record)
       | None =>
           size ← io (stat_size backup_file);
           ret (0 <? size)
       end)
    (fun e =>
       print ("Error verifying backup " +:+ path +:+ ": " +:+ str_exn e);;
       ret false).

(** The loop of [cleanup_old_backups] over the keys that the dict had when
    the loop began. *)
Fixpoint cleanup_each (keys : list string) (removed_count : Z) : M state Z :=
  match keys with
  | [] => ret removed_count
  | original_file :: rest =>
      n ← _cleanup_old_backups original_file;
      cleanup_each rest (removed_count + n)
  end.

Definition cleanup_old_backups : M state Z :=
  keys ← gets (fun s => map fst (dict_items (backup_records (self s))));
  cleanup_each keys 0.

(** The dict that [get_backup_statistics] returns. *)
Record BackupStatistics : Type := {
  total_files_backed_up : Z;
  total_backup_versions : Z;
  total_backup_size_bytes : Z;
  stats_backup_directory : string;
  stats_retention_count : Z
}.

(** The loops that add up the sizes; an error on a file is passed over. *)
Fixpoint add_sizes (records : list BackupRecord) (total_size : Z)
  : M state Z :=
  match records with
  | [] => ret total_size
  | record :: rest =>
      total_size' ←
        try_except
          (found ← io (path_exists (backup_path record));
           if found : bool then
             size ← io (stat_size (backup_path record));
             ret (total_size + size)
           else ret total_size)
          (fun _ => ret total_size);
      add_sizes rest total_size'
  end.

Definition get_backup_statistics : M state BackupStatistics :=
  items ← gets (fun s => dict_items (backup_records (self s)));
  let total_files := len items in
  let total_backups :=
    fold_left Z.add (map (fun item => len (snd item)) items) 0 in
  total_size ← add_sizes (concat (map snd items)) 0;
  directory ← gets (fun s => backup_directory (self s));
  retention ← gets (fun s => retention_count (self s));
  ret {| total_files_backed_up := total_files;
         total_backup_versions := total_backups;
         total_backup_size_bytes := total_size;
         stats_backup_directory := directory;
         stats_retention_count := retention |}.

End Iteration.

End BackupManager.

(** ** recovery_engine.py *)

Module RecoveryEngine.
Import Py Os.
Import BackupManager (BackupRecord, backup_path, file_size, timestamp).

Record RecoveryResult : Type := {
  file_path : string;
  success : bool;
  backup_used : option string;
  error_message : option string;
  verification_passed : bool
}.

(** The dict [recovery_stats]. *)
Record RecoveryStats : Type := {
  total_attempts : Z;
  successful_recoveries : Z;
  failed_recoveries : Z;
  files_recovered : list string
}.

(** The object: whether a logger was given, and the counters. The backup
    manager it refers to is part of the state below. *)
Record RecoveryEngine : Type := {
  has_logger : bool;
  recovery_stats : RecoveryStats
}.

Record state : Type := {
  backup_manager : BackupManager.state;
  self : RecoveryEngine
}.

Definition set_backup_manager (b : BackupManager.state) (s : state) : state :=
  {| backup_manager := b; self := self s |}.

Definition set_stats (r : RecoveryStats) (s : state) : state :=
  {| backup_manager := backup_manager s;
     self := {| has_logger := has_logger (self s); recovery_stats := r |} |}.

Definition init (logger : bool) : RecoveryEngine :=
  {| has_logger := logger;
     recovery_stats := {| total_attempts := 0; successful_recoveries := 0;
                          failed_recoveries := 0; files_recovered := [] |} |}.

(** Calls into the backup manager and, through it, into the machine. *)
Definition manager {A} (c : M BackupManager.state A) : M state A :=
  zoom backup_manager set_backup_manager c.

Definition io {A} (c : M world A) : M state A := manager (BackupManager.io c).

Definition log_with (level : log_level) (prefix message : string)
  : M state unit :=
  logger ← gets (fun s => has_logger (self s));
  if logger : bool
  then io (write_line (Logger level) ("[RecoveryEngine] " +:+ message))
  else io (write_line Stdout (prefix +:+ message)).

Definition _log_info : string -> M state unit := log_with Info "INFO: ".
Definition _log_warning : string -> M state unit := log_with Warning "WARNING: ".
Definition _log_error : string -> M state unit := log_with Error "ERROR: ".

Definition incr_total_attempts : M state unit :=
  modify (fun s =>
    let r := recovery_stats (self s) in
    set_stats {| total_attempts := total_attempts r + 1;
                 successful_recoveries := successful_recoveries r;
                 failed_recoveries := failed_recoveries r;
                 files_recovered := files_recovered r |} s).

Definition incr_failed_recoveries : M state unit :=
  modify (fun s =>
    let r := recovery_stats (self s) in
    set_stats {| total_attempts := total_attempts r;
                 successful_recoveries := successful_recoveries r;
                 failed_recoveries := failed_recoveries r + 1;
                 files_recovered := files_recovered r |} s).

Definition record_success (path : string) : M state unit :=
  modify (fun s =>
    let r := recovery_stats (self s) in
    set_stats {| total_attempts := total_attempts r;
                 successful_recoveries := successful_recoveries r + 1;
                 failed_recoveries := failed_recoveries r;
                 files_recovered := files_recovered r ++ [path] |} s).

Section Restore.

(** [hashlib.sha256(content).hexdigest()] *)
Variable sha256 : string -> string.

(** The file is read in chunks of 4096 bytes, all of them fed to one
    digest: the digest of the whole content. *)
Definition _calculate_file_hash (path : string) : M state string :=
  content ← io (read_file path);
  ret (sha256 content).

Definition _verify_file_hash (file1_path file2_path : string) : M state bool :=
  try_except
    (hash1 ← _calculate_file_hash file1_path;
     hash2 ← _calculate_file_hash file2_path;
     ret (String.eqb hash1 hash2))
    (fun e =>
       _log_warning ("Error calculating file hashes: " +:+ str_exn e);;
       ret false).

Definition verify_restoration (path : string) (backup_record : BackupRecord)
  : M state bool :=
  try_except
    (found ← io (path_exists path);
     if negb found then
       _log_error ("Restored file does not exist: " +:+ path);;
       ret false
     else
       actual_size ← io (stat_size path);
       if negb (actual_size =? file_size backup_record) then
         _log_error ("Size mismatch for " +:+ path +:+ ": expected "
                     +:+ str_int (file_size backup_record) +:+ ", got "
                     +:+ str_int actual_size);;
         ret false
       else
         same ← _verify_file_hash path (backup_path backup_record);
         if same : bool then
           _log_info ("File integrity verification passed for " +:+ path);;
           ret true
         else
           _log_warning ("Hash verification failed for " +:+ path
                         +:+ ", but size matches");;
           ret true)
    (fun e =>
       _log_error ("Error verifying restoration of " +:+ path +:+ ": "
                   +:+ str_exn e);;
       ret false).

Definition _attempt_restore_from_backup (path : string)
           (backup_record : BackupRecord) (verify_integrity : bool)
  : M state RecoveryResult :=
  try_except
    (let target_path := path in
     found ← io (path_exists (backup_path backup_record));
     if negb found then
       ret {| file_path := path; success := false;
              backup_used := Some (backup_path backup_record);
              error_message :=
                Some ("Backup file does not exist: "
                      +:+ backup_path backup_record);
              verification_passed := false |}
     else
       io (mkdir_parent target_path);;
       io (copy2 (backup_path backup_record) target_path);;
       passed ←
         (if verify_integrity then verify_restoration path backup_record
          else ret true);
       ret {| file_path := path; success := true;
              backup_used := Some (backup_path backup_record);
              error_message := None;
              verification_passed := passed |})
    (fun e =>
       ret {| file_path := path; success := false;
              backup_used := Some (backup_path backup_record);
              error_message :=
                Some ("Error during restoration: " +:+ str_exn e);
              verification_passed := false |}).

(** [for backup_record in fallback_backups], left by [return] at the first
    success; [None] when the loop runs to its end. *)
Fixpoint try_each (path : string) (fallback_backups : list BackupRecord)
         (verify_integrity : bool) : M state (option RecoveryResult) :=
  match fallback_backups with
  | [] => ret None
  | backup_record :: rest =>
      _log_info ("Trying fallback backup: " +:+ backup_path backup_record);;
      result ← _attempt_restore_from_backup path backup_record
                 verify_integrity;
      if success result then
        _log_info ("Fallback restoration successful using backup from "
                   +:+ str_int (timestamp backup_record));;
        ret (Some result)
      else try_each path rest verify_integrity
  end.

Definition _try_fallback_backups (path : string) (verify_integrity : bool)
  : M state RecoveryResult :=
  all_backups ← manager (BackupManager.list_backups path);
  let fallback_backups :=
    if 1 <? len all_backups then slice_from all_backups 1 else [] in
  match fallback_backups with
  | [] =>
      ret {| file_path := path; success := false; backup_used := None;
             error_message := Some "No fallback backups available";
             verification_passed := false |}
  | _ :: _ =>
      found ← try_each path fallback_backups verify_integrity;
      match found with
      | Some result => ret result
      | None =>
          ret {| file_path := path; success := false; backup_used := None;
                 error_message :=
                   Some "All backup restoration attempts failed";
                 verification_passed := false |}
      end
  end.

Definition restore_file (path : string) (verify_integrity : bool)
  : M state RecoveryResult :=
  incr_total_attempts;;
  try_except
    (latest_backup ← manager (BackupManager.get_latest_backup path);
     match latest_backup with
     | None =>
         let error_msg := "No backup found for file: " +:+ path in
         _log_error error_msg;;
         incr_failed_recoveries;;
         ret {| file_path := path; success := false; backup_used := None;
                error_message := Some error_msg;
                verification_passed := false |}
     | Some latest =>
         first ← _attempt_restore_from_backup path latest verify_integrity;
         result ←
           (if negb (success first) then
              _log_warning ("Latest backup restoration failed for " +:+ path
                            +:+ ", trying previous versions");;
              _try_fallback_backups path verify_integrity
            else ret first);
         (if success result then
            record_success path;;
            _log_info ("Successfully restored " +:+ path +:+ " from backup "
                       +:+ default "None" (backup_used result))
          else
            incr_failed_recoveries;;
            _log_error ("Failed to restore " +:+ path +:+ ": "
                        +:+ default "None" (error_message result)));;
         ret result
     end)
    (fun e =>
       let error_msg :=
         "Unexpected error during restoration of " +:+ path +:+ ": "
         +:+ str_exn e in
       _log_error error_msg;;
       incr_failed_recoveries;;
       ret {| file_path := path; success := false; backup_used := None;
              error_message := Some error_msg;
              verification_passed := false |}).

(** The loop of [restore_multiple]. *)
Fixpoint restore_each (file_list : list string) (verify_integrity : bool)
         (results : list RecoveryResult) : M state (list RecoveryResult) :=
  match file_list with
  | [] => ret results
  | path :: rest =>
      result ← restore_file path verify_integrity;
      restore_each rest verify_integrity (results ++ [result])
  end.

Definition restore_multiple (file_list : list string)
           (verify_integrity : bool) : M state (list RecoveryResult) :=
  _log_info ("Starting batch restoration of " +:+ str_int (len file_list)
             +:+ " files");;
  results ← restore_each file_list verify_integrity [];
  let successful := len (List.filter success results) in
  let failed := len results - successful in
  _log_info ("Batch restoration completed: " +:+ str_int successful
             +:+ " successful, " +:+ str_int failed +:+ " failed");;
  ret results.

End Restore.

End RecoveryEngine.

(** ** automated_response.py: what is done when a threat is found

    The thread, its lock and its stop event are left out: the functions
    below are those that run in one turn of the monitoring loop. The
    engine and the orchestrator share one backup manager, as [main.py]
    wires them. *)

Module AutomatedResponseSystem.
Import Py Os.

Record ResponseAction : Type := {
  timestamp : Z;
  action_type : string;
  file_path : string;
  success : bool;
  details : string;
  threat_score : Z
}.

(** The dict [stats]; [None] in [response_success_rate] stands for an
    infinity. *)
Record ResponseStats : Type := {
  total_threats_detected : Z;
  automatic_backups_created : Z;
  automatic_recoveries_performed : Z;
  response_success_rate : option float;
  last_threat_detection : option Z;
  last_response_action : option Z
}.

Record AutomatedResponseSystem : Type := {
  response_threshold : Z;
  response_actions : list ResponseAction;
  stats : ResponseStats
}.

(** The object, the recovery engine with the backup manager and the
    machine, and the number of clock readings taken so far. *)
Record state : Type := {
  engine : RecoveryEngine.state;
  self : AutomatedResponseSystem;
  ticks : nat
}.

Definition set_engine (e : RecoveryEngine.state) (s : state) : state :=
  {| engine := e; self := self s; ticks := ticks s |}.

Definition set_self (a : AutomatedResponseSystem) (s : state) : state :=
  {| engine := engine s; self := a; ticks := ticks s |}.

Definition set_response_threshold (n : Z) (s : state) : state :=
  set_self {| response_threshold := n;
              response_actions := response_actions (self s);
              stats := stats (self s) |} s.

Definition set_response_actions (l : list ResponseAction) (s : state)
  : state :=
  set_self {| response_threshold := response_threshold (self s);
              response_actions := l;
              stats := stats (self s) |} s.

Definition set_stats (r : ResponseStats) (s : state) : state :=
  set_self {| response_threshold := response_threshold (self s);
              response_actions := response_actions (self s);
              stats := r |} s.

(** [__init__] *)
Definition init (threshold : Z) : AutomatedResponseSystem :=
  {| response_threshold := threshold;
     response_actions := [];
     stats := {| total_threats_detected := 0;
                 automatic_backups_created := 0;
                 automatic_recoveries_performed := 0;
                 response_success_rate := Some {| mant := 0; expo := 0 |};
                 last_threat_detection := None;
                 last_response_action := None |} |}.

Definition recovery {A} (c : M RecoveryEngine.state A) : M state A :=
  zoom engine set_engine c.

Definition manager {A} (c : M BackupManager.state A) : M state A :=
  recovery (RecoveryEngine.manager c).

Definition io {A} (c : M world A) : M state A := recovery (RecoveryEngine.io c).

(** The methods of [self.logger]. *)
Definition log (level : log_level) (message : string) : M state unit :=
  io (write_line (Logger level) message).

Definition incr_total_threats_detected : M state unit :=
  modify (fun s =>
    let r := stats (self s) in
    set_stats {| total_threats_detected := total_threats_detected r + 1;
                 automatic_backups_created := automatic_backups_created r;
                 automatic_recoveries_performed :=
                   automatic_recoveries_performed r;
                 response_success_rate := response_success_rate r;
                 last_threat_detection := last_threat_detection r;
                 last_response_action := last_response_action r |} s).

Definition incr_automatic_backups_created : M state unit :=
  modify (fun s =>
    let r := stats (self s) in
    set_stats {| total_threats_detected := total_threats_detected r;
                 automatic_backups_created := automatic_backups_created r + 1;
                 automatic_recoveries_performed :=
                   automatic_recoveries_performed r;
                 response_success_rate := response_success_rate r;
                 last_threat_detection := last_threat_detection r;
                 last_response_action := last_response_action r |} s).

Definition incr_automatic_recoveries_performed : M state unit :=
  modify (fun s =>
    let r := stats (self s) in
    set_stats {| total_threats_detected := total_threats_detected r;
                 automatic_backups_created := automatic_backups_created r;
                 automatic_recoveries_performed :=
                   automatic_recoveries_performed r + 1;
                 response_success_rate := response_success_rate r;
                 last_threat_detection := last_threat_detection r;
                 last_response_action := last_response_action r |} s).

Definition set_response_success_rate (rate : option float) : M state unit :=
  modify (fun s =>
    let r := stats (self s) in
    set_stats {| total_threats_detected := total_threats_detected r;
                 automatic_backups_created := automatic_backups_created r;
                 automatic_recoveries_performed :=
                   automatic_recoveries_performed r;
                 response_success_rate := rate;
                 last_threat_detection := last_threat_detection r;
                 last_response_action := last_response_action r |} s).

Definition set_last_threat_detection (t : Z) : M state unit :=
  modify (fun s =>
    let r := stats (self s) in
    set_stats {| total_threats_detected := total_threats_detected r;
                 automatic_backups_created := automatic_backups_created r;
                 automatic_recoveries_performed :=
                   automatic_recoveries_performed r;
                 response_success_rate := response_success_rate r;
                 last_threat_detection := Some t;
                 last_response_action := last_response_action r |} s).

Definition set_last_response_action (t : Z) : M state unit :=
  modify (fun s =>
    let r := stats (self s) in
    set_stats {| total_threats_detected := total_threats_detected r;
                 automatic_backups_created := automatic_backups_created r;
                 automatic_recoveries_performed :=
                   automatic_recoveries_performed r;
                 response_success_rate := response_success_rate r;
                 last_threat_detection := last_threat_detection r;
                 last_response_action := Some t |} s).

(** [update_response_threshold] *)
Definition update_response_threshold (new_threshold : Z) : M state unit :=
  if (0 <=? new_threshold) && (new_threshold <=? 100) then
    modify (set_response_threshold new_threshold);;
    log Info ("Response threshold updated to: " +:+ str_int new_threshold)
  else
    log Error ("Invalid response threshold: " +:+ str_int new_threshold
               +:+ ". Must be between 0-100").

Section Response.

(** [clock k] is what the call number [k] of [datetime.now()] returns. *)
Variable clock : nat -> Z.

Variable strftime_ms : Z -> string.
Variable sha256 : string -> string.

(** The order of [list(set(...))] in the detector. *)
Variable list_of_set : list string -> list string.

(** What [file_monitor.is_active()] answers: the state of another
    thread. *)
Variable file_monitor_is_active : bool.

Definition datetime_now : M state Z :=
  fun s =>
    (inr (clock (ticks s)),
     {| engine := engine s; self := self s; ticks := S (ticks s) |}).

Definition _log_response_action (action_type file_path : string)
           (success : bool) (details : string) (threat_score : Z)
  : M state unit :=
  now ← datetime_now;
  let response_action :=
    {| timestamp := now; action_type := action_type;
       file_path := file_path; success := success; details := details;
       threat_score := threat_score |} in
  modify (fun s =>
            set_response_actions
              (response_actions (self s) ++ [response_action]) s);;
  set_last_response_action (timestamp response_action);;
  let log_message :=
    "AUTOMATED_RESPONSE: " +:+ upper action_type +:+ " - " +:+ file_path
    +:+ " - " +:+ (if success then "SUCCESS" else "FAILED") +:+ " - "
    +:+ details in
  if String.eqb action_type "alert" then log Warning log_message
  else if success then log Info log_message
  else log Error log_message.

(** [_update_response_statistics] *)
Definition _update_response_statistics : M state unit :=
  actions ← gets (fun s => response_actions (self s));
  match actions with
  | [] => ret tt
  | _ :: _ =>
      let successful_actions := len (List.filter success actions) in
      match truediv successful_actions (len actions) with
      | inl e => raise e
      | inr quotient =>
          set_response_success_rate (float_mul quotient (float_of_int 100))
      end
  end.

(** The loop of [_create_emergency_backups]. A clock reading is drawn for
    each call of [create_backup]; nothing that follows the count of a
    success in the [try] block raises. *)
Fixpoint backup_each (affected_files : list string) (threat_score : Z)
         (backup_success_count : Z) : M state Z :=
  match affected_files with
  | [] => ret backup_success_count
  | path :: rest =>
      backup_success_count' ←
        try_except
          (found ← io (os_path_exists path);
           regular ← (if found : bool then io (os_path_isfile path)
                      else ret false);
           if found && regular then
             now ← datetime_now;
             backup_record ←
               manager (BackupManager.create_backup strftime_ms now path);
             match backup_record with
             | Some record =>
                 incr_automatic_backups_created;;
                 log Info ("Emergency backup created: " +:+ path +:+ " -> "
                           +:+ BackupManager.backup_path record);;
                 _log_response_action "backup" path true
                   ("Emergency backup created: "
                    +:+ BackupManager.backup_path record) threat_score;;
                 ret (backup_success_count + 1)
             | None =>
                 log Error ("Failed to create emergency backup for: "
                            +:+ path);;
                 _log_response_action "backup" path false
                   "Emergency backup creation failed" threat_score;;
                 ret backup_success_count
             end
           else
             log Warning ("Cannot backup file (not accessible): " +:+ path);;
             ret backup_success_count)
          (fun e =>
             log Error ("Error creating emergency backup for " +:+ path
                        +:+ ": " +:+ str_exn e);;
             _log_response_action "backup" path false
               ("Backup error: " +:+ str_exn e) threat_score;;
             ret backup_success_count);
      backup_each rest threat_score backup_success_count'
  end.

Definition _create_emergency_backups (affected_files : list string)
           (threat_score : Z) : M state unit :=
  log Info ("Creating emergency backups for "
            +:+ str_int (len affected_files) +:+ " affected files");;
  backup_success_count ← backup_each affected_files threat_score 0;
  log Info ("Emergency backup completed: " +:+ str_int backup_success_count
            +:+ "/" +:+ str_int (len affected_files) +:+ " files backed up").

(** The loop of [_trigger_automated_recovery] over the results. *)
Fixpoint process_results (recovery_results : list RecoveryEngine.RecoveryResult)
         (threat_score : Z) (recovery_success_count : Z) : M state Z :=
  match recovery_results with
  | [] => ret recovery_success_count
  | result :: rest =>
      recovery_success_count' ←
        (if RecoveryEngine.success result then
           incr_automatic_recoveries_performed;;
           log Info ("Automated recovery successful: "
                     +:+ RecoveryEngine.file_path result);;
           _log_response_action "recovery" (RecoveryEngine.file_path result)
             true
             ("Recovered from: "
              +:+ default "None" (RecoveryEngine.backup_used result))
             threat_score;;
           ret (recovery_success_count + 1)
         else
           log Error ("Automated recovery failed: "
                      +:+ RecoveryEngine.file_path result +:+ " - "
                      +:+ default "None" (RecoveryEngine.error_message result));;
           _log_response_action "recovery" (RecoveryEngine.file_path result)
             false
             ("Recovery failed: "
              +:+ default "None" (RecoveryEngine.error_message result))
             threat_score;;
           ret recovery_success_count);
      process_results rest threat_score recovery_success_count'
  end.

Definition _trigger_automated_recovery (affected_files : list string)
           (threat_score : Z) : M state unit :=
  log Critical ("AUTOMATED RECOVERY INITIATED for "
                +:+ str_int (len affected_files) +:+ " files");;
  let was_monitoring := file_monitor_is_active in
  (if was_monitoring
   then log Info "Temporarily stopping file monitoring during recovery"
   else ret tt);;
  try_except
    (recovery_results ←
       recovery (RecoveryEngine.restore_multiple sha256 affected_files true);
     recovery_success_count ← process_results recovery_results threat_score 0;
     log Critical ("AUTOMATED RECOVERY COMPLETED: "
                   +:+ str_int recovery_success_count +:+ "/"
                   +:+ str_int (len affected_files) +:+ " files recovered");;
     if recovery_success_count =? len affected_files then
       log Info "All files successfully recovered from automated response"
     else if 0 <? recovery_success_count then
       log Warning ("Partial recovery: " +:+ str_int recovery_success_count
                    +:+ " of " +:+ str_int (len affected_files)
                    +:+ " files recovered")
     else log Error "Automated recovery failed for all files")
    (fun e =>
       log Error ("Error during automated recovery: " +:+ str_exn e);;
       _log_response_action "recovery" "batch_recovery" false
         ("Recovery error: " +:+ str_exn e) threat_score);;
  (* finally *)
  (if was_monitoring
   then log Info "Resuming file monitoring after recovery"
   else ret tt);;
  _update_response_statistics.

Definition _handle_threat_detection
           (detection_result : ThreatDetector.DetectionResult)
  : M state unit :=
  let score := ThreatDetector.threat_score detection_result in
  let affected := ThreatDetector.affected_files detection_result in
  let reason := ThreatDetector.detection_reason detection_result in
  incr_total_threats_detected;;
  set_last_threat_detection
    (ThreatDetector.result_timestamp detection_result);;
  log Warning ("AUTOMATED RESPONSE TRIGGERED - Threat Score: "
               +:+ str_int score);;
  log Warning ("Threat Reason: " +:+ reason);;
  log Warning ("Affected Files: " +:+ str_int (len affected));;
  _log_response_action "alert" "system" true
    ("Threat detected: " +:+ reason) score;;
  _create_emergency_backups affected score;;
  threshold ← gets (fun s => response_threshold (self s));
  if threshold <=? score then
    log Critical ("Threat score " +:+ str_int score
                  +:+ " exceeds recovery threshold " +:+ str_int threshold);;
    log Critical "INITIATING AUTOMATED RECOVERY";;
    _trigger_automated_recovery affected score
  else
    log Warning ("Threat score " +:+ str_int score
                 +:+ " below recovery threshold " +:+ str_int threshold);;
    log Warning "Automated recovery not triggered - monitoring continues".

(** The lines that the detector logs. *)
Fixpoint emit (lines : list ThreatDetector.log_line) : M state unit :=
  match lines with
  | [] => ret tt
  | (level, text) :: rest => log level text;; emit rest
  end.

(** One turn of [_monitoring_loop], the sleep left out. The ledger of the
    monitor is read as it is at that moment. *)
Definition monitoring_turn (threat_detector : ThreatDetector.ThreatDetector)
           (file_monitor : FileSystemMonitor.FileSystemMonitor)
  : M state unit :=
  try_except
    (now ← datetime_now;
     let recent_events :=
       FileSystemMonitor.get_recent_events file_monitor now 10 in
     match recent_events with
     | [] => ret tt
     | _ :: _ =>
         now_filter ← datetime_now;
         now_result ← datetime_now;
         let '(detection_result, lines) :=
           ThreatDetector.analyze_events threat_detector list_of_set
             now_filter now_result recent_events in
         emit lines;;
         if ThreatDetector.is_threat detection_result
         then _handle_threat_detection detection_result
         else ret tt
     end)
    (fun e =>
       log Error ("Error in automated response monitoring loop: "
                  +:+ str_exn e)).

End Response.

End AutomatedResponseSystem.

(** ** config_manager.py: the configuration once it has been read

    [json.load] is left out; what is embedded starts from the dict that it
    returns, a JSON object. *)

Module ConfigManager.
Import Py.

(** What [json.load] gives: [None], [bool], [int], [float] (finite here),
    [str], [list], and [dict] with its keys in the order of insertion. *)
#[local] Unset Elimination Schemes.
Inductive json : Type :=
| JNull
| JBool (b : bool)
| JInt (n : Z)
| JFloat (x : float)
| JStr (s : string)
| JList (l : list json)
| JObject (fields : list (string * json)).
#[local] Set Elimination Schemes.

Definition dict : Type := list (string * json).

(** [key in d] *)
Definition key_in (key : string) (d : dict) : bool :=
  existsb (fun item => String.eqb (fst item) key) d.

(** [d.get(key)], [None] being [JNull], and [d.get(key, default)]. *)
Fixpoint dict_get (d : dict) (key : string) : option json :=
  match d with
  | [] => None
  | (k, v) :: rest => if String.eqb k key then Some v else dict_get rest key
  end.

Definition get_or_None (d : dict) (key : string) : json :=
  default JNull (dict_get d key).

(** [d[key] = value]: in place for a key that is there, at the end for a
    new one. *)
Fixpoint dict_set (d : dict) (key : string) (value : json) : dict :=
  match d with
  | [] => [(key, value)]
  | (k, v) :: rest =>
      if String.eqb k key then (k, value) :: rest
      else (k, v) :: dict_set rest key value
  end.

(** [isinstance(v, int)], which holds of a [bool] too, and
    [isinstance(v, list)], [isinstance(v, str)]. *)
Definition isinstance_int (v : json) : bool :=
  match v with
  | JInt _ | JBool _ => true
  | _ => false
  end.

Definition isinstance_list (v : json) : bool :=
  match v with
  | JList _ => true
  | _ => false
  end.

Definition isinstance_str (v : json) : bool :=
  match v with
  | JStr _ => true
  | _ => false
  end.

Definition default_config : dict :=
  [ ("monitored_directory", JStr "./test_files");
    ("backup_directory", JStr "./backups");
    ("log_directory", JStr "./logs");
    ("alert_email", JStr "");
    ("detection_threshold", JInt 5);
    ("backup_retention", JInt 5);
    ("time_window_seconds", JInt 10);
    ("response_threshold", JInt 50);
    ("suspicious_extensions",
     JList [JStr ".encrypted"; JStr ".locked"; JStr ".crypto";
            JStr ".crypt"]) ].

(** The first loop of [_validate_config]; the lines are those printed. *)
Fixpoint fill_missing (defaults : dict) (config : dict)
  : dict * list string :=
  match defaults with
  | [] => (config, [])
  | (key, default_value) :: rest =>
      if negb (key_in key config) then
        let '(config', printed) :=
          fill_missing rest (dict_set config key default_value) in
        (config',
         ("Added missing configuration key '" +:+ key
          +:+ "' with default value") :: printed)
      else fill_missing rest config
  end.

(** One type check of [_validate_config]. *)
Definition reset_unless (test : json -> bool) (key : string) (config : dict)
  : dict :=
  if negb (test (get_or_None config key))
  then dict_set config key (get_or_None default_config key)
  else config.

Definition _validate_config (config : dict) : dict * list string :=
  let '(config, printed) := fill_missing default_config config in
  let config := reset_unless isinstance_int "detection_threshold" config in
  let config := reset_unless isinstance_int "backup_retention" config in
  let config := reset_unless isinstance_int "time_window_seconds" config in
  let config := reset_unless isinstance_int "response_threshold" config in
  let config := reset_unless isinstance_list "suspicious_extensions" config in
  (config, printed).

(** [get] and the getters. *)
Definition get (config : dict) (key : string) (default_value : json) : json :=
  default default_value (dict_get config key).

Definition get_monitored_directory (config : dict) : json :=
  get config "monitored_directory" (JStr "./test_files").

Definition get_backup_directory (config : dict) : json :=
  get config "backup_directory" (JStr "./backups").

Definition get_log_directory (config : dict) : json :=
  get config "log_directory" (JStr "./logs").

Definition get_detection_threshold (config : dict) : json :=
  get config "detection_threshold" (JInt 5).

Definition get_suspicious_extensions (config : dict) : json :=
  get config "suspicious_extensions"
      (JList [JStr ".encrypted"; JStr ".locked"; JStr ".crypto";
              JStr ".crypt"]).

End ConfigManager.

(** ** main.py: [validate_configuration] *)

Module Main.
Import Py ConfigManager.

(** [bool(v)] *)
Definition truthy (v : json) : bool :=
  match v with
  | JNull => false
  | JBool b => b
  | JInt n => negb (n =? 0)
  | JFloat x => negb (mant x =? 0)
  | JStr s => negb (String.eqb s "")
  | JList l => match l with [] => false | _ :: _ => true end
  | JObject fields => match fields with [] => false | _ :: _ => true end
  end.

(** The value of an [int], a [bool] being 0 or 1. *)
Definition int_value (v : json) : Z :=
  match v with
  | JInt n => n
  | JBool true => 1
  | _ => 0
  end.

(** [s.startswith(prefix)] and [sub in s] on strings. *)
Definition startswith (s prefix : string) : bool := String.prefix prefix s.

Definition str_contains (sub s : string) : bool :=
  match String.index 0 sub s with
  | Some _ => true
  | None => false
  end.

(** The function logs as it goes and may raise [TypeError]: a run is the
    lines logged and either the error or a value. *)
Inductive type_error : Type := TypeError.

Definition V (A : Type) : Type :=
  list ThreatDetector.log_line
  -> list ThreatDetector.log_line * (type_error + A).

#[global] Instance V_ret : MRet V := fun A a lines => (lines, inr a).

#[global] Instance V_bind : MBind V :=
  fun A B k c lines =>
    match c lines with
    | (lines', inl e) => (lines', inl e)
    | (lines', inr a) => k a lines'
    end.

Definition log (level : log_level) (message : string) : V unit :=
  fun lines => (lines ++ [(level, message)], inr tt).

Definition raise_type_error {A} : V A := fun lines => (lines, inl TypeError).

Section Validation.

(** [os.path.abspath] on a string, which depends on the working
    directory, and [str(v)] as an f-string prints a value. *)
Variable abspath : string -> string.
Variable str_json : json -> string.

(** [os.path.isabs(v)] and [os.path.abspath(v)] raise [TypeError] unless
    [v] is a string. *)
Definition os_path_isabs (v : json) : V bool :=
  match v with
  | JStr s => mret (startswith s "/")
  | _ => raise_type_error
  end.

Definition os_path_abspath (v : json) : V string :=
  match v with
  | JStr s => mret (abspath s)
  | _ => raise_type_error
  end.

(** ['@' in v]: a substring of a string, an element of a list, a key of a
    dict; [TypeError] on the other values. *)
Definition at_sign_in (v : json) : V bool :=
  match v with
  | JStr s => mret (str_contains "@" s)
  | JList l =>
      mret (existsb (fun x => match x with
                              | JStr e => String.eqb e "@"
                              | _ => false
                              end) l)
  | JObject fields => mret (key_in "@" fields)
  | _ => raise_type_error
  end.

(** The loop over the extensions. *)
Fixpoint check_extensions (extensions : list json) (is_valid : bool)
  : V bool :=
  match extensions with
  | [] => mret is_valid
  | ext :: rest =>
      is_valid ←
        (if negb (isinstance_str ext)
            || negb (match ext with
                     | JStr e => startswith e "."
                     | _ => false
                     end)
         then
           log Error ("Invalid suspicious extension: " +:+ str_json ext
                      +:+ " (must start with '.')");;
           mret false
         else mret is_valid);
      check_extensions rest is_valid
  end.

Definition validate_configuration (config : dict) : V bool :=
  log Info "Validating configuration...";;
  let is_valid := true in
  (* monitored directory *)
  let monitored_dir := get_or_None config "monitored_directory" in
  is_valid ←
    (if negb (truthy monitored_dir) then
       log Error "Monitored directory not specified";;
       mret false
     else
       absolute ← os_path_isabs monitored_dir;
       if negb absolute
          && negb (match monitored_dir with
                   | JStr d => startswith d "./"
                   | _ => false
                   end)
       then
         log Warning ("Monitored directory '" +:+ str_json monitored_dir
                      +:+ "' should be absolute or relative path");;
         mret is_valid
       else mret is_valid);
  (* backup directory *)
  let backup_dir := get_or_None config "backup_directory" in
  is_valid ←
    (if negb (truthy backup_dir) then
       log Error "Backup directory not specified";;
       mret false
     else if truthy monitored_dir then
       backup_absolute ← os_path_abspath backup_dir;
       monitored_absolute ← os_path_abspath monitored_dir;
       if String.eqb backup_absolute monitored_absolute then
         log Error
           "Backup directory cannot be the same as monitored directory";;
         mret false
       else mret is_valid
     else mret is_valid);
  (* detection threshold *)
  let detection_threshold := get_or_None config "detection_threshold" in
  is_valid ←
    (if negb (isinstance_int detection_threshold)
        || (int_value detection_threshold <? 1)
     then
       log Error ("Detection threshold must be a positive integer, got: "
                  +:+ str_json detection_threshold);;
       mret false
     else if 100 <? int_value detection_threshold then
       log Warning ("Detection threshold is very high ("
                    +:+ str_json detection_threshold
                    +:+ "), consider lowering it");;
       mret is_valid
     else mret is_valid);
  (* time window *)
  let time_window := get_or_None config "time_window_seconds" in
  is_valid ←
    (if negb (isinstance_int time_window) || (int_value time_window <? 1)
     then
       log Error ("Time window must be a positive integer, got: "
                  +:+ str_json time_window);;
       mret false
     else if 300 <? int_value time_window then
       log Warning ("Time window is very long (" +:+ str_json time_window
                    +:+ "s), consider shortening it");;
       mret is_valid
     else mret is_valid);
  (* backup retention *)
  let backup_retention := get_or_None config "backup_retention" in
  is_valid ←
    (if negb (isinstance_int backup_retention)
        || (int_value backup_retention <? 1)
     then
       log Error ("Backup retention must be a positive integer, got: "
                  +:+ str_json backup_retention);;
       mret false
     else if 50 <? int_value backup_retention then
       log Warning ("Backup retention is very high ("
                    +:+ str_json backup_retention
                    +:+ "), consider lowering it");;
       mret is_valid
     else mret is_valid);
  (* response threshold *)
  let response_threshold := get_or_None config "response_threshold" in
  is_valid ←
    (if negb (isinstance_int response_threshold)
        || (int_value response_threshold <? 0)
        || (100 <? int_value response_threshold)
     then
       log Error ("Response threshold must be an integer between 0-100, got: "
                  +:+ str_json response_threshold);;
       mret false
     else mret is_valid);
  (* suspicious extensions *)
  let suspicious_extensions := get_or_None config "suspicious_extensions" in
  is_valid ←
    (match suspicious_extensions with
     | JList [] =>
         log Warning "No suspicious extensions configured";;
         mret is_valid
     | JList extensions => check_extensions extensions is_valid
     | _ =>
         log Error "Suspicious extensions must be a list";;
         mret false
     end);
  (* alert email, if provided *)
  let alert_email := get_or_None config "alert_email" in
  (if truthy alert_email then
     found ← at_sign_in alert_email;
     if negb found then
       log Warning ("Alert email appears invalid: " +:+ str_json alert_email)
     else mret tt
   else mret tt);;
  (if is_valid : bool then log Info "Configuration validation passed"
   else log Error "Configuration validation failed");;
  mret is_valid.

End Validation.

End Main.
(** ** The scoring rules as the design document words them *)

Module DetectionSpec.
Import Py FileMonitor ThreatDetector.

(** The number of elements of a list that pass a test. *)
Fixpoint count_if {A} (p : A -> bool) (l : list A) : Z :=
  match l with
  | [] => 0
  | x :: rest => (if p x then 1 else 0) + count_if p rest
  end.

(** The event is newer than [now] minus the analysis window. *)
Definition in_window (self : ThreatDetector) (now : Z) (event : FileEvent)
  : bool :=
  now - 1000000 * time_window_seconds self <? timestamp event.

(** The window can be taken off the clock reading: it is a [timedelta], and
    [now] minus it is a date of the calendar, year 1 or later. With a
    clock of today that is a window of some 2025 years at most. *)
Definition window_in_range (self : ThreatDetector) (now : Z) : Prop :=
  -999999999 <= time_window_seconds self / 86400 <= 999999999
  /\ 0 <= now - 1000000 * time_window_seconds self <= datetime_max.

Definition created_or_modified (event : FileEvent) : bool :=
  String.eqb (event_type event) "created"
  || String.eqb (event_type event) "modified".

Definition is_modified (event : FileEvent) : bool :=
  String.eqb (event_type event) "modified".

(** Rate: [min (30 + 5 (n - threshold)) 50] from the threshold on. *)
Definition rate_subscore (threshold n : Z) : Z :=
  if threshold <=? n then Z.min (30 + 5 * (n - threshold)) 50 else 0.

(** Extension: the path ends with the extension, letter case apart. *)
Definition ends_with_ignoring_case (path ext : string) : bool :=
  endswith (lower path) (lower ext).

Definition has_suspicious_extension (configured : list string)
           (event : FileEvent) : bool :=
  existsb (ends_with_ignoring_case (file_path event)) configured.

Definition extension_subscore (m : Z) : Z :=
  if 0 <? m then Z.min (40 + 10 * m) 60 else 0.

(** Growth: the modified events of one path, in the order of the batch. *)
Definition modified_events_of (path : string) (events : list FileEvent)
  : list FileEvent :=
  List.filter
    (fun event => is_modified event && String.eqb (file_path event) path)
         events.

Fixpoint consecutive_pairs {A} (l : list A) : list (A * A) :=
  match l with
  | a :: ((b :: _) as rest) => (a, b) :: consecutive_pairs rest
  | _ => []
  end.

(** [a / b > 1.2] read on rational numbers: [5 a > 6 b]. *)
Definition exceeds_6_5 (a b : Z) : bool := 6 * b <? 5 * a.

(** [a / b > 1.2] as Python evaluates it on positive [int]s: the quotient
    reaches the midpoint between the binary64 number [1.2] and the next
    one. *)
Definition exceeds_1_2 (a b : Z) : bool :=
  10808639105689191 * b <=? a * 2 ^ 53.

(** [previous > 0] and [current / previous > 1.2], for a reading [exceeds]
    of the comparison. *)
Definition grew_over_20_percent (exceeds : Z -> Z -> bool)
           (previous current : Z) : bool :=
  (0 <? previous) && exceeds current previous.

(** [sorted] is [group] sorted by timestamp: its timestamps ascend, and the
    events of any one timestamp are those of [group], in the order they
    have there. There is one such list. *)
Definition sorted_by_timestamp (group sorted : list FileEvent) : Prop :=
  StronglySorted (fun a b => timestamp a <= timestamp b) sorted
  /\ forall t,
       List.filter (fun e => timestamp e =? t) sorted
       = List.filter (fun e => timestamp e =? t) group.

(** Some consecutive pair of the list grew by more than 20%. *)
Definition some_pair_grew (exceeds : Z -> Z -> bool) (l : list FileEvent)
  : bool :=
  existsb (fun '(a, b) =>
             grew_over_20_percent exceeds (file_size a) (file_size b))
          (consecutive_pairs l).

(** [sorted_group path] being the modified events of [path] sorted by
    timestamp, the path is marked when a consecutive pair of them grew. *)
Definition path_is_suspicious (exceeds : Z -> Z -> bool)
           (sorted_group : string -> list FileEvent) (path : string) : bool :=
  some_pair_grew exceeds (sorted_group path).

(** The distinct elements of a list, each at its first occurrence. *)
Definition distinct (l : list string) : list string :=
  fold_left (fun seen x => if str_in x seen then seen else seen ++ [x]) l [].

(** The marked paths, each once, in the order of their first modified
    event. *)
Definition suspicious_paths (exceeds : Z -> Z -> bool)
           (sorted_group : string -> list FileEvent)
           (events : list FileEvent) : list string :=
  List.filter (path_is_suspicious exceeds sorted_group)
              (distinct (map file_path (List.filter is_modified events))).

Definition growth_subscore (k : Z) : Z :=
  if 0 <? k then Z.min (20 + 5 * k) 30 else 0.

(** One event, for the examples. *)
Definition event_at (t : Z) (path kind : string) (size : Z) : FileEvent :=
  {| timestamp := t; file_path := path; event_type := kind;
     file_size := size |}.

(** The first instant of 2026, from which the examples count. *)
Definition new_year_2026 : Z := 63902822400000000.

(** The clock [seconds] seconds later. *)
Definition at_second (seconds : Z) : Z := new_year_2026 + 1000000 * seconds.

(** Seven modify events on distinct paths, one every tenth of a second. *)
Definition seven_modified : list FileEvent :=
  map (fun i => event_at (new_year_2026 + 100000 * i)
                         ("/data/f" +:+ str_int i) "modified" 10)
      [1; 2; 3; 4; 5; 6; 7].

(** Six files renamed to [.encrypted] within five seconds: rate 35 plus
    extension 60, a threat of score 95. *)
Definition six_encrypted : list FileEvent :=
  map (fun i => event_at (at_second i)
                         ("/data/f" +:+ str_int i +:+ ".encrypted")
                         "created" 64)
      [0; 1; 2; 3; 4; 5].

(** One file whose two modify events arrive in the wrong order, the
    larger and later one first, and the two events in the order of their
    timestamps. *)
Definition late_arrival : list FileEvent :=
  [event_at (at_second 2) "/data/a.doc" "modified" 130;
   event_at (at_second 1) "/data/a.doc" "modified" 100].

Definition in_time_order : list FileEvent :=
  [event_at (at_second 1) "/data/a.doc" "modified" 100;
   event_at (at_second 2) "/data/a.doc" "modified" 130].

(** The groups of a batch that modifies [/data/a.doc] only. *)
Definition group_of_a_doc (sorted : list FileEvent) (path : string)
  : list FileEvent :=
  if String.eqb "/data/a.doc" path then sorted else [].

(** A window of 64 thousand million seconds, some 2028 years. *)
Definition window_past_year_one : Z := 64000000000.

End DetectionSpec.

(** ** Notions used to state the properties of backup and recovery *)

Module StorageSpec.
Import Py Os.
Import BackupManager.

(** The file that a path names in a world. *)
Definition file_at (w : world) (p : string) : option string :=
  files w !! absolute_in (cwd w) p.

(** The records kept for an original, as the dict holds them. *)
Definition records_of (s : state) (original_file : string)
  : list BackupRecord :=
  default [] (backup_records (self s)
                !! absolute_in (cwd (machine s)) original_file).

(** Every system call of one restore attempt goes through: the backup file
    is there and can be read, the target can be written. *)
Definition can_restore (w : world) (target : string) (b : BackupRecord)
  : bool :=
  match file_at w (backup_path b) with
  | None => false
  | Some _ =>
      match faults w OpExists (backup_path b), faults w OpMkdir target,
            faults w OpRead (backup_path b), faults w OpWrite target with
      | None, None, None, None => true
      | _, _, _, _ => false
      end
  end.

(** The world once [content] has been copied over [target]. *)
Definition with_file (w : world) (target content : string) : world :=
  set_files (<[absolute_in (cwd w) target := content]> (files w)) w.

(** [create_backup] called once per clock reading, on one path. *)
Fixpoint create_backups (strftime_ms : Z -> string) (readings : list Z)
         (path : string) : M state (list (option BackupRecord)) :=
  match readings with
  | [] => ret []
  | now :: rest =>
      r ← create_backup strftime_ms now path;
      rs ← create_backups strftime_ms rest path;
      ret (r :: rs)
  end.

(** What one world keeps of another: the working directory
    and the failing system calls are the same, and no file has appeared.
    For states, the object is the same too. *)
Definition no_new_file (w w' : world) : Prop :=
  cwd w' = cwd w
  /\ faults w' = faults w
  /\ forall p, files w !! p = None -> files w' !! p = None.

Definition only_removes (s s' : state) : Prop :=
  self s' = self s /\ no_new_file (machine s) (machine s').

(** The records that [_cleanup_old_backups] leaves under a key. *)
Definition kept (retention : Z) (l : list BackupRecord) : list BackupRecord :=
  let records := sort_newest_first l in
  if len records <=? retention then records else slice_to records retention.

Definition evicted (retention : Z) (l : list BackupRecord) : list BackupRecord :=
  let records := sort_newest_first l in
  if len records <=? retention then [] else slice_from records retention.

(** [a] is at least as new as [b]; [a] is newer than [b]. *)
Definition at_least_as_new (a b : BackupRecord) : Prop :=
  timestamp b <= timestamp a.

Definition newer (a b : BackupRecord) : Prop := timestamp b < timestamp a.

(** The path of the copy that [create_backup] makes, as it is given to
    [copy2] and as the record has it. *)
Definition backup_target (strftime_ms : Z -> string) (s : state)
           (now : Z) (path : string) : string :=
  backup_directory (self s) +:+ "/" +:+ path_stem path +:+ "_"
  +:+ strftime_ms now +:+ path_suffix path.

Definition backup_path_for (strftime_ms : Z -> string) (s : state)
           (now : Z) (path : string) : string :=
  absolute_in (cwd (machine s)) (backup_target strftime_ms s now path).

(** Examples: one file under [/data], backups under [/backups]. *)
Definition no_faults : io_op -> string -> option exn := fun _ _ => None.

Definition locked_first_backup : io_op -> string -> option exn :=
  fun op p =>
    match op with
    | OpUnlink =>
        if String.eqb p "/backups/a_1000.txt"
        then Some (PermissionError
                     "[Errno 13] Permission denied: '/backups/a_1000.txt'")
        else None
    | _ => None
    end.

Definition example_store (retention : Z)
           (failing : io_op -> string -> option exn) : state :=
  {| machine := {| files := {[ "/data/a.txt" := "hello" ]};
                   cwd := "/data"; faults := failing; output := [] |};
     self := init "/backups" retention |}.

Definition example_record (now : Z) : BackupRecord :=
  {| original_path := "/data/a.txt";
     backup_path := "/backups/a_" +:+ str_int now +:+ ".txt";
     timestamp := now;
     file_size := 5 |}.

End StorageSpec.

(** ** Notions used to state the properties of recovery *)

Module RecoverySpec.
Import Py Os StorageSpec.
Import RecoveryEngine.

(** The machine of a recovery engine. *)
Definition world_of (s : state) : world :=
  BackupManager.machine (backup_manager s).

Definition set_world (w : world) (s : state) : state :=
  set_backup_manager (BackupManager.set_machine w (backup_manager s)) s.

(** The state once a line has been logged. *)
Definition logged (level : log_level) (prefix message : string) (s : state)
  : state :=
  set_world
    (add_output
       (if has_logger (self s)
        then (Logger level, "[RecoveryEngine] " +:+ message)
        else (Stdout, prefix +:+ message))
       (world_of s)) s.

(** The state once [content] has been copied over [target]. *)
Definition restored (s : state) (target content : string) : state :=
  set_world (with_file (world_of s) target content) s.

(** Two states with the same files and the same index of records: they
    differ by what was written out and by the counters at most. *)
Definition same_but_output (s s' : state) : Prop :=
  BackupManager.self (backup_manager s')
     = BackupManager.self (backup_manager s)
  /\ files (world_of s') = files (world_of s)
  /\ cwd (world_of s') = cwd (world_of s)
  /\ faults (world_of s') = faults (world_of s).

(** The result of an attempt whose copy went through. *)
Definition restored_from (path : string) (b : BackupManager.BackupRecord)
           (passed : bool) : RecoveryResult :=
  {| file_path := path; success := true;
     backup_used := Some (BackupManager.backup_path b);
     error_message := None; verification_passed := passed |}.

(** The records of a path, newest first. *)
Definition versions (s : state) (path : string)
  : list BackupManager.BackupRecord :=
  BackupManager.sort_newest_first (records_of (backup_manager s) path).

(** The failure that ends the fallback chain. *)
Definition fallback_failure (path : string)
           (older : list BackupManager.BackupRecord) : RecoveryResult :=
  {| file_path := path; success := false; backup_used := None;
     error_message :=
       Some (match older with
             | [] => "No fallback backups available"
             | _ :: _ => "All backup restoration attempts failed"
             end);
     verification_passed := false |}.

(** Examples: an engine with a logger over a store, a file taken away
    from disk, a file overwritten. *)
Definition example_engine (b : BackupManager.state) : state :=
  {| backup_manager := b; self := init true |}.

Definition without_file (p : string) (s : state) : state :=
  set_world (set_files (delete p (files (world_of s))) (world_of s)) s.

Definition backed_up (retention : Z) (readings : list Z) : state :=
  example_engine
    (snd (create_backups str_int readings "/data/a.txt"
                         (example_store retention no_faults))).

End RecoverySpec.

(** ** Notions used to state the properties of the event ledger *)

Module MonitorSpec.
Import Py Os FileMonitor DetectionSpec.
Import FileSystemMonitor.

Definition newer_than (cutoff : Z) (event : FileEvent) : bool :=
  cutoff <? timestamp event.

(** The content that [os.path.exists] lets through: none when the call
    fails or the file is absent. *)
Definition visible (w : world) (p : string) : option string :=
  match faults w OpExists p with
  | Some _ => None
  | None => files w !! absolute_in (cwd w) p
  end.

(** The size that an event on [p] gets: 0 for a file that is not visible,
    the error of the size query when it fails on a file that passed the
    existence test, as when the file is removed in between. *)
Definition size_seen (w : world) (p : string) : exn + Z :=
  match visible w p with
  | None => inr 0
  | Some content =>
      match faults w OpStat p with
      | Some e => inl e
      | None => inr (Z.of_nat (String.length content))
      end
  end.

(** The line that [log_file_event] writes for an event. *)
Definition event_line (kind path : string) (size : Z) : sink * string :=
  (Logger Info,
   "FILE_EVENT: " +:+ kind +:+ " - " +:+ path +:+ " - Size: "
   +:+ str_int size +:+ " bytes").

(** The machine differs by the text written out at most. *)
Definition same_files (s s' : state) : Prop :=
  files (machine s') = files (machine s)
  /\ cwd (machine s') = cwd (machine s)
  /\ faults (machine s') = faults (machine s).

(** *** Notifications of the observer *)

Inductive callback : Type := Modified | Created | Deleted | Moved.

(** One call of the handler: which callback, on what, and the two clock
    readings of [add_file_event]. *)
Record notification : Type := {
  kind : callback;
  subject : FileSystemEvent;
  clock : Z;
  clock' : Z
}.

Definition deliver (has_monitor : bool) (n : notification) : M state unit :=
  match kind n with
  | Modified => on_modified has_monitor (clock n) (clock' n) (subject n)
  | Created => on_created has_monitor (clock n) (clock' n) (subject n)
  | Deleted => on_deleted has_monitor (clock n) (clock' n) (subject n)
  | Moved => on_moved has_monitor (clock n) (clock' n) (subject n)
  end.

Fixpoint deliver_all (has_monitor : bool) (ns : list notification)
  : M state unit :=
  match ns with
  | [] => ret tt
  | n :: rest => deliver has_monitor n;; deliver_all has_monitor rest
  end.

Definition kind_name (k : callback) : string :=
  match k with
  | Modified => "modified"
  | Created => "created"
  | Deleted => "deleted"
  | Moved => "moved"
  end.

(** The path under which a notification is filed: a move under its
    destination. *)
Definition filed_under (n : notification) : string :=
  match kind n with
  | Moved => dest_path (subject n)
  | _ => src_path (subject n)
  end.

(** The event that a notification leaves in the ledger, if any: none for a
    directory, none when the size cannot be read. *)
Definition recorded (w : world) (n : notification) : list FileEvent :=
  if is_directory (subject n) then []
  else
    match size_seen w (filed_under n) with
    | inr size =>
        [event_at (clock n) (filed_under n) (kind_name (kind n)) size]
    | inl _ => []
    end.

(** A machine for the examples: [/data/a.txt] holds five bytes, and
    [/data/gone.txt] is taken away between the existence test and the size
    query, which fails. *)
Definition example_machine : world :=
  {| files := {[ "/data/a.txt" := "hello"; "/data/gone.txt" := "secret" ]};
     cwd := "/data";
     faults := fun op p =>
       match op with
       | OpStat =>
           if String.eqb p "/data/gone.txt"
           then Some (FileNotFoundError
                        "[Errno 2] No such file or directory: '/data/gone.txt'")
           else None
       | _ => None
       end;
     output := [] |}.

Definition example_monitor (ledger : list FileEvent) : state :=
  {| machine := example_machine;
     self := {| monitored_directory := "/data"; is_monitoring := true;
                recent_events := ledger |} |}.

End MonitorSpec.

(** ** Notions used to state the further properties of the backup manager *)

Module BackupSpec.
Import Py Os StorageSpec.
Import BackupManager.

(** An iteration order of the dict: its items, each once, in some order. *)
Definition enumerates
           (dict_items : gmap string (list BackupRecord)
                         -> list (string * list BackupRecord)) : Prop :=
  forall m, Permutation (dict_items m) (map_to_list m).

(** The record is in the index, under some key. *)
Definition indexed (s : state) (r : BackupRecord) : Prop :=
  exists key l, backup_records (self s) !! key = Some l /\ In r l.

(** No key of the index has more records than the retention count. *)
Definition within_retention (s : state) : Prop :=
  forall key l, backup_records (self s) !! key = Some l ->
                len l <= retention_count (self s).

Definition sum_Z (l : list Z) : Z := foldr Z.add 0 l.

(** The number of records of the index, and the sum of the sizes that
    they record. *)
Definition record_count (s : state) : Z :=
  sum_Z (map (fun item => len (snd item))
             (map_to_list (backup_records (self s)))).

Definition recorded_bytes (s : state) : Z :=
  sum_Z (map file_size
             (concat (map snd (map_to_list (backup_records (self s)))))).

(** The number of files on disk. *)
Definition file_count (w : world) : Z := Z.of_nat (size (files w)).

(** The two states differ by the text written out at most. *)
Definition same_but_output (s s' : state) : Prop :=
  self s' = self s
  /\ files (machine s') = files (machine s)
  /\ cwd (machine s') = cwd (machine s)
  /\ faults (machine s') = faults (machine s).

(** The backup file of the record is on disk with the recorded size, and
    the calls that look at it go through. *)
Definition intact (w : world) (r : BackupRecord) : Prop :=
  faults w OpExists (backup_path r) = None
  /\ faults w OpStat (backup_path r) = None
  /\ exists content,
       file_at w (backup_path r) = Some content
       /\ Z.of_nat (String.length content) = file_size r.

(** Every path of the disk is as before, or it is gone and was the backup
    file of one of [candidates]. *)
Definition only_deleted (s s' : state) (candidates : list BackupRecord)
  : Prop :=
  forall p,
    files (machine s') !! p = files (machine s) !! p
    \/ (files (machine s') !! p = None
        /\ exists r, In r candidates
                     /\ absolute_in (cwd (machine s)) (backup_path r) = p).

(** The verdict of [verify_backup] on a file that is on disk and whose size
    can be read: the size is compared with the one of the first record of
    that path, or with 0 when no record has the path. *)
Definition verdict
           (dict_items : gmap string (list BackupRecord)
                         -> list (string * list BackupRecord))
           (s : state) (path content : string) : bool :=
  match List.find (fun record => String.eqb (backup_path record) path)
                  (concat (map snd (dict_items (backup_records (self s)))))
  with
  | Some record => Z.of_nat (String.length content) =? file_size record
  | None => 0 <? Z.of_nat (String.length content)
  end.

(** The path starts at the root. *)
Definition is_absolute (p : string) : bool :=
  match p with
  | String "/" _ => true
  | _ => false
  end.

(** The items of a map in the order of the library. *)
Definition items_of (m : gmap string (list BackupRecord))
  : list (string * list BackupRecord) := map_to_list m.

(** Two originals with a record each, and one of them with three. *)
Definition example_index : gmap string (list BackupRecord) :=
  {[ "/data/a.txt" := [example_record 1000; example_record 3000;
                       example_record 2000];
     "/data/b.txt" :=
       [{| original_path := "/data/b.txt";
           backup_path := "/backups/b_1500.txt";
           timestamp := 1500; file_size := 3 |}] ]}.

Definition example_backups (retention : Z) : state :=
  {| machine :=
       {| files := {[ "/data/a.txt" := "hello";
                      "/backups/a_1000.txt" := "hello";
                      "/backups/a_2000.txt" := "hello";
                      "/backups/a_3000.txt" := "hello";
                      "/backups/b_1500.txt" := "abc" ]};
          cwd := "/data"; faults := no_faults; output := [] |};
     self := {| backup_directory := "/backups";
                retention_count := retention;
                backup_records := example_index |} |}.

End BackupSpec.

(** ** Notions used to state the further properties of recovery *)

Module RestoreSpec.
Import Py Os StorageSpec RecoverySpec.
Import RecoveryEngine.

(** What an engine keeps through a restoration: the index of records, the
    working directory, the failing system calls and whether it has a
    logger. Files, counters and the text written out may differ. *)
Definition same_engine (s s' : state) : Prop :=
  BackupManager.self (backup_manager s')
  = BackupManager.self (backup_manager s)
  /\ cwd (world_of s') = cwd (world_of s)
  /\ faults (world_of s') = faults (world_of s)
  /\ has_logger (self s') = has_logger (self s).

(** The same, and the counters are as before. *)
Definition same_counters (s s' : state) : Prop :=
  same_engine s s' /\ self s' = self s.

(** Whatever [c] does, it keeps the engine and the counters; a value that
    it returns satisfies [Q]. *)
Definition keeps {A} (Q : A -> Prop) (c : M state A) : Prop :=
  forall s,
    same_counters s (snd (c s)) /\ forall a, fst (c s) = inr a -> Q a.

(** The same, and [c] does not raise. *)
Definition returns {A} (Q : A -> Prop) (c : M state A) : Prop :=
  forall s,
    exists a, fst (c s) = inr a /\ Q a /\ same_counters s (snd (c s)).

(** The counters once the outcome of one restoration has been booked. *)
Definition booked (r : RecoveryStats) (result : RecoveryResult)
  : RecoveryStats :=
  if success result then
    {| total_attempts := total_attempts r + 1;
       successful_recoveries := successful_recoveries r + 1;
       failed_recoveries := failed_recoveries r;
       files_recovered := files_recovered r ++ [file_path result] |}
  else
    {| total_attempts := total_attempts r + 1;
       successful_recoveries := successful_recoveries r;
       failed_recoveries := failed_recoveries r + 1;
       files_recovered := files_recovered r |}.

(** The state of an engine over a store in which the file at [path] has
    been overwritten with [content], or deleted when there is none. *)
Definition damaged (b : BackupManager.state) (engine : RecoveryEngine)
           (path : string) (content : option string) : state :=
  let w := BackupManager.machine b in
  {| backup_manager :=
       BackupManager.set_machine
         (set_files
            (partial_alter (fun _ => content) (absolute_in (cwd w) path)
                           (files w)) w) b;
     self := engine |}.

End RestoreSpec.

(** ** Notions used to state the properties of the automated response *)

Module ResponseSpec.
Import Py Os StorageSpec.
Import AutomatedResponseSystem.

(** The backup manager that the orchestrator and the engine share, and
    the machine. *)
Definition store (s : state) : BackupManager.state :=
  RecoveryEngine.backup_manager (engine s).

Definition disk (s : state) : world := BackupManager.machine (store s).

Definition set_disk (w : world) (s : state) : state :=
  set_engine (RecoverySpec.set_world w (engine s)) s.

Definition set_store (b : BackupManager.state) (s : state) : state :=
  set_engine (RecoveryEngine.set_backup_manager b (engine s)) s.

(** The index of backups, the disk, the engine and the threshold are as
    before; the text written out, the response actions, the statistics
    and the number of clock readings may differ. *)
Definition same_store (s s' : state) : Prop :=
  BackupManager.self (store s') = BackupManager.self (store s)
  /\ files (disk s') = files (disk s)
  /\ cwd (disk s') = cwd (disk s)
  /\ faults (disk s') = faults (disk s)
  /\ RecoveryEngine.self (engine s') = RecoveryEngine.self (engine s)
  /\ response_threshold (self s') = response_threshold (self s).

(** Whatever [c] does, it leaves the store as it is. *)
Definition quiet {A} (c : M state A) : Prop :=
  forall s, same_store s (snd (c s)).

(** The same, and [c] does not raise. *)
Definition runs {A} (c : M state A) : Prop :=
  forall s, exists a, fst (c s) = inr a /\ same_store s (snd (c s)).

(** A detection result, for the examples. *)
Definition example_detection (paths : list string) (score : Z)
  : ThreatDetector.DetectionResult :=
  {| ThreatDetector.is_threat := true;
     ThreatDetector.threat_score := score;
     ThreatDetector.affected_files := paths;
     ThreatDetector.detection_reason := "Suspicious file extensions detected";
     ThreatDetector.result_timestamp := 5000 |}.

(** An orchestrator over an engine with a logger. *)
Definition example_response (b : BackupManager.state) (threshold : Z)
  : state :=
  {| engine := RecoverySpec.example_engine b;
     self := init threshold;
     ticks := 0 |}.

End ResponseSpec.

(** ** Notions used to state the properties of the configuration *)

Module ConfigSpec.
Import Py ConfigManager Main.

(** The keys whose type [_validate_config] checks, with the test. *)
Definition type_test (key : string) : option (json -> bool) :=
  if String.eqb key "detection_threshold" then Some isinstance_int
  else if String.eqb key "backup_retention" then Some isinstance_int
  else if String.eqb key "time_window_seconds" then Some isinstance_int
  else if String.eqb key "response_threshold" then Some isinstance_int
  else if String.eqb key "suspicious_extensions" then Some isinstance_list
  else None.

(** The value passes the type test of its key, if the key has one. *)
Definition well_typed (key : string) (v : json) : bool :=
  match type_test key with
  | Some test => test v
  | None => true
  end.

(** An [int] within bounds, a [bool] counting as 0 or 1. *)
Definition int_between (low : Z) (high : option Z) (v : json) : Prop :=
  isinstance_int v = true
  /\ low <= int_value v
  /\ match high with
     | Some h => int_value v <= h
     | None => True
     end.

(** A string that is not empty. *)
Definition nonempty_str (v : json) : Prop :=
  exists s, v = JStr s /\ s <> "".

(** A list of strings that start with a dot. *)
Definition dotted_extensions (v : json) : Prop :=
  exists l,
    v = JList l
    /\ Forall (fun e => exists x, e = JStr x /\ startswith x "." = true) l.

(** A configuration file that gives a threshold of a wrong type and leaves
    keys out. *)
Definition example_config : dict :=
  [ ("monitored_directory", JStr "/srv/files");
    ("detection_threshold", JStr "five");
    ("time_window_seconds", JBool true);
    ("note", JStr "kept") ].

End ConfigSpec.
(** * Properties

    ** Arithmetic of the binary64 quotient *)

Module PyFacts.
Import Py DetectionSpec.

Lemma quot_log2_spec a b :
  0 < b <= a ->
  0 <= quot_log2 a b <= Z.log2 a /\
  2 ^ quot_log2 a b * b <= a < 2 ^ (quot_log2 a b + 1) * b.
Proof.
  intros [Hb Hab].
  assert (Ha : 0 < a) by lia.
  pose proof (Z.log2_spec a Ha) as [Ha1 Ha2].
  pose proof (Z.log2_spec b Hb) as [Hb1 Hb2].
  pose proof (Z.log2_nonneg b) as Hlb.
  pose proof (Z.log2_le_mono b a Hab) as Hmono.
  unfold quot_log2, shift_frac.
  set (la := Z.log2 a) in *. set (lb := Z.log2 b) in *.
  assert (Hla : la = lb + (la - lb)) by lia.
  set (s := la - lb) in *.
  assert (Hs : 0 <= s) by lia.
  assert (Hpa : 2 ^ la = 2 ^ lb * 2 ^ s).
  { rewrite Hla at 1. rewrite Z.pow_add_r by lia. reflexivity. }
  assert (Hpa1 : 2 ^ (la + 1) = 2 ^ lb * 2 ^ s * 2).
  { rewrite Z.pow_add_r by lia. rewrite Hpa. reflexivity. }
  assert (Hpb1 : 2 ^ (lb + 1) = 2 ^ lb * 2).
  { rewrite Z.pow_add_r by lia. reflexivity. }
  assert (Hps : 0 < 2 ^ s) by (apply Z.pow_pos_nonneg; lia).
  assert (Hps1 : 2 ^ (s + 1) = 2 ^ s * 2).
  { rewrite Z.pow_add_r by lia. reflexivity. }
  destruct (Z.leb_spec 0 (- s)) as [H0 | H0].
  - assert (s = 0) as Hs0 by lia. rewrite Hs0 in *. clear H0.
    rewrite Z.pow_0_r, Z.mul_1_r.
    destruct (Z.leb_spec b a); [| lia].
    change (2 ^ 0) with 1. change (2 ^ (0 + 1)) with 2. lia.
  - rewrite Z.opp_involutive.
    destruct (Z.leb_spec (b * 2 ^ s) a) as [Hle | Hlt].
    + rewrite Hps1. split; [lia |]. split; [lia | nia].
    + assert (Hs1 : 2 ^ s = 2 ^ (s - 1) * 2).
      { replace s with (s - 1 + 1) at 1 by lia.
        rewrite Z.pow_add_r by lia. reflexivity. }
      replace (s - 1 + 1) with s by lia.
      assert (0 < 2 ^ (s - 1)) by (apply Z.pow_pos_nonneg; lia).
      split; [lia |]. split; [nia | lia].
Qed.

Lemma round_half_even_bounds n d :
  0 < d -> n / d <= round_half_even n d <= n / d + 1.
Proof.
  intros Hd. unfold round_half_even.
  destruct (_ || _); lia.
Qed.

Lemma truediv_gt_1_2 a b :
  0 < b < a -> a < 2 ^ 1000 ->
  exists f, truediv a b = inr f /\ float_gt f float_1_2 = exceeds_1_2 a b.
Proof.
  intros [Hb Hab] Hbig.
  destruct (quot_log2_spec a b) as [[Hq0 Hqla] [Hlo Hhi]]; [lia |].
  assert (Hla : Z.log2 a < 1000) by (apply Z.log2_lt_pow2; lia).
  unfold truediv.
  destruct (Z.eqb_spec b 0) as [? | _]; [lia |].
  destruct (Z.eqb_spec a 0) as [? | _]; [lia |].
  rewrite (Z.abs_eq a), (Z.abs_eq b) by lia.
  rewrite (Z.sgn_pos a), (Z.sgn_pos b) by lia.
  set (q := quot_log2 a b) in *.
  rewrite Z.max_l by lia.
  destruct (shift_frac a b (52 - q)) as [n d] eqn:Hsf.
  assert (Hnd : 0 < d /\ 2 ^ 52 * d <= n /\ (q = 0 -> n = a * 2 ^ 52 /\ d = b)).
  { unfold shift_frac in Hsf.
    destruct (Z.leb_spec 0 (52 - q)) as [H | H]; inversion Hsf; subst n d;
      clear Hsf.
    - split; [lia |]. split.
      + assert (Hp : 2 ^ 52 = 2 ^ q * 2 ^ (52 - q)).
        { rewrite <- Z.pow_add_r by lia. f_equal. lia. }
        rewrite Hp.
        assert (0 < 2 ^ (52 - q)) by (apply Z.pow_pos_nonneg; lia).
        nia.
      + intros ->. rewrite Z.sub_0_r. split; reflexivity.
    - replace (- (52 - q)) with (q - 52) by lia.
      assert (0 < 2 ^ (q - 52)) by (apply Z.pow_pos_nonneg; lia).
      split; [nia |]. split; [| lia].
      assert (Hp : 2 ^ q = 2 ^ 52 * 2 ^ (q - 52)).
      { rewrite <- Z.pow_add_r by lia. f_equal. lia. }
      rewrite Hp in Hlo. nia. }
  destruct Hnd as (Hd & Hn & Hq).
  destruct (Z.ltb_spec 1023 q); [lia |].
  destruct (Z.eqb_spec q 1023); [lia |].
  simpl orb. cbv iota.
  eexists. split; [reflexivity |].
  unfold float_gt, float_1_2, exceeds_1_2. cbn [mant expo].
  rewrite Z.min_r by lia.
  replace (-52 - -52) with 0 by lia.
  replace (q - 52 - -52) with q by lia.
  rewrite Z.pow_0_r, Z.mul_1_r, Z.mul_1_l.
  pose proof (round_half_even_bounds n d Hd) as [Hm1 Hm2].
  assert (Hdiv : 2 ^ 52 <= n / d) by (apply Z.div_le_lower_bound; lia).
  destruct (Z.eq_dec q 0) as [Hq0' | Hq0'].
  - destruct (Hq Hq0') as [-> ->]. rewrite Hq0'.
    rewrite Z.pow_0_r, Z.mul_1_r. clear Hq.
    pose proof (Z.div_mod (a * 2 ^ 52) b ltac:(lia)) as Hdm.
    pose proof (Z.mod_pos_bound (a * 2 ^ 52) b Hb) as Hr.
    unfold round_half_even in *.
    set (m0 := a * 2 ^ 52 / b) in *. set (r := (a * 2 ^ 52) mod b) in *.
    assert (Ha53 : a * 2 ^ 53 = 2 * (b * m0 + r)).
    { rewrite <- Hdm. change (2 ^ 53) with (2 ^ 52 * 2). lia. }
    rewrite Ha53.
    destruct (Z.lt_total m0 5404319552844595) as [Hlt | [Heq | Hgt]].
    + assert (Hf : (b <? 2 * r) || (b =? 2 * r) && Z.odd m0 = true \/
                   (b <? 2 * r) || (b =? 2 * r) && Z.odd m0 = false).
      { destruct (_ || _); auto. }
      destruct Hf as [-> | ->].
      * destruct (Z.ltb_spec 5404319552844595 (m0 + 1)); [lia |].
        destruct (Z.leb_spec (10808639105689191 * b) (2 * (b * m0 + r)));
          [nia | reflexivity].
      * destruct (Z.ltb_spec 5404319552844595 m0); [lia |].
        destruct (Z.leb_spec (10808639105689191 * b) (2 * (b * m0 + r)));
          [nia | reflexivity].
    + rewrite Heq. change (Z.odd 5404319552844595) with true.
      rewrite andb_true_r.
      destruct (Z.ltb_spec b (2 * r)); destruct (Z.eqb_spec b (2 * r));
        simpl orb; cbv iota.
      all: try (destruct (Z.ltb_spec 5404319552844595 (5404319552844595 + 1));
                [| lia]).
      all: try (destruct (Z.ltb_spec 5404319552844595 5404319552844595);
                [lia |]).
      all: destruct (Z.leb_spec (10808639105689191 * b)
                            (2 * (b * 5404319552844595 + r)));
        try reflexivity; lia.
    + destruct (_ || _).
      * destruct (Z.ltb_spec 5404319552844595 (m0 + 1)); [| lia].
        destruct (Z.leb_spec (10808639105689191 * b) (2 * (b * m0 + r)));
          [reflexivity | nia].
      * destruct (Z.ltb_spec 5404319552844595 m0); [| lia].
        destruct (Z.leb_spec (10808639105689191 * b) (2 * (b * m0 + r)));
          [reflexivity | nia].
  - assert (Hq1 : 2 <= 2 ^ q).
    { replace q with (1 + (q - 1)) by lia. rewrite Z.pow_add_r by lia.
      assert (0 < 2 ^ (q - 1)) by (apply Z.pow_pos_nonneg; lia). lia. }
    set (m := round_half_even n d) in *.
    assert (2 ^ 52 <= m) by lia.
    destruct (Z.ltb_spec 5404319552844595 (m * 2 ^ q)) as [_ | Hc].
    + destruct (Z.leb_spec (10808639105689191 * b) (a * 2 ^ 53)) as [_ | Hc];
        [reflexivity |].
      change (2 ^ 53) with 9007199254740992 in Hc. nia.
    + change (2 ^ 52) with 4503599627370496 in *. nia.
Qed.

(** Below 2^51 the binary64 test and the test on rationals agree. *)
Lemma exceeds_1_2_exact a b :
  0 < b < 2 ^ 51 ->
  exceeds_1_2 a b = exceeds_6_5 a b.
Proof.
  intros [Hb Hlt]. unfold exceeds_1_2, exceeds_6_5.
  change (2 ^ 53) with 9007199254740992.
  change (2 ^ 51) with 2251799813685248 in Hlt.
  destruct (Z.leb_spec (10808639105689191 * b) (a * 9007199254740992));
    destruct (Z.ltb_spec (6 * b) (5 * a)); try reflexivity; lia.
Qed.

(** A quotient that passes the binary64 test is above 1. *)
Lemma exceeds_1_2_gt a b : 0 < b -> exceeds_1_2 a b = true -> b < a.
Proof.
  unfold exceeds_1_2. change (2 ^ 53) with 9007199254740992.
  intros Hb H. apply Z.leb_le in H. lia.
Qed.

(** Above 2^51 the two readings part: a file of 5 * 10^17 bytes that grows
    by one byte more than a fifth has a quotient above 6/5 that rounds to
    the binary64 number [1.2]. *)
Lemma exceeds_1_2_rounds :
  exceeds_6_5 600000000000000001 500000000000000000 = true
  /\ exceeds_1_2 600000000000000001 500000000000000000 = false.
Proof. split; reflexivity. Qed.

End PyFacts.

(** ** threat_detector.py: the three sub-scores and the verdict *)

Module DetectionFacts.
Import Py FileMonitor ThreatDetector DetectionSpec PyFacts.

Lemma len_filter_count {A} (p : A -> bool) (l : list A) :
  len (List.filter p l) = count_if p l.
Proof.
  unfold len. induction l as [| x l IH]; [reflexivity |].
  cbn [List.filter count_if]. destruct (p x); cbn [List.length]; lia.
Qed.

Lemma count_if_nonneg {A} (p : A -> bool) (l : list A) : 0 <= count_if p l.
Proof.
  induction l as [| x l IH]; cbn [count_if]; [lia |]. destruct (p x); lia.
Qed.

Lemma filter_filter {A} (p q : A -> bool) (l : list A) :
  List.filter p (List.filter q l) = List.filter (fun x => q x && p x) l.
Proof.
  induction l as [| x l IH]; [reflexivity |].
  cbn [List.filter]. destruct (q x); cbn [List.filter andb]; rewrite IH; reflexivity.
Qed.

Lemma filter_all {A} (p : A -> bool) (l : list A) :
  (forall x, In x l -> p x = true) -> List.filter p l = l.
Proof.
  induction l as [| x l IH]; intros Hall; [reflexivity |].
  cbn [List.filter]. rewrite (Hall x) by (left; reflexivity).
  rewrite IH; [reflexivity |]. intros y Hy. apply Hall. right. exact Hy.
Qed.

Lemma filter_none {A} (p : A -> bool) (l : list A) :
  (forall x, In x l -> p x = false) -> List.filter p l = [].
Proof.
  induction l as [| x l IH]; [reflexivity |]. intros Hall.
  cbn [List.filter]. rewrite (Hall x (or_introl eq_refl)).
  apply IH. intros y Hy. apply Hall. right. exact Hy.
Qed.

Lemma str_in_created_or_modified (event : FileEvent) :
  str_in (event_type event) ["modified"; "created"] = created_or_modified event.
Proof.
  unfold str_in, created_or_modified. cbn [existsb].
  rewrite orb_false_r. apply orb_comm.
Qed.

(** *** The cutoff *)

Lemma timedelta_run seconds :
  -999999999 <= seconds / 86400 <= 999999999 ->
  timedelta seconds = inr (seconds * 1000000).
Proof.
  intros [Hlow Hhigh]. unfold timedelta.
  destruct (Z.leb_spec (-999999999) (seconds / 86400)); [| lia].
  destruct (Z.leb_spec (seconds / 86400) 999999999); [| lia].
  reflexivity.
Qed.

Lemma timedelta_raises seconds :
  ~ -999999999 <= seconds / 86400 <= 999999999 ->
  exists msg, timedelta seconds = inl (OverflowError msg).
Proof.
  intros Hout. unfold timedelta.
  destruct (Z.leb_spec (-999999999) (seconds / 86400)),
           (Z.leb_spec (seconds / 86400) 999999999);
    cbn [andb]; try lia;
    destruct (_ && _); eexists; reflexivity.
Qed.

Lemma datetime_sub_run d delta :
  0 <= d - delta <= datetime_max -> datetime_sub d delta = inr (d - delta).
Proof.
  intros [Hlow Hhigh]. unfold datetime_sub.
  destruct (Z.leb_spec 0 (d - delta)); [| lia].
  destruct (Z.leb_spec (d - delta) datetime_max); [| lia].
  reflexivity.
Qed.

Lemma datetime_sub_raises d delta :
  ~ 0 <= d - delta <= datetime_max ->
  datetime_sub d delta = inl (OverflowError "date value out of range").
Proof.
  intros Hout. unfold datetime_sub.
  destruct (Z.leb_spec 0 (d - delta)),
           (Z.leb_spec (d - delta) datetime_max);
    cbn [andb]; try reflexivity; lia.
Qed.

(** With a window in range the filter returns the events of the window. *)
Lemma filter_recent_in_window self now events :
  window_in_range self now ->
  _filter_recent_events self now events
  = inr (List.filter (in_window self now) events).
Proof.
  intros [Hdelta Hcut]. unfold _filter_recent_events.
  rewrite timedelta_run by exact Hdelta.
  replace (time_window_seconds self * 1000000)
    with (1000000 * time_window_seconds self) by lia.
  rewrite datetime_sub_run by exact Hcut. reflexivity.
Qed.

(** With any other window it raises, whatever the events. *)
Lemma filter_recent_raises_all self now :
  ~ window_in_range self now ->
  exists msg, forall events,
    _filter_recent_events self now events = inl (OverflowError msg).
Proof.
  intros Hout. unfold _filter_recent_events.
  destruct (Z.le_gt_cases (-999999999) (time_window_seconds self / 86400));
    [destruct (Z.le_gt_cases (time_window_seconds self / 86400) 999999999) |].
  - rewrite timedelta_run by lia.
    rewrite datetime_sub_raises; [eexists; reflexivity |].
    intros Hcut. apply Hout. split; [lia |].
    replace (1000000 * time_window_seconds self)
      with (time_window_seconds self * 1000000) by lia.
    exact Hcut.
  - destruct (timedelta_raises (time_window_seconds self)) as [msg ->];
      [lia | eexists; reflexivity].
  - destruct (timedelta_raises (time_window_seconds self)) as [msg ->];
      [lia | eexists; reflexivity].
Qed.

Lemma filter_recent_raises self now events :
  ~ window_in_range self now ->
  exists msg, _filter_recent_events self now events = inl (OverflowError msg).
Proof.
  intros Hout. destruct (filter_recent_raises_all self now Hout) as [msg H].
  exists msg. apply H.
Qed.

Lemma window_in_range_dec self now :
  window_in_range self now \/ ~ window_in_range self now.
Proof. unfold window_in_range. lia. Qed.

Lemma filter_recent_returns self now events recent :
  _filter_recent_events self now events = inr recent ->
  window_in_range self now
  /\ recent = List.filter (in_window self now) events.
Proof.
  intros Hrun. destruct (window_in_range_dec self now) as [Hin | Hout].
  - rewrite filter_recent_in_window in Hrun by exact Hin.
    injection Hrun as <-. split; [exact Hin | reflexivity].
  - destruct (filter_recent_raises self now events Hout) as [msg Hraise].
    congruence.
Qed.

(** What [analyze_events] answers when the filter raises. *)
Lemma analyze_events_error self order now now' events e :
  _filter_recent_events self now events = inl e ->
  analyze_events self order now now' events
  = ({| is_threat := false; threat_score := 0; affected_files := [];
        detection_reason := "Analysis error: " +:+ str_exn e;
        result_timestamp := now' |},
     [(Error, "Error during threat analysis: " +:+ str_exn e)]).
Proof.
  intros Hraise. unfold analyze_events, analyze_events_body.
  rewrite Hraise. reflexivity.
Qed.

Lemma rate_score_count self events :
  fst (_check_modification_rate self events)
  = rate_subscore (detection_threshold self)
                  (count_if created_or_modified events).
Proof.
  unfold _check_modification_rate, rate_subscore.
  rewrite (filter_ext _ created_or_modified)
    by (intros; apply str_in_created_or_modified).
  rewrite len_filter_count.
  destruct (_ <=? _); cbn [fst]; [| reflexivity].
  f_equal. lia.
Qed.


(** C2. The rate sub-score of a batch is [min (30 + 5 (n - threshold)) 50]
    when the number [n] of its created or modified events reaches the
    detection threshold and 0 otherwise; inside [analyze_events] the batch
    is what [_filter_recent_events] returns, the events in the window, so
    that [n] counts the created or modified events of the window; the
    filter returns whenever the window can be taken off the clock
    reading. With a threshold of 5 and seven modify events the sub-score
    is 40. *)
Theorem C2_rate_subscore :
  (forall self events,
      fst (_check_modification_rate self events)
      = rate_subscore (detection_threshold self)
                      (count_if created_or_modified events))
  /\ (forall self now events recent,
      _filter_recent_events self now events = inr recent ->
      fst (_check_modification_rate self recent)
      = rate_subscore (detection_threshold self)
          (count_if (fun e => in_window self now e && created_or_modified e)
                    events))
  /\ (forall self now events,
      window_in_range self now ->
      exists recent, _filter_recent_events self now events = inr recent)
  /\ rate_subscore 5 7 = 40
  /\ (exists recent,
        _filter_recent_events (init 5 10 None) (at_second 1) seven_modified
        = inr recent
        /\ fst (_check_modification_rate (init 5 10 None) recent) = 40).
Proof.
  split; [exact rate_score_count |].
  split; [| split; [| split; [reflexivity | eexists; split; reflexivity]]].
  - intros self now events recent Hrun.
    apply filter_recent_returns in Hrun as [_ ->].
    rewrite rate_score_count.
    rewrite <- !len_filter_count, filter_filter. reflexivity.
  - intros self now events Hrange. eexists.
    apply filter_recent_in_window, Hrange.
Qed.

Lemma matches_extension_spec configured path :
  matches_extension (map lower configured) (lower path)
  = existsb (ends_with_ignoring_case path) configured.
Proof.
  induction configured as [| ext rest IH]; [reflexivity |].
  cbn [map matches_extension existsb]. unfold ends_with_ignoring_case at 1.
  destruct (endswith (lower path) (lower ext)); [reflexivity | exact IH].
Qed.

Lemma collect_suspicious_filter self events acc :
  collect_suspicious self events acc
  = acc ++ map file_path
             (List.filter
                (fun e => created_or_modified e
                          && matches_extension (suspicious_extensions self)
                                               (lower (file_path e)))
                events).
Proof.
  revert acc. induction events as [| e rest IH]; intros acc.
  - cbn. rewrite app_nil_r. reflexivity.
  - cbn [collect_suspicious List.filter].
    rewrite str_in_created_or_modified.
    destruct (created_or_modified e); cbn [andb]; [| apply IH].
    destruct (matches_extension _ _); [| apply IH].
    rewrite IH. cbn [map]. rewrite <- app_assoc. reflexivity.
Qed.

Lemma extension_score_count self events :
  fst (_check_suspicious_extensions self events)
  = extension_subscore
      (count_if (fun e => created_or_modified e
                          && matches_extension (suspicious_extensions self)
                                               (lower (file_path e)))
                events).
Proof.
  unfold _check_suspicious_extensions, extension_subscore.
  rewrite collect_suspicious_filter. cbn [app].
  rewrite <- len_filter_count.
  destruct (List.filter _ events) as [| e l] eqn:Hf; [reflexivity |].
  cbn [map fst]. unfold len. cbn [List.length]. rewrite length_map.
  destruct (Z.ltb_spec 0 (Z.of_nat (S (List.length l)))); [| lia].
  f_equal. lia.
Qed.

Lemma extension_score_of_list threshold window extensions events :
  fst (_check_suspicious_extensions (init threshold window extensions) events)
  = extension_subscore
      (count_if
         (fun e => created_or_modified e
                   && existsb (ends_with_ignoring_case (file_path e))
                        (match extensions with
                         | Some (ext :: rest) => ext :: rest
                         | _ => [".encrypted"; ".locked"; ".crypto";
                                 ".crypt"; ".enc"; ".vault"]
                         end))
         events).
Proof.
  rewrite extension_score_count. f_equal.
  induction events as [| e rest IH]; [reflexivity |].
  cbn [count_if]. rewrite IH. f_equal. f_equal.
  cbn [init suspicious_extensions].
  rewrite matches_extension_spec.
  destruct extensions as [[| ext l] |]; reflexivity.
Qed.

(** C3. The extension sub-score is [min (40 + 10 m) 60] when the number [m]
    of created or modified events whose path ends, letter case apart, with
    one of the configured extensions is positive, and 0 otherwise: a
    detector made with a list of extensions that is not empty counts with
    that list; one made with no list or with an empty one counts with the
    six extensions [.encrypted], [.locked], [.crypto], [.crypt], [.enc]
    and [.vault]. Two files that end with [.locked], whatever the case,
    give 60; with [.Locked] as the one configured extension a file that
    ends with [.encrypted] is not counted. *)
Theorem C3_extension_subscore :
  (forall threshold window ext rest events,
      fst (_check_suspicious_extensions
             (init threshold window (Some (ext :: rest))) events)
      = extension_subscore
          (count_if
             (fun e => created_or_modified e
                       && has_suspicious_extension (ext :: rest) e)
             events))
  /\ (forall threshold window extensions events,
        extensions = None \/ extensions = Some [] ->
        fst (_check_suspicious_extensions
               (init threshold window extensions) events)
        = extension_subscore
            (count_if
               (fun e => created_or_modified e
                         && has_suspicious_extension
                              [".encrypted"; ".locked"; ".crypto"; ".crypt";
                               ".enc"; ".vault"] e)
               events))
  /\ extension_subscore 2 = 60
  /\ fst (_check_suspicious_extensions (init 5 10 (Some [".Locked"]))
            [event_at 1 "/data/report.LOCKED" "modified" 10;
             event_at 2 "/data/notes.encrypted" "modified" 10;
             event_at 3 "/data/photo.jpg.Locked" "created" 10])
     = 60
  /\ fst (_check_suspicious_extensions (init 5 10 (Some [".Locked"]))
            [event_at 2 "/data/notes.encrypted" "modified" 10])
     = 0
  /\ fst (_check_suspicious_extensions (init 5 10 None)
            [event_at 1 "/data/report.LOCKED" "modified" 10;
             event_at 2 "/data/notes.txt" "modified" 10;
             event_at 3 "/data/photo.jpg.Locked" "created" 10])
     = 60.
Proof.
  split; [| split; [| repeat split; reflexivity]].
  - intros threshold window ext rest events.
    apply (extension_score_of_list threshold window (Some (ext :: rest))).
  - intros threshold window extensions events [-> | ->];
      apply extension_score_of_list.
Qed.

(** *** The growth heuristic *)

Lemma insert_by_timestamp_Forall (P : FileEvent -> Prop) x l :
  P x -> Forall P l -> Forall P (insert_by_timestamp x l).
Proof.
  intros Hx Hl. induction Hl as [| y l Hy Hl IH]; cbn [insert_by_timestamp].
  - repeat constructor; assumption.
  - destruct (_ <=? _); repeat constructor; assumption.
Qed.

Lemma sort_by_timestamp_Forall (P : FileEvent -> Prop) l :
  Forall P l -> Forall P (sort_by_timestamp l).
Proof.
  induction 1 as [| x l Hx Hl IH]; cbn [sort_by_timestamp].
  - constructor.
  - apply insert_by_timestamp_Forall; assumption.
Qed.

(** [sort_by_timestamp] is a sort: it permutes its argument and puts the
    timestamps in order. *)
Lemma insert_by_timestamp_perm x l :
  Permutation (insert_by_timestamp x l) (x :: l).
Proof.
  induction l as [| y l IH]; cbn [insert_by_timestamp]; [reflexivity |].
  destruct (_ <=? _); [reflexivity |].
  rewrite IH. apply perm_swap.
Qed.

Lemma sort_by_timestamp_perm l : Permutation (sort_by_timestamp l) l.
Proof.
  induction l as [| x l IH]; cbn [sort_by_timestamp]; [reflexivity |].
  rewrite insert_by_timestamp_perm, IH. reflexivity.
Qed.

Lemma sort_by_timestamp_sorted l :
  StronglySorted (fun a b => timestamp a <= timestamp b)
                 (sort_by_timestamp l).
Proof.
  induction l as [| x l IH]; cbn [sort_by_timestamp]; [constructor |].
  induction IH as [| y sorted Hl IHl Hy]; cbn [insert_by_timestamp].
  - repeat constructor.
  - destruct (Z.leb_spec (timestamp x) (timestamp y)) as [Hle | Hlt].
    + constructor; [constructor; assumption |].
      constructor; [exact Hle |].
      eapply Forall_impl; [exact Hy |]. cbn. intros z Hz. lia.
    + constructor; [exact IHl |].
      apply List.Forall_forall. intros z Hz.
      apply (Permutation_in _ (insert_by_timestamp_perm x sorted)) in Hz.
      destruct Hz as [<- | Hz]; [lia |].
      rewrite List.Forall_forall in Hy. auto.
Qed.

Lemma filter_Forall {A} (P : A -> Prop) (p : A -> bool) l :
  Forall P l -> Forall P (List.filter p l).
Proof.
  induction 1 as [| x l Hx Hl IH]; cbn [List.filter]; [constructor |].
  destruct (p x); [constructor |]; assumption.
Qed.

(** The loop over consecutive pairs does not raise when the quotients are
    finite binary64 numbers, and it stops at the first pair that passes the
    binary64 test. *)
Lemma scan_size_increase_exceeds l :
  Forall (fun e => file_size e < 2 ^ 1000) l ->
  scan_size_increase l
  = inr (existsb (fun '(a, b) => (0 <? file_size a)
                                 && (file_size a <? file_size b)
                                 && exceeds_1_2 (file_size b) (file_size a))
                 (consecutive_pairs l)).
Proof.
  induction 1 as [| prev l Hprev Hl IH]; [reflexivity |].
  destruct Hl as [| curr l Hcurr Hl]; [reflexivity |].
  change (scan_size_increase (prev :: curr :: l)) with
    (if (0 <? file_size prev) && (file_size prev <? file_size curr) then
       match truediv (file_size curr) (file_size prev) with
       | inl e => inl e
       | inr ratio =>
           if float_gt ratio float_1_2 then inr true
           else scan_size_increase (curr :: l)
       end
     else scan_size_increase (curr :: l)).
  change (consecutive_pairs (prev :: curr :: l))
    with ((prev, curr) :: consecutive_pairs (curr :: l)).
  cbn [existsb].
  destruct (Z.ltb_spec 0 (file_size prev)) as [Hpos | Hneg];
    [| cbn [andb orb]; exact IH].
  destruct (Z.ltb_spec (file_size prev) (file_size curr)) as [Hlt | Hge];
    [| cbn [andb orb]; exact IH].
  cbn [andb].
  destruct (truediv_gt_1_2 (file_size curr) (file_size prev))
    as (f & -> & ->); [lia | assumption |].
  destruct (exceeds_1_2 _ _); [reflexivity | exact IH].
Qed.

Lemma scan_size_increase_spec l :
  Forall (fun e => file_size e < 2 ^ 63) l ->
  scan_size_increase l
  = inr (existsb (fun '(a, b) =>
                    grew_over_20_percent exceeds_1_2 (file_size a)
                                         (file_size b))
                 (consecutive_pairs l)).
Proof.
  intros Hl. rewrite scan_size_increase_exceeds.
  2: { eapply Forall_impl; [exact Hl |]. cbn. intros e He.
       assert (2 ^ 63 < 2 ^ 1000) by (apply Z.pow_lt_mono_r; lia). lia. }
  f_equal. clear Hl.
  induction l as [| prev l IH]; [reflexivity |].
  destruct l as [| curr l]; [reflexivity |].
  change (consecutive_pairs (prev :: curr :: l))
    with ((prev, curr) :: consecutive_pairs (curr :: l)).
  cbn [existsb]. rewrite IH. f_equal.
  unfold grew_over_20_percent.
  destruct (Z.ltb_spec 0 (file_size prev)) as [Hpos | Hneg]; [| reflexivity].
  cbn [andb].
  destruct (exceeds_1_2 (file_size curr) (file_size prev)) eqn:Hex;
    [| apply andb_false_r].
  apply exceeds_1_2_gt in Hex; [| assumption].
  destruct (Z.ltb_spec (file_size prev) (file_size curr)); [reflexivity | lia].
Qed.

(** Below 2^51 bytes the two readings of the comparison mark the same
    pairs. *)
Lemma grew_readings_agree l :
  Forall (fun e => file_size e < 2 ^ 51) l ->
  existsb (fun '(a, b) =>
             grew_over_20_percent exceeds_1_2 (file_size a) (file_size b))
          (consecutive_pairs l)
  = existsb (fun '(a, b) =>
               grew_over_20_percent exceeds_6_5 (file_size a) (file_size b))
            (consecutive_pairs l).
Proof.
  induction 1 as [| prev l Hprev Hl IH]; [reflexivity |].
  destruct Hl as [| curr l Hcurr Hl]; [reflexivity |].
  change (consecutive_pairs (prev :: curr :: l))
    with ((prev, curr) :: consecutive_pairs (curr :: l)).
  cbn [existsb]. rewrite IH. f_equal.
  unfold grew_over_20_percent.
  destruct (Z.ltb_spec 0 (file_size prev)) as [Hpos | Hneg]; [| reflexivity].
  cbn [andb]. apply exceeds_1_2_exact. lia.
Qed.

Lemma str_in_In x l : str_in x l = true <-> In x l.
Proof.
  unfold str_in. rewrite existsb_exists. split.
  - intros (y & Hy & Heq). apply String.eqb_eq in Heq. subst. assumption.
  - intros Hx. exists x. split; [assumption | apply String.eqb_refl].
Qed.

Lemma distinct_snoc l x :
  distinct (l ++ [x])
  = if str_in x (distinct l) then distinct l else distinct l ++ [x].
Proof. unfold distinct. rewrite fold_left_app. reflexivity. Qed.

Lemma distinct_NoDup l : List.NoDup (distinct l).
Proof.
  induction l as [| x l IH] using rev_ind; [constructor |].
  rewrite distinct_snoc.
  destruct (str_in x (distinct l)) eqn:Hin; [assumption |].
  apply (Permutation.Permutation_NoDup (l := x :: distinct l)).
  - apply Permutation.Permutation_cons_append.
  - constructor; [| assumption].
    intros Hx. apply str_in_In in Hx. congruence.
Qed.

Lemma distinct_In x l : In x (distinct l) <-> In x l.
Proof.
  induction l as [| y l IH] using rev_ind; [reflexivity |].
  rewrite distinct_snoc, in_app_iff. cbn [In].
  destruct (str_in y (distinct l)) eqn:Hin.
  - apply str_in_In in Hin. rewrite IH in *. intuition (subst; auto).
  - rewrite in_app_iff. cbn [In]. rewrite IH. reflexivity.
Qed.

Lemma modified_events_of_snoc path l e :
  modified_events_of path (l ++ [e])
  = modified_events_of path l
    ++ (if is_modified e && String.eqb (file_path e) path then [e] else []).
Proof.
  unfold modified_events_of. rewrite List.filter_app. cbn [List.filter].
  destruct (_ && _); reflexivity.
Qed.

Lemma modified_events_of_absent path l :
  ~ In path (map file_path (List.filter is_modified l)) ->
  modified_events_of path l = [].
Proof.
  unfold modified_events_of.
  induction l as [| e l IH]; [reflexivity |].
  cbn [List.filter]. destruct (is_modified e) eqn:Hm; cbn [andb map In].
  - intros Hn. destruct (String.eqb_spec (file_path e) path) as [Heq | Hne].
    + exfalso. apply Hn. left. assumption.
    + apply IH. intros Hin. apply Hn. right. assumption.
  - exact IH.
Qed.

(** Appending to an entry of the dict, the dict being given by its keys. *)
Lemma dict_append_map (g : string -> list FileEvent) keys k e :
  List.NoDup keys ->
  dict_append (map (fun p => (p, g p)) keys) k e
  = map (fun p => (p, g p ++ (if String.eqb k p then [e] else []))) keys
    ++ (if str_in k keys then [] else [(k, [e])]).
Proof.
  induction 1 as [| p keys Hp Hnd IH]; [reflexivity |].
  cbn [map dict_append]. unfold str_in. cbn [existsb].
  rewrite (String.eqb_sym k p).
  destruct (String.eqb_spec p k) as [-> | Hne]; cbn [orb].
  - rewrite app_nil_r. f_equal.
    apply map_ext_in. intros p Hin.
    destruct (String.eqb_spec k p) as [-> | _]; [contradiction |].
    rewrite app_nil_r. reflexivity.
  - rewrite app_nil_r. fold (str_in k keys). rewrite IH. reflexivity.
Qed.

Lemma group_modified_spec events :
  group_modified events
  = map (fun p => (p, modified_events_of p events))
        (distinct (map file_path (List.filter is_modified events))).
Proof.
  unfold group_modified.
  induction events as [| e l IH] using rev_ind; [reflexivity |].
  rewrite fold_left_app. cbn [fold_left]. rewrite IH. clear IH.
  rewrite List.filter_app, List.map_app. cbn [List.filter].
  fold (is_modified e).
  destruct (is_modified e) eqn:Hm.
  - cbn [map]. rewrite distinct_snoc.
    rewrite dict_append_map by apply distinct_NoDup.
    set (keys := distinct (map file_path (List.filter is_modified l))).
    assert (Hmap :
      map (fun p => (p, modified_events_of p (l ++ [e]))) keys
      = map (fun p => (p, modified_events_of p l
                          ++ (if String.eqb (file_path e) p then [e] else [])))
            keys).
    { apply map_ext. intros p. rewrite modified_events_of_snoc, Hm.
      reflexivity. }
    destruct (str_in (file_path e) keys) eqn:Hin.
    + rewrite app_nil_r. symmetry. exact Hmap.
    + rewrite List.map_app, Hmap. f_equal. cbn [map].
      rewrite modified_events_of_snoc, Hm, String.eqb_refl. cbn [andb].
      rewrite modified_events_of_absent; [reflexivity |].
      intros Hp. apply distinct_In in Hp. apply str_in_In in Hp.
      fold keys in Hp. congruence.
  - cbn [map]. rewrite app_nil_r. apply map_ext. intros p.
    rewrite modified_events_of_snoc, Hm. cbn [andb].
    rewrite app_nil_r. reflexivity.
Qed.

(** [sort_by_timestamp] keeps the events of one timestamp in the order
    they have. *)
Lemma insert_by_timestamp_filter t x l :
  List.filter (fun e => timestamp e =? t) (insert_by_timestamp x l)
  = List.filter (fun e => timestamp e =? t) (x :: l).
Proof.
  induction l as [| y l IH]; [reflexivity |].
  cbn [insert_by_timestamp].
  destruct (Z.leb_spec (timestamp x) (timestamp y)) as [Hle | Hlt];
    [reflexivity |].
  cbn [List.filter] in *. rewrite IH.
  destruct (Z.eqb_spec (timestamp x) t), (Z.eqb_spec (timestamp y) t);
    try reflexivity.
  lia.
Qed.

Lemma sort_by_timestamp_filter t l :
  List.filter (fun e => timestamp e =? t) (sort_by_timestamp l)
  = List.filter (fun e => timestamp e =? t) l.
Proof.
  induction l as [| x l IH]; [reflexivity |].
  cbn [sort_by_timestamp]. rewrite insert_by_timestamp_filter.
  cbn [List.filter]. rewrite IH. reflexivity.
Qed.

Lemma sort_by_timestamp_stable l :
  sorted_by_timestamp l (sort_by_timestamp l).
Proof.
  split; [apply sort_by_timestamp_sorted | intros t; apply sort_by_timestamp_filter].
Qed.

Lemma filter_timestamp_head (a : FileEvent) r :
  List.filter (fun e => timestamp e =? timestamp a) (a :: r)
  = a :: List.filter (fun e => timestamp e =? timestamp a) r.
Proof. cbn [List.filter]. rewrite Z.eqb_refl. reflexivity. Qed.

(** Two lists in ascending order that agree timestamp by timestamp are
    the same list. *)
Lemma ascending_unique l1 : forall l2,
  StronglySorted (fun a b => timestamp a <= timestamp b) l1 ->
  StronglySorted (fun a b => timestamp a <= timestamp b) l2 ->
  (forall t, List.filter (fun e => timestamp e =? t) l1
             = List.filter (fun e => timestamp e =? t) l2) ->
  l1 = l2.
Proof.
  induction l1 as [| a r1 IH]; intros [| b r2] H1 H2 Hsame.
  - reflexivity.
  - specialize (Hsame (timestamp b)). rewrite filter_timestamp_head in Hsame.
    discriminate.
  - specialize (Hsame (timestamp a)). rewrite filter_timestamp_head in Hsame.
    discriminate.
  - apply StronglySorted_inv in H1 as [H1 Ha].
    apply StronglySorted_inv in H2 as [H2 Hb].
    rewrite List.Forall_forall in Ha, Hb.
    assert (Hab : timestamp a <= timestamp b).
    { assert (Hin : In b (a :: r1)).
      { eapply (proj1 (filter_In _ _ _)). rewrite (Hsame (timestamp b)).
        rewrite filter_timestamp_head. left. reflexivity. }
      destruct Hin as [<- | Hin]; [lia | auto]. }
    assert (Hba : timestamp b <= timestamp a).
    { assert (Hin : In a (b :: r2)).
      { eapply (proj1 (filter_In _ _ _)). rewrite <- (Hsame (timestamp a)).
        rewrite filter_timestamp_head. left. reflexivity. }
      destruct Hin as [<- | Hin]; [lia | auto]. }
    assert (Heq : a = b).
    { pose proof (Hsame (timestamp a)) as Hhead.
      rewrite filter_timestamp_head in Hhead. cbn [List.filter] in Hhead.
      destruct (Z.eqb_spec (timestamp b) (timestamp a)); [| lia].
      injection Hhead as Hhead _. exact Hhead. }
    subst b. f_equal. apply IH; [assumption | assumption |].
    intros t. specialize (Hsame t). cbn [List.filter] in Hsame.
    destruct (timestamp a =? t); [injection Hsame as Hsame |]; exact Hsame.
Qed.

Lemma sorted_by_timestamp_unique group sorted :
  sorted_by_timestamp group sorted -> sorted = sort_by_timestamp group.
Proof.
  intros [Hsorted Hsame]. apply ascending_unique.
  - exact Hsorted.
  - apply sort_by_timestamp_sorted.
  - intros t. rewrite Hsame, sort_by_timestamp_filter. reflexivity.
Qed.

Lemma short_list_no_pairs (l : list FileEvent) :
  (2 <=? len l) = false -> consecutive_pairs (sort_by_timestamp l) = [].
Proof.
  destruct l as [| a [| b l]]; try reflexivity.
  unfold len. cbn [List.length]. intros H.
  apply Z.leb_gt in H. lia.
Qed.

Lemma collect_growing_spec events sorted_group keys acc :
  Forall (fun e => file_size e < 2 ^ 63) events ->
  (forall p, sorted_group p = sort_by_timestamp (modified_events_of p events)) ->
  collect_growing (map (fun p => (p, modified_events_of p events)) keys) acc
  = inr (acc ++ List.filter (path_is_suspicious exceeds_1_2 sorted_group) keys).
Proof.
  intros Hsz Hsorted. revert acc.
  induction keys as [| p keys IH]; intros acc.
  - cbn. rewrite app_nil_r. reflexivity.
  - cbn [map collect_growing List.filter].
    unfold path_is_suspicious at 1. rewrite Hsorted.
    destruct (2 <=? len (modified_events_of p events)) eqn:Hlen.
    + rewrite scan_size_increase_spec
        by (apply sort_by_timestamp_Forall, filter_Forall, Hsz).
      fold (some_pair_grew exceeds_1_2
              (sort_by_timestamp (modified_events_of p events))).
      destruct (some_pair_grew exceeds_1_2 _).
      * rewrite IH, <- app_assoc. reflexivity.
      * apply IH.
    + unfold some_pair_grew.
      rewrite short_list_no_pairs by assumption. cbn [existsb]. apply IH.
Qed.

Lemma growth_check_marks events sorted_group :
  Forall (fun e => file_size e < 2 ^ 63) events ->
  (forall p, sorted_group p = sort_by_timestamp (modified_events_of p events)) ->
  _check_file_size_changes events
  = inr (growth_subscore
           (len (suspicious_paths exceeds_1_2 sorted_group events)),
         suspicious_paths exceeds_1_2 sorted_group events).
Proof.
  intros Hsz Hsorted. unfold _check_file_size_changes.
  rewrite group_modified_spec, (collect_growing_spec _ sorted_group)
    by assumption.
  cbn [app]. fold (suspicious_paths exceeds_1_2 sorted_group events).
  destruct (suspicious_paths exceeds_1_2 sorted_group events) as [| p l];
    [reflexivity |].
  unfold growth_subscore, len. cbn [List.length].
  destruct (Z.ltb_spec 0 (Z.of_nat (S (List.length l)))); [| lia].
  do 2 f_equal. lia.
Qed.

Lemma suspicious_paths_readings_agree events sorted_group :
  Forall (fun e => file_size e < 2 ^ 51) events ->
  (forall p, sorted_group p = sort_by_timestamp (modified_events_of p events)) ->
  suspicious_paths exceeds_1_2 sorted_group events
  = suspicious_paths exceeds_6_5 sorted_group events.
Proof.
  intros Hsz Hsorted. unfold suspicious_paths. apply filter_ext. intros p.
  unfold path_is_suspicious, some_pair_grew. rewrite Hsorted.
  apply grew_readings_agree, sort_by_timestamp_Forall, filter_Forall, Hsz.
Qed.

(** C4. For a batch whose file sizes are below 2^63 bytes, the growth
    sub-score groups the modified events by path, sorts each group by
    timestamp, events of one timestamp staying in their order of arrival,
    and marks a path, once, when some consecutive pair of the sorted group
    has a positive previous size and current / previous > 1.2, the
    comparison being the one of binary64 numbers; with [k] marked paths
    the sub-score is [min (20 + 5 k) 30] for positive [k], else 0, and no
    exception is raised. [sorted_group] is any function that gives, for
    each path, its modified events sorted in that way. When the sizes are
    below 2^51 bytes the marked paths are those of the comparison on
    rational numbers, 5 current > 6 previous. *)
Theorem C4_growth_subscore events sorted_group :
  Forall (fun e => file_size e < 2 ^ 63) events ->
  (forall path,
      sorted_by_timestamp (modified_events_of path events)
                          (sorted_group path)) ->
  _check_file_size_changes events
  = inr (growth_subscore
           (len (suspicious_paths exceeds_1_2 sorted_group events)),
         suspicious_paths exceeds_1_2 sorted_group events)
  /\ List.NoDup (suspicious_paths exceeds_1_2 sorted_group events)
  /\ (Forall (fun e => file_size e < 2 ^ 51) events ->
      suspicious_paths exceeds_1_2 sorted_group events
      = suspicious_paths exceeds_6_5 sorted_group events).
Proof.
  intros Hsz Hgroups.
  assert (Hsorted : forall p, sorted_group p
                              = sort_by_timestamp (modified_events_of p events))
    by (intros p; apply sorted_by_timestamp_unique, Hgroups).
  split; [| split].
  - apply growth_check_marks; assumption.
  - apply List.NoDup_filter, distinct_NoDup.
  - intros Hsmall. apply suspicious_paths_readings_agree; assumption.
Qed.

Lemma group_of_a_doc_sorted events sorted :
  Forall (fun e => is_modified e = true /\ file_path e = "/data/a.doc")
         events ->
  sorted_by_timestamp events sorted ->
  forall path,
    sorted_by_timestamp (modified_events_of path events)
                        (group_of_a_doc sorted path).
Proof.
  intros Hall Hsorted path. unfold group_of_a_doc, modified_events_of.
  destruct (String.eqb_spec "/data/a.doc" path) as [<- | Hne].
  - rewrite filter_all; [exact Hsorted |].
    rewrite List.Forall_forall in Hall. intros e He.
    destruct (Hall e He) as [-> ->]. reflexivity.
  - rewrite filter_none; [split; [constructor | reflexivity] |].
    rewrite List.Forall_forall in Hall. intros e He.
    destruct (Hall e He) as [-> ->]. cbn [andb].
    apply String.eqb_neq. exact Hne.
Qed.

(** A file growing from 100 to 130 bytes between two modify events is
    marked, also when the later event arrives first and when the two
    events have one timestamp; one growing from 100 to 110 bytes is not. *)
Lemma C4_growth_subscore_witness :
  _check_file_size_changes late_arrival = inr (25, ["/data/a.doc"])
  /\ _check_file_size_changes
       [event_at (at_second 1) "/data/a.doc" "modified" 100;
        event_at (at_second 1) "/data/a.doc" "modified" 130]
     = inr (25, ["/data/a.doc"])
  /\ _check_file_size_changes
       [event_at (at_second 1) "/data/a.doc" "modified" 100;
        event_at (at_second 2) "/data/a.doc" "modified" 110]
     = inr (0, []).
Proof.
  split; [| split].
  - apply (C4_growth_subscore late_arrival (group_of_a_doc in_time_order)).
    + repeat constructor.
    + apply group_of_a_doc_sorted; [repeat constructor |].
      split; [repeat constructor; discriminate |].
      intros t. unfold late_arrival, in_time_order. cbn [List.filter event_at timestamp].
      destruct (Z.eqb_spec (at_second 2) t), (Z.eqb_spec (at_second 1) t);
        try reflexivity.
      subst t. discriminate.
  - apply (C4_growth_subscore
             [event_at (at_second 1) "/data/a.doc" "modified" 100;
              event_at (at_second 1) "/data/a.doc" "modified" 130]
             (group_of_a_doc
                [event_at (at_second 1) "/data/a.doc" "modified" 100;
                 event_at (at_second 1) "/data/a.doc" "modified" 130])).
    + repeat constructor.
    + apply group_of_a_doc_sorted; [repeat constructor |].
      split; [repeat constructor; discriminate | reflexivity].
  - apply (C4_growth_subscore
             [event_at (at_second 1) "/data/a.doc" "modified" 100;
              event_at (at_second 2) "/data/a.doc" "modified" 110]
             (group_of_a_doc
                [event_at (at_second 1) "/data/a.doc" "modified" 100;
                 event_at (at_second 2) "/data/a.doc" "modified" 110])).
    + repeat constructor.
    + apply group_of_a_doc_sorted; [repeat constructor |].
      split; [repeat constructor; discriminate | reflexivity].
Defined.

(** *** The verdict *)

Lemma rate_score_range self events :
  0 <= fst (_check_modification_rate self events) <= 50.
Proof.
  rewrite rate_score_count. unfold rate_subscore.
  destruct (Z.leb_spec (detection_threshold self)
                       (count_if created_or_modified events)); lia.
Qed.

Lemma extension_score_range self events :
  0 <= fst (_check_suspicious_extensions self events) <= 60.
Proof.
  rewrite extension_score_count. unfold extension_subscore.
  match goal with |- context [count_if ?p ?l] =>
    pose proof (count_if_nonneg p l); destruct (Z.ltb_spec 0 (count_if p l))
  end; lia.
Qed.

Lemma collect_growing_total d acc :
  Forall (fun entry => Forall (fun e => file_size e < 2 ^ 1000) (snd entry)) d ->
  exists files, collect_growing d acc = inr files.
Proof.
  intros Hd. revert acc.
  induction Hd as [| [p l] d Hl Hd IH]; intros acc.
  - exists acc. reflexivity.
  - cbn [collect_growing]. cbn [snd] in Hl.
    destruct (2 <=? len l); [| apply IH].
    rewrite scan_size_increase_exceeds
      by (apply sort_by_timestamp_Forall, Hl).
    destruct (existsb _ _); apply IH.
Qed.

(** With sizes that a file system can report, the growth check returns a
    score and does not raise. *)
Lemma growth_score_total events :
  Forall (fun e => file_size e < 2 ^ 63) events ->
  exists growth files,
    _check_file_size_changes events = inr (growth, files)
    /\ 0 <= growth <= 30.
Proof.
  intros Hsz. unfold _check_file_size_changes.
  destruct (collect_growing_total (group_modified events) []) as [files ->].
  - rewrite group_modified_spec. apply List.Forall_forall.
    intros entry Hin. apply in_map_iff in Hin as (p & <- & _). cbn [snd].
    apply filter_Forall. eapply Forall_impl; [exact Hsz |].
    cbn. intros e He.
    assert (2 ^ 63 < 2 ^ 1000) by (apply Z.pow_lt_mono_r; lia). lia.
  - destruct files as [| p l].
    + exists 0, []. split; [reflexivity | lia].
    + eexists _, _. split; [reflexivity |]. unfold len. lia.
Qed.

(** The verdict on the events that the filter returned. *)
Lemma analyze_events_verdict self order now now' events recent growth files :
  0 < detection_threshold self ->
  _filter_recent_events self now events = inr recent ->
  _check_file_size_changes recent = inr (growth, files) ->
  let result := fst (analyze_events self order now now' events) in
  let total := fst (_check_modification_rate self recent)
               + fst (_check_suspicious_extensions self recent) + growth in
  threat_score result = Z.min total 100
  /\ is_threat result = (50 <=? total).
Proof.
  intros Hthr Hrun Hg. cbv zeta.
  unfold analyze_events, analyze_events_body. rewrite Hrun.
  destruct recent as [| e rest].
  - cbn [fst threat_score is_threat].
    unfold _check_file_size_changes in Hg. cbn in Hg.
    injection Hg as <- _.
    assert (Hzero : fst (_check_modification_rate self []) = 0).
    { rewrite rate_score_count. unfold rate_subscore. cbn [count_if].
      destruct (Z.leb_spec (detection_threshold self) 0);
        [lia | reflexivity]. }
    rewrite Hzero. split; reflexivity.
  - rewrite Hg.
    destruct (_check_modification_rate self (e :: rest)) as [ms mf].
    destruct (_check_suspicious_extensions self (e :: rest)) as [es ef].
    cbn [fst threat_score is_threat]. split; reflexivity.
Qed.

(** C1 (amended). With a positive detection threshold and file sizes below
    2^63: when the window can be taken off the clock reading, that is when
    it does not reach back before year 1, [analyze_events] returns a result
    whose score is the sum of the rate, extension and growth sub-scores of
    the events in the window, capped at 100, hence between 0 and 100, and
    whose [is_threat] flag holds exactly when that sum is at least 50; with
    any other window the result has score 0 and reports no threat,
    whatever the events. No response threshold enters the analysis. *)
Theorem C1_analyze_events_score self order now now' events :
  0 < detection_threshold self ->
  Forall (fun e => file_size e < 2 ^ 63) events ->
  let recent := List.filter (in_window self now) events in
  let result := fst (analyze_events self order now now' events) in
  (window_in_range self now ->
   exists growth files,
     _check_file_size_changes recent = inr (growth, files)
     /\ let total := fst (_check_modification_rate self recent)
                     + fst (_check_suspicious_extensions self recent)
                     + growth in
        threat_score result = Z.min total 100
        /\ 0 <= threat_score result <= 100
        /\ is_threat result = (50 <=? total))
  /\ (~ window_in_range self now ->
      threat_score result = 0 /\ is_threat result = false).
Proof.
  intros Hthr Hsz recent result. split.
  - intros Hrange.
    destruct (growth_score_total recent) as (growth & files & Hg & Hgrowth).
    { apply filter_Forall, Hsz. }
    exists growth, files. split; [exact Hg |].
    pose proof (rate_score_range self recent) as Hrate.
    pose proof (extension_score_range self recent) as Hext.
    destruct (analyze_events_verdict self order now now' events recent
                growth files Hthr
                (filter_recent_in_window self now events Hrange) Hg)
      as [Hscore Hthreat].
    cbv zeta. fold result in Hscore, Hthreat.
    rewrite Hscore. split; [reflexivity |]. split; [lia | exact Hthreat].
  - intros Hout.
    destruct (filter_recent_raises self now events Hout) as [msg Hraise].
    unfold result.
    rewrite (analyze_events_error self order now now' events _ Hraise).
    split; reflexivity.
Qed.

(** Six files renamed to [.encrypted], looked at by the detector of the
    defaults at the sixth second: score 95, a threat. *)
Lemma C1_analyze_events_score_witness :
  let result :=
    fst (analyze_events (init 5 10 None) (fun l => l)
                        (at_second 6) (at_second 7) six_encrypted) in
  threat_score result = 95 /\ is_threat result = true.
Proof.
  destruct (C1_analyze_events_score (init 5 10 None) (fun l => l)
              (at_second 6) (at_second 7) six_encrypted)
    as [Hin _].
  - reflexivity.
  - repeat constructor.
  - destruct Hin as (growth & files & Hg & Hscore & _ & Hthreat).
    + vm_compute. repeat split; discriminate.
    + vm_compute in Hg. injection Hg as <- <-.
      cbv zeta. rewrite Hscore, Hthreat. split; reflexivity.
Defined.

(** C1 as it was stated fails for a window that reaches back before year
    1: with a window of 64 thousand million seconds, which is a positive
    integer, the six renamed files are all in the window and their
    sub-scores add up to 95, but the subtraction of the window from the
    clock reading raises, and the result has score 0 and reports no
    threat. *)
Lemma C1_window_before_year_one :
  let self := init 5 window_past_year_one None in
  let result :=
    fst (analyze_events self (fun l => l) (at_second 6) (at_second 7)
                        six_encrypted) in
  List.filter (in_window self (at_second 6)) six_encrypted = six_encrypted
  /\ fst (_check_modification_rate self six_encrypted)
     + fst (_check_suspicious_extensions self six_encrypted) = 95
  /\ _check_file_size_changes six_encrypted = inr (0, [])
  /\ threat_score result = 0
  /\ is_threat result = false
  /\ detection_reason result = "Analysis error: date value out of range".
Proof. vm_compute. repeat split; reflexivity. Qed.

End DetectionFacts.

(** ** The state-and-error computations *)

Module MonadFacts.
Import Py Os.

Section Laws.
Context {S : Type}.

Lemma bind_unfold {A B} (c : M S A) (k : A -> M S B) s :
  (c ≫= k) s
  = match c s with
    | (inl e, s') => (inl e, s')
    | (inr a, s') => k a s'
    end.
Proof. reflexivity. Qed.

Lemma bind_inr {A B} (c : M S A) (k : A -> M S B) s a s1 :
  c s = (inr a, s1) -> (c ≫= k) s = k a s1.
Proof. intros H. rewrite bind_unfold, H. reflexivity. Qed.

Lemma bind_inl {A B} (c : M S A) (k : A -> M S B) s e s1 :
  c s = (inl e, s1) -> (c ≫= k) s = (inl e, s1).
Proof. intros H. rewrite bind_unfold, H. reflexivity. Qed.

Lemma bind_inr_inv {A B} (c : M S A) (k : A -> M S B) s b s' :
  (c ≫= k) s = (inr b, s') ->
  exists a s1, c s = (inr a, s1) /\ k a s1 = (inr b, s').
Proof.
  rewrite bind_unfold. destruct (c s) as [[e | a] s1]; [discriminate |].
  intros H. exists a, s1. split; [reflexivity | exact H].
Qed.

Lemma bind_inl_inv {A B} (c : M S A) (k : A -> M S B) s e s' :
  (c ≫= k) s = (inl e, s') ->
  c s = (inl e, s')
  \/ exists a s1, c s = (inr a, s1) /\ k a s1 = (inl e, s').
Proof.
  rewrite bind_unfold. destruct (c s) as [[e1 | a] s1].
  - intros H. injection H as -> ->. left. reflexivity.
  - intros H. right. exists a, s1. split; [reflexivity | exact H].
Qed.

Lemma try_except_unfold {A} (c : M S A) (h : exn -> M S A) s :
  try_except c h s
  = match c s with
    | (inl e, s') => h e s'
    | (inr a, s') => (inr a, s')
    end.
Proof. reflexivity. Qed.

End Laws.

Lemma zoom_unfold {S T A} (get : T -> S) (set : S -> T -> T) (c : M S A) t :
  zoom get set c t = (fst (c (get t)), set (snd (c (get t))) t).
Proof. unfold zoom. destruct (c (get t)). reflexivity. Qed.

(** *** What the system calls do *)

Import StorageSpec.

Lemma path_exists_run p w :
  path_exists p w
  = match faults w OpExists p with
    | Some e => (inl e, w)
    | None => (inr (match file_at w p with Some _ => true | None => false end), w)
    end.
Proof.
  unfold path_exists, check_fault, lookup_file, file_at.
  rewrite bind_unfold. destruct (faults w OpExists p); reflexivity.
Qed.

Lemma stat_size_run p w :
  stat_size p w
  = match faults w OpStat p with
    | Some e => (inl e, w)
    | None =>
        match file_at w p with
        | Some content => (inr (Z.of_nat (String.length content)), w)
        | None =>
            (inl (FileNotFoundError
                    ("[Errno 2] No such file or directory: '" +:+ p +:+ "'")),
             w)
        end
    end.
Proof.
  unfold stat_size, check_fault, lookup_file, file_at.
  rewrite bind_unfold. destruct (faults w OpStat p); [reflexivity |].
  rewrite bind_unfold. cbn [gets].
  destruct (files w !! absolute_in (cwd w) p); reflexivity.
Qed.

Lemma read_file_run p w :
  read_file p w
  = match faults w OpRead p with
    | Some e => (inl e, w)
    | None =>
        match file_at w p with
        | Some content => (inr content, w)
        | None =>
            (inl (FileNotFoundError
                    ("[Errno 2] No such file or directory: '" +:+ p +:+ "'")),
             w)
        end
    end.
Proof.
  unfold read_file, check_fault, lookup_file, file_at.
  rewrite bind_unfold. destruct (faults w OpRead p); [reflexivity |].
  rewrite bind_unfold. cbn [gets].
  destruct (files w !! absolute_in (cwd w) p); reflexivity.
Qed.

Lemma write_file_run p content w :
  write_file p content w
  = match faults w OpWrite p with
    | Some e => (inl e, w)
    | None => (inr tt, with_file w p content)
    end.
Proof.
  unfold write_file, check_fault. rewrite bind_unfold.
  destruct (faults w OpWrite p); reflexivity.
Qed.

Lemma copy2_run src dst w :
  copy2 src dst w
  = match read_file src w with
    | (inl e, _) => (inl e, w)
    | (inr content, _) =>
        match faults w OpWrite dst with
        | Some e => (inl e, w)
        | None => (inr tt, with_file w dst content)
        end
    end.
Proof.
  unfold copy2. rewrite bind_unfold, read_file_run.
  destruct (faults w OpRead src); [reflexivity |].
  destruct (file_at w src); [| reflexivity].
  apply write_file_run.
Qed.

Lemma unlink_run p w :
  unlink p w
  = match faults w OpUnlink p with
    | Some e => (inl e, w)
    | None =>
        match file_at w p with
        | Some _ =>
            (inr tt, set_files (delete (absolute_in (cwd w) p) (files w)) w)
        | None =>
            (inl (FileNotFoundError
                    ("[Errno 2] No such file or directory: '" +:+ p +:+ "'")),
             w)
        end
    end.
Proof.
  unfold unlink, check_fault, lookup_file, file_at.
  rewrite bind_unfold. destruct (faults w OpUnlink p); [reflexivity |].
  rewrite bind_unfold. cbn [gets].
  destruct (files w !! absolute_in (cwd w) p); reflexivity.
Qed.

End MonadFacts.

(** ** backup_manager.py: retention and the failure result *)

Module BackupFacts.
Import Py Os StorageSpec MonadFacts.
Import BackupManager.

Lemma no_new_file_refl w : no_new_file w w.
Proof. repeat split; auto. Qed.

Lemma no_new_file_trans w1 w2 w3 :
  no_new_file w1 w2 -> no_new_file w2 w3 -> no_new_file w1 w3.
Proof.
  intros (H2 & H3 & H4) (G2 & G3 & G4).
  repeat split; try congruence. auto.
Qed.

Lemma file_at_no_new_file w w' p :
  no_new_file w w' -> file_at w p = None -> file_at w' p = None.
Proof. intros (Hc & _ & Hf). unfold file_at. rewrite Hc. apply Hf. Qed.

Lemma only_removes_refl s : only_removes s s.
Proof. repeat split; auto. Qed.

Lemma only_removes_trans s1 s2 s3 :
  only_removes s1 s2 -> only_removes s2 s3 -> only_removes s1 s3.
Proof.
  intros [H1 H2] [G1 G2]. split; [congruence |].
  eapply no_new_file_trans; eassumption.
Qed.

Lemma io_run {A} (c : M world A) s :
  io c s = (fst (c (machine s)), set_machine (snd (c (machine s))) s).
Proof. apply zoom_unfold. Qed.

Lemma set_machine_same s : set_machine (machine s) s = s.
Proof. destruct s. reflexivity. Qed.

Lemma print_run text s :
  print text s = (inr tt, set_machine (add_output (Stdout, text) (machine s)) s).
Proof. reflexivity. Qed.

Lemma only_removes_print text s :
  only_removes s (set_machine (add_output (Stdout, text) (machine s)) s).
Proof. repeat split; auto. Qed.

(** One turn of the removal loop. *)
Lemma remove_one_spec record n s :
  exists n' s',
    try_except
      (found ← io (path_exists (backup_path record));
       if found : bool then
         io (unlink (backup_path record));;
         ret (n + 1)
       else ret n)
      (fun e =>
         print ("Error removing old backup " +:+ backup_path record
                +:+ ": " +:+ str_exn e);;
         ret n) s
    = (inr n', s')
    /\ only_removes s s'
    /\ (faults (machine s) OpExists (backup_path record) = None ->
        faults (machine s) OpUnlink (backup_path record) = None ->
        file_at (machine s') (backup_path record) = None).
Proof.
  rewrite try_except_unfold, bind_unfold, io_run, path_exists_run.
  destruct (faults (machine s) OpExists (backup_path record)) as [e |] eqn:He;
    cbn [fst snd].
  - rewrite set_machine_same, bind_unfold, print_run.
    eexists _, _. split; [reflexivity |].
    split; [apply only_removes_print | discriminate].
  - rewrite set_machine_same.
    destruct (file_at (machine s) (backup_path record)) as [content |] eqn:Hf.
    + rewrite bind_unfold, io_run, unlink_run, Hf.
      destruct (faults (machine s) OpUnlink (backup_path record))
        as [e |] eqn:Hu; cbn [fst snd].
      * rewrite set_machine_same, bind_unfold, print_run.
        eexists _, _. split; [reflexivity |].
        split; [apply only_removes_print | discriminate].
      * eexists _, _. split; [reflexivity |]. split.
        -- repeat split; auto. cbn. intros p Hp.
           destruct (decide (absolute_in (cwd (machine s)) (backup_path record) = p))
             as [<- | Hne].
           ++ apply lookup_delete_eq.
           ++ rewrite lookup_delete_ne by assumption. exact Hp.
        -- intros _ _. unfold file_at. cbn. apply lookup_delete_eq.
    + eexists _, _. split; [reflexivity |].
      split; [apply only_removes_refl |]. intros _ _. exact Hf.
Qed.

Lemma file_at_only_removes s s' p :
  only_removes s s' ->
  file_at (machine s) p = None -> file_at (machine s') p = None.
Proof. intros [_ H]. apply file_at_no_new_file, H. Qed.

Lemma remove_excess_spec excess n s :
  exists n' s',
    remove_excess excess n s = (inr n', s')
    /\ only_removes s s'
    /\ forall r, In r excess ->
         faults (machine s) OpExists (backup_path r) = None ->
         faults (machine s) OpUnlink (backup_path r) = None ->
         file_at (machine s') (backup_path r) = None.
Proof.
  revert n s. induction excess as [| record rest IH]; intros n s.
  - exists n, s. split; [reflexivity |]. split; [apply only_removes_refl |].
    intros r [].
  - cbn [remove_excess].
    destruct (remove_one_spec record n s) as (n1 & s1 & Hrun & Hkeep & Hgone).
    rewrite (bind_inr _ _ _ _ _ Hrun).
    destruct (IH n1 s1) as (n2 & s2 & Hrest & Hkeep2 & Hgone2).
    exists n2, s2. split; [exact Hrest |].
    split; [eapply only_removes_trans; eassumption |].
    intros r [<- | Hin] He Hu.
    + eapply file_at_only_removes; [exact Hkeep2 | auto].
    + destruct Hkeep as (_ & _ & Hfaults & _).
      apply Hgone2; [assumption | rewrite Hfaults; assumption ..].
Qed.

Lemma len_nonneg {A} (l : list A) : 0 <= len l.
Proof. unfold len. lia. Qed.

Lemma slice_to_take {A} (l : list A) k :
  0 <= k -> slice_to l k = take (Z.to_nat k) l.
Proof. intros H. unfold slice_to. destruct (Z.leb_spec 0 k); [reflexivity | lia]. Qed.

Lemma slice_from_drop {A} (l : list A) k :
  0 <= k -> slice_from l k = drop (Z.to_nat k) l.
Proof. intros H. unfold slice_from. destruct (Z.leb_spec 0 k); [reflexivity | lia]. Qed.

Lemma cleanup_spec key s :
  exists n s',
    _cleanup_old_backups key s = (inr n, s')
    /\ no_new_file (machine s) (machine s')
    /\ backup_directory (self s') = backup_directory (self s)
    /\ retention_count (self s') = retention_count (self s)
    /\ backup_records (self s')
       = match backup_records (self s) !! key with
         | None => backup_records (self s)
         | Some l =>
             <[key := kept (retention_count (self s)) l]>
               (backup_records (self s))
         end
    /\ forall l r,
         backup_records (self s) !! key = Some l ->
         In r (evicted (retention_count (self s)) l) ->
         faults (machine s) OpExists (backup_path r) = None ->
         faults (machine s) OpUnlink (backup_path r) = None ->
         file_at (machine s') (backup_path r) = None.
Proof.
  unfold _cleanup_old_backups. rewrite bind_unfold. cbn [gets].
  destruct (backup_records (self s) !! key) as [l |] eqn:Hl.
  - rewrite bind_unfold. cbn [modify]. rewrite bind_unfold. cbn [gets].
    cbn [set_records self retention_count].
    unfold kept, evicted.
    destruct (len (sort_newest_first l) <=? retention_count (self s)) eqn:Hlen.
    + eexists _, _. split; [reflexivity |]. cbn.
      split; [apply no_new_file_refl |].
      repeat split; try reflexivity.
      intros l' r Heq. injection Heq as Heq. subst l'.
      rewrite Hlen. intros [].
    + rewrite bind_unfold.
      match goal with |- context [remove_excess ?ex ?n ?st] =>
        destruct (remove_excess_spec ex n st) as (n1 & s1 & -> & [Hself Hw] & Hgone)
      end.
      rewrite bind_unfold. cbn [modify].
      eexists _, _. split; [reflexivity |]. cbn.
      rewrite Hself. cbn.
      split; [exact Hw |].
      repeat split; try reflexivity.
      * rewrite insert_insert_eq. reflexivity.
      * intros l' r Heq. injection Heq as Heq. subst l'.
        rewrite Hlen. apply Hgone.
  - eexists _, _. split; [reflexivity |].
    split; [apply no_new_file_refl |].
    repeat split; try reflexivity. intros l r Heq. discriminate.
Qed.

(** What a run of the [try] block of [create_backup] amounts to. *)
Lemma create_backup_body_spec strftime_ms now path s :
  match create_backup_body strftime_ms now path s with
  | (inl e, s1) =>
      self s1 = self s
      /\ output (machine s1) = output (machine s)
      /\ (faults (machine s) OpExists path = None ->
          file_at (machine s) path = None ->
          e = FileNotFoundError ("Source file does not exist: " +:+ path))
  | (inr record, s') =>
      let key := absolute_in (cwd (machine s)) path in
      file_at (machine s) path <> None
      /\ original_path record = key
      /\ backup_path record = backup_path_for strftime_ms s now path
      /\ timestamp record = now
      /\ cwd (machine s') = cwd (machine s)
      /\ faults (machine s') = faults (machine s)
      /\ backup_directory (self s') = backup_directory (self s)
      /\ retention_count (self s') = retention_count (self s)
      /\ backup_records (self s')
         = <[key := kept (retention_count (self s))
                         (records_of s path ++ [record])]>
             (backup_records (self s))
      /\ forall r,
           In r (evicted (retention_count (self s))
                         (records_of s path ++ [record])) ->
           faults (machine s) OpExists (backup_path r) = None ->
           faults (machine s) OpUnlink (backup_path r) = None ->
           file_at (machine s') (backup_path r) = None
  end.
Proof.
  unfold create_backup_body.
  rewrite bind_unfold, io_run, path_exists_run.
  destruct (faults (machine s) OpExists path) as [e |] eqn:Hex; cbn [fst snd].
  { rewrite set_machine_same. repeat split; auto. discriminate. }
  rewrite set_machine_same.
  destruct (file_at (machine s) path) as [content |] eqn:Hsrc; cbn [negb].
  2: { cbn [raise]. repeat split; auto. }
  rewrite bind_unfold. cbn [gets].
  rewrite bind_unfold, io_run, copy2_run, read_file_run, Hsrc.
  destruct (faults (machine s) OpRead path) as [e |]; cbn [fst snd].
  { rewrite set_machine_same. repeat split; auto. discriminate. }
  set (target := backup_directory (self s) +:+ "/" +:+ path_stem path
                 +:+ "_" +:+ strftime_ms now +:+ path_suffix path).
  destruct (faults (machine s) OpWrite target) as [e |]; cbn [fst snd].
  { rewrite set_machine_same. repeat split; auto. discriminate. }
  set (s1 := set_machine (with_file (machine s) target content) s).
  rewrite bind_unfold, io_run, stat_size_run.
  change (faults (machine s1)) with (faults (machine s)).
  destruct (faults (machine s) OpStat path) as [e |]; cbn [fst snd].
  { rewrite set_machine_same. repeat split; auto. discriminate. }
  destruct (file_at (machine s1) path) as [content1 |]; cbn [fst snd].
  2: { rewrite set_machine_same. repeat split; auto. discriminate. }
  rewrite set_machine_same.
  rewrite bind_unfold. unfold absolute at 1. cbn [gets].
  rewrite bind_unfold. unfold absolute at 1. cbn [gets].
  rewrite bind_unfold. cbn [modify]. rewrite bind_unfold.
  match goal with |- context [_cleanup_old_backups ?k ?st] =>
    destruct (cleanup_spec k st)
      as (n & s' & Hrun & Hw & Hdir & Hret & Hrec & Hgone);
    rewrite Hrun
  end.
  cbn [ret]. cbv zeta.
  cbn [set_records self machine s1 set_machine with_file set_files cwd
       backup_directory retention_count backup_records faults] in *.
  rewrite lookup_insert_eq in Hrec, Hgone.
  rewrite insert_insert_eq in Hrec.
  destruct Hw as (Hcwd & Hfaults & _).
  cbn [set_records self machine s1 set_machine with_file set_files cwd
       backup_directory retention_count backup_records faults
       original_path backup_path timestamp] in *.
  split; [discriminate |].
  split; [reflexivity |].
  split; [reflexivity |].
  split; [reflexivity |].
  split; [exact Hcwd |].
  split; [exact Hfaults |].
  split; [exact Hdir |].
  split; [exact Hret |].
  split; [exact Hrec |].
  intros r Hin. apply (Hgone _ r eq_refl Hin).
Qed.

Lemma create_backup_run strftime_ms now path s :
  create_backup strftime_ms now path s
  = match create_backup_body strftime_ms now path s with
    | (inl e, s1) =>
        (inr None,
         set_machine
           (add_output (Stdout, "Error creating backup for " +:+ path +:+ ": "
                                +:+ str_exn e) (machine s1)) s1)
    | (inr record, s1) => (inr (Some record), s1)
    end.
Proof.
  unfold create_backup. rewrite try_except_unfold, bind_unfold.
  destruct (create_backup_body strftime_ms now path s) as [[e | record] s1];
    reflexivity.
Qed.

(** The [try] block goes through when the source is there and the calls
    on the source and on the copy do not fail, whatever happens when old
    backup files are deleted. *)
Lemma create_backup_body_succeeds strftime_ms now path s content :
  file_at (machine s) path = Some content ->
  faults (machine s) OpExists path = None ->
  faults (machine s) OpRead path = None ->
  faults (machine s) OpWrite (backup_target strftime_ms s now path) = None ->
  faults (machine s) OpStat path = None ->
  exists record s',
    create_backup_body strftime_ms now path s = (inr record, s').
Proof.
  intros Hsrc Hex Hrd Hwr Hst. unfold backup_target in Hwr.
  unfold create_backup_body.
  rewrite bind_unfold, io_run, path_exists_run, Hex, Hsrc.
  cbn [fst snd negb]. rewrite set_machine_same.
  rewrite bind_unfold. cbn [gets].
  rewrite bind_unfold, io_run, copy2_run, read_file_run, Hrd, Hsrc, Hwr.
  cbn [fst snd].
  match goal with |- context [set_machine (with_file ?w ?t ?c) s] =>
    set (s1 := set_machine (with_file w t c) s)
  end.
  rewrite bind_unfold, io_run, stat_size_run.
  change (faults (machine s1)) with (faults (machine s)). rewrite Hst.
  assert (Hstill : exists content1, file_at (machine s1) path = Some content1).
  { unfold file_at in *. cbn.
    match goal with |- context [<[?k := _]> _ !! ?p] =>
      destruct (decide (k = p)) as [-> | Hne]
    end.
    - eexists. apply lookup_insert_eq.
    - exists content. rewrite lookup_insert_ne by assumption. exact Hsrc. }
  destruct Hstill as [content1 ->]. cbn [fst snd]. rewrite set_machine_same.
  rewrite bind_unfold. unfold absolute at 1. cbn [gets].
  rewrite bind_unfold. unfold absolute at 1. cbn [gets].
  rewrite bind_unfold. cbn [modify]. rewrite bind_unfold.
  match goal with |- context [_cleanup_old_backups ?k ?st] =>
    destruct (cleanup_spec k st) as (n & s' & -> & _)
  end.
  eexists _, _. reflexivity.
Qed.

(** C8 (amended). [create_backup] never raises: whatever the [try] block
    does, the caller gets a result. Every error raised in the block is
    caught and printed, the answer is then the failure result [None] and
    the index of records is as before; this is what happens when the source
    file does not exist. An error met while the backup files of old records
    are deleted does not reach the block: when the source is there and the
    calls on the source and on the copy go through, the answer is a record.
    ([print] itself is taken not to fail.) *)
Theorem C8_create_backup_never_raises strftime_ms now path s :
  (exists r s', create_backup strftime_ms now path s = (inr r, s'))
  /\ (forall e s1,
        create_backup_body strftime_ms now path s = (inl e, s1) ->
        exists s',
          create_backup strftime_ms now path s = (inr None, s')
          /\ self s' = self s
          /\ output (machine s')
             = output (machine s)
               ++ [(Stdout, "Error creating backup for " +:+ path +:+ ": "
                            +:+ str_exn e)])
  /\ (file_at (machine s) path = None ->
      exists e s1,
        create_backup_body strftime_ms now path s = (inl e, s1)
        /\ (faults (machine s) OpExists path = None ->
            e = FileNotFoundError ("Source file does not exist: " +:+ path)))
  /\ (forall content,
        file_at (machine s) path = Some content ->
        faults (machine s) OpExists path = None ->
        faults (machine s) OpRead path = None ->
        faults (machine s) OpWrite (backup_target strftime_ms s now path)
        = None ->
        faults (machine s) OpStat path = None ->
        exists record s',
          create_backup strftime_ms now path s = (inr (Some record), s')).
Proof.
  pose proof (create_backup_body_spec strftime_ms now path s) as Hbody.
  pose proof (create_backup_body_succeeds strftime_ms now path s) as Hgood.
  rewrite create_backup_run.
  destruct (create_backup_body strftime_ms now path s) as [[e | record] s1].
  - destruct Hbody as (Hself & Hout & Hmissing).
    split; [eexists _, _; reflexivity |]. split; [| split].
    + intros e' s1' Heq. injection Heq as <- <-.
      eexists. split; [reflexivity |]. cbn. rewrite Hout. auto.
    + intros Hnone. exists e, s1. split; [reflexivity |]. auto.
    + intros content H1 H2 H3 H4 H5.
      destruct (Hgood content H1 H2 H3 H4 H5) as (record & s' & Heq).
      discriminate.
  - split; [eexists _, _; reflexivity |]. split; [| split].
    + intros e s' Heq. discriminate.
    + intros Hnone. destruct Hbody as [Hsome _]. contradiction.
    + intros. eexists _, _. reflexivity.
Qed.

(** A source that is not there: the answer is [None], and one line is
    printed. *)
Lemma C8_create_backup_never_raises_witness :
  create_backup str_int 1 "/data/missing.txt"
    {| machine := {| files := ∅; cwd := "/data";
                     faults := fun _ _ => None; output := [] |};
       self := init "/backups" 3 |}
  = (inr None,
     {| machine :=
          {| files := ∅; cwd := "/data"; faults := fun _ _ => None;
             output :=
               [(Stdout,
                 "Error creating backup for /data/missing.txt: "
                 +:+ "Source file does not exist: /data/missing.txt")] |};
        self := init "/backups" 3 |}).
Proof.
  destruct (C8_create_backup_never_raises str_int 1 "/data/missing.txt"
              {| machine := {| files := ∅; cwd := "/data";
                               faults := fun _ _ => None; output := [] |};
                 self := init "/backups" 3 |})
    as (_ & _ & Hmissing & _).
  destruct (Hmissing eq_refl) as (e & s1 & Hbody & He).
  rewrite create_backup_run, Hbody. rewrite (He eq_refl).
  vm_compute in Hbody. injection Hbody as _ <-. reflexivity.
Defined.

(** C8 as it was stated fails for an error met while an old backup file is
    deleted: it is caught and printed, and the call answers with the new
    record, not with the failure result. *)
Lemma C8_deletion_error_not_reported :
  let run := create_backups str_int [1000; 2000] "/data/a.txt"
                            (example_store 1 locked_first_backup) in
  fst run = inr [Some (example_record 1000); Some (example_record 2000)]
  /\ output (machine (snd run))
     = [(Stdout,
         "Error removing old backup /backups/a_1000.txt: "
         +:+ "[Errno 13] Permission denied: '/backups/a_1000.txt'")].
Proof. vm_compute. split; reflexivity. Qed.

(** *** Retention *)

Lemma insert_newest_first_perm x l :
  Permutation (insert_newest_first x l) (x :: l).
Proof.
  induction l as [| y l IH]; cbn [insert_newest_first]; [reflexivity |].
  destruct (_ <=? _); [reflexivity |].
  rewrite IH. apply perm_swap.
Qed.

Lemma sort_newest_first_perm l : Permutation (sort_newest_first l) l.
Proof.
  induction l as [| x l IH]; cbn [sort_newest_first]; [reflexivity |].
  rewrite insert_newest_first_perm, IH. reflexivity.
Qed.

Lemma insert_newest_first_sorted x l :
  StronglySorted at_least_as_new l ->
  StronglySorted at_least_as_new (insert_newest_first x l).
Proof.
  induction 1 as [| y l Hl IH Hy]; cbn [insert_newest_first].
  - repeat constructor.
  - destruct (Z.leb_spec (timestamp y) (timestamp x)) as [Hle | Hlt].
    + constructor; [constructor; assumption |].
      constructor; [exact Hle |].
      eapply Forall_impl; [exact Hy |].
      unfold at_least_as_new. cbn. intros z Hz. lia.
    + constructor; [exact IH |].
      apply List.Forall_forall. intros z Hz.
      apply (Permutation_in _ (insert_newest_first_perm x l)) in Hz.
      destruct Hz as [<- | Hz].
      * unfold at_least_as_new. lia.
      * rewrite List.Forall_forall in Hy. auto.
Qed.

Lemma sort_newest_first_sorted l :
  StronglySorted at_least_as_new (sort_newest_first l).
Proof.
  induction l as [| x l IH]; cbn [sort_newest_first]; [constructor |].
  apply insert_newest_first_sorted, IH.
Qed.

Lemma sorted_take_drop {A} (R : A -> A -> Prop) n l a b :
  StronglySorted R l -> In a (take n l) -> In b (drop n l) -> R a b.
Proof.
  intros Hl. revert n. induction Hl as [| x l Hl IH Hx]; intros n.
  - destruct n; intros [].
  - destruct n as [| n]; [intros [] |].
    cbn [take drop firstn skipn]. intros [<- | Ha] Hb.
    + rewrite List.Forall_forall in Hx. apply Hx.
      rewrite <- (take_drop n l). apply in_or_app. right. exact Hb.
    + eapply IH; eassumption.
Qed.

Lemma kept_take retention l :
  0 <= retention ->
  kept retention l = take (Z.to_nat retention) (sort_newest_first l).
Proof.
  intros Hr. unfold kept.
  destruct (Z.leb_spec (len (sort_newest_first l)) retention) as [Hle | Hgt].
  - symmetry. apply take_ge. unfold len in Hle. lia.
  - apply slice_to_take, Hr.
Qed.

Lemma evicted_drop retention l :
  0 <= retention ->
  evicted retention l = drop (Z.to_nat retention) (sort_newest_first l).
Proof.
  intros Hr. unfold evicted.
  destruct (Z.leb_spec (len (sort_newest_first l)) retention) as [Hle | Hgt].
  - symmetry. apply drop_ge. unfold len in Hle. lia.
  - apply slice_from_drop, Hr.
Qed.

(** A record newer than all of a list that is already in order goes to
    the front. *)
Lemma sort_strictly_sorted l :
  StronglySorted newer l -> sort_newest_first l = l.
Proof.
  induction 1 as [| y l Hl IH Hy]; [reflexivity |].
  cbn [sort_newest_first]. rewrite IH.
  destruct Hy as [| z l Hz _]; [reflexivity |].
  cbn [insert_newest_first]. unfold newer in Hz.
  destruct (Z.leb_spec (timestamp z) (timestamp y)); [reflexivity | lia].
Qed.

Lemma sort_snoc_newest l x :
  StronglySorted newer l -> Forall (newer x) l ->
  sort_newest_first (l ++ [x]) = x :: l.
Proof.
  intros Hl Hx. induction Hl as [| y l Hl IH Hy]; [reflexivity |].
  cbn [app sort_newest_first].
  apply Forall_cons_1 in Hx as [Hxy Hx].
  rewrite IH by assumption.
  cbn [insert_newest_first]. unfold newer in Hxy.
  destruct (Z.leb_spec (timestamp x) (timestamp y)); [lia |].
  f_equal.
  destruct Hy as [| z l Hz _]; [reflexivity |].
  cbn [insert_newest_first]. unfold newer in Hz.
  destruct (Z.leb_spec (timestamp z) (timestamp y)); [reflexivity | lia].
Qed.

Lemma take_app_take {A} n (a b : list A) :
  take n (a ++ take n b) = take n (a ++ b).
Proof.
  rewrite !take_app. f_equal. rewrite take_take. f_equal. lia.
Qed.

Lemma StronglySorted_take {A} (R : A -> A -> Prop) n l :
  StronglySorted R l -> StronglySorted R (take n l).
Proof.
  intros Hl. revert n. induction Hl as [| x l Hl IH Hx]; intros [| n];
    cbn [take firstn]; try constructor.
  - apply IH.
  - apply List.Forall_forall. intros y Hy.
    rewrite List.Forall_forall in Hx. apply Hx.
    rewrite <- (take_drop n l). apply in_or_app. left. exact Hy.
Qed.

Lemma records_of_insert s s' path l :
  cwd (machine s') = cwd (machine s) ->
  backup_records (self s')
  = <[absolute_in (cwd (machine s)) path := l]> (backup_records (self s)) ->
  records_of s' path = l.
Proof.
  intros Hcwd Hrec. unfold records_of. rewrite Hcwd, Hrec, lookup_insert_eq.
  reflexivity.
Qed.

(** One successful call, with a retention count that is not negative. *)
Lemma create_backup_step strftime_ms now path s record s' :
  0 <= retention_count (self s) ->
  create_backup strftime_ms now path s = (inr (Some record), s') ->
  let all := sort_newest_first (records_of s path ++ [record]) in
  let n := Z.to_nat (retention_count (self s)) in
  timestamp record = now
  /\ cwd (machine s') = cwd (machine s)
  /\ faults (machine s') = faults (machine s)
  /\ retention_count (self s') = retention_count (self s)
  /\ backup_records (self s')
     = <[absolute_in (cwd (machine s)) path := take n all]>
         (backup_records (self s))
  /\ forall old,
       In old (drop n all) ->
       faults (machine s) OpExists (backup_path old) = None ->
       faults (machine s) OpUnlink (backup_path old) = None ->
       file_at (machine s') (backup_path old) = None.
Proof.
  intros Hret Hrun. cbv zeta.
  pose proof (create_backup_body_spec strftime_ms now path s) as Hbody.
  rewrite create_backup_run in Hrun.
  destruct (create_backup_body strftime_ms now path s) as [[e | record'] s1];
    [discriminate |].
  injection Hrun as -> ->.
  destruct Hbody as (_ & _ & _ & Hts & Hcwd & Hfaults & _ & Hr & Hrec & Hgone).
  rewrite kept_take in Hrec by assumption.
  split; [exact Hts |]. split; [exact Hcwd |]. split; [exact Hfaults |].
  split; [exact Hr |]. split; [exact Hrec |].
  intros old Hold. apply Hgone. rewrite evicted_drop by assumption. exact Hold.
Qed.

(** Successful calls at increasing clock readings, on one path. *)
Lemma create_backups_increasing strftime_ms path readings :
  forall s records s' present,
    0 <= retention_count (self s) ->
    records_of s path = present ->
    StronglySorted newer present ->
    (length present <= Z.to_nat (retention_count (self s)))%nat ->
    Forall (fun t => Forall (fun y => timestamp y < t) present) readings ->
    StronglySorted Z.lt readings ->
    create_backups strftime_ms readings path s = (inr (map Some records), s') ->
    map timestamp records = readings
    /\ retention_count (self s') = retention_count (self s)
    /\ records_of s' path
       = take (Z.to_nat (retention_count (self s))) (rev records ++ present).
Proof.
  induction readings as [| t rest IH];
    intros s records s' present Hret Hpresent Hsorted Hlen Hold Hinc Hrun.
  - cbn in Hrun. injection Hrun as Hrecords <-.
    destruct records; [| discriminate]. cbn [map rev app].
    split; [reflexivity |]. split; [reflexivity |].
    rewrite take_ge by lia. exact Hpresent.
  - cbn [create_backups] in Hrun.
    apply bind_inr_inv in Hrun as (r1 & s1 & Hfirst & Hrun).
    apply bind_inr_inv in Hrun as (rs & s2 & Hrest & Hrun).
    injection Hrun as Hrecords <-.
    destruct records as [| record records]; [discriminate |].
    cbn [map] in Hrecords. injection Hrecords as -> ->.
    apply create_backup_step in Hfirst
      as (Hts & Hcwd & _ & Hr & Hrec & _); [| assumption].
    apply StronglySorted_inv in Hinc as [Hinc Hfirst_lt].
    apply Forall_cons_1 in Hold as [Hold_t Hold_rest].
    rewrite Hpresent in Hrec.
    assert (Hnewer : Forall (newer record) present).
    { eapply Forall_impl; [exact Hold_t |]. unfold newer. cbn. lia. }
    rewrite sort_snoc_newest in Hrec by assumption.
    set (n := Z.to_nat (retention_count (self s))) in *.
    specialize (IH s1 records s2 (take n (record :: present))).
    rewrite Hr in IH. fold n in IH.
    destruct IH as (Hmap & Hr2 & Hfinal).
    + assumption.
    + eapply records_of_insert; eassumption.
    + apply StronglySorted_take. constructor; assumption.
    + rewrite length_take. lia.
    + rewrite List.Forall_forall in Hold_rest, Hfirst_lt.
      apply List.Forall_forall. intros t' Ht'.
      apply List.Forall_forall. intros y Hy.
      assert (Hin : In y (record :: present)).
      { rewrite <- (take_drop n (record :: present)).
        apply in_or_app. left. exact Hy. }
      destruct Hin as [<- | Hin].
      * rewrite Hts. apply Hfirst_lt, Ht'.
      * specialize (Hold_rest t' Ht'). rewrite List.Forall_forall in Hold_rest.
        apply Hold_rest, Hin.
    + assumption.
    + assumption.
    + cbn [map rev]. split; [congruence |]. split; [exact Hr2 |].
      rewrite Hfinal, take_app_take, <- app_assoc. reflexivity.
Qed.

(** C5 (amended). After a successful [create_backup] under a retention
    count that is not negative, the path has the [retention_count] newest of
    its former records and the new one, and no key of the index has more
    than [retention_count] records if none had before; every record left
    out is at most as new as every record kept, and its backing file is not
    on disk any more provided that the existence test and the deletion did
    not fail (a failing deletion is printed and the record is left out all
    the same). [retention_count + 1] backups of one path at increasing
    clock readings leave exactly [retention_count] records, all but the
    oldest. *)
Theorem C5_retention strftime_ms path :
  (forall now s record s',
      0 <= retention_count (self s) ->
      create_backup strftime_ms now path s = (inr (Some record), s') ->
      let all := sort_newest_first (records_of s path ++ [record]) in
      let n := Z.to_nat (retention_count (self s)) in
      records_of s' path = take n all
      /\ len (records_of s' path) <= retention_count (self s')
      /\ ((forall k l, backup_records (self s) !! k = Some l ->
                       len l <= retention_count (self s)) ->
          forall k l, backup_records (self s') !! k = Some l ->
                      len l <= retention_count (self s'))
      /\ (forall old new, In old (drop n all) -> In new (take n all) ->
                          timestamp old <= timestamp new)
      /\ (forall old,
             In old (drop n all) ->
             faults (machine s) OpExists (backup_path old) = None ->
             faults (machine s) OpUnlink (backup_path old) = None ->
             file_at (machine s') (backup_path old) = None))
  /\ (forall readings s records s',
         0 <= retention_count (self s) ->
         records_of s path = [] ->
         StronglySorted Z.lt readings ->
         len readings = retention_count (self s) + 1 ->
         create_backups strftime_ms readings path s
         = (inr (map Some records), s') ->
         exists oldest rest,
           records = oldest :: rest
           /\ records_of s' path = rev rest
           /\ len (records_of s' path) = retention_count (self s)
           /\ ~ In oldest (records_of s' path)).
Proof.
  split.
  - intros now s record s' Hret Hrun. cbv zeta.
    destruct (create_backup_step _ _ _ _ _ _ Hret Hrun)
      as (_ & Hcwd & _ & Hr & Hrec & Hgone).
    set (all := sort_newest_first (records_of s path ++ [record])) in *.
    set (n := Z.to_nat (retention_count (self s))) in *.
    assert (Hkept : records_of s' path = take n all)
      by (eapply records_of_insert; eassumption).
    assert (Hbound : len (take n all) <= retention_count (self s')).
    { unfold len. rewrite length_take, Hr. lia. }
    split; [exact Hkept |].
    split; [rewrite Hkept; exact Hbound |].
    split.
    { intros Hinv k l. rewrite Hrec, lookup_insert.
      destruct (decide (absolute_in (cwd (machine s)) path = k)) as [_ | _].
      - intros Heq. injection Heq as <-. exact Hbound.
      - rewrite Hr. apply Hinv. }
    split; [| exact Hgone].
    intros old new Hold Hnew.
    apply (sorted_take_drop at_least_as_new n all new old);
      [apply sort_newest_first_sorted | assumption ..].
  - intros readings s records s' Hret Hnone Hinc Hlen Hrun.
    destruct (create_backups_increasing strftime_ms path readings
                s records s' []) as (Hmap & _ & Hfinal); try assumption.
    { constructor. }
    { cbn. lia. }
    { apply List.Forall_forall. intros t _. constructor. }
    rewrite app_nil_r in Hfinal.
    destruct records as [| oldest rest].
    { cbn in Hmap. subst readings. unfold len in Hlen. cbn in Hlen. lia. }
    exists oldest, rest.
    assert (Hn : length rest = Z.to_nat (retention_count (self s))).
    { apply (f_equal (@List.length Z)) in Hmap.
      rewrite length_map in Hmap. cbn [List.length] in Hmap.
      unfold len in Hlen. lia. }
    assert (Hrev : records_of s' path = rev rest).
    { rewrite Hfinal. cbn [rev]. apply take_app_length'.
      rewrite length_rev. congruence. }
    split; [reflexivity |]. split; [exact Hrev |]. split.
    + rewrite Hrev. unfold len. rewrite length_rev. lia.
    + rewrite Hrev, <- in_rev. intros Hin.
      rewrite <- Hmap in Hinc. cbn [map] in Hinc.
      apply StronglySorted_inv in Hinc as [_ Hlt].
      rewrite List.Forall_forall in Hlt.
      specialize (Hlt (timestamp oldest) (in_map timestamp _ _ Hin)). lia.
Qed.

(** Three backups under a retention count of two: the second and the third
    are kept. *)
Lemma C5_retention_witness :
  records_of
    (snd (create_backups str_int [1000; 2000; 3000] "/data/a.txt"
                         (example_store 2 no_faults)))
    "/data/a.txt"
  = [example_record 3000; example_record 2000].
Proof.
  destruct (proj2 (C5_retention str_int "/data/a.txt")
              [1000; 2000; 3000] (example_store 2 no_faults)
              [example_record 1000; example_record 2000; example_record 3000]
              (snd (create_backups str_int [1000; 2000; 3000] "/data/a.txt"
                                   (example_store 2 no_faults))))
    as (oldest & rest & Heq & Hrec & _).
  - cbn. lia.
  - reflexivity.
  - repeat constructor.
  - reflexivity.
  - vm_compute. reflexivity.
  - injection Heq as <- <-. exact Hrec.
Defined.

(** C5 as it was stated fails when a backing file cannot be deleted: with a
    retention count of one and a first backup file that refuses [unlink],
    the second call succeeds and leaves the first record out of the index,
    and the first backup file is still there. *)
Lemma C5_backing_file_survives :
  let run := create_backups str_int [1000; 2000] "/data/a.txt"
                            (example_store 1 locked_first_backup) in
  fst run = inr [Some (example_record 1000); Some (example_record 2000)]
  /\ records_of (snd run) "/data/a.txt" = [example_record 2000]
  /\ file_at (machine (snd run)) (backup_path (example_record 1000))
     = Some "hello".
Proof. vm_compute. repeat split; reflexivity. Qed.

(** Two backups of one file within one millisecond have one backup file:
    with a retention count of one, the second call deletes that file when
    it drops the first record, and the record that is kept has no file. *)
Remark same_millisecond_backups_share_a_file :
  let run := create_backups (fun t => str_int (t / 1000)) [1000200; 1000700]
                            "/data/a.txt" (example_store 1 no_faults) in
  (exists first second,
      fst run = inr [Some first; Some second]
      /\ backup_path first = backup_path second
      /\ records_of (snd run) "/data/a.txt" = [second]
      /\ file_at (machine (snd run)) (backup_path second) = None).
Proof. vm_compute. eexists _, _. repeat split; reflexivity. Qed.

End BackupFacts.

(** ** recovery_engine.py: attempts, verification and the fallback chain *)

Module RecoveryFacts.
Import Py Os StorageSpec RecoverySpec MonadFacts.
Import RecoveryEngine.
Import BackupManager (BackupRecord, backup_path, file_size, timestamp,
                      sort_newest_first).

Lemma set_world_same s : set_world (world_of s) s = s.
Proof. destruct s as [[w m] e]. reflexivity. Qed.

Lemma engine_io_run {A} (c : M world A) s :
  io c s = (fst (c (world_of s)), set_world (snd (c (world_of s))) s).
Proof.
  unfold io, manager, BackupManager.io. rewrite !zoom_unfold. reflexivity.
Qed.

Lemma log_with_run level prefix message s :
  log_with level prefix message s = (inr tt, logged level prefix message s).
Proof.
  unfold log_with, logged. rewrite bind_unfold. cbn [gets].
  destruct (has_logger (self s)); rewrite engine_io_run; reflexivity.
Qed.

Lemma same_but_output_refl s : same_but_output s s.
Proof. repeat split. Qed.

Lemma same_but_output_trans s1 s2 s3 :
  same_but_output s1 s2 -> same_but_output s2 s3 -> same_but_output s1 s3.
Proof.
  intros (A2 & A3 & A4 & A5) (B2 & B3 & B4 & B5).
  repeat split; congruence.
Qed.

Lemma same_but_output_logged level prefix message s :
  same_but_output s (logged level prefix message s).
Proof. repeat split. Qed.

Lemma same_but_output_file_at s s' p :
  same_but_output s s' -> file_at (world_of s') p = file_at (world_of s) p.
Proof.
  intros (_ & Hf & Hc & _). unfold file_at. rewrite Hf, Hc. reflexivity.
Qed.

Lemma same_but_output_can_restore s s' path b :
  same_but_output s s' ->
  can_restore (world_of s') path b = can_restore (world_of s) path b.
Proof.
  intros H. unfold can_restore.
  rewrite (same_but_output_file_at _ _ _ H).
  destruct H as (_ & _ & _ & ->). reflexivity.
Qed.

Lemma same_but_output_versions s s' path :
  same_but_output s s' -> versions s' path = versions s path.
Proof.
  intros (Hself & _ & Hc & _). unfold versions, records_of.
  unfold world_of in Hc. rewrite Hself, Hc. reflexivity.
Qed.

Lemma list_backups_run path s :
  manager (BackupManager.list_backups path) s = (inr (versions s path), s).
Proof.
  destruct s as [[w m] e].
  unfold manager, zoom, BackupManager.list_backups, BackupManager.absolute,
    versions, records_of, mbind, M_bind, bind, gets.
  cbn [backup_manager BackupManager.machine BackupManager.self].
  destruct (BackupManager.backup_records m !! absolute_in (cwd w) path);
    reflexivity.
Qed.

Lemma get_latest_backup_run path s :
  manager (BackupManager.get_latest_backup path) s
  = (inr (head (versions s path)), s).
Proof.
  destruct s as [[w m] e].
  unfold manager, zoom, BackupManager.get_latest_backup,
    BackupManager.list_backups, BackupManager.absolute,
    versions, records_of, mbind, M_bind, bind, gets.
  cbn [backup_manager BackupManager.machine BackupManager.self].
  destruct (BackupManager.backup_records m !! absolute_in (cwd w) path);
    reflexivity.
Qed.

Lemma find_ext {A} (p q : A -> bool) l :
  (forall x, p x = q x) -> find p l = find q l.
Proof.
  intros H. induction l as [| x l IH]; [reflexivity |].
  cbn [find]. rewrite H, IH. reflexivity.
Qed.

Section Restore.
Variable sha256 : string -> string.

Lemma calculate_file_hash_run path s :
  _calculate_file_hash sha256 path s
  = match read_file path (world_of s) with
    | (inl e, _) => (inl e, s)
    | (inr content, _) => (inr (sha256 content), s)
    end.
Proof.
  unfold _calculate_file_hash. rewrite bind_unfold, engine_io_run, read_file_run.
  destruct (faults (world_of s) OpRead path); cbn [fst snd];
    [rewrite set_world_same; reflexivity |].
  destruct (file_at (world_of s) path); cbn [fst snd];
    rewrite set_world_same; reflexivity.
Qed.

Lemma verify_file_hash_total file1 file2 s :
  exists same s',
    _verify_file_hash sha256 file1 file2 s = (inr same, s')
    /\ same_but_output s s'.
Proof.
  unfold _verify_file_hash.
  rewrite try_except_unfold, bind_unfold, calculate_file_hash_run.
  destruct (read_file file1 (world_of s)) as [[e | c1] w1].
  - rewrite bind_unfold. unfold _log_warning. rewrite log_with_run.
    eexists _, _. split; [reflexivity | apply same_but_output_logged].
  - rewrite bind_unfold, calculate_file_hash_run.
    destruct (read_file file2 (world_of s)) as [[e | c2] w2].
    + rewrite bind_unfold. unfold _log_warning. rewrite log_with_run.
      eexists _, _. split; [reflexivity | apply same_but_output_logged].
    + eexists _, _. split; [reflexivity | apply same_but_output_refl].
Qed.

Lemma verify_restoration_total path record s :
  exists passed s',
    verify_restoration sha256 path record s = (inr passed, s')
    /\ same_but_output s s'.
Proof.
  unfold verify_restoration.
  rewrite try_except_unfold, bind_unfold, engine_io_run, path_exists_run.
  destruct (faults (world_of s) OpExists path); cbn [fst snd];
    rewrite set_world_same.
  { rewrite bind_unfold. unfold _log_error. rewrite log_with_run.
    eexists _, _. split; [reflexivity | apply same_but_output_logged]. }
  destruct (file_at (world_of s) path) as [content |] eqn:Hfile; cbn [negb].
  2: { rewrite bind_unfold. unfold _log_error. rewrite log_with_run.
       eexists _, _. split; [reflexivity | apply same_but_output_logged]. }
  rewrite bind_unfold, engine_io_run, stat_size_run, Hfile.
  destruct (faults (world_of s) OpStat path); cbn [fst snd];
    rewrite set_world_same.
  { rewrite bind_unfold. unfold _log_error. rewrite log_with_run.
    eexists _, _. split; [reflexivity | apply same_but_output_logged]. }
  destruct (Z.of_nat (String.length content) =? file_size record); cbn [negb].
  2: { rewrite bind_unfold. unfold _log_error. rewrite log_with_run.
       eexists _, _. split; [reflexivity | apply same_but_output_logged]. }
  rewrite bind_unfold.
  destruct (verify_file_hash_total path (backup_path record) s)
    as (same & s1 & -> & Hsame).
  destruct same; rewrite bind_unfold;
    [unfold _log_info | unfold _log_warning]; rewrite log_with_run;
    (eexists _, _; split; [reflexivity |]);
    (eapply same_but_output_trans;
       [exact Hsame | apply same_but_output_logged]).
Qed.

(** With the recorded size on disk, the verdict does not depend on the
    hashes. *)
Lemma verify_restoration_size_match path record s content :
  faults (world_of s) OpExists path = None ->
  faults (world_of s) OpStat path = None ->
  file_at (world_of s) path = Some content ->
  Z.of_nat (String.length content) = file_size record ->
  exists same s1,
    _verify_file_hash sha256 path (backup_path record) s = (inr same, s1)
    /\ same_but_output s s1
    /\ verify_restoration sha256 path record s
       = (inr true,
          if same
          then logged Info "INFO: "
                      ("File integrity verification passed for " +:+ path) s1
          else logged Warning "WARNING: "
                      ("Hash verification failed for " +:+ path
                       +:+ ", but size matches") s1).
Proof.
  intros Hex Hstat Hfile Hsize.
  destruct (verify_file_hash_total path (backup_path record) s)
    as (same & s1 & Hhash & Hsame).
  exists same, s1. split; [exact Hhash |]. split; [exact Hsame |].
  unfold verify_restoration.
  rewrite try_except_unfold, bind_unfold, engine_io_run, path_exists_run, Hex, Hfile.
  cbn [fst snd negb]. rewrite set_world_same.
  rewrite bind_unfold, engine_io_run, stat_size_run, Hstat, Hfile.
  cbn [fst snd]. rewrite set_world_same, Hsize, Z.eqb_refl. cbn [negb].
  rewrite bind_unfold, Hhash.
  destruct same; rewrite bind_unfold;
    [unfold _log_info | unfold _log_warning]; rewrite log_with_run;
    reflexivity.
Qed.

(** An attempt whose system calls all go through. *)
Lemma attempt_restore_success path record verify s :
  can_restore (world_of s) path record = true ->
  exists content passed s',
    file_at (world_of s) (backup_path record) = Some content
    /\ (if verify : bool
        then verify_restoration sha256 path record (restored s path content)
             = (inr passed, s')
        else passed = true /\ s' = restored s path content)
    /\ _attempt_restore_from_backup sha256 path record verify s
       = (inr (restored_from path record passed), s').
Proof.
  unfold can_restore. intros Hcan.
  destruct (file_at (world_of s) (backup_path record)) as [content |] eqn:Hfile;
    [| discriminate].
  destruct (faults (world_of s) OpExists (backup_path record)) eqn:Hex;
    [discriminate |].
  destruct (faults (world_of s) OpMkdir path) eqn:Hmk; [discriminate |].
  destruct (faults (world_of s) OpRead (backup_path record)) eqn:Hrd;
    [discriminate |].
  destruct (faults (world_of s) OpWrite path) eqn:Hwr; [discriminate |].
  assert (Hstart :
    forall passed s',
      (if verify
       then verify_restoration sha256 path record (restored s path content)
       else ret true (restored s path content)) = (inr passed, s') ->
      _attempt_restore_from_backup sha256 path record verify s
      = (inr (restored_from path record passed), s')).
  { intros passed s' Hverify.
    unfold _attempt_restore_from_backup.
    rewrite try_except_unfold, bind_unfold, engine_io_run, path_exists_run, Hex, Hfile.
    cbn [fst snd negb]. rewrite set_world_same.
    rewrite bind_unfold, engine_io_run. unfold mkdir_parent, check_fault.
    rewrite Hmk. cbn [fst snd]. rewrite set_world_same.
    rewrite bind_unfold, engine_io_run, copy2_run, read_file_run, Hrd, Hfile, Hwr.
    cbn [fst snd]. fold (restored s path content).
    rewrite bind_unfold.
    destruct verify; rewrite Hverify; reflexivity. }
  exists content.
  destruct verify.
  - destruct (verify_restoration_total path record (restored s path content))
      as (passed & s' & Hverify & _).
    exists passed, s'. split; [reflexivity |]. split; [exact Hverify |].
    apply Hstart, Hverify.
  - exists true, (restored s path content).
    split; [reflexivity |]. split; [split; reflexivity |].
    apply Hstart. reflexivity.
Qed.

(** An attempt one of whose system calls fails changes nothing. *)
Lemma attempt_restore_failure path record verify s :
  can_restore (world_of s) path record = false ->
  exists result,
    _attempt_restore_from_backup sha256 path record verify s = (inr result, s)
    /\ success result = false.
Proof.
  unfold can_restore. intros Hcan.
  unfold _attempt_restore_from_backup.
  rewrite try_except_unfold, bind_unfold, engine_io_run, path_exists_run.
  destruct (faults (world_of s) OpExists (backup_path record)) eqn:Hex;
    cbn [fst snd]; rewrite set_world_same.
  { eexists. split; reflexivity. }
  destruct (file_at (world_of s) (backup_path record)) as [content |] eqn:Hfile;
    cbn [negb].
  2: { eexists. split; reflexivity. }
  rewrite bind_unfold, engine_io_run. unfold mkdir_parent, check_fault.
  destruct (faults (world_of s) OpMkdir path) eqn:Hmk;
    cbn [fst snd]; rewrite set_world_same.
  { eexists. split; reflexivity. }
  rewrite bind_unfold, engine_io_run, copy2_run, read_file_run, Hfile.
  destruct (faults (world_of s) OpRead (backup_path record)) eqn:Hrd;
    cbn [fst snd].
  { rewrite set_world_same. eexists. split; reflexivity. }
  destruct (faults (world_of s) OpWrite path) eqn:Hwr; [| discriminate].
  cbn [fst snd]. rewrite set_world_same. eexists. split; reflexivity.
Qed.

(** The fallback loop stops at the first record whose copy goes through. *)
Lemma try_each_spec path verify older :
  forall s,
    match find (can_restore (world_of s) path) older with
    | Some b =>
        exists passed s',
          try_each sha256 path older verify s
          = (inr (Some (restored_from path b passed)), s')
    | None =>
        exists s',
          try_each sha256 path older verify s = (inr None, s')
          /\ same_but_output s s'
    end.
Proof.
  induction older as [| b rest IH]; intros s.
  - cbn. exists s. split; [reflexivity | apply same_but_output_refl].
  - set (s1 := logged Info "INFO: "
                      ("Trying fallback backup: " +:+ backup_path b) s).
    assert (Hs1 : same_but_output s s1) by apply same_but_output_logged.
    assert (Hstep :
      try_each sha256 path (b :: rest) verify s
      = (result ← _attempt_restore_from_backup sha256 path b verify;
         if success result then
           _log_info ("Fallback restoration successful using backup from "
                      +:+ str_int (timestamp b));;
           ret (Some result)
         else try_each sha256 path rest verify) s1).
    { cbn [try_each]. rewrite bind_unfold. unfold _log_info at 1.
      rewrite log_with_run. reflexivity. }
    rewrite Hstep. clear Hstep. cbn [find].
    rewrite <- (same_but_output_can_restore s s1 path b Hs1).
    specialize (IH s1).
    rewrite (find_ext (can_restore (world_of s1) path)
                      (can_restore (world_of s) path)) in IH
      by (intros; apply same_but_output_can_restore, Hs1).
    destruct (can_restore (world_of s1) path b) eqn:Hcan.
    + destruct (attempt_restore_success path b verify s1 Hcan)
        as (content & passed & s2 & _ & _ & Hrun).
      rewrite bind_unfold, Hrun. cbn [restored_from success].
      rewrite bind_unfold. unfold _log_info. rewrite log_with_run.
      eexists _, _. reflexivity.
    + destruct (attempt_restore_failure path b verify s1 Hcan)
        as (result & Hrun & Hfail).
      rewrite bind_unfold, Hrun, Hfail.
      destruct (find (can_restore (world_of s) path) rest).
      * exact IH.
      * destruct IH as (s' & Hrest & Hsame). exists s'.
        split; [exact Hrest |].
        eapply same_but_output_trans; eassumption.
Qed.

Lemma try_fallback_backups_spec path verify s latest older :
  versions s path = latest :: older ->
  match find (can_restore (world_of s) path) older with
  | Some b =>
      exists passed s',
        _try_fallback_backups sha256 path verify s
        = (inr (restored_from path b passed), s')
  | None =>
      exists s',
        _try_fallback_backups sha256 path verify s
        = (inr (fallback_failure path older), s')
        /\ same_but_output s s'
  end.
Proof.
  intros Hversions. unfold _try_fallback_backups.
  rewrite bind_unfold, list_backups_run, Hversions.
  assert (Hfallback :
    (if 1 <? len (latest :: older) then slice_from (latest :: older) 1 else [])
    = older).
  { unfold len. cbn [List.length]. destruct older as [| b rest];
      [reflexivity |].
    cbn [List.length]. destruct (Z.ltb_spec 1 (Z.of_nat (S (S (List.length rest)))));
      [reflexivity | lia]. }
  rewrite Hfallback.
  destruct older as [| b rest].
  - cbn [find]. exists s. split; [reflexivity | apply same_but_output_refl].
  - pose proof (try_each_spec path verify (b :: rest) s) as Heach.
    destruct (find (can_restore (world_of s) path) (b :: rest)).
    + destruct Heach as (passed & s' & Hrun).
      rewrite bind_unfold, Hrun. eexists _, _. reflexivity.
    + destruct Heach as (s' & Hrun & Hsame).
      rewrite bind_unfold, Hrun. exists s'. split; [reflexivity | exact Hsame].
Qed.

Lemma incr_total_attempts_same s :
  same_but_output s (snd (incr_total_attempts s)).
Proof. repeat split. Qed.

(** [restore_file] when the copy of the newest backup goes through. *)
Lemma restore_file_latest path verify s latest older :
  versions s path = latest :: older ->
  can_restore (world_of s) path latest = true ->
  exists passed s1,
    _attempt_restore_from_backup sha256 path latest verify
      (snd (incr_total_attempts s))
    = (inr (restored_from path latest passed), s1)
    /\ restore_file sha256 path verify s
       = (inr (restored_from path latest passed),
          logged Info "INFO: "
                 ("Successfully restored " +:+ path +:+ " from backup "
                  +:+ backup_path latest)
                 (snd (record_success path s1))).
Proof.
  intros Hversions Hcan.
  set (s0 := snd (incr_total_attempts s)).
  assert (Hs0 : same_but_output s s0) by apply incr_total_attempts_same.
  rewrite <- (same_but_output_can_restore s s0 path latest Hs0) in Hcan.
  destruct (attempt_restore_success path latest verify s0 Hcan)
    as (content & passed & s1 & _ & _ & Hrun).
  exists passed, s1. split; [exact Hrun |].
  unfold restore_file. rewrite bind_unfold.
  change (incr_total_attempts s) with (inr (A := exn) tt, s0).
  cbv iota. rewrite try_except_unfold, bind_unfold, get_latest_backup_run.
  rewrite (same_but_output_versions s s0 path Hs0), Hversions. cbn [head].
  rewrite bind_unfold, Hrun. cbn [restored_from success negb].
  rewrite bind_unfold. cbn [ret success restored_from].
  rewrite bind_unfold, bind_unfold.
  unfold record_success at 1. cbn [modify].
  unfold _log_info. rewrite log_with_run. reflexivity.
Qed.

(** [restore_file] when the newest backup cannot be copied. *)
Lemma restore_file_fallback path verify s latest older :
  versions s path = latest :: older ->
  can_restore (world_of s) path latest = false ->
  match find (can_restore (world_of s) path) older with
  | Some b =>
      exists passed s',
        restore_file sha256 path verify s
        = (inr (restored_from path b passed), s')
  | None =>
      exists s',
        restore_file sha256 path verify s
        = (inr (fallback_failure path older), s')
  end.
Proof.
  intros Hversions Hcan.
  set (s0 := snd (incr_total_attempts s)).
  assert (Hs0 : same_but_output s s0) by apply incr_total_attempts_same.
  rewrite <- (same_but_output_can_restore s s0 path latest Hs0) in Hcan.
  destruct (attempt_restore_failure path latest verify s0 Hcan)
    as (first & Hrun & Hfail).
  set (s1 := logged Warning "WARNING: "
                    ("Latest backup restoration failed for " +:+ path
                     +:+ ", trying previous versions") s0).
  assert (Hs1 : same_but_output s s1).
  { eapply same_but_output_trans;
      [exact Hs0 | apply same_but_output_logged]. }
  pose proof (try_fallback_backups_spec path verify s1 latest older) as Hfb.
  rewrite (same_but_output_versions s s1 path Hs1) in Hfb.
  specialize (Hfb Hversions).
  rewrite (find_ext (can_restore (world_of s1) path)
                    (can_restore (world_of s) path)) in Hfb
    by (intros; apply same_but_output_can_restore, Hs1).
  assert (Hstart :
    forall result s2,
      _try_fallback_backups sha256 path verify s1 = (inr result, s2) ->
      exists s',
        restore_file sha256 path verify s = (inr result, s')).
  { intros result s2 Hfallback.
    unfold restore_file. rewrite bind_unfold.
    change (incr_total_attempts s) with (inr (A := exn) tt, s0).
    cbv iota. rewrite try_except_unfold, bind_unfold, get_latest_backup_run.
    rewrite (same_but_output_versions s s0 path Hs0), Hversions. cbn [head].
    rewrite bind_unfold, Hrun, Hfail. cbn [negb].
    rewrite bind_unfold, bind_unfold.
    unfold _log_warning at 1. rewrite log_with_run. fold s1.
    rewrite Hfallback. rewrite bind_unfold.
    destruct (success result).
    - rewrite bind_unfold. unfold record_success. cbn [modify].
      unfold _log_info. rewrite log_with_run. eexists. reflexivity.
    - rewrite bind_unfold. unfold incr_failed_recoveries. cbn [modify].
      unfold _log_error. rewrite log_with_run. eexists. reflexivity. }
  destruct (find (can_restore (world_of s) path) older).
  - destruct Hfb as (passed & s2 & Hfallback).
    exists passed. eapply Hstart, Hfallback.
  - destruct Hfb as (s2 & Hfallback & _). eapply Hstart, Hfallback.
Qed.

End Restore.

(** C6 (amended). When the newest backup of a path cannot be restored,
    [restore_file] goes through the older versions, newest first, and
    returns the first attempt that succeeds, with the path of that backup
    as [backup_used]. If there are older versions and all of them fail, the
    result is a failure with the message "All backup restoration attempts
    failed"; if there is no older version, it is a failure with the message
    "No fallback backups available". *)
Theorem C6_fallback_chain sha256 path verify s latest older :
  versions s path = latest :: older ->
  can_restore (world_of s) path latest = false ->
  StronglySorted at_least_as_new (latest :: older)
  /\ match find (can_restore (world_of s) path) older with
     | Some b =>
         exists passed s',
           restore_file sha256 path verify s
           = (inr (restored_from path b passed), s')
     | None =>
         exists s',
           restore_file sha256 path verify s
           = (inr (fallback_failure path older), s')
     end.
Proof.
  intros Hversions Hcan. split.
  - rewrite <- Hversions. apply BackupFacts.sort_newest_first_sorted.
  - apply (restore_file_fallback sha256 path verify s latest older);
      assumption.
Qed.

(** Two backups, the file of the newer one gone from disk: the older one
    is used. *)
Lemma C6_fallback_chain_witness :
  exists passed s',
    restore_file (fun content => content) "/data/a.txt" true
      (without_file "/backups/a_2000.txt" (backed_up 2 [1000; 2000]))
    = (inr (restored_from "/data/a.txt" (example_record 1000) passed), s').
Proof.
  exact (proj2 (C6_fallback_chain (fun content => content) "/data/a.txt" true
                  (without_file "/backups/a_2000.txt"
                                (backed_up 2 [1000; 2000]))
                  (example_record 2000) [example_record 1000]
                  eq_refl eq_refl)).
Defined.

(** C6 as it was stated fails when there is no older version: the only
    backup of the path has lost its file, no older version is tried, and
    the message is not the one of the exhausted chain. *)
Lemma C6_no_older_version :
  versions (without_file "/backups/a_1000.txt" (backed_up 2 [1000]))
           "/data/a.txt"
  = [example_record 1000]
  /\ fst (restore_file (fun content => content) "/data/a.txt" true
            (without_file "/backups/a_1000.txt" (backed_up 2 [1000])))
     = inr {| file_path := "/data/a.txt"; success := false;
              backup_used := None;
              error_message := Some "No fallback backups available";
              verification_passed := false |}.
Proof. vm_compute. split; reflexivity. Qed.

(** C7. When the restored file has the recorded size, [verify_restoration]
    answers [True] whatever the comparison of the hashes gives; when the
    hashes differ, the last thing it does is to log the warning. Hence a
    restore attempt with verification on, whose copy went through and whose
    backup file has the recorded size, reports success and a passed
    verification. *)
Theorem C7_hash_mismatch_is_warning sha256 path record :
  (forall s content,
      faults (world_of s) OpExists path = None ->
      faults (world_of s) OpStat path = None ->
      file_at (world_of s) path = Some content ->
      Z.of_nat (String.length content) = file_size record ->
      exists same s1,
        _verify_file_hash sha256 path (backup_path record) s = (inr same, s1)
        /\ verify_restoration sha256 path record s
           = (inr true,
              if same
              then logged Info "INFO: "
                     ("File integrity verification passed for " +:+ path) s1
              else logged Warning "WARNING: "
                     ("Hash verification failed for " +:+ path
                      +:+ ", but size matches") s1))
  /\ (forall s content,
         can_restore (world_of s) path record = true ->
         file_at (world_of s) (backup_path record) = Some content ->
         Z.of_nat (String.length content) = file_size record ->
         faults (world_of s) OpExists path = None ->
         faults (world_of s) OpStat path = None ->
         exists s',
           _attempt_restore_from_backup sha256 path record true s
           = (inr (restored_from path record true), s')).
Proof.
  split.
  - intros s content Hex Hstat Hfile Hsize.
    destruct (verify_restoration_size_match sha256 path record s content)
      as (same & s1 & Hhash & _ & Hrun); try assumption.
    exists same, s1. split; assumption.
  - intros s content Hcan Hfile Hsize Hex Hstat.
    destruct (attempt_restore_success sha256 path record true s Hcan)
      as (content' & passed & s' & Hfile' & Hverify & Hrun).
    rewrite Hfile in Hfile'. injection Hfile' as <-.
    destruct (verify_restoration_size_match sha256 path record
                (restored s path content) content)
      as (same & s1 & _ & _ & Hverify'); try assumption.
    { destruct s as [[w m] e]. unfold file_at. cbn. apply lookup_insert_eq. }
    rewrite Hverify' in Hverify. injection Hverify as <- _.
    exists s'. exact Hrun.
Qed.

(** A restored file of the recorded size whose content is not the one of
    the backup: the verification passes and the warning is logged. *)
Lemma C7_hash_mismatch_is_warning_witness :
  let run :=
    verify_restoration (fun content => content) "/data/a.txt"
      (example_record 1000)
      (restored (backed_up 2 [1000]) "/data/a.txt" "HELLO") in
  fst run = inr true
  /\ last (output (world_of (snd run)))
     = Some (Logger Warning,
             "[RecoveryEngine] Hash verification failed for /data/a.txt, "
             +:+ "but size matches").
Proof.
  destruct (proj1 (C7_hash_mismatch_is_warning
                     (fun content => content) "/data/a.txt"
                     (example_record 1000))
              (restored (backed_up 2 [1000]) "/data/a.txt" "HELLO") "HELLO"
              eq_refl eq_refl eq_refl eq_refl)
    as (same & s1 & Hhash & Hrun).
  vm_compute in Hhash. injection Hhash as <- <-.
  cbv zeta. rewrite Hrun. split; reflexivity.
Defined.

(** C9. A restore attempt whose copy goes through returns a result with
    [success = True] and the verdict of the verification, whatever it is, as
    [verification_passed]; and [restore_file] then returns the result of
    this first attempt and only does the bookkeeping of a success after it:
    no fallback is tried. *)
Theorem C9_copy_success_is_success sha256 path record verify s :
  can_restore (world_of s) path record = true ->
  (exists content passed s',
      file_at (world_of s) (backup_path record) = Some content
      /\ (if verify : bool
          then verify_restoration sha256 path record (restored s path content)
               = (inr passed, s')
          else passed = true /\ s' = restored s path content)
      /\ _attempt_restore_from_backup sha256 path record verify s
         = (inr (restored_from path record passed), s'))
  /\ (forall older,
         versions s path = record :: older ->
         exists passed s1,
           _attempt_restore_from_backup sha256 path record verify
             (snd (incr_total_attempts s))
           = (inr (restored_from path record passed), s1)
           /\ restore_file sha256 path verify s
              = (inr (restored_from path record passed),
                 logged Info "INFO: "
                        ("Successfully restored " +:+ path +:+ " from backup "
                         +:+ backup_path record)
                        (snd (record_success path s1)))).
Proof.
  intros Hcan. split.
  - apply attempt_restore_success, Hcan.
  - intros older Hversions. eapply restore_file_latest; eassumption.
Qed.

(** A backup file that is shorter than the record says: the attempt
    succeeds and the verification does not pass. *)
Lemma C9_copy_success_is_success_witness :
  fst (_attempt_restore_from_backup (fun content => content) "/data/a.txt"
         (example_record 1000) true
         (restored (backed_up 2 [1000]) "/backups/a_1000.txt" "hi"))
  = inr (restored_from "/data/a.txt" (example_record 1000) false).
Proof.
  destruct (proj1 (C9_copy_success_is_success
                     (fun content => content) "/data/a.txt"
                     (example_record 1000) true
                     (restored (backed_up 2 [1000]) "/backups/a_1000.txt" "hi")
                     eq_refl))
    as (content & passed & s' & Hfile & Hverify & Hrun).
  vm_compute in Hfile. injection Hfile as <-.
  vm_compute in Hverify. injection Hverify as <- _.
  rewrite Hrun. reflexivity.
Defined.

End RecoveryFacts.

(** * Further properties

    ** threat_detector.py *)

Module DetectorMoreFacts.
Import Py FileMonitor ThreatDetector DetectionSpec PyFacts DetectionFacts.

(** *** Strings *)

Lemma substring_0_length t : substring 0 (String.length t) t = t.
Proof. induction t as [| c t IH]; cbn; [reflexivity | rewrite IH; reflexivity]. Qed.

Lemma substring_skip p t :
  substring (String.length p) (String.length t) (p +:+ t) = t.
Proof.
  induction p as [| c p IH].
  - apply substring_0_length.
  - change (String c p +:+ t) with (String c (p +:+ t)). exact IH.
Qed.

Lemma length_append p t :
  String.length (p +:+ t) = (String.length p + String.length t)%nat.
Proof.
  induction p as [| c p IH]; [reflexivity |].
  change (String c p +:+ t) with (String c (p +:+ t)).
  cbn [String.length Nat.add]. rewrite IH. reflexivity.
Qed.

Lemma substring_split s : forall k,
  (k <= String.length s)%nat ->
  s = substring 0 k s +:+ substring k (String.length s - k) s.
Proof.
  induction s as [| c s IH]; intros k Hk.
  - cbn in Hk. assert (k = 0)%nat as -> by lia. reflexivity.
  - destruct k as [| k].
    + change (substring 0 0 (String c s)) with EmptyString.
      rewrite Nat.sub_0_r, substring_0_length. reflexivity.
    + cbn [String.length] in Hk.
      change (substring 0 (S k) (String c s))
        with (String c (substring 0 k s)).
      change (substring (S k) (String.length (String c s) - S k) (String c s))
        with (substring k (String.length s - k) s).
      change (String c (substring 0 k s)
              +:+ substring k (String.length s - k) s)
        with (String c (substring 0 k s
                        +:+ substring k (String.length s - k) s)).
      rewrite <- IH by lia. reflexivity.
Qed.

(** [endswith] is the suffix test. *)
Lemma endswith_spec s suffix :
  endswith s suffix = true <-> exists p, s = p +:+ suffix.
Proof.
  unfold endswith. split.
  - destruct (Nat.leb_spec (String.length suffix) (String.length s)) as [Hle | Hgt];
      [| discriminate].
    intros Heq. apply String.eqb_eq in Heq.
    exists (substring 0 (String.length s - String.length suffix) s).
    rewrite <- Heq at 2.
    rewrite (substring_split s (String.length s - String.length suffix)) at 1
      by lia.
    do 2 f_equal. lia.
  - intros [p ->]. rewrite length_append.
    destruct (Nat.leb_spec (String.length suffix)
                           (String.length p + String.length suffix)) as [_ | Hgt];
      [| lia].
    replace (String.length p + String.length suffix - String.length suffix)%nat
      with (String.length p) by lia.
    rewrite substring_skip. apply String.eqb_refl.
Qed.

Lemma lower_append a b : lower (a +:+ b) = lower a +:+ lower b.
Proof.
  induction a as [| c a IH]; [reflexivity |].
  change (String c a +:+ b) with (String c (a +:+ b)).
  cbn [lower]. rewrite IH. reflexivity.
Qed.

Lemma lower_ascii_idem c : lower_ascii (lower_ascii c) = lower_ascii c.
Proof. destruct c as [[] [] [] [] [] [] [] []]; reflexivity. Qed.

Lemma lower_idem s : lower (lower s) = lower s.
Proof.
  induction s as [| c s IH]; cbn; [reflexivity |].
  rewrite lower_ascii_idem, IH. reflexivity.
Qed.

(** *** The extension test *)

Lemma matches_extension_existsb exts path_lower :
  matches_extension exts path_lower
  = existsb (fun ext => endswith path_lower ext) exts.
Proof.
  induction exts as [| ext rest IH]; [reflexivity |].
  cbn [matches_extension existsb].
  destruct (endswith path_lower ext); [reflexivity | exact IH].
Qed.

(** X1. The files that [_check_suspicious_extensions] reports are the paths of
    the created or modified events that [is_suspicious_extension] accepts,
    in the order of the batch and as often as they occur. *)
Theorem suspicious_files_listed self events :
  snd (_check_suspicious_extensions self events)
  = map file_path
        (List.filter
           (fun e => created_or_modified e
                     && is_suspicious_extension self (file_path e))
           events).
Proof.
  unfold _check_suspicious_extensions.
  rewrite collect_suspicious_filter. cbn [app].
  rewrite (filter_ext _
             (fun e => created_or_modified e
                       && is_suspicious_extension self (file_path e))).
  2: { intros e. unfold is_suspicious_extension.
       rewrite matches_extension_existsb. reflexivity. }
  destruct (map file_path _); reflexivity.
Qed.

Lemma is_suspicious_extension_of_list threshold window extensions name :
  is_suspicious_extension (init threshold window extensions) name = true
  <-> exists x prefix,
        In x (match extensions with
              | Some (ext :: rest) => ext :: rest
              | _ => [".encrypted"; ".locked"; ".crypto"; ".crypt"; ".enc";
                      ".vault"]
              end)
        /\ lower name = prefix +:+ lower x.
Proof.
  unfold is_suspicious_extension. cbn [init suspicious_extensions].
  assert (Hlist : configured_extensions extensions
                  = match extensions with
                    | Some (ext :: rest) => ext :: rest
                    | _ => [".encrypted"; ".locked"; ".crypto"; ".crypt";
                            ".enc"; ".vault"]
                    end)
    by (destruct extensions as [[| ext l] |]; reflexivity).
  rewrite Hlist, existsb_exists. split.
  - intros (ext' & Hin & Hends). apply in_map_iff in Hin as (ext & <- & Hin).
    apply endswith_spec in Hends as [prefix Hp]. eauto.
  - intros (ext & prefix & Hin & Hp). exists (lower ext). split.
    + apply in_map. exact Hin.
    + apply endswith_spec. eauto.
Qed.

(** X2. A detector made by [__init__] with a list of extensions that is not
    empty finds a name suspicious exactly when the name, in lower case,
    ends with an extension of that list in lower case; a detector made
    with no list or with an empty one, exactly when the name in lower case
    ends with one of [.encrypted], [.locked], [.crypto], [.crypt], [.enc]
    and [.vault]. With [.Locked] as the one extension, [REPORT.LOCKED] is
    suspicious and [a.encrypted] is not. *)
Theorem is_suspicious_extension_iff threshold window name :
  (forall ext rest,
      is_suspicious_extension (init threshold window (Some (ext :: rest)))
                              name = true
      <-> exists x prefix,
            In x (ext :: rest) /\ lower name = prefix +:+ lower x)
  /\ (forall extensions,
        extensions = None \/ extensions = Some [] ->
        is_suspicious_extension (init threshold window extensions) name
        = true
        <-> exists x prefix,
              In x [".encrypted"; ".locked"; ".crypto"; ".crypt"; ".enc";
                    ".vault"]
              /\ lower name = prefix +:+ x)
  /\ is_suspicious_extension (init threshold window (Some [".Locked"]))
                             "REPORT.LOCKED" = true
  /\ is_suspicious_extension (init threshold window (Some [".Locked"]))
                             "a.encrypted" = false.
Proof.
  split; [| split; [| split; reflexivity]].
  - intros ext rest.
    apply (is_suspicious_extension_of_list threshold window
             (Some (ext :: rest))).
  - intros extensions Hnone.
    rewrite is_suspicious_extension_of_list.
    assert (Hsix : forall x,
               In x [".encrypted"; ".locked"; ".crypto"; ".crypt"; ".enc";
                     ".vault"] -> lower x = x).
    { intros x Hx. cbn [In] in Hx.
      repeat (destruct Hx as [<- | Hx]; [reflexivity |]). destruct Hx. }
    destruct Hnone as [-> | ->].
    + split; intros (x & prefix & Hin & Hp); exists x, prefix;
        (split; [exact Hin |]); rewrite (Hsix x Hin) in *; exact Hp.
    + split; intros (x & prefix & Hin & Hp); exists x, prefix;
        (split; [exact Hin |]); rewrite (Hsix x Hin) in *; exact Hp.
Qed.

Lemma str_in_false_not_In x l : str_in x l = false -> ~ In x l.
Proof.
  intros Hf Hin. apply str_in_In in Hin. congruence.
Qed.

(** X3. [add_suspicious_extension] makes every name that ends with the
    extension, in any letter case, suspicious; it keeps suspicious what was
    so, adds nothing the second time, keeps the list free of duplicates and
    leaves the threshold and the window alone. *)
Theorem add_suspicious_extension_spec self extension :
  let self' := fst (add_suspicious_extension self extension) in
  (forall name prefix,
      lower name = prefix +:+ lower extension ->
      is_suspicious_extension self' name = true)
  /\ (forall name,
        is_suspicious_extension self name = true ->
        is_suspicious_extension self' name = true)
  /\ add_suspicious_extension self' extension = (self', [])
  /\ (List.NoDup (suspicious_extensions self) ->
      List.NoDup (suspicious_extensions self'))
  /\ detection_threshold self' = detection_threshold self
  /\ time_window_seconds self' = time_window_seconds self.
Proof.
  unfold add_suspicious_extension.
  destruct (str_in (lower extension) (suspicious_extensions self)) eqn:Hin;
    cbn [negb fst].
  - split; [| split; [auto | split; [| auto]]].
    + intros name prefix Hname. unfold is_suspicious_extension.
      apply existsb_exists. exists (lower extension). split.
      * apply str_in_In, Hin.
      * apply endswith_spec. eauto.
    + rewrite Hin. reflexivity.
  - cbn [suspicious_extensions detection_threshold time_window_seconds].
    split; [| split; [| split; [| split; [| auto]]]].
    + intros name prefix Hname. unfold is_suspicious_extension.
      cbn [suspicious_extensions]. rewrite existsb_app.
      apply orb_true_iff. right. cbn [existsb]. rewrite orb_false_r.
      apply endswith_spec. eauto.
    + intros name. unfold is_suspicious_extension.
      cbn [suspicious_extensions]. rewrite existsb_app. intros ->.
      reflexivity.
    + assert (Hnow : str_in (lower extension)
                            (suspicious_extensions self ++ [lower extension])
                     = true).
      { apply str_in_In, in_or_app. right. left. reflexivity. }
      rewrite Hnow. reflexivity.
    + intros Hnd.
      apply (Permutation_NoDup
               (l := lower extension :: suspicious_extensions self)).
      * apply Permutation_cons_append.
      * constructor; [apply str_in_false_not_In, Hin | exact Hnd].
Qed.

(** *** The verdict and the affected files *)

(** The fields of the result when the window is not empty. *)
Lemma analyze_events_fields self order now now' events recent growth files :
  _filter_recent_events self now events = inr recent ->
  recent <> [] ->
  _check_file_size_changes recent = inr (growth, files) ->
  let result := fst (analyze_events self order now now' events) in
  let total := fst (_check_modification_rate self recent)
               + fst (_check_suspicious_extensions self recent) + growth in
  is_threat result = (50 <=? total)
  /\ threat_score result = Z.min total 100
  /\ affected_files result
     = order (snd (_check_modification_rate self recent)
              ++ snd (_check_suspicious_extensions self recent) ++ files).
Proof.
  intros Hrun Hne Hg. cbv zeta.
  unfold analyze_events, analyze_events_body. rewrite Hrun.
  destruct recent as [| e rest]; [contradiction |].
  rewrite Hg.
  destruct (_check_modification_rate self (e :: rest)) as [ms mf].
  destruct (_check_suspicious_extensions self (e :: rest)) as [es ef].
  cbn [fst snd is_threat threat_score affected_files].
  repeat split; reflexivity.
Qed.

Lemma extension_subscore_fired m : 0 < m -> 50 <= extension_subscore m <= 60.
Proof.
  intros Hm. unfold extension_subscore.
  destruct (Z.ltb_spec 0 m); lia.
Qed.

Lemma count_if_pos {A} (p : A -> bool) l x :
  In x l -> p x = true -> 0 < count_if p l.
Proof.
  induction l as [| y l IH]; [intros [] |].
  cbn [count_if]. pose proof (count_if_nonneg p l).
  intros [<- | Hin] Hp.
  - rewrite Hp. lia.
  - specialize (IH Hin Hp). destruct (p y); lia.
Qed.

Lemma count_if_zero {A} (p : A -> bool) l :
  count_if p l = 0 <-> forall x, In x l -> p x = false.
Proof.
  induction l as [| y l IH]; cbn [count_if].
  - split; [intros _ x [] | reflexivity].
  - pose proof (count_if_nonneg p l). split.
    + intros H0 x [Heq | Hin].
      * subst x. destruct (p y); [lia | reflexivity].
      * apply IH; [destruct (p y); lia | exact Hin].
    + intros Hall. rewrite (Hall y (or_introl eq_refl)).
      rewrite (proj2 IH); [reflexivity |].
      intros x Hin. apply Hall. right. exact Hin.
Qed.

(** X4. With a window that can be taken off the clock reading, one created
    or modified event of the window on a file with a suspicious extension
    is enough for the verdict to be a threat. *)
Theorem one_suspicious_file_is_a_threat self order now now' events e :
  Forall (fun e => file_size e < 2 ^ 63) events ->
  window_in_range self now ->
  In e events ->
  in_window self now e = true ->
  created_or_modified e = true ->
  is_suspicious_extension self (file_path e) = true ->
  let result := fst (analyze_events self order now now' events) in
  is_threat result = true /\ 50 <= threat_score result <= 100.
Proof.
  intros Hsz Hrange Hin Hwin Hkind Hext. cbv zeta.
  set (recent := List.filter (in_window self now) events).
  assert (Hrecent : In e recent).
  { apply filter_In. split; assumption. }
  destruct (growth_score_total recent) as (growth & files & Hg & Hgrowth).
  { apply filter_Forall, Hsz. }
  destruct (analyze_events_fields self order now now' events recent
              growth files)
    as (Hthreat & Hscore & _).
  { apply filter_recent_in_window, Hrange. }
  { intros Hnil. rewrite Hnil in Hrecent. destruct Hrecent. }
  { exact Hg. }
  pose proof (rate_score_range self recent) as Hrate.
  assert (Hfired : 50 <= fst (_check_suspicious_extensions self recent) <= 60).
  { rewrite extension_score_count. apply extension_subscore_fired.
    apply (count_if_pos _ recent e Hrecent).
    rewrite Hkind. unfold is_suspicious_extension in Hext.
    rewrite matches_extension_existsb. exact Hext. }
  rewrite Hthreat, Hscore. split; [| lia].
  apply Z.leb_le. lia.
Qed.

(** Six files renamed to [.encrypted]: the first of them alone makes the
    batch a threat. *)
Lemma one_suspicious_file_is_a_threat_witness :
  is_threat (fst (analyze_events (init 5 10 None) (fun l => l)
                                 (at_second 6) (at_second 7) six_encrypted))
  = true.
Proof.
  apply (one_suspicious_file_is_a_threat (init 5 10 None) (fun l => l)
           (at_second 6) (at_second 7) six_encrypted
           (event_at (at_second 0) "/data/f0.encrypted" "created" 64)).
  - repeat constructor.
  - vm_compute. repeat split; discriminate.
  - left. reflexivity.
  - reflexivity.
  - reflexivity.
  - reflexivity.
Defined.

Lemma len_nonneg_list {A} (l : list A) : 0 <= len l.
Proof. unfold len. lia. Qed.

Lemma is_modified_created_or_modified e :
  is_modified e = true -> created_or_modified e = true.
Proof.
  unfold is_modified, created_or_modified. intros ->. apply orb_true_r.
Qed.

Lemma filter_nil_iff {A} (p : A -> bool) l :
  (forall x, In x l -> p x = false) -> List.filter p l = [].
Proof.
  induction l as [| x l IH]; [reflexivity |]. intros Hall.
  cbn [List.filter]. rewrite (Hall x (or_introl eq_refl)).
  apply IH. intros y Hy. apply Hall. right. exact Hy.
Qed.

Lemma growth_check_no_modified events :
  (forall e, In e events -> is_modified e = false) ->
  _check_file_size_changes events = inr (0, []).
Proof.
  intros Hnone. unfold _check_file_size_changes.
  rewrite group_modified_spec, (filter_nil_iff is_modified events Hnone).
  reflexivity.
Qed.

Lemma quiet_batch_no_threat self order now now' events :
  0 < detection_threshold self ->
  order [] = [] ->
  (forall e, In e events -> in_window self now e = true ->
             created_or_modified e = false) ->
  let result := fst (analyze_events self order now now' events) in
  threat_score result = 0
  /\ is_threat result = false
  /\ affected_files result = [].
Proof.
  intros Hthr Horder Hquiet. cbv zeta.
  destruct (window_in_range_dec self now) as [Hrange | Hout].
  2: { destruct (filter_recent_raises self now events Hout) as [msg Hraise].
       rewrite (analyze_events_error self order now now' events _ Hraise).
       repeat split; reflexivity. }
  pose proof (filter_recent_in_window self now events Hrange) as Hrun.
  set (recent := List.filter (in_window self now) events) in *.
  assert (Hrecent : forall e, In e recent -> created_or_modified e = false).
  { intros e He. apply filter_In in He as [Hin Hwin]. auto. }
  destruct recent as [| e0 rest] eqn:Hrec.
  { unfold analyze_events, analyze_events_body. rewrite Hrun.
    repeat split; reflexivity. }
  assert (Hg : _check_file_size_changes (e0 :: rest) = inr (0, [])).
  { apply growth_check_no_modified. intros e He.
    specialize (Hrecent e He).
    destruct (is_modified e) eqn:Hm; [| reflexivity].
    apply is_modified_created_or_modified in Hm. congruence. }
  destruct (analyze_events_fields self order now now' events (e0 :: rest)
              0 [])
    as (Hthreat & Hscore & Haffected).
  { exact Hrun. }
  { discriminate. }
  { exact Hg. }
  assert (Hcount : count_if created_or_modified (e0 :: rest) = 0)
    by (apply count_if_zero; exact Hrecent).
  assert (Hrate : _check_modification_rate self (e0 :: rest) = (0, [])).
  { unfold _check_modification_rate.
    rewrite (filter_ext _ created_or_modified)
      by (intros; apply str_in_created_or_modified).
    rewrite len_filter_count, Hcount.
    destruct (Z.leb_spec (detection_threshold self) 0); [lia | reflexivity]. }
  assert (Hext : _check_suspicious_extensions self (e0 :: rest) = (0, [])).
  { unfold _check_suspicious_extensions. rewrite collect_suspicious_filter.
    rewrite filter_nil_iff; [reflexivity |].
    intros e He. rewrite (Hrecent e He). reflexivity. }
  rewrite Hrate, Hext in *. cbn [fst snd app] in *.
  rewrite Hscore, Hthreat, Haffected, Horder. repeat split; reflexivity.
Qed.

(** X5. Deleted and moved events alone, and events that are out of the window,
    never make a threat: when no event of the window is a creation or a
    modification, the score is 0 and no file is reported. *)
Theorem no_created_or_modified_no_threat self order now now' events :
  0 < detection_threshold self ->
  order [] = [] ->
  (forall e, In e events -> in_window self now e = true ->
             created_or_modified e = false) ->
  let result := fst (analyze_events self order now now' events) in
  threat_score result = 0
  /\ is_threat result = false
  /\ affected_files result = [].
Proof. apply quiet_batch_no_threat. Qed.

(** A batch of deletions and moves. *)
Lemma no_created_or_modified_no_threat_witness :
  let result :=
    fst (analyze_events (init 1 10 None) (fun l => l)
           (at_second 1) (at_second 2)
           [event_at (at_second 0) "/data/a.locked" "deleted" 0;
            event_at (at_second 1) "/data/b.locked" "moved" 10]) in
  threat_score result = 0 /\ is_threat result = false
  /\ affected_files result = [].
Proof.
  apply (no_created_or_modified_no_threat (init 1 10 None) (fun l => l)).
  - reflexivity.
  - reflexivity.
  - intros e [<- | [<- | []]] _; reflexivity.
Defined.

Lemma rate_subscore_threat threshold n :
  (50 <=? rate_subscore threshold n) = (threshold + 4 <=? n).
Proof.
  unfold rate_subscore.
  destruct (Z.leb_spec threshold n);
    destruct (Z.leb_spec (threshold + 4) n);
    destruct (Z.leb_spec 50 (Z.min (30 + 5 * (n - threshold)) 50));
    try reflexivity; try lia.
  all: destruct (Z.leb_spec 50 0); try reflexivity; lia.
Qed.

(** X6. With a window that can be taken off the clock reading, when no
    created or modified event of the window has a suspicious extension,
    fewer such events than the detection threshold never make a threat, the
    score being at most 30; and when the growth check marks no file
    either, the verdict is a threat exactly from [detection_threshold + 4]
    such events on. *)
Theorem without_suspicious_extension self order now now' events :
  Forall (fun e => file_size e < 2 ^ 63) events ->
  0 < detection_threshold self ->
  window_in_range self now ->
  (forall e, In e events -> in_window self now e = true ->
             created_or_modified e = true ->
             is_suspicious_extension self (file_path e) = false) ->
  let recent := List.filter (in_window self now) events in
  let n := count_if created_or_modified recent in
  let result := fst (analyze_events self order now now' events) in
  (n < detection_threshold self ->
   is_threat result = false /\ threat_score result <= 30)
  /\ (_check_file_size_changes recent = inr (0, []) ->
      is_threat result = (detection_threshold self + 4 <=? n)).
Proof.
  intros Hsz Hthr Hrange Hclean. cbv zeta.
  pose proof (filter_recent_in_window self now events Hrange) as Hrun.
  set (recent := List.filter (in_window self now) events) in *.
  set (n := count_if created_or_modified recent).
  destruct (growth_score_total recent) as (growth & files & Hg & Hgrowth).
  { apply filter_Forall, Hsz. }
  assert (Hext : fst (_check_suspicious_extensions self recent) = 0).
  { rewrite extension_score_count.
    rewrite (proj2 (count_if_zero _ recent)); [reflexivity |].
    intros e He. apply filter_In in He as [Hin Hwin].
    destruct (created_or_modified e) eqn:Hkind; [| reflexivity].
    rewrite matches_extension_existsb.
    apply (Hclean e Hin Hwin Hkind). }
  assert (Hrate : fst (_check_modification_rate self recent)
                  = rate_subscore (detection_threshold self) n)
    by apply rate_score_count.
  destruct (analyze_events_verdict self order now now' events recent
              growth files Hthr Hrun Hg) as [Hscore Hthreat].
  rewrite Hrate, Hext, Z.add_0_r in Hscore, Hthreat.
  split.
  - intros Hn. rewrite Hthreat, Hscore.
    assert (Hr : rate_subscore (detection_threshold self) n = 0).
    { unfold rate_subscore.
      destruct (Z.leb_spec (detection_threshold self) n); [lia | reflexivity]. }
    rewrite Hr. split; [apply Z.leb_gt |]; lia.
  - intros Hnone. rewrite Hg in Hnone. injection Hnone as -> _.
    rewrite Hthreat, Z.add_0_r. apply rate_subscore_threat.
Qed.

(** Seven modified text files under a threshold of 3: a threat by the rate
    alone. *)
Lemma without_suspicious_extension_witness :
  is_threat (fst (analyze_events (init 3 10 None) (fun l => l)
                                 (at_second 1) (at_second 2) seven_modified))
  = true.
Proof.
  destruct (without_suspicious_extension (init 3 10 None) (fun l => l)
              (at_second 1) (at_second 2) seven_modified) as [_ Hrate].
  - repeat constructor.
  - reflexivity.
  - vm_compute. repeat split; discriminate.
  - intros e He _ _. unfold seven_modified in He. cbn [map In] in He.
    repeat (destruct He as [<- | He]; [reflexivity |]). destruct He.
  - rewrite Hrate; reflexivity.
Defined.

Lemma collect_growing_subset d :
  forall acc l,
    collect_growing d acc = inr l ->
    forall x, In x l -> In x acc \/ In x (map fst d).
Proof.
  induction d as [| [p events] d IH]; intros acc l Hrun x Hx.
  - cbn in Hrun. injection Hrun as <-. left. exact Hx.
  - cbn [collect_growing] in Hrun. cbn [map fst In].
    destruct (2 <=? len events).
    + destruct (scan_size_increase (sort_by_timestamp events)) as [e | []];
        [discriminate | |].
      * destruct (IH _ _ Hrun x Hx) as [Hacc | Hd]; [| tauto].
        apply in_app_or in Hacc as [Hacc | [<- | []]]; tauto.
      * destruct (IH _ _ Hrun x Hx); tauto.
    + destruct (IH _ _ Hrun x Hx); tauto.
Qed.

(** X7. Every file that the result reports is the path of a created or modified
    event of the window: a file that was only deleted or moved, or whose
    events are too old, is never reported. *)
Theorem affected_files_are_active_paths self order now now' events p :
  (forall l x, In x (order l) -> In x l) ->
  In p (affected_files (fst (analyze_events self order now now' events))) ->
  exists e,
    In e events /\ in_window self now e = true
    /\ created_or_modified e = true /\ file_path e = p.
Proof.
  intros Horder Hp.
  destruct (window_in_range_dec self now) as [Hrange | Hout].
  2: { destruct (filter_recent_raises self now events Hout) as [msg Hraise].
       rewrite (analyze_events_error self order now now' events _ Hraise)
         in Hp.
       destruct Hp. }
  pose proof (filter_recent_in_window self now events Hrange) as Hrun.
  set (recent := List.filter (in_window self now) events) in *.
  assert (Hrecent : forall e, In e recent ->
                              In e events /\ in_window self now e = true).
  { intros e He. apply filter_In in He. exact He. }
  assert (Hactive :
    forall q (keep : FileEvent -> bool),
      (forall e, keep e = true -> created_or_modified e = true) ->
      In q (map file_path (List.filter keep recent)) ->
      exists e, In e events /\ in_window self now e = true
                /\ created_or_modified e = true /\ file_path e = q).
  { intros q keep Hkeep Hq. apply in_map_iff in Hq as (e & <- & He).
    apply filter_In in He as [He Hk]. destruct (Hrecent e He).
    exists e. auto. }
  destruct (_check_file_size_changes recent) as [err | [growth files]] eqn:Hg.
  { unfold analyze_events, analyze_events_body in Hp.
    rewrite Hrun in Hp.
    destruct recent; [destruct Hp |]. rewrite Hg in Hp.
    destruct (_check_modification_rate self _), (_check_suspicious_extensions self _).
    destruct Hp. }
  destruct recent as [| e0 rest] eqn:Hrec.
  { unfold analyze_events, analyze_events_body in Hp.
    rewrite Hrun in Hp. destruct Hp. }
  destruct (analyze_events_fields self order now now' events (e0 :: rest)
              growth files)
    as (_ & _ & Haffected).
  { exact Hrun. }
  { discriminate. }
  { exact Hg. }
  rewrite Haffected in Hp. rewrite <- Hrec in *.
  apply Horder in Hp. apply in_app_or in Hp as [Hp | Hp];
    [| apply in_app_or in Hp as [Hp | Hp]].
  - unfold _check_modification_rate in Hp.
    destruct (_ <=? _); [| destruct Hp]. cbn [snd] in Hp.
    apply (Hactive p (fun event =>
                        str_in (event_type event) ["modified"; "created"]));
      [| exact Hp].
    intros e He. rewrite <- str_in_created_or_modified. exact He.
  - rewrite suspicious_files_listed in Hp.
    apply (Hactive p _ (fun e H => proj1 (andb_prop _ _ H)) Hp).
  - unfold _check_file_size_changes in Hg.
    destruct (collect_growing (group_modified recent) []) as [err | l] eqn:Hc;
      [discriminate |].
    assert (Hfiles : files = l).
    { destruct l; injection Hg as _ <-; reflexivity. }
    subst files.
    destruct (collect_growing_subset _ _ _ Hc p Hp) as [[] | Hkey].
    rewrite group_modified_spec, map_map in Hkey. cbn [fst] in Hkey.
    rewrite map_id in Hkey. apply (proj1 (distinct_In _ _)) in Hkey.
    apply (Hactive p is_modified is_modified_created_or_modified Hkey).
Qed.

Lemma affected_files_are_active_paths_witness :
  exists e,
    In e six_encrypted /\ in_window (init 5 10 None) (at_second 6) e = true
    /\ created_or_modified e = true /\ file_path e = "/data/f0.encrypted".
Proof.
  apply (affected_files_are_active_paths (init 5 10 None) (fun l => l)
           (at_second 6) (at_second 7) six_encrypted "/data/f0.encrypted").
  - intros l x Hx. exact Hx.
  - vm_compute. left. reflexivity.
Defined.

End DetectorMoreFacts.

(** ** file_monitor.py *)

Module MonitorFacts.
Import Py Os FileMonitor ThreatDetector DetectionSpec.
Import FileSystemMonitor MonitorSpec MonadFacts.
Import DetectionFacts DetectorMoreFacts.

Lemma string_append_assoc (a b c : string) :
  (a +:+ b) +:+ c = a +:+ b +:+ c.
Proof.
  induction a as [| x a IH]; [reflexivity |].
  change ((String x a +:+ b) +:+ c) with (String x ((a +:+ b) +:+ c)).
  rewrite IH. reflexivity.
Qed.

Lemma monitor_io_run {A} (c : M world A) s :
  io c s = (fst (c (machine s)), set_machine (snd (c (machine s))) s).
Proof. unfold io. apply zoom_unfold. Qed.

Lemma os_path_exists_run p w :
  os_path_exists p w
  = (inr match visible w p with Some _ => true | None => false end, w).
Proof.
  unfold os_path_exists, visible. destruct (faults w OpExists p); reflexivity.
Qed.

Lemma set_machine_id s : set_machine (machine s) s = s.
Proof. destruct s; reflexivity. Qed.

(** The [try] block of [add_file_event] up to the size. *)
Lemma size_query_run p s :
  (found ← io (os_path_exists p);
   regular ← (if found : bool then io (os_path_isfile p) else ret false);
   (if found && regular then io (os_path_getsize p) else ret 0)) s
  = (size_seen (machine s) p, s).
Proof.
  rewrite bind_unfold, monitor_io_run, os_path_exists_run. cbn [fst snd].
  rewrite set_machine_id. unfold size_seen.
  destruct (visible (machine s) p) as [content |] eqn:Hv.
  - rewrite bind_unfold. unfold os_path_isfile.
    rewrite monitor_io_run, os_path_exists_run, Hv. cbn [fst snd andb].
    rewrite set_machine_id, monitor_io_run. unfold os_path_getsize.
    rewrite stat_size_run.
    assert (Hf : StorageSpec.file_at (machine s) p = Some content).
    { unfold visible in Hv. unfold StorageSpec.file_at.
      destruct (faults (machine s) OpExists p); [discriminate | exact Hv]. }
    rewrite Hf.
    destruct (faults (machine s) OpStat p); cbn [fst snd];
      rewrite set_machine_id; reflexivity.
  - reflexivity.
Qed.

Lemma size_query_then {B} (k : Z -> M state B) p s :
  (found ← io (os_path_exists p);
   regular ← (if found : bool then io (os_path_isfile p) else ret false);
   file_size ← (if found && regular then io (os_path_getsize p) else ret 0);
   k file_size) s
  = match size_seen (machine s) p with
    | inl e => (inl e, s)
    | inr n => k n s
    end.
Proof.
  rewrite bind_unfold, monitor_io_run, os_path_exists_run. cbn [fst snd].
  rewrite set_machine_id. unfold size_seen.
  destruct (visible (machine s) p) as [content |] eqn:Hv.
  - rewrite bind_unfold. unfold os_path_isfile.
    rewrite monitor_io_run, os_path_exists_run, Hv. cbn [fst snd andb].
    rewrite set_machine_id, bind_unfold, monitor_io_run.
    unfold os_path_getsize. rewrite stat_size_run.
    assert (Hf : StorageSpec.file_at (machine s) p = Some content).
    { unfold visible in Hv. unfold StorageSpec.file_at.
      destruct (faults (machine s) OpExists p); [discriminate | exact Hv]. }
    rewrite Hf.
    destruct (faults (machine s) OpStat p); cbn [fst snd];
      rewrite set_machine_id; reflexivity.
  - reflexivity.
Qed.

(** What [add_file_event] does, on both paths. *)
Lemma add_file_event_run now now' kind path s :
  add_file_event now now' kind path s
  = match size_seen (machine s) path with
    | inr size =>
        (inr tt,
         set_machine
           (add_output (event_line kind path size) (machine s))
           (set_recent_events
              (List.filter (newer_than (now' - 60 * 1000000))
                 (recent_events (self s) ++ [event_at now path kind size]))
              s))
    | inl e =>
        (inr tt,
         set_machine
           (add_output
              (Logger Error, "Error processing file event: " +:+ str_exn e)
              (machine s)) s)
    end.
Proof.
  unfold add_file_event. rewrite try_except_unfold, size_query_then.
  destruct (size_seen (machine s) path) as [e | size].
  - reflexivity.
  - rewrite bind_unfold. unfold modify at 1. cbv beta iota.
    rewrite bind_unfold. unfold modify at 1. cbv beta iota.
    unfold log_file_event, log. rewrite monitor_io_run.
    unfold write_line, modify. cbn [fst snd].
    change (String.eqb ("Size: " +:+ str_int size +:+ " bytes") "")
      with false. cbv iota.
    rewrite !string_append_assoc.
    unfold event_line, event_at, newer_than, timedelta_seconds.
    destruct s as [w [dir active ledger]].
    reflexivity.
Qed.

(** X8. An event whose size can be told is appended with that size, 0 for a
    file that is not there; the ledger is then cut to the events of the
    last 60 seconds, the order of arrival kept. No file is touched, the
    call returns, and one line is logged. *)
Theorem add_file_event_records now now' kind path s size :
  size_seen (machine s) path = inr size ->
  let s' := snd (add_file_event now now' kind path s) in
  fst (add_file_event now now' kind path s) = inr tt
  /\ recent_events (self s')
     = List.filter (newer_than (now' - 60 * 1000000))
         (recent_events (self s) ++ [event_at now path kind size])
  /\ Forall (fun e => now' - 60 * 1000000 < timestamp e)
            (recent_events (self s'))
  /\ same_files s s'
  /\ output (machine s')
     = output (machine s) ++ [event_line kind path size].
Proof.
  intros Hsize. cbv zeta. rewrite add_file_event_run, Hsize. cbn [fst snd].
  destruct s as [w [dir active ledger]].
  cbn [self machine recent_events set_machine set_recent_events].
  repeat split.
  apply List.Forall_forall. intros e He. apply filter_In in He as [_ He].
  unfold newer_than in He. lia.
Qed.

(** A five-byte file, modified half a minute after an older event and two
    minutes after a stale one. *)
Lemma add_file_event_records_witness :
  let s := example_monitor [event_at 0 "/data/old" "created" 1;
                            event_at 90000000 "/data/a.txt" "created" 0] in
  let s' := snd (add_file_event 120000000 120000007 "modified"
                                "/data/a.txt" s) in
  recent_events (self s')
  = [event_at 90000000 "/data/a.txt" "created" 0;
     event_at 120000000 "/data/a.txt" "modified" 5].
Proof.
  cbv zeta.
  destruct (add_file_event_records 120000000 120000007 "modified"
              "/data/a.txt"
              (example_monitor [event_at 0 "/data/old" "created" 1;
                                event_at 90000000 "/data/a.txt" "created" 0])
              5) as (_ & Hledger & _).
  - reflexivity.
  - rewrite Hledger. reflexivity.
Defined.

(** X9. When the size query fails on a file that passed the existence test,
    as when the file is removed in between, the event is lost: the ledger
    stays as it was, not even cut to the last 60 seconds, and the error is
    logged, not raised. *)
Theorem add_file_event_unreadable_size now now' kind path s e :
  size_seen (machine s) path = inl e ->
  let s' := snd (add_file_event now now' kind path s) in
  fst (add_file_event now now' kind path s) = inr tt
  /\ self s' = self s
  /\ same_files s s'
  /\ output (machine s')
     = output (machine s)
       ++ [(Logger Error, "Error processing file event: " +:+ str_exn e)].
Proof.
  intros Hsize. cbv zeta. rewrite add_file_event_run, Hsize. cbn [fst snd].
  destruct s as [w ledger]. repeat split.
Qed.

Lemma add_file_event_unreadable_size_witness :
  let s := example_monitor [event_at 0 "/data/old" "created" 1] in
  let s' := snd (add_file_event 120000000 120000007 "modified"
                                "/data/gone.txt" s) in
  recent_events (self s') = [event_at 0 "/data/old" "created" 1].
Proof.
  cbv zeta.
  destruct (add_file_event_unreadable_size 120000000 120000007 "modified"
              "/data/gone.txt"
              (example_monitor [event_at 0 "/data/old" "created" 1])
              (FileNotFoundError
                 "[Errno 2] No such file or directory: '/data/gone.txt'"))
    as (_ & Hself & _).
  - reflexivity.
  - rewrite Hself. reflexivity.
Defined.

(** *** The handler *)

Lemma same_files_refl s : same_files s s.
Proof. repeat split. Qed.

Lemma same_files_trans s1 s2 s3 :
  same_files s1 s2 -> same_files s2 s3 -> same_files s1 s3.
Proof.
  unfold same_files. intros (H1 & H2 & H3) (H4 & H5 & H6).
  repeat split; congruence.
Qed.

Lemma same_files_size_seen s s' p :
  same_files s s' -> size_seen (machine s') p = size_seen (machine s) p.
Proof.
  intros (Hf & Hc & Hx). unfold size_seen, visible. rewrite Hf, Hc, Hx.
  reflexivity.
Qed.

Lemma same_files_recorded s s' n :
  same_files s s' -> recorded (machine s') n = recorded (machine s) n.
Proof.
  intros H. unfold recorded. rewrite (same_files_size_seen s s' _ H).
  reflexivity.
Qed.

Lemma add_file_event_ledger now now' kind path s :
  let s' := snd (add_file_event now now' kind path s) in
  fst (add_file_event now now' kind path s) = inr tt
  /\ same_files s s'
  /\ recent_events (self s')
     = match size_seen (machine s) path with
       | inr size =>
           List.filter (newer_than (now' - 60 * 1000000))
             (recent_events (self s) ++ [event_at now path kind size])
       | inl _ => recent_events (self s)
       end.
Proof.
  cbv zeta. rewrite add_file_event_run.
  destruct s as [w [dir active ledger]].
  destruct (size_seen _ path); repeat split.
Qed.

Lemma on_event_run has_monitor label kind logged path now now' event s :
  on_event has_monitor label kind logged path now now' event s
  = if is_directory event then (inr tt, s)
    else
      let s1 := set_machine
                  (add_output (Logger Debug, label +:+ logged) (machine s))
                  s in
      if has_monitor then add_file_event now now' kind path s1
      else (inr tt, s1).
Proof.
  unfold on_event. destruct (is_directory event); [reflexivity |].
  cbn [negb]. rewrite bind_unfold. unfold log. rewrite monitor_io_run.
  unfold write_line, modify. cbn [fst snd].
  destruct has_monitor; reflexivity.
Qed.

Lemma deliver_on_event has_monitor n :
  exists label logged,
    deliver has_monitor n
    = on_event has_monitor label (kind_name (kind n)) logged (filed_under n)
               (clock n) (clock' n) (subject n).
Proof.
  unfold deliver, filed_under, on_modified, on_created, on_deleted, on_moved.
  destruct (kind n); eexists _, _; reflexivity.
Qed.

(** One notification, with the monitor set. *)
Lemma deliver_run n s :
  let s' := snd (deliver true n s) in
  fst (deliver true n s) = inr tt
  /\ same_files s s'
  /\ recent_events (self s')
     = match recorded (machine s) n with
       | [] => recent_events (self s)
       | new =>
           List.filter (newer_than (clock' n - 60 * 1000000))
             (recent_events (self s) ++ new)
       end.
Proof.
  cbv zeta. destruct (deliver_on_event true n) as (label & logged & ->).
  rewrite on_event_run. unfold recorded.
  destruct (is_directory (subject n)).
  { repeat split. }
  cbv zeta.
  set (s1 := set_machine _ s).
  assert (H1 : same_files s s1) by (destruct s; repeat split).
  assert (Hl : recent_events (self s1) = recent_events (self s))
    by (destruct s; reflexivity).
  destruct (add_file_event_ledger (clock n) (clock' n) (kind_name (kind n))
              (filed_under n) s1) as (Hret & Hsame & Hledger).
  split; [exact Hret |].
  split; [exact (same_files_trans _ s1 _ H1 Hsame) |].
  rewrite Hledger, (same_files_size_seen s s1 _ H1), Hl.
  destruct (size_seen (machine s) (filed_under n)); reflexivity.
Qed.

Lemma filter_newer_filter c c1 (l : list FileEvent) :
  c1 <= c ->
  List.filter (newer_than c) (List.filter (newer_than c1) l)
  = List.filter (newer_than c) l.
Proof.
  intros Hle. induction l as [| e l IH]; [reflexivity |].
  cbn [List.filter].
  destruct (newer_than c1 e) eqn:H1; cbn [List.filter];
    destruct (newer_than c e) eqn:H2; rewrite ?IH; try reflexivity.
  unfold newer_than in H1, H2.
  apply Z.ltb_ge in H1. apply Z.ltb_lt in H2. lia.
Qed.

(** A run of notifications: the calls return, no file is touched, every
    event of the ledger is an old one or a recorded one, and a cut that is
    not older than the cuts of the calls does not tell the ledger from the
    full history. *)
Lemma deliver_all_run ns :
  forall s,
    let s' := snd (deliver_all true ns s) in
    let history :=
      recent_events (self s) ++ flat_map (recorded (machine s)) ns in
    fst (deliver_all true ns s) = inr tt
    /\ same_files s s'
    /\ (forall e, In e (recent_events (self s')) -> In e history)
    /\ (forall c,
          Forall (fun n => clock' n - 60 * 1000000 <= c) ns ->
          List.filter (newer_than c) (recent_events (self s'))
          = List.filter (newer_than c) history).
Proof.
  induction ns as [| n rest IH]; intros s; cbv zeta.
  { cbn [deliver_all flat_map]. rewrite app_nil_r. repeat split; auto. }
  cbn [deliver_all flat_map].
  destruct (deliver_run n s) as (Hret & Hsame & Hledger).
  destruct (deliver true n s) as [r s1] eqn:Hrun. cbn [fst snd] in *.
  subst r. rewrite (bind_inr _ _ _ _ _ Hrun).
  destruct (IH s1) as (Hret' & Hsame' & Hin' & Hcut').
  assert (Hrec : flat_map (recorded (machine s1)) rest
                 = flat_map (recorded (machine s)) rest).
  { apply flat_map_ext. intros m. apply same_files_recorded. exact Hsame. }
  rewrite Hrec in Hin', Hcut'.
  split; [exact Hret' |].
  split; [exact (same_files_trans _ s1 _ Hsame Hsame') |].
  split.
  - intros e He. apply Hin' in He. rewrite app_assoc.
    apply in_app_iff in He as [He | He]; apply in_app_iff; [left | right; exact He].
    rewrite Hledger in He.
    destruct (recorded (machine s) n) as [| x new].
    + rewrite app_nil_r. exact He.
    + apply filter_In in He as [He _]. exact He.
  - intros c Hc. inversion Hc as [| ? ? Hn Hrest]; subst.
    rewrite (Hcut' c Hrest), app_assoc.
    rewrite (List.filter_app _ (recent_events (self s1))).
    rewrite (List.filter_app _ (_ ++ _)). f_equal.
    rewrite Hledger.
    destruct (recorded (machine s) n) as [| x new].
    + rewrite app_nil_r. reflexivity.
    + rewrite filter_newer_filter by exact Hn. reflexivity.
Qed.

Lemma get_recent_events_filter self now seconds :
  get_recent_events self now seconds
  = List.filter (newer_than (now - 1000000 * seconds)) (recent_events self).
Proof.
  unfold get_recent_events, newer_than, timedelta_seconds.
  replace (seconds * 1000000) with (1000000 * seconds) by lia. reflexivity.
Qed.

(** X10. Cutting the ledger to 60 seconds at each arrival is not seen by a
    reader who asks for at most 60 seconds: after any run of
    notifications, [get_recent_events] and [get_modification_count] answer
    as if every recorded event had been kept. *)
Theorem cut_ledger_answers_as_full_history ns s now seconds :
  seconds <= 60 ->
  Forall (fun n => clock' n <= now) ns ->
  let s' := snd (deliver_all true ns s) in
  let history :=
    recent_events (self s) ++ flat_map (recorded (machine s)) ns in
  let recent e := newer_than (now - 1000000 * seconds) e in
  fst (deliver_all true ns s) = inr tt
  /\ get_recent_events (self s') now seconds = List.filter recent history
  /\ get_modification_count (self s') now seconds
     = count_if (fun e => recent e && is_modified e) history.
Proof.
  intros Hsec Hclock. cbv zeta.
  destruct (deliver_all_run ns s) as (Hret & _ & _ & Hcut).
  assert (Hrecent :
            get_recent_events (self (snd (deliver_all true ns s))) now seconds
            = List.filter (newer_than (now - 1000000 * seconds))
                (recent_events (self s)
                 ++ flat_map (recorded (machine s)) ns)).
  { rewrite get_recent_events_filter. apply Hcut.
    eapply Forall_impl; [exact Hclock |]. cbv beta. intros n Hn. lia. }
  split; [exact Hret |]. split; [exact Hrecent |].
  unfold get_modification_count. rewrite Hrecent, filter_filter.
  apply len_filter_count.
Qed.

(** Three notifications over two minutes, read at the end for the last
    minute: the first event is out of the minute, the directory is not
    recorded. *)
Lemma cut_ledger_answers_as_full_history_witness :
  let file p := {| is_directory := false; src_path := p; dest_path := "" |} in
  let dir p := {| is_directory := true; src_path := p; dest_path := "" |} in
  let ns :=
    [ {| kind := Created; subject := file "/data/a.txt";
         clock := 1000000; clock' := 1000002 |};
      {| kind := Modified; subject := dir "/data";
         clock := 100000000; clock' := 100000002 |};
      {| kind := Modified; subject := file "/data/a.txt";
         clock := 120000000; clock' := 120000002 |} ] in
  let s' := snd (deliver_all true ns (example_monitor [])) in
  get_recent_events (self s') 121000000 60
  = [event_at 120000000 "/data/a.txt" "modified" 5]
  /\ get_modification_count (self s') 121000000 60 = 1.
Proof.
  cbv zeta.
  edestruct (cut_ledger_answers_as_full_history
               [ {| kind := Created;
                    subject := {| is_directory := false;
                                  src_path := "/data/a.txt";
                                  dest_path := "" |};
                    clock := 1000000; clock' := 1000002 |};
                 {| kind := Modified;
                    subject := {| is_directory := true; src_path := "/data";
                                  dest_path := "" |};
                    clock := 100000000; clock' := 100000002 |};
                 {| kind := Modified;
                    subject := {| is_directory := false;
                                  src_path := "/data/a.txt";
                                  dest_path := "" |};
                    clock := 120000000; clock' := 120000002 |} ]
               (example_monitor []) 121000000 60) as (_ & Hrecent & Hcount).
  - lia.
  - repeat constructor; cbn [clock']; lia.
  - rewrite Hrecent, Hcount. split; reflexivity.
Defined.

Lemma recorded_kind w n e :
  In e (recorded w n) -> event_type e = kind_name (kind n).
Proof.
  unfold recorded. destruct (is_directory (subject n)); [intros [] |].
  destruct (size_seen w (filed_under n)); [intros [] |].
  intros [<- | []]. reflexivity.
Qed.

(** X11. Deletions and renames never raise the score: whatever the names, a
    ledger that starts empty and receives [on_deleted] and [on_moved]
    notifications only is analysed with score 0. A file renamed to a name
    with a suspicious extension is filed as a move, and the extension
    check looks at creations and modifications only. *)
Theorem moves_and_deletions_never_count detector order ns s
        now seconds now_d now_d' :
  0 < detection_threshold detector ->
  order [] = [] ->
  recent_events (self s) = [] ->
  Forall (fun n => kind n = Deleted \/ kind n = Moved) ns ->
  let s' := snd (deliver_all true ns s) in
  let result :=
    fst (analyze_events detector order now_d now_d'
           (get_recent_events (self s') now seconds)) in
  threat_score result = 0
  /\ is_threat result = false
  /\ affected_files result = [].
Proof.
  intros Hthr Horder Hempty Hkinds. cbv zeta.
  apply quiet_batch_no_threat; [exact Hthr | exact Horder |].
  intros e He _.
  rewrite get_recent_events_filter in He. apply filter_In in He as [He _].
  destruct (deliver_all_run ns s) as (_ & _ & Hin & _).
  apply Hin in He. rewrite Hempty in He. cbn [app] in He.
  apply in_flat_map in He as (n & Hn & He).
  apply recorded_kind in He.
  rewrite List.Forall_forall in Hkinds.
  unfold created_or_modified. rewrite He.
  destruct (Hkinds n Hn) as [-> | ->]; reflexivity.
Qed.

(** Six files renamed to [.encrypted] within six seconds. *)
Lemma moves_and_deletions_never_count_witness :
  let renamed i :=
    {| kind := Moved;
       subject := {| is_directory := false;
                     src_path := "/data/f" +:+ str_int i;
                     dest_path := "/data/f" +:+ str_int i +:+ ".encrypted" |};
       clock := at_second i; clock' := at_second i + 1 |} in
  let s' := snd (deliver_all true (map renamed [0; 1; 2; 3; 4; 5])
                             (example_monitor [])) in
  let result :=
    fst (analyze_events (init 5 10 None) (fun l => l)
           (at_second 6) (at_second 7)
           (get_recent_events (self s') (at_second 6) 10)) in
  Z.of_nat (List.length (recent_events (self s'))) = 6
  /\ threat_score result = 0 /\ is_threat result = false
  /\ affected_files result = [].
Proof.
  cbv zeta. split; [vm_compute; reflexivity |].
  apply (moves_and_deletions_never_count (init 5 10 None) (fun l => l)).
  - reflexivity.
  - reflexivity.
  - reflexivity.
  - cbn [map]. repeat (apply List.Forall_cons; [right; reflexivity |]).
    apply List.Forall_nil.
Defined.

End MonitorFacts.

(** ** backup_manager.py: verification, cleaning up, statistics *)

Module BackupMoreFacts.
Import Py Os StorageSpec BackupSpec MonadFacts BackupFacts.
Import BackupManager.

Lemma quiet_refl s : same_but_output s s.
Proof. repeat split. Qed.

Lemma quiet_print text s :
  same_but_output s (set_machine (add_output (Stdout, text) (machine s)) s).
Proof. repeat split. Qed.

Lemma verify_backup_run dict_items path s :
  verify_backup dict_items path s
  = match faults (machine s) OpExists path with
    | Some e =>
        (inr false,
         set_machine
           (add_output (Stdout, "Error verifying backup " +:+ path +:+ ": "
                                +:+ str_exn e) (machine s)) s)
    | None =>
        match file_at (machine s) path with
        | None => (inr false, s)
        | Some content =>
            match faults (machine s) OpStat path with
            | Some e =>
                (inr false,
                 set_machine
                   (add_output
                      (Stdout, "Error verifying backup " +:+ path +:+ ": "
                               +:+ str_exn e) (machine s)) s)
            | None => (inr (verdict dict_items s path content), s)
            end
        end
    end.
Proof.
  unfold verify_backup. rewrite try_except_unfold, bind_unfold, io_run.
  rewrite path_exists_run.
  destruct (faults (machine s) OpExists path) as [e |]; cbn [fst snd].
  { rewrite set_machine_same, bind_unfold, print_run. reflexivity. }
  rewrite set_machine_same.
  destruct (file_at (machine s) path) as [content |] eqn:Hfile; cbn [negb].
  2: reflexivity.
  rewrite bind_unfold. cbn [gets]. unfold verdict.
  destruct (List.find _ _) as [record |].
  - rewrite bind_unfold, io_run, stat_size_run, Hfile.
    destruct (faults (machine s) OpStat path) as [e |]; cbn [fst snd];
      rewrite set_machine_same; [rewrite bind_unfold, print_run |];
      reflexivity.
  - rewrite bind_unfold, io_run, stat_size_run, Hfile.
    destruct (faults (machine s) OpStat path) as [e |]; cbn [fst snd];
      rewrite set_machine_same; [rewrite bind_unfold, print_run |];
      reflexivity.
Qed.

(** X12. [verify_backup] never raises and writes nothing but a line of text;
    a file that is not on disk does not verify; and the verdict on a file
    depends on its length only: a backup file overwritten with other
    content of the same length verifies as the original does. *)
Theorem verify_backup_looks_at_size_only dict_items path s :
  (exists verified s',
      verify_backup dict_items path s = (inr verified, s')
      /\ same_but_output s s'
      /\ (file_at (machine s) path = None -> verified = false))
  /\ (forall content content',
         file_at (machine s) path = Some content ->
         String.length content' = String.length content ->
         fst (verify_backup dict_items path
                (set_machine (with_file (machine s) path content') s))
         = fst (verify_backup dict_items path s)).
Proof.
  split.
  - rewrite verify_backup_run.
    destruct (faults (machine s) OpExists path) as [e |].
    { eexists _, _. split; [reflexivity |]. split; [apply quiet_print |].
      reflexivity. }
    destruct (file_at (machine s) path) as [content |].
    2: { eexists _, _. split; [reflexivity |]. split; [apply quiet_refl |].
         reflexivity. }
    destruct (faults (machine s) OpStat path) as [e |].
    + eexists _, _. split; [reflexivity |]. split; [apply quiet_print |].
      reflexivity.
    + eexists _, _. split; [reflexivity |]. split; [apply quiet_refl |].
      discriminate.
  - intros content content' Hfile Hlen. rewrite !verify_backup_run.
    cbn [machine set_machine with_file set_files faults].
    destruct (faults (machine s) OpExists path) as [e |]; [reflexivity |].
    assert (Hnew : file_at (set_machine (with_file (machine s) path content') s).(machine) path
                   = Some content').
    { unfold file_at. cbn. apply lookup_insert_eq. }
    cbn [machine set_machine] in Hnew. rewrite Hnew, Hfile.
    destruct (faults (machine s) OpStat path) as [e |]; [reflexivity |].
    cbn [fst]. unfold verdict. cbn [self set_machine]. rewrite Hlen.
    reflexivity.
Qed.

(** A backup file overwritten with other bytes of the same number. *)
Lemma verify_backup_looks_at_size_only_witness :
  fst (verify_backup items_of "/backups/a_1000.txt"
         (set_machine
            (with_file (machine (example_backups 5)) "/backups/a_1000.txt"
                       "XXXXX")
            (example_backups 5)))
  = inr true.
Proof.
  rewrite (proj2 (verify_backup_looks_at_size_only items_of
                    "/backups/a_1000.txt" (example_backups 5))
             "hello" "XXXXX" eq_refl eq_refl).
  vm_compute. reflexivity.
Defined.

(** *** What the deletions do to the disk *)

Lemma only_deleted_same s s' candidates :
  files (machine s') = files (machine s) -> only_deleted s s' candidates.
Proof. intros H p. left. rewrite H. reflexivity. Qed.

Lemma remove_one_files record n s :
  exists n' s',
    try_except
      (found ← io (path_exists (backup_path record));
       if found : bool then
         io (unlink (backup_path record));;
         ret (n + 1)
       else ret n)
      (fun e =>
         print ("Error removing old backup " +:+ backup_path record
                +:+ ": " +:+ str_exn e);;
         ret n) s
    = (inr n', s')
    /\ self s' = self s
    /\ cwd (machine s') = cwd (machine s)
    /\ faults (machine s') = faults (machine s)
    /\ n <= n'
    /\ file_count (machine s) = file_count (machine s') + (n' - n)
    /\ only_deleted s s' [record].
Proof.
  rewrite try_except_unfold, bind_unfold, io_run, path_exists_run.
  destruct (faults (machine s) OpExists (backup_path record)) as [e |] eqn:He;
    cbn [fst snd].
  - rewrite set_machine_same, bind_unfold, print_run.
    eexists _, _. split; [reflexivity |].
    split; [reflexivity |]. split; [reflexivity |]. split; [reflexivity |].
    split; [lia |]. split; [unfold file_count; cbn; lia |].
    apply only_deleted_same. reflexivity.
  - rewrite set_machine_same.
    destruct (file_at (machine s) (backup_path record)) as [content |] eqn:Hf.
    + rewrite bind_unfold, io_run, unlink_run, Hf.
      destruct (faults (machine s) OpUnlink (backup_path record))
        as [e |] eqn:Hu; cbn [fst snd].
      * rewrite set_machine_same, bind_unfold, print_run.
        eexists _, _. split; [reflexivity |].
        split; [reflexivity |]. split; [reflexivity |].
        split; [reflexivity |].
        split; [lia |]. split; [unfold file_count; cbn; lia |].
        apply only_deleted_same. reflexivity.
      * eexists _, _. split; [reflexivity |]. cbn.
        split; [reflexivity |]. split; [reflexivity |].
        split; [reflexivity |]. split; [lia |]. split.
        -- unfold file_count. cbn. unfold file_at in Hf.
           rewrite <- (insert_delete_id (files (machine s)) _ _ Hf) at 1.
           rewrite map_size_insert_None by apply lookup_delete_eq. lia.
        -- intros p.
           destruct (decide (absolute_in (cwd (machine s)) (backup_path record) = p))
             as [<- | Hne].
           ++ right. split; [apply lookup_delete_eq |].
              exists record. split; [left; reflexivity | reflexivity].
           ++ left. apply lookup_delete_ne. exact Hne.
    + eexists _, _. split; [reflexivity |].
      split; [reflexivity |]. split; [reflexivity |]. split; [reflexivity |].
      split; [lia |]. split; [lia |].
      apply only_deleted_same. reflexivity.
Qed.

Lemma remove_excess_files excess :
  forall n s,
  exists n' s',
    remove_excess excess n s = (inr n', s')
    /\ self s' = self s
    /\ cwd (machine s') = cwd (machine s)
    /\ faults (machine s') = faults (machine s)
    /\ n <= n'
    /\ file_count (machine s) = file_count (machine s') + (n' - n)
    /\ only_deleted s s' excess.
Proof.
  induction excess as [| record rest IH]; intros n s.
  - exists n, s. split; [reflexivity |].
    split; [reflexivity |]. split; [reflexivity |]. split; [reflexivity |].
    split; [lia |]. split; [lia |].
    apply only_deleted_same. reflexivity.
  - cbn [remove_excess].
    destruct (remove_one_files record n s)
      as (n1 & s1 & Hrun & Hself & Hcwd & Hfaults & Hle & Hcount & Hdel).
    rewrite (bind_inr _ _ _ _ _ Hrun).
    destruct (IH n1 s1)
      as (n2 & s2 & Hrest & Hself2 & Hcwd2 & Hfaults2 & Hle2 & Hcount2 & Hdel2).
    exists n2, s2. split; [exact Hrest |].
    split; [congruence |]. split; [congruence |]. split; [congruence |].
    split; [lia |]. split; [lia |].
    intros p.
    destruct (Hdel2 p) as [Hsame | (Hnone & r & Hin & Hp)].
    + destruct (Hdel p) as [Hsame1 | (Hnone1 & r & Hin & Hp)].
      * left. congruence.
      * right. split; [congruence |]. exists r.
        split; [| exact Hp]. destruct Hin as [<- | []]. left. reflexivity.
    + right. split; [exact Hnone |]. exists r.
      split; [right; exact Hin |]. rewrite <- Hcwd. exact Hp.
Qed.

(** [_cleanup_old_backups] on one key. *)
Lemma cleanup_files key s :
  exists n s',
    _cleanup_old_backups key s = (inr n, s')
    /\ 0 <= n
    /\ file_count (machine s) = file_count (machine s') + n
    /\ only_deleted s s'
         (evicted (retention_count (self s))
                  (default [] (backup_records (self s) !! key))).
Proof.
  unfold _cleanup_old_backups. rewrite bind_unfold. cbn [gets].
  destruct (backup_records (self s) !! key) as [l |] eqn:Hl.
  - rewrite bind_unfold. cbn [modify]. rewrite bind_unfold. cbn [gets].
    cbn [set_records self retention_count default].
    unfold evicted.
    destruct (len (sort_newest_first l) <=? retention_count (self s)) eqn:Hlen.
    + eexists _, _. split; [reflexivity |]. cbn.
      split; [lia |]. split; [lia |].
      apply only_deleted_same. reflexivity.
    + rewrite bind_unfold.
      match goal with |- context [remove_excess ?ex ?n ?st] =>
        destruct (remove_excess_files ex n st)
          as (n1 & s1 & -> & Hself & Hcwd & Hfaults & Hle & Hcount & Hdel)
      end.
      rewrite bind_unfold. cbn [modify].
      eexists _, _. split; [reflexivity |].
      split; [lia |]. split; [unfold file_count in *; cbn in *; lia |].
      change (id l) with l. rewrite Hlen. exact Hdel.
  - eexists _, _. split; [reflexivity |]. cbn.
    split; [lia |]. split; [lia |].
    apply only_deleted_same. reflexivity.
Qed.

(** *** [cleanup_old_backups] *)

Lemma cleanup_each_spec keys :
  forall n s,
    List.NoDup keys ->
    exists n' s',
      cleanup_each keys n s = (inr n', s')
      /\ n <= n'
      /\ backup_directory (self s') = backup_directory (self s)
      /\ retention_count (self s') = retention_count (self s)
      /\ cwd (machine s') = cwd (machine s)
      /\ faults (machine s') = faults (machine s)
      /\ file_count (machine s) = file_count (machine s') + (n' - n)
      /\ (forall key,
            In key keys ->
            backup_records (self s') !! key
            = kept (retention_count (self s))
                <$> backup_records (self s) !! key)
      /\ (forall key,
            ~ In key keys ->
            backup_records (self s') !! key = backup_records (self s) !! key)
      /\ only_deleted s s'
           (flat_map
              (fun key => evicted (retention_count (self s))
                            (default [] (backup_records (self s) !! key)))
              keys).
Proof.
  induction keys as [| k rest IH]; intros n s Hnodup.
  - exists n, s. split; [reflexivity |]. split; [lia |].
    split; [reflexivity |]. split; [reflexivity |]. split; [reflexivity |].
    split; [reflexivity |]. split; [lia |].
    split; [intros key [] |].
    split; [reflexivity | apply only_deleted_same; reflexivity].
  - apply List.NoDup_cons_iff in Hnodup as [Hk Hrest].
    cbn [cleanup_each flat_map].
    destruct (cleanup_spec k s)
      as (n1 & s1 & Hrun & (Hcwd & Hfaults & _) & Hdir & Hret & Hrec & _).
    destruct (cleanup_files k s)
      as (n1' & s1' & Hrun' & Hn1 & Hcount & Hdel).
    rewrite Hrun in Hrun'. injection Hrun' as <- <-.
    rewrite (bind_inr _ _ _ _ _ Hrun).
    destruct (IH (n + n1) s1 Hrest)
      as (n2 & s2 & Hrun2 & Hle2 & Hdir2 & Hret2 & Hcwd2 & Hfaults2
          & Hcount2 & Hrec2 & Hout2 & Hdel2).
    exists n2, s2. split; [exact Hrun2 |]. split; [lia |].
    split; [congruence |]. split; [congruence |]. split; [congruence |].
    split; [congruence |]. split; [lia |].
    assert (Hother : forall key, key <> k ->
                       backup_records (self s1) !! key
                       = backup_records (self s) !! key).
    { intros key Hne. rewrite Hrec.
      destruct (backup_records (self s) !! k); [| reflexivity].
      apply lookup_insert_ne. congruence. }
    assert (Hfirst : backup_records (self s1) !! k
                     = kept (retention_count (self s))
                         <$> backup_records (self s) !! k).
    { rewrite Hrec.
      destruct (backup_records (self s) !! k) as [l |] eqn:Hl.
      - rewrite lookup_insert_eq. reflexivity.
      - rewrite Hl. reflexivity. }
    split; [| split].
    + intros key [<- | Hin].
      * rewrite (Hout2 k Hk). exact Hfirst.
      * rewrite (Hrec2 key Hin), Hret.
        assert (Hne : key <> k) by (intros ->; contradiction).
        rewrite (Hother key Hne). reflexivity.
    + intros key Hout.
      rewrite Hout2 by (intros Hin; apply Hout; right; exact Hin).
      apply Hother. intros ->. apply Hout. left. reflexivity.
    + intros p.
      destruct (Hdel2 p) as [Hsame | (Hnone & r & Hin & Hp)].
      * destruct (Hdel p) as [Hsame1 | (Hnone1 & r & Hin & Hp)].
        -- left. congruence.
        -- right. split; [congruence |]. exists r.
           split; [apply in_app_iff; left; exact Hin | exact Hp].
      * right. split; [exact Hnone |]. exists r. split; [| congruence].
        apply in_app_iff. right.
        apply in_flat_map in Hin as (key & Hkey & Hin).
        apply in_flat_map. exists key. split; [exact Hkey |].
        assert (Hne : key <> k) by (intros ->; contradiction).
        rewrite <- (Hother key Hne), <- Hret. exact Hin.
Qed.

Lemma enumerates_keys dict_items m :
  enumerates dict_items ->
  List.NoDup (map fst (dict_items m))
  /\ forall key, In key (map fst (dict_items m)) <-> is_Some (m !! key).
Proof.
  intros Henum. specialize (Henum m).
  assert (Hperm : Permutation (map fst (dict_items m))
                              (map fst (map_to_list m)))
    by (apply Permutation_map; exact Henum).
  split.
  - eapply Permutation_NoDup; [symmetry; exact Hperm |].
    apply NoDup_ListNoDup, NoDup_fst_map_to_list.
  - intros key. split.
    + intros Hin. apply (Permutation_in _ Hperm) in Hin.
      apply in_map_iff in Hin as ([k l] & <- & Hin). cbn [fst].
      exists l. apply elem_of_map_to_list, list_elem_of_In. exact Hin.
    + intros [l Hl]. apply (Permutation_in _ (Permutation_sym Hperm)).
      apply in_map_iff. exists (key, l). split; [reflexivity |].
      apply list_elem_of_In, elem_of_map_to_list. exact Hl.
Qed.

Lemma evicted_nil retention : evicted retention [] = [].
Proof.
  unfold evicted, slice_from. cbn [sort_newest_first].
  destruct (len [] <=? retention); [reflexivity |].
  destruct (0 <=? retention); apply drop_nil.
Qed.

Lemma len_kept retention l : 0 <= retention -> len (kept retention l) <= retention.
Proof.
  intros Hr. rewrite kept_take by exact Hr. unfold len.
  rewrite length_take. lia.
Qed.

(** X13. [cleanup_old_backups] brings every original of the index within the
    retention count: it never raises, each original is left with its
    newest records, no file appears, a file that disappears was the
    backup file of a record left out, and the number returned is the
    number of files that left the disk. *)
Theorem cleanup_old_backups_enforces_retention dict_items s :
  enumerates dict_items ->
  exists removed s',
    cleanup_old_backups dict_items s = (inr removed, s')
    /\ retention_count (self s') = retention_count (self s)
    /\ (forall key,
          backup_records (self s') !! key
          = kept (retention_count (self s))
              <$> backup_records (self s) !! key)
    /\ (0 <= retention_count (self s) -> within_retention s')
    /\ file_count (machine s) = file_count (machine s') + removed
    /\ (forall p,
          files (machine s') !! p = files (machine s) !! p
          \/ (files (machine s') !! p = None
              /\ exists key l r,
                   backup_records (self s) !! key = Some l
                   /\ In r (evicted (retention_count (self s)) l)
                   /\ absolute_in (cwd (machine s)) (backup_path r) = p)).
Proof.
  intros Henum. unfold cleanup_old_backups. rewrite bind_unfold. cbn [gets].
  destruct (enumerates_keys dict_items (backup_records (self s)) Henum)
    as [Hnodup Hkeys].
  destruct (cleanup_each_spec _ 0 s Hnodup)
    as (n & s' & Hrun & Hle & _ & Hret & _ & _ & Hcount & Hrec & Hout & Hdel).
  exists n, s'. split; [exact Hrun |]. split; [exact Hret |].
  assert (Hindex : forall key,
             backup_records (self s') !! key
             = kept (retention_count (self s))
                 <$> backup_records (self s) !! key).
  { intros key.
    destruct (backup_records (self s) !! key) as [l |] eqn:Hl.
    - rewrite Hrec by (apply Hkeys; exists l; exact Hl).
      rewrite Hl. reflexivity.
    - rewrite Hout; [rewrite Hl; reflexivity |].
      intros Hin. apply Hkeys in Hin as [l' Hl']. congruence. }
  split; [exact Hindex |]. split.
  { intros Hr key l Hl. rewrite Hindex in Hl.
    destruct (backup_records (self s) !! key) as [l0 |]; [| discriminate].
    injection Hl as <-. rewrite Hret. apply len_kept, Hr. }
  split; [lia |].
  intros p. destruct (Hdel p) as [Hsame | (Hnone & r & Hin & Hp)];
    [left; exact Hsame | right].
  split; [exact Hnone |].
  apply in_flat_map in Hin as (key & _ & Hin).
  destruct (backup_records (self s) !! key) as [l |] eqn:Hl.
  - exists key, l, r. auto.
  - cbn [default from_option] in Hin. rewrite evicted_nil in Hin.
    destruct Hin.
Qed.

Lemma items_of_enumerates : enumerates items_of.
Proof. intros m. reflexivity. Qed.

(** Three backups of one file and one of another, kept down to two per
    file: the oldest of the three goes. *)
Lemma cleanup_old_backups_enforces_retention_witness :
  fst (cleanup_old_backups items_of (example_backups 2)) = inr 1
  /\ exists removed s',
       cleanup_old_backups items_of (example_backups 2) = (inr removed, s')
       /\ within_retention s'
       /\ file_count (machine (example_backups 2))
          = file_count (machine s') + removed.
Proof.
  split; [vm_compute; reflexivity |].
  destruct (cleanup_old_backups_enforces_retention items_of
              (example_backups 2) items_of_enumerates)
    as (removed & s' & Hrun & _ & _ & Hwithin & Hcount & _).
  exists removed, s'. split; [exact Hrun |].
  split; [apply Hwithin; cbn; lia | exact Hcount].
Defined.

(** *** What a successful [create_backup] leaves on disk *)

Lemma create_backup_files strftime_ms now path s record s' content :
  file_at (machine s) path = Some content ->
  create_backup strftime_ms now path s = (inr (Some record), s') ->
  file_size record = Z.of_nat (String.length content)
  /\ backup_path record = backup_path_for strftime_ms s now path
  /\ original_path record = absolute_in (cwd (machine s)) path
  /\ forall p,
       files (machine s') !! p
       = <[backup_path_for strftime_ms s now path := content]>
           (files (machine s)) !! p
       \/ (files (machine s') !! p = None
           /\ exists r,
                In r (evicted (retention_count (self s))
                              (records_of s path ++ [record]))
                /\ absolute_in (cwd (machine s)) (backup_path r) = p).
Proof.
  intros Hsrc Hrun. rewrite create_backup_run in Hrun.
  revert Hrun. unfold create_backup_body.
  rewrite bind_unfold, io_run, path_exists_run.
  destruct (faults (machine s) OpExists path) as [e |]; cbn [fst snd];
    [discriminate |].
  rewrite set_machine_same, Hsrc. cbn [negb].
  rewrite bind_unfold. cbn [gets].
  rewrite bind_unfold, io_run, copy2_run, read_file_run, Hsrc.
  destruct (faults (machine s) OpRead path) as [e |]; cbn [fst snd];
    [discriminate |].
  set (target := backup_directory (self s) +:+ "/" +:+ path_stem path
                 +:+ "_" +:+ strftime_ms now +:+ path_suffix path).
  destruct (faults (machine s) OpWrite target) as [e |]; cbn [fst snd];
    [discriminate |].
  set (s1 := set_machine (with_file (machine s) target content) s).
  rewrite bind_unfold, io_run, stat_size_run.
  change (faults (machine s1)) with (faults (machine s)).
  destruct (faults (machine s) OpStat path) as [e |]; cbn [fst snd];
    [discriminate |].
  assert (Hstill : file_at (machine s1) path = Some content).
  { unfold file_at in *. cbn.
    match goal with |- context [<[?k := _]> _ !! ?p] =>
      destruct (decide (k = p)) as [-> | Hne]
    end.
    - apply lookup_insert_eq.
    - rewrite lookup_insert_ne by assumption. exact Hsrc. }
  rewrite Hstill. cbn [fst snd]. rewrite set_machine_same.
  rewrite bind_unfold. unfold absolute at 1. cbn [gets].
  rewrite bind_unfold. unfold absolute at 1. cbn [gets].
  rewrite bind_unfold. cbn [modify]. rewrite bind_unfold.
  match goal with |- context [_cleanup_old_backups ?k ?st] =>
    destruct (cleanup_files k st) as (n & s2 & Hclean & _ & _ & Hdel);
    rewrite Hclean
  end.
  cbn [ret]. intros Hrun. injection Hrun as <- <-.
  cbn [file_size backup_path original_path].
  split; [reflexivity |]. split; [reflexivity |]. split; [reflexivity |].
  intros p. destruct (Hdel p) as [Hsame | (Hnone & r & Hin & Hp)].
  - left. rewrite Hsame. reflexivity.
  - right. split; [exact Hnone |]. exists r. split; [| exact Hp].
    cbn [set_records self machine s1 set_machine retention_count
         backup_records] in Hin.
    rewrite lookup_insert_eq in Hin. exact Hin.
Qed.

Lemma sort_snoc_newer l x :
  Forall (fun r => timestamp r < timestamp x) l ->
  sort_newest_first (l ++ [x]) = x :: sort_newest_first l.
Proof.
  induction l as [| y l IH]; [reflexivity |].
  intros Hall. apply Forall_cons_1 in Hall as [Hy Hall].
  cbn [app sort_newest_first]. rewrite (IH Hall).
  cbn [insert_newest_first].
  destruct (Z.leb_spec (timestamp x) (timestamp y)); [lia | reflexivity].
Qed.

Lemma is_absolute_eqb c p : is_absolute (String c p) = Ascii.eqb c "/".
Proof. destruct c as [[] [] [] [] [] [] [] []]; reflexivity. Qed.

Lemma absolute_in_cases dir p :
  absolute_in dir p = if is_absolute p then p else dir +:+ "/" +:+ p.
Proof.
  destruct p as [| c p]; [reflexivity |].
  destruct c as [[] [] [] [] [] [] [] []]; reflexivity.
Qed.

Lemma absolute_in_absolute dir p :
  is_absolute dir = true -> is_absolute (absolute_in dir p) = true.
Proof.
  intros Hdir. rewrite absolute_in_cases.
  destruct (is_absolute p) eqn:Hp; [exact Hp |].
  destruct dir as [| d dir]; [discriminate |].
  change (String d dir +:+ "/" +:+ p) with (String d (dir +:+ "/" +:+ p)).
  rewrite is_absolute_eqb in *. exact Hdir.
Qed.

Lemma absolute_in_idem dir p :
  is_absolute p = true -> absolute_in dir p = p.
Proof. intros Hp. rewrite absolute_in_cases, Hp. reflexivity. Qed.

Lemma sort_sorted_id l :
  StronglySorted at_least_as_new l -> sort_newest_first l = l.
Proof.
  induction 1 as [| y l Hl IH Hy]; [reflexivity |].
  cbn [sort_newest_first]. rewrite IH.
  destruct Hy as [| z l Hz _]; [reflexivity |].
  cbn [insert_newest_first]. unfold at_least_as_new in Hz.
  destruct (Z.leb_spec (timestamp z) (timestamp y)); [reflexivity | lia].
Qed.

(** The index after a backup that is newer than every record of its
    original, with room for one record at least. *)
Lemma create_backup_newest strftime_ms now path s record s' :
  1 <= retention_count (self s) ->
  Forall (fun r => timestamp r < now) (records_of s path) ->
  create_backup strftime_ms now path s = (inr (Some record), s') ->
  let older := sort_newest_first (records_of s path) in
  let n := Z.to_nat (retention_count (self s) - 1) in
  cwd (machine s') = cwd (machine s)
  /\ faults (machine s') = faults (machine s)
  /\ retention_count (self s') = retention_count (self s)
  /\ backup_records (self s')
     = <[absolute_in (cwd (machine s)) path := record :: take n older]>
         (backup_records (self s))
  /\ evicted (retention_count (self s)) (records_of s path ++ [record])
     = drop n older.
Proof.
  intros Hret Hnewer Hrun. cbv zeta.
  destruct (create_backup_step strftime_ms now path s record s')
    as (Hts & Hcwd & Hfaults & Hr & Hrec & _); [lia | exact Hrun |].
  assert (Hsort : sort_newest_first (records_of s path ++ [record])
                  = record :: sort_newest_first (records_of s path)).
  { apply sort_snoc_newer. rewrite Hts. exact Hnewer. }
  rewrite Hsort in Hrec.
  replace (Z.to_nat (retention_count (self s)))
    with (S (Z.to_nat (retention_count (self s) - 1))) in Hrec by lia.
  cbn [take firstn] in Hrec.
  split; [exact Hcwd |]. split; [exact Hfaults |]. split; [exact Hr |].
  split; [exact Hrec |].
  rewrite evicted_drop by lia. rewrite Hsort.
  replace (Z.to_nat (retention_count (self s)))
    with (S (Z.to_nat (retention_count (self s) - 1))) by lia.
  reflexivity.
Qed.

Lemma list_backups_result path s :
  list_backups path s = (inr (sort_newest_first (records_of s path)), s).
Proof.
  unfold list_backups, absolute, records_of.
  rewrite bind_unfold. cbn [gets]. rewrite bind_unfold. cbn [gets].
  destruct (backup_records (self s) !! _); reflexivity.
Qed.

Lemma get_latest_backup_result path s :
  get_latest_backup path s
  = (inr (head (sort_newest_first (records_of s path))), s).
Proof.
  unfold get_latest_backup. rewrite bind_unfold, list_backups_result.
  reflexivity.
Qed.

Lemma new_backup_list strftime_ms now path s record s' :
  1 <= retention_count (self s) ->
  Forall (fun r => timestamp r < now) (records_of s path) ->
  create_backup strftime_ms now path s = (inr (Some record), s') ->
  sort_newest_first (records_of s' path)
  = record :: take (Z.to_nat (retention_count (self s) - 1))
                   (sort_newest_first (records_of s path)).
Proof.
  intros Hret Hnewer Hrun.
  destruct (create_backup_newest _ _ _ _ _ _ Hret Hnewer Hrun)
    as (Hcwd & _ & _ & Hrec & _).
  destruct (create_backup_step strftime_ms now path s record s')
    as (Hts & _); [lia | exact Hrun |].
  assert (Hrecords :
            records_of s' path
            = record :: take (Z.to_nat (retention_count (self s) - 1))
                          (sort_newest_first (records_of s path)))
    by (eapply records_of_insert; eassumption).
  rewrite Hrecords. apply sort_sorted_id. constructor.
  - apply StronglySorted_take, sort_newest_first_sorted.
  - apply List.Forall_forall. intros r Hr.
    assert (Hin : In r (records_of s path)).
    { apply (Permutation_in _ (sort_newest_first_perm _)).
      rewrite <- (take_drop (Z.to_nat (retention_count (self s) - 1))
                            (sort_newest_first (records_of s path))).
      apply in_or_app. left. exact Hr. }
    rewrite List.Forall_forall in Hnewer. specialize (Hnewer r Hin).
    unfold at_least_as_new. lia.
Qed.

(** X14. A backup taken at a clock reading later than those of the records of
    its original is the latest backup of that original from then on, when
    one record at least is kept; the older records follow it, newest
    first. *)
Theorem new_backup_is_latest strftime_ms now path s record s' :
  1 <= retention_count (self s) ->
  Forall (fun r => timestamp r < now) (records_of s path) ->
  create_backup strftime_ms now path s = (inr (Some record), s') ->
  get_latest_backup path s' = (inr (Some record), s')
  /\ list_backups path s'
     = (inr (record
             :: take (Z.to_nat (retention_count (self s) - 1))
                     (sort_newest_first (records_of s path))), s').
Proof.
  intros Hret Hnewer Hrun.
  rewrite get_latest_backup_result, list_backups_result.
  rewrite (new_backup_list _ _ _ _ _ _ Hret Hnewer Hrun).
  split; reflexivity.
Qed.

(** A first backup, then a second one a second later. *)
Lemma new_backup_is_latest_witness :
  let s1 := snd (create_backup str_int 1000 "/data/a.txt"
                               (example_store 3 no_faults)) in
  let s2 := snd (create_backup str_int 2000 "/data/a.txt" s1) in
  get_latest_backup "/data/a.txt" s2 = (inr (Some (example_record 2000)), s2)
  /\ list_backups "/data/a.txt" s2
     = (inr [example_record 2000; example_record 1000], s2).
Proof.
  cbv zeta.
  destruct (new_backup_is_latest str_int 2000 "/data/a.txt"
              (snd (create_backup str_int 1000 "/data/a.txt"
                                  (example_store 3 no_faults)))
              (example_record 2000)
              (snd (create_backup str_int 2000 "/data/a.txt"
                      (snd (create_backup str_int 1000 "/data/a.txt"
                                          (example_store 3 no_faults))))))
    as [Hlatest Hlist].
  - vm_compute. discriminate.
  - vm_compute. repeat constructor.
  - vm_compute. reflexivity.
  - split; [exact Hlatest |]. rewrite Hlist. vm_compute. reflexivity.
Defined.

Lemma find_first_match {A} (p : A -> bool) (l : list A) x :
  In x l -> p x = true -> exists y, List.find p l = Some y.
Proof.
  intros Hin Hp. destruct (List.find p l) as [y |] eqn:Hfind.
  - exists y. reflexivity.
  - rewrite (find_none _ _ Hfind x Hin) in Hp. discriminate.
Qed.

Lemma indexed_all_records dict_items s r :
  enumerates dict_items ->
  In r (concat (map snd (dict_items (backup_records (self s)))))
  <-> indexed s r.
Proof.
  intros Henum. specialize (Henum (backup_records (self s))).
  unfold indexed. rewrite in_concat. split.
  - intros (l & Hl & Hr). apply in_map_iff in Hl as ([key l'] & <- & Hl).
    apply (Permutation_in _ Henum) in Hl.
    exists key, l'. split; [| exact Hr].
    apply elem_of_map_to_list, list_elem_of_In. exact Hl.
  - intros (key & l & Hl & Hr). exists l. split; [| exact Hr].
    apply in_map_iff. exists (key, l). split; [reflexivity |].
    apply (Permutation_in _ (Permutation_sym Henum)).
    apply list_elem_of_In, elem_of_map_to_list. exact Hl.
Qed.

(** X15. A backup that has just been taken verifies: the run of [create_backup]
    followed by [verify_backup] on the path of the record answers [True],
    provided that the working directory is absolute, that the record is
    newer than the others of its original and is kept, that no record of
    the index shares its backup file, and that the two calls which look at
    the backup file go through. *)
Theorem fresh_backup_verifies dict_items strftime_ms now path s record s' :
  enumerates dict_items ->
  is_absolute (cwd (machine s)) = true ->
  1 <= retention_count (self s) ->
  Forall (fun r => timestamp r < now) (records_of s path) ->
  (forall r, indexed s r ->
             absolute_in (cwd (machine s)) (backup_path r)
             <> backup_path_for strftime_ms s now path) ->
  faults (machine s) OpExists (backup_path_for strftime_ms s now path) = None ->
  faults (machine s) OpStat (backup_path_for strftime_ms s now path) = None ->
  create_backup strftime_ms now path s = (inr (Some record), s') ->
  verify_backup dict_items (backup_path record) s' = (inr true, s').
Proof.
  intros Henum Hcwd Hret Hnewer Hfresh Hex Hst Hrun.
  destruct (create_backup_newest _ _ _ _ _ _ Hret Hnewer Hrun)
    as (Hcwd' & Hfaults' & _ & Hrec & Hevicted).
  pose proof (create_backup_body_spec strftime_ms now path s) as Hbody.
  pose proof Hrun as Hrun0. rewrite create_backup_run in Hrun0.
  destruct (create_backup_body strftime_ms now path s) as [[e | r0] s0];
    [discriminate |].
  injection Hrun0 as -> ->. destruct Hbody as (Hsrc & _).
  destruct (file_at (machine s) path) as [content |] eqn:Hfile;
    [clear Hsrc | contradiction].
  destruct (create_backup_files _ _ _ _ _ _ _ Hfile Hrun)
    as (Hsize & Hpath & _ & Hfiles).
  set (bp := backup_path_for strftime_ms s now path) in *.
  assert (Habs : is_absolute bp = true)
    by (apply absolute_in_absolute; exact Hcwd).
  assert (Hold : forall r, In r (sort_newest_first (records_of s path)) ->
                           indexed s r).
  { intros r Hr. apply (Permutation_in _ (sort_newest_first_perm _)) in Hr.
    unfold records_of in Hr.
    destruct (backup_records (self s) !! _) as [l |] eqn:Hl; [| destruct Hr].
    eexists _, l. split; [exact Hl | exact Hr]. }
  assert (Hthere : file_at (machine s') bp = Some content).
  { unfold file_at. rewrite Hcwd', (absolute_in_idem _ bp Habs).
    destruct (Hfiles bp) as [-> | (_ & r & Hin & Hp)].
    - apply lookup_insert_eq.
    - exfalso. rewrite Hevicted in Hin.
      apply (Hfresh r); [| exact Hp]. apply Hold.
      rewrite <- (take_drop (Z.to_nat (retention_count (self s) - 1))
                            (sort_newest_first (records_of s path))).
      apply in_or_app. right. exact Hin. }
  rewrite verify_backup_run, Hpath, Hfaults', Hex, Hthere, Hst.
  f_equal. f_equal. unfold verdict.
  assert (Hin : indexed s' record).
  { eexists (absolute_in (cwd (machine s)) path), _.
    rewrite Hrec, lookup_insert_eq. split; [reflexivity | left; reflexivity]. }
  apply (indexed_all_records dict_items s' record Henum) in Hin.
  destruct (find_first_match
              (fun r => String.eqb (backup_path r) bp) _ record Hin)
    as [found Hfound].
  { rewrite Hpath. apply String.eqb_refl. }
  rewrite Hfound. apply find_some in Hfound as [Hfin Heq].
  apply String.eqb_eq in Heq.
  apply (indexed_all_records dict_items s' found Henum) in Hfin.
  destruct Hfin as (key & l & Hl & Hfl).
  assert (Hsame : found = record).
  { rewrite Hrec in Hl.
    destruct (decide (absolute_in (cwd (machine s)) path = key)) as [<- | Hne].
    - rewrite lookup_insert_eq in Hl. injection Hl as <-.
      destruct Hfl as [<- | Hfl]; [reflexivity |].
      exfalso. apply (Hfresh found).
      + apply Hold.
        rewrite <- (take_drop (Z.to_nat (retention_count (self s) - 1))
                              (sort_newest_first (records_of s path))).
        apply in_or_app. left. exact Hfl.
      + rewrite Heq. apply absolute_in_idem, Habs.
    - rewrite lookup_insert_ne in Hl by exact Hne.
      exfalso. apply (Hfresh found).
      + exists key, l. auto.
      + rewrite Heq. apply absolute_in_idem, Habs. }
  rewrite Hsame, Hsize. apply Z.eqb_refl.
Qed.

Lemma fresh_backup_verifies_witness :
  let s1 := snd (create_backup str_int 1000 "/data/a.txt"
                               (example_store 3 no_faults)) in
  verify_backup items_of "/backups/a_1000.txt" s1 = (inr true, s1).
Proof.
  cbv zeta.
  apply (fresh_backup_verifies items_of str_int 1000 "/data/a.txt"
           (example_store 3 no_faults) (example_record 1000)).
  - exact items_of_enumerates.
  - reflexivity.
  - vm_compute. discriminate.
  - vm_compute. constructor.
  - intros r (key & l & Hl & _). vm_compute in Hl. discriminate.
  - reflexivity.
  - reflexivity.
  - vm_compute. reflexivity.
Defined.

(** The backup file of a fresh record is on disk with the content of the
    original, and the record leads the records of its original. *)
Lemma fresh_backup_on_disk strftime_ms now path s record s' content :
  is_absolute (cwd (machine s)) = true ->
  1 <= retention_count (self s) ->
  Forall (fun r => timestamp r < now) (records_of s path) ->
  (forall r, indexed s r ->
             absolute_in (cwd (machine s)) (backup_path r)
             <> backup_path_for strftime_ms s now path) ->
  file_at (machine s) path = Some content ->
  create_backup strftime_ms now path s = (inr (Some record), s') ->
  backup_path record = backup_path_for strftime_ms s now path
  /\ is_absolute (backup_path record) = true
  /\ file_size record = Z.of_nat (String.length content)
  /\ files (machine s') !! backup_path record = Some content
  /\ sort_newest_first (records_of s' path)
     = record :: take (Z.to_nat (retention_count (self s) - 1))
                      (sort_newest_first (records_of s path))
  /\ (forall p, p <> backup_path record ->
                files (machine s) !! p = None ->
                files (machine s') !! p = None).
Proof.
  intros Hcwd Hret Hnewer Hfresh Hfile Hrun.
  destruct (create_backup_newest _ _ _ _ _ _ Hret Hnewer Hrun)
    as (Hcwd' & Hfaults' & _ & Hrec & Hevicted).
  destruct (create_backup_files _ _ _ _ _ _ _ Hfile Hrun)
    as (Hsize & Hpath & _ & Hfiles).
  pose proof (new_backup_list strftime_ms now path s record s'
                Hret Hnewer Hrun) as Hlist.
  set (bp := backup_path_for strftime_ms s now path) in *.
  assert (Habs : is_absolute bp = true)
    by (apply absolute_in_absolute; exact Hcwd).
  assert (Hold : forall r, In r (sort_newest_first (records_of s path)) ->
                           indexed s r).
  { intros r Hr. apply (Permutation_in _ (sort_newest_first_perm _)) in Hr.
    unfold records_of in Hr.
    destruct (backup_records (self s) !! _) as [l |] eqn:Hl; [| destruct Hr].
    eexists _, l. split; [exact Hl | exact Hr]. }
  rewrite Hpath. split; [reflexivity |]. split; [exact Habs |].
  split; [exact Hsize |]. split; [| split; [exact Hlist |]].
  - destruct (Hfiles bp) as [-> | (_ & r & Hin & Hp)].
    + apply lookup_insert_eq.
    + exfalso. rewrite Hevicted in Hin.
      apply (Hfresh r); [| exact Hp]. apply Hold.
      rewrite <- (take_drop (Z.to_nat (retention_count (self s) - 1))
                            (sort_newest_first (records_of s path))).
      apply in_or_app. right. exact Hin.
  - intros p Hne Hnone. destruct (Hfiles p) as [-> | [Hgone _]].
    + rewrite lookup_insert_ne by congruence. exact Hnone.
    + exact Hgone.
Qed.

(** *** [get_backup_statistics] *)

Lemma fold_left_add_sum (l : list Z) a : fold_left Z.add l a = a + sum_Z l.
Proof.
  revert a. induction l as [| x l IH]; intros a; cbn [fold_left sum_Z foldr].
  - lia.
  - rewrite IH. unfold sum_Z. lia.
Qed.

Lemma sum_Z_perm l l' : Permutation l l' -> sum_Z l = sum_Z l'.
Proof.
  induction 1; cbn [sum_Z foldr] in *; unfold sum_Z in *; cbn [foldr]; lia.
Qed.

Lemma sum_Z_app l l' : sum_Z (l ++ l') = sum_Z l + sum_Z l'.
Proof.
  induction l as [| x l IH]; cbn [app sum_Z foldr]; [reflexivity |].
  unfold sum_Z in *. lia.
Qed.

Lemma concat_perm {A} (l l' : list (list A)) :
  Permutation l l' -> Permutation (concat l) (concat l').
Proof.
  induction 1; cbn [concat].
  - reflexivity.
  - apply Permutation_app_head. assumption.
  - rewrite !app_assoc. apply Permutation_app_tail, Permutation_app_comm.
  - etransitivity; eassumption.
Qed.

Lemma add_sizes_spec records :
  forall total s,
  exists total',
    add_sizes records total s = (inr total', s)
    /\ total <= total'
    /\ (Forall (intact (machine s)) records ->
        total' = total + sum_Z (map file_size records)).
Proof.
  induction records as [| record rest IH]; intros total s.
  - exists total. split; [reflexivity |]. split; [lia |].
    intros _. cbn. lia.
  - cbn [add_sizes].
    assert (Hone : exists t1,
      try_except
        (found ← io (path_exists (backup_path record));
         if found : bool then
           size ← io (stat_size (backup_path record));
           ret (total + size)
         else ret total)
        (fun _ => ret total) s = (inr t1, s)
      /\ total <= t1
      /\ (intact (machine s) record -> t1 = total + file_size record)).
    { rewrite try_except_unfold, bind_unfold, io_run, path_exists_run.
      destruct (faults (machine s) OpExists (backup_path record)) as [e |]
        eqn:Hex; cbn [fst snd]; rewrite set_machine_same.
      { exists total. split; [reflexivity |]. split; [lia |].
        intros (Hno & _). congruence. }
      destruct (file_at (machine s) (backup_path record)) as [content |]
        eqn:Hfile.
      - rewrite bind_unfold, io_run, stat_size_run, Hfile.
        destruct (faults (machine s) OpStat (backup_path record)) as [e |]
          eqn:Hst; cbn [fst snd]; rewrite set_machine_same.
        + exists total. split; [reflexivity |]. split; [lia |].
          intros (_ & Hno & _). congruence.
        + eexists. split; [reflexivity |]. split; [lia |].
          intros (_ & _ & c & Hc & Hsize). congruence.
      - exists total. split; [reflexivity |]. split; [lia |].
        intros (_ & _ & c & Hc & _). congruence. }
    destruct Hone as (t1 & Hrun & Hle & Hintact).
    rewrite (bind_inr _ _ _ _ _ Hrun).
    destruct (IH t1 s) as (t2 & Hrest & Hle2 & Hintact2).
    exists t2. split; [exact Hrest |]. split; [lia |].
    intros Hall. apply Forall_cons_1 in Hall as [Hfirst Hall].
    rewrite (Hintact2 Hall), (Hintact Hfirst).
    cbn [map sum_Z foldr]. unfold sum_Z. lia.
Qed.

Lemma sum_Z_bound {A} (f : A -> Z) (l : list A) bound :
  (forall x, In x l -> f x <= bound) ->
  sum_Z (map f l) <= bound * len l.
Proof.
  induction l as [| x l IH]; intros Hall; cbn [map sum_Z foldr].
  - unfold len. cbn. lia.
  - assert (Hx : f x <= bound) by (apply Hall; left; reflexivity).
    assert (Hl : sum_Z (map f l) <= bound * len l)
      by (apply IH; intros y Hy; apply Hall; right; exact Hy).
    unfold sum_Z, len in *. cbn [List.length]. lia.
Qed.

(** X16. [get_backup_statistics] only reads: whatever calls fail it returns,
    and the state is as before. It counts the originals and the records of
    the index; when no original has more records than the retention count,
    the number of versions is at most the retention count times the number
    of originals; and when every backup file is on disk with its recorded
    size, the total size is the sum of the recorded sizes. *)
Theorem get_backup_statistics_reads_only dict_items s :
  enumerates dict_items ->
  exists stats,
    get_backup_statistics dict_items s = (inr stats, s)
    /\ total_files_backed_up stats
       = Z.of_nat (size (backup_records (self s)))
    /\ total_backup_versions stats = record_count s
    /\ (within_retention s ->
        total_backup_versions stats
        <= retention_count (self s) * total_files_backed_up stats)
    /\ 0 <= total_backup_size_bytes stats
    /\ ((forall r, indexed s r -> intact (machine s) r) ->
        total_backup_size_bytes stats = recorded_bytes s).
Proof.
  intros Henum. unfold get_backup_statistics.
  rewrite bind_unfold. cbn [gets].
  set (items := dict_items (backup_records (self s))).
  assert (Hperm : Permutation items (map_to_list (backup_records (self s))))
    by apply Henum.
  destruct (add_sizes_spec (concat (map snd items)) 0 s)
    as (total & Hrun & Hle & Hintact).
  rewrite (bind_inr _ _ _ _ _ Hrun).
  rewrite bind_unfold. cbn [gets]. rewrite bind_unfold. cbn [gets ret].
  eexists. split; [reflexivity |].
  cbn [total_files_backed_up total_backup_versions total_backup_size_bytes].
  assert (Hfiles : len items = Z.of_nat (size (backup_records (self s)))).
  { unfold len. rewrite (Permutation_length Hperm).
    rewrite length_map_to_list. reflexivity. }
  assert (Hversions :
            fold_left Z.add (map (fun item => len (snd item)) items) 0
            = record_count s).
  { rewrite fold_left_add_sum. unfold record_count.
    rewrite (sum_Z_perm _ _ (Permutation_map _ Hperm)). lia. }
  split; [exact Hfiles |]. split; [exact Hversions |]. split.
  { intros Hwithin. rewrite fold_left_add_sum. cbn [Z.add].
    apply sum_Z_bound. intros [key l] Hin. cbn [snd].
    apply (Hwithin key). apply (Permutation_in _ Hperm) in Hin.
    apply elem_of_map_to_list, list_elem_of_In. exact Hin. }
  split; [exact Hle |].
  intros Hall. rewrite Hintact.
  - unfold recorded_bytes. cbn [Z.add].
    apply sum_Z_perm, Permutation_map, concat_perm, Permutation_map, Hperm.
  - apply List.Forall_forall. intros r Hr. apply Hall.
    apply (indexed_all_records dict_items s r Henum). exact Hr.
Qed.

Lemma get_backup_statistics_reads_only_witness :
  exists stats,
    get_backup_statistics items_of (example_backups 3)
    = (inr stats, example_backups 3)
    /\ total_files_backed_up stats = 2
    /\ total_backup_versions stats = 4
    /\ total_backup_size_bytes stats = 18.
Proof.
  destruct (get_backup_statistics_reads_only items_of (example_backups 3)
              items_of_enumerates)
    as (stats & Hrun & Hfiles & Hversions & _ & _ & Hsize).
  exists stats. split; [exact Hrun |].
  split; [rewrite Hfiles; vm_compute; reflexivity |].
  split; [rewrite Hversions; vm_compute; reflexivity |].
  rewrite Hsize; [vm_compute; reflexivity |].
  intros r (key & l & Hl & Hr).
  assert (Hcases : In r [example_record 1000; example_record 3000;
                         example_record 2000;
                         {| original_path := "/data/b.txt";
                            backup_path := "/backups/b_1500.txt";
                            timestamp := 1500; file_size := 3 |}]).
  { unfold example_backups, example_index in Hl. cbn [self backup_records] in Hl.
    destruct (decide (key = "/data/a.txt")) as [-> | Ha].
    - rewrite lookup_insert_eq in Hl. injection Hl as <-.
      destruct Hr as [<- | [<- | [<- | []]]]; cbn; auto.
    - rewrite lookup_insert_ne in Hl by congruence.
      destruct (decide (key = "/data/b.txt")) as [-> | Hb].
      + rewrite lookup_singleton_eq in Hl. injection Hl as <-.
        destruct Hr as [<- | []]. cbn. auto.
      + rewrite lookup_singleton_ne in Hl by congruence. discriminate. }
  destruct Hcases as [<- | [<- | [<- | [<- | []]]]];
    (split; [reflexivity |]; split; [reflexivity |];
     eexists; split; [vm_compute; reflexivity | reflexivity]).
Defined.

End BackupMoreFacts.

(** ** recovery_engine.py: the counters, batches, and the way back *)

Module RestoreFacts.
Import Py Os StorageSpec RecoverySpec RestoreSpec MonadFacts RecoveryFacts.
Import BackupSpec BackupFacts BackupMoreFacts.
Import RecoveryEngine.
Import BackupManager (BackupRecord, backup_path, file_size, timestamp,
                      sort_newest_first, create_backup, retention_count).

Lemma same_counters_refl s : same_counters s s.
Proof. repeat split. Qed.

Lemma same_counters_trans s1 s2 s3 :
  same_counters s1 s2 -> same_counters s2 s3 -> same_counters s1 s3.
Proof.
  intros [(H1 & H2 & H3 & H4) H5] [(G1 & G2 & G3 & G4) G5].
  repeat split; congruence.
Qed.

Lemma same_engine_trans s1 s2 s3 :
  same_engine s1 s2 -> same_engine s2 s3 -> same_engine s1 s3.
Proof.
  intros (H1 & H2 & H3 & H4) (G1 & G2 & G3 & G4).
  repeat split; congruence.
Qed.

Lemma returns_keeps {A} (Q : A -> Prop) c : returns Q c -> keeps Q c.
Proof.
  intros H s. destruct (H s) as (a & Ha & HQ & Hs). split; [exact Hs |].
  intros a' Ha'. rewrite Ha in Ha'. injection Ha' as <-. exact HQ.
Qed.

Lemma returns_ret {A} (Q : A -> Prop) a : Q a -> returns Q (ret a).
Proof.
  intros HQ s. exists a. split; [reflexivity |].
  split; [exact HQ | apply same_counters_refl].
Qed.

Lemma returns_weaken {A} (P Q : A -> Prop) c :
  (forall a, P a -> Q a) -> returns P c -> returns Q c.
Proof.
  intros HPQ H s. destruct (H s) as (a & Ha & HP & Hs). exists a. auto.
Qed.

Lemma keeps_bind {A B} (P : A -> Prop) (Q : B -> Prop) c (k : A -> M state B) :
  keeps P c -> (forall a, P a -> keeps Q (k a)) -> keeps Q (c ≫= k).
Proof.
  intros Hc Hk s. rewrite bind_unfold.
  destruct (Hc s) as [Hs Ha]. destruct (c s) as [[e | a] s1]; cbn [fst snd] in *.
  - split; [exact Hs | discriminate].
  - destruct (Hk a (Ha a eq_refl) s1) as [Hs1 Hb].
    split; [eapply same_counters_trans; eassumption | exact Hb].
Qed.

Lemma returns_bind {A B} (P : A -> Prop) (Q : B -> Prop) c
      (k : A -> M state B) :
  returns P c -> (forall a, P a -> returns Q (k a)) -> returns Q (c ≫= k).
Proof.
  intros Hc Hk s. rewrite bind_unfold.
  destruct (Hc s) as (a & Ha & HP & Hs).
  destruct (c s) as [r s1]; cbn [fst snd] in *. subst r.
  destruct (Hk a HP s1) as (b & Hb & HQ & Hs1).
  exists b. split; [exact Hb |]. split; [exact HQ |].
  eapply same_counters_trans; eassumption.
Qed.

Lemma returns_try {A} (Q : A -> Prop) c (h : exn -> M state A) :
  keeps Q c -> (forall e, returns Q (h e)) -> returns Q (try_except c h).
Proof.
  intros Hc Hh s. rewrite try_except_unfold.
  destruct (Hc s) as [Hs Ha]. destruct (c s) as [[e | a] s1]; cbn [fst snd] in *.
  - destruct (Hh e s1) as (b & Hb & HQ & Hs1).
    exists b. split; [exact Hb |]. split; [exact HQ |].
    eapply same_counters_trans; eassumption.
  - exists a. split; [reflexivity |]. split; [apply Ha; reflexivity | exact Hs].
Qed.

(** A system call that leaves the working directory and the failing calls
    as they are. *)
Lemma keeps_io {A} (c : M world A) :
  (forall w, cwd (snd (c w)) = cwd w /\ faults (snd (c w)) = faults w) ->
  keeps (fun _ => True) (io c).
Proof.
  intros Hc s. rewrite engine_io_run. cbn [fst snd].
  destruct (Hc (world_of s)) as [Hcwd Hfaults].
  split; [| auto]. destruct s as [[w m] e]. cbn in *.
  repeat split; assumption.
Qed.

Lemma returns_log level prefix message :
  returns (fun _ => True) (log_with level prefix message).
Proof.
  intros s. rewrite log_with_run. exists tt. split; [reflexivity |].
  split; [exact I |]. unfold logged.
  destruct s as [[w m] e]. destruct (has_logger e); repeat split.
Qed.

Lemma keeps_path_exists p : keeps (fun _ => True) (io (path_exists p)).
Proof.
  apply keeps_io. intros w. rewrite path_exists_run.
  destruct (faults w OpExists p); split; reflexivity.
Qed.

Lemma keeps_stat_size p : keeps (fun _ => True) (io (stat_size p)).
Proof.
  apply keeps_io. intros w. rewrite stat_size_run.
  destruct (faults w OpStat p); [split; reflexivity |].
  destruct (file_at w p); split; reflexivity.
Qed.

Lemma keeps_read_file p : keeps (fun _ => True) (io (read_file p)).
Proof.
  apply keeps_io. intros w. rewrite read_file_run.
  destruct (faults w OpRead p); [split; reflexivity |].
  destruct (file_at w p); split; reflexivity.
Qed.

Lemma keeps_copy2 src dst : keeps (fun _ => True) (io (copy2 src dst)).
Proof.
  apply keeps_io. intros w. rewrite copy2_run, read_file_run.
  destruct (faults w OpRead src); [split; reflexivity |].
  destruct (file_at w src); [| split; reflexivity].
  destruct (faults w OpWrite dst); split; reflexivity.
Qed.

Lemma keeps_mkdir_parent p : keeps (fun _ => True) (io (mkdir_parent p)).
Proof.
  apply keeps_io. intros w. unfold mkdir_parent, check_fault.
  destruct (faults w OpMkdir p); split; reflexivity.
Qed.

Lemma returns_manager_list_backups path :
  returns (fun _ => True) (manager (BackupManager.list_backups path)).
Proof.
  intros s. rewrite list_backups_run. eexists. split; [reflexivity |].
  split; [exact I | apply same_counters_refl].
Qed.

Lemma keeps_ret {A} (Q : A -> Prop) a : Q a -> keeps Q (ret a).
Proof. intros HQ. apply returns_keeps, returns_ret, HQ. Qed.

Lemma keeps_weaken {A} (P Q : A -> Prop) c :
  (forall a, P a -> Q a) -> keeps P c -> keeps Q c.
Proof.
  intros HPQ H s. destruct (H s) as [Hs Ha]. split; [exact Hs |]. auto.
Qed.

Section Restore.
Variable sha256 : string -> string.

Lemma keeps_calculate_file_hash p :
  keeps (fun _ => True) (_calculate_file_hash sha256 p).
Proof.
  unfold _calculate_file_hash.
  eapply keeps_bind; [apply keeps_read_file |].
  intros content _. apply keeps_ret. exact I.
Qed.

Lemma returns_verify_file_hash p q :
  returns (fun _ => True) (_verify_file_hash sha256 p q).
Proof.
  unfold _verify_file_hash. apply returns_try.
  - eapply keeps_bind; [apply keeps_calculate_file_hash |]. intros h1 _.
    eapply keeps_bind; [apply keeps_calculate_file_hash |]. intros h2 _.
    apply keeps_ret. exact I.
  - intros e. eapply returns_bind; [apply returns_log |]. intros _ _.
    apply returns_ret. exact I.
Qed.

Lemma returns_verify_restoration path record :
  returns (fun _ => True) (verify_restoration sha256 path record).
Proof.
  unfold verify_restoration. apply returns_try.
  - eapply keeps_bind; [apply keeps_path_exists |]. intros found _.
    destruct found; cbn [negb].
    + eapply keeps_bind; [apply keeps_stat_size |]. intros size _.
      destruct (negb (size =? file_size record)).
      * eapply keeps_bind; [apply returns_keeps, returns_log |]. intros _ _.
        apply keeps_ret. exact I.
      * eapply keeps_bind; [apply returns_keeps, returns_verify_file_hash |].
        intros same _. destruct same;
          (eapply keeps_bind; [apply returns_keeps, returns_log |];
           intros _ _; apply keeps_ret; exact I).
    + eapply keeps_bind; [apply returns_keeps, returns_log |]. intros _ _.
      apply keeps_ret. exact I.
  - intros e. eapply returns_bind; [apply returns_log |]. intros _ _.
    apply returns_ret. exact I.
Qed.

Lemma returns_attempt_restore path record verify :
  returns (fun r => file_path r = path)
          (_attempt_restore_from_backup sha256 path record verify).
Proof.
  unfold _attempt_restore_from_backup. apply returns_try.
  - eapply keeps_bind; [apply keeps_path_exists |]. intros found _.
    destruct found; cbn [negb].
    + eapply keeps_bind; [apply keeps_mkdir_parent |]. intros _ _.
      eapply keeps_bind; [apply keeps_copy2 |]. intros _ _.
      eapply keeps_bind with (P := fun _ => True).
      * destruct verify.
        -- apply returns_keeps, returns_verify_restoration.
        -- apply keeps_ret. exact I.
      * intros passed _. apply keeps_ret. reflexivity.
    + apply keeps_ret. reflexivity.
  - intros e. apply returns_ret. reflexivity.
Qed.

Lemma returns_try_each path verify fallback :
  returns (fun found => forall r, found = Some r -> file_path r = path)
          (try_each sha256 path fallback verify).
Proof.
  induction fallback as [| b rest IH]; cbn [try_each].
  - apply returns_ret. discriminate.
  - eapply returns_bind; [apply returns_log |]. intros _ _.
    eapply returns_bind; [apply returns_attempt_restore |].
    intros result Hpath. destruct (success result).
    + eapply returns_bind; [apply returns_log |]. intros _ _.
      apply returns_ret. intros r Hr. injection Hr as <-. exact Hpath.
    + exact IH.
Qed.

Lemma returns_try_fallback_backups path verify :
  returns (fun r => file_path r = path)
          (_try_fallback_backups sha256 path verify).
Proof.
  unfold _try_fallback_backups.
  eapply returns_bind; [apply returns_manager_list_backups |].
  intros all _.
  destruct (if 1 <? len all then slice_from all 1 else []) as [| b rest].
  - apply returns_ret. reflexivity.
  - eapply returns_bind; [apply returns_try_each |].
    intros [r |] Hr; apply returns_ret; [apply Hr |]; reflexivity.
Qed.

Lemma same_counters_logged level prefix message s :
  same_counters s (logged level prefix message s).
Proof.
  unfold logged. destruct s as [[w m] e]. destruct (has_logger e);
    repeat split.
Qed.

(** One call of [restore_file]: a result for the path asked for, and the
    counters with that result booked. *)
Lemma restore_file_booked path verify s :
  exists result s',
    restore_file sha256 path verify s = (inr result, s')
    /\ file_path result = path
    /\ same_engine s s'
    /\ recovery_stats (self s')
       = booked (recovery_stats (self s)) result.
Proof.
  unfold restore_file. rewrite bind_unfold.
  set (s0 := snd (incr_total_attempts s)).
  change (incr_total_attempts s) with (inr (A := exn) tt, s0). cbv iota.
  assert (Hs0 : same_engine s s0) by repeat split.
  rewrite try_except_unfold, bind_unfold, get_latest_backup_run.
  destruct (head (versions s0 path)) as [latest |].
  - rewrite bind_unfold.
    destruct (returns_attempt_restore path latest verify s0)
      as (first & Hfirst & Hpath1 & Hs1).
    destruct (_attempt_restore_from_backup sha256 path latest verify s0)
      as [r1 s1]. cbn [fst snd] in Hfirst, Hs1. subst r1.
    assert (Hmiddle :
      returns (fun r => file_path r = path)
        (if negb (success first) then
           _log_warning ("Latest backup restoration failed for " +:+ path
                         +:+ ", trying previous versions");;
           _try_fallback_backups sha256 path verify
         else ret first)).
    { destruct (success first); cbn [negb].
      - apply returns_ret. exact Hpath1.
      - eapply returns_bind; [apply returns_log |]. intros _ _.
        apply returns_try_fallback_backups. }
    rewrite bind_unfold.
    destruct (Hmiddle s1) as (result & Hresult & Hpath & Hs2).
    match goal with |- context [?c s1] =>
      match type of Hresult with fst (?c' s1) = _ =>
        change (c s1) with (c' s1) end end.
    match type of Hresult with fst (?c s1) = _ =>
      destruct (c s1) as [r2 s2] end.
    cbn [fst snd] in Hresult, Hs2. subst r2.
    pose proof (same_counters_trans _ _ _ Hs1 Hs2) as [Hengine Hself].
    rewrite bind_unfold.
    destruct (success result) eqn:Hsuccess.
    + rewrite bind_unfold. unfold record_success at 1. cbn [modify].
      unfold _log_info. rewrite log_with_run. cbn [ret].
      eexists _, _. split; [reflexivity |]. split; [exact Hpath |].
      split.
      * eapply same_engine_trans; [exact Hs0 |].
        eapply same_engine_trans; [exact Hengine |].
        unfold logged. destruct s2 as [[w m] e]. destruct (has_logger e);
          repeat split.
      * unfold booked. rewrite Hsuccess, Hpath.
        unfold logged. destruct s2 as [[w m] e]. cbn in Hself. subst e.
        destruct (has_logger (self s0)); reflexivity.
    + rewrite bind_unfold. unfold incr_failed_recoveries at 1. cbn [modify].
      unfold _log_error. rewrite log_with_run. cbn [ret].
      eexists _, _. split; [reflexivity |]. split; [exact Hpath |].
      split.
      * eapply same_engine_trans; [exact Hs0 |].
        eapply same_engine_trans; [exact Hengine |].
        unfold logged. destruct s2 as [[w m] e]. destruct (has_logger e);
          repeat split.
      * unfold booked. rewrite Hsuccess.
        unfold logged. destruct s2 as [[w m] e]. cbn in Hself. subst e.
        destruct (has_logger (self s0)); reflexivity.
  - rewrite bind_unfold. unfold _log_error. rewrite log_with_run.
    rewrite bind_unfold. unfold incr_failed_recoveries. cbn [modify ret].
    eexists _, _. split; [reflexivity |]. split; [reflexivity |].
    split.
    + unfold logged. destruct s as [[w m] e]. destruct (has_logger e);
        repeat split.
    + unfold booked, logged. cbn [success].
      destruct s as [[w m] e]. destruct (has_logger e); reflexivity.
Qed.

Lemma same_engine_refl s : same_engine s s.
Proof. repeat split. Qed.

Lemma restore_each_booked paths verify :
  forall done s,
  exists results s',
    restore_each sha256 paths verify done s = (inr (done ++ results), s')
    /\ map file_path results = paths
    /\ same_engine s s'
    /\ recovery_stats (self s')
       = fold_left booked results (recovery_stats (self s)).
Proof.
  induction paths as [| path rest IH]; intros done s; cbn [restore_each].
  - exists [], s. rewrite app_nil_r. split; [reflexivity |].
    split; [reflexivity |]. split; [apply same_engine_refl | reflexivity].
  - destruct (restore_file_booked path verify s)
      as (result & s1 & Hrun & Hpath & Hs1 & Hstats).
    rewrite (bind_inr _ _ _ _ _ Hrun).
    destruct (IH (done ++ [result]) s1)
      as (results & s2 & Hrest & Hpaths & Hs2 & Hstats2).
    exists (result :: results), s2.
    rewrite <- app_assoc in Hrest. split; [exact Hrest |].
    split; [cbn [map]; congruence |].
    split; [eapply same_engine_trans; eassumption |].
    cbn [fold_left]. rewrite Hstats2, Hstats. reflexivity.
Qed.

Lemma fold_booked results :
  forall r,
    let r' := fold_left booked results r in
    total_attempts r' = total_attempts r + len results
    /\ successful_recoveries r'
       = successful_recoveries r + len (List.filter success results)
    /\ failed_recoveries r'
       = failed_recoveries r
         + (len results - len (List.filter success results))
    /\ files_recovered r'
       = files_recovered r
         ++ map file_path (List.filter success results).
Proof.
  induction results as [| x rest IH]; intros r; cbv zeta.
  - cbn. rewrite app_nil_r. unfold len. cbn. repeat split; lia.
  - cbn [fold_left List.filter].
    destruct (IH (booked r x)) as (Ht & Hs & Hf & Hfiles).
    rewrite Ht, Hs, Hf, Hfiles. unfold booked.
    destruct (success x); cbn [total_attempts successful_recoveries
      failed_recoveries files_recovered map]; unfold len; cbn [List.length];
      rewrite <- ?app_assoc; repeat split; try lia; reflexivity.
Qed.

End Restore.

(** X17. [restore_file] never raises and books every call: the result is for
    the path asked for, the attempts go up by one, and so does the count of
    successes or the count of failures, according to the result; the path
    joins the recovered files when the result is a success and only then.
    The index of backups is not touched. *)
Theorem restore_file_books_the_outcome sha256 path verify s :
  exists result s',
    restore_file sha256 path verify s = (inr result, s')
    /\ file_path result = path
    /\ same_engine s s'
    /\ let r := recovery_stats (self s) in
       let r' := recovery_stats (self s') in
       total_attempts r' = total_attempts r + 1
       /\ (if success result
           then successful_recoveries r' = successful_recoveries r + 1
                /\ failed_recoveries r' = failed_recoveries r
                /\ files_recovered r' = files_recovered r ++ [path]
           else successful_recoveries r' = successful_recoveries r
                /\ failed_recoveries r' = failed_recoveries r + 1
                /\ files_recovered r' = files_recovered r).
Proof.
  destruct (restore_file_booked sha256 path verify s)
    as (result & s' & Hrun & Hpath & Hengine & Hstats).
  exists result, s'. split; [exact Hrun |]. split; [exact Hpath |].
  split; [exact Hengine |]. cbv zeta. rewrite Hstats. unfold booked.
  destruct (success result); cbn; rewrite ?Hpath; repeat split.
Qed.

(** X18. [restore_multiple] gives one result per path, in the order of the
    paths, and the counters afterwards add up: as many attempts more as
    there are paths, as many successes more as there are successful
    results, the rest failures, and the paths of the successful results
    appended to the recovered files in order. *)
Theorem restore_multiple_adds_up sha256 paths verify s :
  exists results s',
    restore_multiple sha256 paths verify s = (inr results, s')
    /\ map file_path results = paths
    /\ same_engine s s'
    /\ let r := recovery_stats (self s) in
       let r' := recovery_stats (self s') in
       let successes := List.filter success results in
       total_attempts r' = total_attempts r + len paths
       /\ successful_recoveries r'
          = successful_recoveries r + len successes
       /\ failed_recoveries r'
          = failed_recoveries r + (len paths - len successes)
       /\ files_recovered r'
          = files_recovered r ++ map file_path successes.
Proof.
  unfold restore_multiple. rewrite bind_unfold. unfold _log_info.
  rewrite log_with_run. cbv iota.
  set (s0 := logged Info "INFO: " _ s).
  assert (Hs0 : same_counters s s0) by apply same_counters_logged.
  destruct (restore_each_booked sha256 paths verify [] s0)
    as (results & s1 & Hrun & Hpaths & Hs1 & Hstats).
  rewrite bind_unfold, Hrun. cbn [app].
  rewrite bind_unfold, log_with_run. cbn [ret].
  eexists _, _. split; [reflexivity |]. split; [exact Hpaths |].
  set (s2 := logged Info "INFO: " _ s1).
  assert (Hs2 : same_counters s1 s2) by apply same_counters_logged.
  split.
  { eapply same_engine_trans; [apply Hs0 |].
    eapply same_engine_trans; [exact Hs1 | apply Hs2]. }
  cbv zeta. destruct Hs0 as [_ Hself0]. destruct Hs2 as [_ Hself2].
  rewrite Hself2, Hstats, Hself0.
  destruct (fold_booked results (recovery_stats (self s)))
    as (Ht & Hs & Hf & Hfiles).
  assert (Hlen : len results = len paths).
  { unfold len. rewrite <- Hpaths, length_map. reflexivity. }
  rewrite Ht, Hs, Hf, Hfiles, Hlen. repeat split.
Qed.

(** [restore_file] when the newest version of the path has its backup
    file on disk and the four calls of the copy go through. *)
Lemma restore_from_latest_on_disk sha256 path verify s record older content :
  versions s path = record :: older ->
  file_at (world_of s) (backup_path record) = Some content ->
  faults (world_of s) OpExists (backup_path record) = None ->
  faults (world_of s) OpMkdir path = None ->
  faults (world_of s) OpRead (backup_path record) = None ->
  faults (world_of s) OpWrite path = None ->
  exists result s',
    restore_file sha256 path verify s = (inr result, s')
    /\ success result = true
    /\ backup_used result = Some (backup_path record)
    /\ file_at (world_of s') path = Some content.
Proof.
  intros Hversions Hbackup Hex Hmk Hrd Hwr.
  assert (Hcan : can_restore (world_of s) path record = true).
  { unfold can_restore. rewrite Hbackup, Hex, Hmk, Hrd, Hwr. reflexivity. }
  destruct (restore_file_latest sha256 path verify s record older
              Hversions Hcan) as (passed & s1 & Hattempt & Hrestore).
  set (s0 := snd (incr_total_attempts s)) in *.
  assert (Hs0 : RecoverySpec.same_but_output s s0)
    by apply incr_total_attempts_same.
  rewrite <- (same_but_output_can_restore s s0 path record Hs0) in Hcan.
  destruct (attempt_restore_success sha256 path record verify s0 Hcan)
    as (content' & passed' & s1' & Hread & Hverify & Hattempt').
  rewrite Hattempt in Hattempt'. injection Hattempt' as <- <-.
  rewrite (same_but_output_file_at s s0 _ Hs0), Hbackup in Hread.
  injection Hread as <-.
  eexists _, _. split; [exact Hrestore |].
  split; [reflexivity |]. split; [reflexivity |].
  assert (Hs1 : file_at (world_of s1) path = Some content).
  { destruct verify.
    - destruct (verify_restoration_total sha256 path record
                  (restored s0 path content))
        as (p & s2 & Hv & Hsame).
      rewrite Hverify in Hv. injection Hv as _ <-.
      rewrite (same_but_output_file_at _ _ _ Hsame).
      unfold file_at, restored. destruct s0 as [[w m] e]. cbn.
      apply lookup_insert_eq.
    - destruct Hverify as [_ ->].
      unfold file_at, restored. destruct s0 as [[w m] e]. cbn.
      apply lookup_insert_eq. }
  unfold logged. destruct s1 as [[w m] e]. cbn in *.
  destruct (has_logger e); exact Hs1.
Qed.

(** The same through [restore_multiple] on that one path. *)
Lemma restore_multiple_from_latest sha256 path verify s record older content :
  versions s path = record :: older ->
  file_at (world_of s) (backup_path record) = Some content ->
  faults (world_of s) OpExists (backup_path record) = None ->
  faults (world_of s) OpMkdir path = None ->
  faults (world_of s) OpRead (backup_path record) = None ->
  faults (world_of s) OpWrite path = None ->
  exists result s',
    restore_multiple sha256 [path] verify s = (inr [result], s')
    /\ success result = true
    /\ backup_used result = Some (backup_path record)
    /\ file_at (world_of s') path = Some content
    /\ same_engine s s'
    /\ file_path result = path
    /\ recovery_stats (self s')
       = booked (recovery_stats (self s)) result.
Proof.
  intros Hversions Hbackup Hex Hmk Hrd Hwr.
  unfold restore_multiple. rewrite bind_unfold. unfold _log_info.
  rewrite log_with_run. cbv iota.
  set (s0 := logged Info "INFO: " _ s).
  assert (Hs0 : RecoverySpec.same_but_output s s0)
    by apply same_but_output_logged.
  assert (Hs0' : same_counters s s0) by apply same_counters_logged.
  destruct (restore_from_latest_on_disk sha256 path verify s0 record older
              content) as (result & s1 & Hrun & Hsuccess & Hused & Hfile).
  { rewrite (same_but_output_versions s s0 path Hs0). exact Hversions. }
  { rewrite (same_but_output_file_at s s0 _ Hs0). exact Hbackup. }
  { destruct Hs0 as (_ & _ & _ & ->). exact Hex. }
  { destruct Hs0 as (_ & _ & _ & ->). exact Hmk. }
  { destruct Hs0 as (_ & _ & _ & ->). exact Hrd. }
  { destruct Hs0 as (_ & _ & _ & ->). exact Hwr. }
  destruct (restore_file_booked sha256 path verify s0)
    as (result' & s1' & Hrun' & Hpath & Hengine & Hstats).
  rewrite Hrun in Hrun'. injection Hrun' as <- <-.
  rewrite bind_unfold. cbn [restore_each].
  rewrite bind_unfold, Hrun. cbn [ret app].
  rewrite bind_unfold, log_with_run. cbn [ret].
  eexists _, _. split; [reflexivity |]. split; [exact Hsuccess |].
  split; [exact Hused |].
  set (s2 := logged Info "INFO: " _ s1).
  assert (Hs2 : RecoverySpec.same_but_output s1 s2)
    by apply same_but_output_logged.
  split; [rewrite (same_but_output_file_at s1 s2 _ Hs2); exact Hfile |].
  split.
  - eapply same_engine_trans; [apply Hs0' |].
    eapply same_engine_trans; [exact Hengine |].
    apply same_counters_logged.
  - split; [exact Hpath |].
    destruct (same_counters_logged Info "INFO: "
                ("Batch restoration completed: "
                 +:+ str_int (len (List.filter success [result]))
                 +:+ " successful, "
                 +:+ str_int (len [result]
                              - len (List.filter success [result]))
                 +:+ " failed") s1) as [_ Hself2].
    fold s2 in Hself2. rewrite Hself2, Hstats.
    destruct Hs0' as [_ ->]. reflexivity.
Qed.

(** X19. The way back: a file is backed up, then overwritten or deleted, then
    restored. [restore_file] succeeds from the backup just taken and the
    file has the content it had when it was backed up. This holds when the
    working directory is absolute, the backup is newer than the records of
    the file and is kept, no record shares its backup file, the backup file
    is not the file itself, and the four calls of the copy go through. *)
Theorem backup_then_restore sha256 strftime_ms now path b record b'
        engine content damage verify :
  is_absolute (cwd (BackupManager.machine b)) = true ->
  1 <= retention_count (BackupManager.self b) ->
  Forall (fun r => timestamp r < now) (records_of b path) ->
  (forall r, indexed b r ->
             absolute_in (cwd (BackupManager.machine b)) (backup_path r)
             <> backup_path_for strftime_ms b now path) ->
  absolute_in (cwd (BackupManager.machine b)) path
  <> backup_path_for strftime_ms b now path ->
  file_at (BackupManager.machine b) path = Some content ->
  create_backup strftime_ms now path b = (inr (Some record), b') ->
  faults (BackupManager.machine b) OpExists (backup_path record) = None ->
  faults (BackupManager.machine b) OpMkdir path = None ->
  faults (BackupManager.machine b) OpRead (backup_path record) = None ->
  faults (BackupManager.machine b) OpWrite path = None ->
  exists result s',
    restore_file sha256 path verify (damaged b' engine path damage)
    = (inr result, s')
    /\ success result = true
    /\ backup_used result = Some (backup_path record)
    /\ file_at (world_of s') path = Some content.
Proof.
  intros Hcwd Hret Hnewer Hfresh Hself Hfile Hrun Hex Hmk Hrd Hwr.
  destruct (fresh_backup_on_disk _ _ _ _ _ _ _ Hcwd Hret Hnewer Hfresh
              Hfile Hrun)
    as (Hpath & Habs & _ & Hdisk & Hlist & _).
  destruct (create_backup_step strftime_ms now path b record b')
    as (_ & Hcwd' & Hfaults' & _); [lia | exact Hrun |].
  set (s := damaged b' engine path damage).
  assert (Hw_cwd : cwd (world_of s) = cwd (BackupManager.machine b))
    by exact Hcwd'.
  assert (Hw_faults : faults (world_of s) = faults (BackupManager.machine b))
    by exact Hfaults'.
  apply (restore_from_latest_on_disk sha256 path verify s record
           (take (Z.to_nat (retention_count (BackupManager.self b) - 1))
                 (sort_newest_first (records_of b path)))).
  - unfold versions.
    replace (records_of (backup_manager s) path) with (records_of b' path)
      by reflexivity.
    exact Hlist.
  - unfold file_at. rewrite Hw_cwd, (absolute_in_idem _ _ Habs).
    unfold s, damaged, world_of. cbn.
    rewrite lookup_partial_alter_ne; [exact Hdisk |].
    rewrite Hcwd', Hpath. exact Hself.
  - rewrite Hw_faults. exact Hex.
  - rewrite Hw_faults. exact Hmk.
  - rewrite Hw_faults. exact Hrd.
  - rewrite Hw_faults. exact Hwr.
Qed.

(** A file is backed up, overwritten with other bytes, and restored. *)
Lemma backup_then_restore_witness :
  let b := example_store 3 no_faults in
  let b' := snd (create_backup str_int 1000 "/data/a.txt" b) in
  let s := damaged b' (init true) "/data/a.txt" (Some "ENCRYPTED!") in
  file_at (world_of s) "/data/a.txt" = Some "ENCRYPTED!"
  /\ exists result s',
       restore_file (fun x => x) "/data/a.txt" true s = (inr result, s')
       /\ success result = true
       /\ backup_used result = Some "/backups/a_1000.txt"
       /\ file_at (world_of s') "/data/a.txt" = Some "hello".
Proof.
  cbv zeta. split; [vm_compute; reflexivity |].
  apply (backup_then_restore (fun x => x) str_int 1000 "/data/a.txt"
           (example_store 3 no_faults) (example_record 1000)).
  - reflexivity.
  - vm_compute. discriminate.
  - vm_compute. constructor.
  - intros r (key & l & Hl & _). vm_compute in Hl. discriminate.
  - vm_compute. discriminate.
  - vm_compute. reflexivity.
  - vm_compute. reflexivity.
  - reflexivity.
  - reflexivity.
  - reflexivity.
  - reflexivity.
Defined.

End RestoreFacts.

(** ** automated_response.py: what the loop hands to the detector *)

Module LoopFacts.
Import Py Os FileMonitor DetectionSpec MonitorSpec.
Import DetectionFacts DetectorMoreFacts MonitorFacts MonadFacts.

Lemma analyze_events_filtered self order now now' events events' :
  ThreatDetector._filter_recent_events self now events
  = ThreatDetector._filter_recent_events self now events' ->
  ThreatDetector.analyze_events self order now now' events
  = ThreatDetector.analyze_events self order now now' events'.
Proof.
  intros H. unfold ThreatDetector.analyze_events,
    ThreatDetector.analyze_events_body. rewrite H. reflexivity.
Qed.

Lemma filter_implied {A} (p q : A -> bool) (l : list A) :
  (forall x, p x = true -> q x = true) ->
  List.filter p (List.filter q l) = List.filter p l.
Proof.
  intros Himp. induction l as [| x l IH]; [reflexivity |].
  cbn [List.filter]. destruct (q x) eqn:Hq; cbn [List.filter].
  - rewrite IH. reflexivity.
  - destruct (p x) eqn:Hp; [| exact IH].
    rewrite (Himp x Hp) in Hq. discriminate.
Qed.

(** The fields of a result that do not depend on the length of the window
    but through the events that it lets in. *)
Lemma analyze_events_same_recent self self' order now1 now2 now' events events' :
  ThreatDetector.detection_threshold self'
  = ThreatDetector.detection_threshold self ->
  ThreatDetector.suspicious_extensions self'
  = ThreatDetector.suspicious_extensions self ->
  ThreatDetector._filter_recent_events self now1 events
  = ThreatDetector._filter_recent_events self' now2 events' ->
  let a := fst (ThreatDetector.analyze_events self order now1 now' events) in
  let b := fst (ThreatDetector.analyze_events self' order now2 now' events') in
  ThreatDetector.threat_score a = ThreatDetector.threat_score b
  /\ ThreatDetector.is_threat a = ThreatDetector.is_threat b
  /\ ThreatDetector.affected_files a = ThreatDetector.affected_files b.
Proof.
  intros Hthr Hext Hrecent. cbv zeta.
  unfold ThreatDetector.analyze_events, ThreatDetector.analyze_events_body.
  rewrite Hrecent.
  destruct (ThreatDetector._filter_recent_events self' now2 events')
    as [err | [| e rest]]; [repeat split | repeat split |].
  assert (Hrate : ThreatDetector._check_modification_rate self' (e :: rest)
                  = ThreatDetector._check_modification_rate self (e :: rest)).
  { unfold ThreatDetector._check_modification_rate. rewrite Hthr.
    reflexivity. }
  assert (Hsusp : ThreatDetector._check_suspicious_extensions self' (e :: rest)
                  = ThreatDetector._check_suspicious_extensions self (e :: rest)).
  { unfold ThreatDetector._check_suspicious_extensions.
    rewrite !collect_suspicious_filter, Hext. reflexivity. }
  rewrite Hrate, Hsusp.
  destruct (ThreatDetector._check_modification_rate self (e :: rest))
    as [ms mf].
  destruct (ThreatDetector._check_suspicious_extensions self (e :: rest))
    as [es ef].
  destruct (ThreatDetector._check_file_size_changes (e :: rest))
    as [err | [size_score size_files]]; repeat split.
Qed.

(** X20. The loop hands the detector the events that the monitor returns for
    the last 10 seconds. When the window of the detector is 10 seconds or
    less, nothing is lost: the analysis is that of the whole ledger. When
    the window of the detector can be taken off its clock reading and its
    cutoff is not later than that of the monitor, as with a longer window,
    the window has no effect: the score, the verdict and the affected
    files are those of a detector with a window of 10 seconds. [now] is
    the clock reading of the monitor, [now_filter] the later one of the
    detector. *)
Theorem loop_analyses_ten_seconds detector order monitor
        now now_filter now_result :
  now <= now_filter ->
  let handed := FileSystemMonitor.get_recent_events monitor now 10 in
  let ledger := FileSystemMonitor.recent_events monitor in
  (ThreatDetector.time_window_seconds detector <= 10 ->
   ThreatDetector.analyze_events detector order now_filter now_result handed
   = ThreatDetector.analyze_events detector order now_filter now_result
       ledger)
  /\ (now <= datetime_max ->
      window_in_range detector now_filter ->
      now_filter - 1000000 * ThreatDetector.time_window_seconds detector
      <= now - 10000000 ->
      let seen :=
        fst (ThreatDetector.analyze_events detector order now_filter
               now_result handed) in
      let ten_seconds :=
        fst (ThreatDetector.analyze_events
               (fst (ThreatDetector.update_time_window detector 10)) order
               now now_result ledger) in
      ThreatDetector.threat_score seen
      = ThreatDetector.threat_score ten_seconds
      /\ ThreatDetector.is_threat seen
         = ThreatDetector.is_threat ten_seconds
      /\ ThreatDetector.affected_files seen
         = ThreatDetector.affected_files ten_seconds).
Proof.
  intros Hclock. cbv zeta. split.
  - intros Hwindow. apply analyze_events_filtered.
    destruct (window_in_range_dec detector now_filter) as [Hrange | Hout].
    + rewrite !filter_recent_in_window by exact Hrange.
      rewrite get_recent_events_filter. f_equal.
      apply filter_implied. intros e He. unfold in_window in He.
      unfold newer_than. apply Z.ltb_lt in He. apply Z.ltb_lt. lia.
    + destruct (filter_recent_raises_all detector now_filter Hout)
        as [msg Hraise].
      rewrite !Hraise. reflexivity.
  - intros Hdate Hrange Hcut. apply analyze_events_same_recent.
    + reflexivity.
    + reflexivity.
    + rewrite filter_recent_in_window by exact Hrange.
      rewrite filter_recent_in_window.
      2: { destruct Hrange as [_ Hlow]. split; [vm_compute; split; discriminate |].
           cbn [ThreatDetector.update_time_window fst
                ThreatDetector.time_window_seconds]. lia. }
      rewrite get_recent_events_filter. f_equal.
      rewrite filter_all.
      * apply filter_ext. intros e. unfold in_window, newer_than.
        cbn [ThreatDetector.update_time_window fst
             ThreatDetector.time_window_seconds]. reflexivity.
      * intros e He. apply filter_In in He as [_ He].
        unfold newer_than in He. unfold in_window.
        apply Z.ltb_lt in He. apply Z.ltb_lt. lia.
Qed.

(** Six files encrypted within six seconds, looked at a quarter of a
    minute later by a detector with a window of one minute: the detector
    on the ledger finds a threat of score 95, the loop finds none. *)
Lemma loop_analyses_ten_seconds_witness :
  let detector := ThreatDetector.init 5 60 None in
  let monitor :=
    {| FileSystemMonitor.monitored_directory := "/data";
       FileSystemMonitor.is_monitoring := true;
       FileSystemMonitor.recent_events := six_encrypted |} in
  ThreatDetector.threat_score
    (fst (ThreatDetector.analyze_events detector (fun l => l)
            (at_second 20 + 1) (at_second 20 + 2)
            (FileSystemMonitor.recent_events monitor))) = 95
  /\ ThreatDetector.is_threat
       (fst (ThreatDetector.analyze_events detector (fun l => l)
               (at_second 20 + 1) (at_second 20 + 2)
               (FileSystemMonitor.get_recent_events monitor
                  (at_second 20) 10)))
     = false.
Proof.
  cbv zeta. split; [vm_compute; reflexivity |].
  destruct (loop_analyses_ten_seconds (ThreatDetector.init 5 60 None)
              (fun l => l)
              {| FileSystemMonitor.monitored_directory := "/data";
                 FileSystemMonitor.is_monitoring := true;
                 FileSystemMonitor.recent_events := six_encrypted |}
              (at_second 20) (at_second 20 + 1) (at_second 20 + 2))
    as [_ Hlong]; [vm_compute; discriminate |].
  destruct Hlong as (_ & Hthreat & _).
  - vm_compute. discriminate.
  - vm_compute. repeat split; discriminate.
  - vm_compute. discriminate.
  - rewrite Hthreat. vm_compute. reflexivity.
Defined.

End LoopFacts.

(** ** automated_response.py: the response to a threat *)

Module ResponseFacts.
Import Py Os StorageSpec BackupSpec RecoverySpec RestoreSpec ResponseSpec.
Import MonadFacts BackupFacts BackupMoreFacts RecoveryFacts RestoreFacts.
Import AutomatedResponseSystem.

Lemma same_store_refl s : same_store s s.
Proof. repeat split. Qed.

Lemma same_store_trans s1 s2 s3 :
  same_store s1 s2 -> same_store s2 s3 -> same_store s1 s3.
Proof.
  intros (H1 & H2 & H3 & H4 & H5 & H6) (G1 & G2 & G3 & G4 & G5 & G6).
  repeat split; congruence.
Qed.

Lemma runs_quiet {A} (c : M state A) : runs c -> quiet c.
Proof. intros H s. destruct (H s) as (a & _ & Hs). exact Hs. Qed.

Lemma runs_ret {A} (a : A) : runs (ret a : M state A).
Proof. intros s. exists a. split; [reflexivity | apply same_store_refl]. Qed.

Lemma quiet_raise {A} e : quiet (raise e : M state A).
Proof. intros s. apply same_store_refl. Qed.

Lemma runs_bind {A B} (c : M state A) (k : A -> M state B) :
  runs c -> (forall a, runs (k a)) -> runs (c ≫= k).
Proof.
  intros Hc Hk s. rewrite bind_unfold.
  destruct (Hc s) as (a & Ha & Hs).
  destruct (c s) as [r s1]; cbn [fst snd] in *. subst r.
  destruct (Hk a s1) as (b & Hb & Hs1).
  exists b. split; [exact Hb |]. eapply same_store_trans; eassumption.
Qed.

Lemma quiet_bind {A B} (c : M state A) (k : A -> M state B) :
  quiet c -> (forall a, quiet (k a)) -> quiet (c ≫= k).
Proof.
  intros Hc Hk s. rewrite bind_unfold.
  pose proof (Hc s) as Hs. destruct (c s) as [[e | a] s1]; cbn [fst snd] in *.
  - exact Hs.
  - eapply same_store_trans; [exact Hs | apply Hk].
Qed.

Lemma quiet_try {A} (c : M state A) (h : exn -> M state A) :
  quiet c -> (forall e, quiet (h e)) -> quiet (try_except c h).
Proof.
  intros Hc Hh s. rewrite try_except_unfold.
  pose proof (Hc s) as Hs. destruct (c s) as [[e | a] s1]; cbn [fst snd] in *.
  - eapply same_store_trans; [exact Hs | apply Hh].
  - exact Hs.
Qed.

Lemma response_io_run {A} (c : M world A) s :
  io c s = (fst (c (disk s)), set_disk (snd (c (disk s))) s).
Proof.
  unfold io, recovery. rewrite zoom_unfold, engine_io_run. reflexivity.
Qed.

Lemma log_run level message s :
  log level message s
  = (inr tt, set_disk (add_output (Logger level, message) (disk s)) s).
Proof. unfold log. rewrite response_io_run. reflexivity. Qed.

Lemma runs_log level message : runs (log level message).
Proof.
  intros s. rewrite log_run. exists tt. split; [reflexivity |].
  destruct s as [[[w m] e] a k]. repeat split.
Qed.

Lemma runs_modify_self (f : state -> state) :
  (forall s, same_store s (f s)) -> runs (modify f).
Proof. intros Hf s. exists tt. split; [reflexivity | apply Hf]. Qed.

Lemma runs_incr_total_threats_detected : runs incr_total_threats_detected.
Proof. apply runs_modify_self. intros s. repeat split. Qed.

Lemma runs_incr_automatic_backups_created :
  runs incr_automatic_backups_created.
Proof. apply runs_modify_self. intros s. repeat split. Qed.

Lemma runs_incr_automatic_recoveries_performed :
  runs incr_automatic_recoveries_performed.
Proof. apply runs_modify_self. intros s. repeat split. Qed.

Lemma runs_set_response_success_rate rate :
  runs (set_response_success_rate rate).
Proof. apply runs_modify_self. intros s. repeat split. Qed.

Lemma runs_set_last_threat_detection t : runs (set_last_threat_detection t).
Proof. apply runs_modify_self. intros s. repeat split. Qed.

Lemma runs_set_last_response_action t : runs (set_last_response_action t).
Proof. apply runs_modify_self. intros s. repeat split. Qed.

Lemma runs_step {A B} (c : M state A) (k : A -> M state B) s :
  runs c -> exists a s1, (c ≫= k) s = k a s1 /\ same_store s s1.
Proof.
  intros Hc. destruct (Hc s) as (a & Ha & Hs).
  exists a, (snd (c s)). split; [| exact Hs].
  rewrite bind_unfold. destruct (c s) as [r s1]. cbn [fst snd] in *.
  subst r. reflexivity.
Qed.

Lemma recovery_run {A} (c : M RecoveryEngine.state A) s :
  recovery c s = (fst (c (engine s)), set_engine (snd (c (engine s))) s).
Proof. apply zoom_unfold. Qed.

Lemma manager_run {A} (c : M BackupManager.state A) s :
  manager c s = (fst (c (store s)), set_store (snd (c (store s))) s).
Proof.
  unfold manager, recovery, RecoveryEngine.manager.
  rewrite !zoom_unfold. reflexivity.
Qed.

Lemma set_disk_same s : set_disk (disk s) s = s.
Proof. destruct s as [[[w m] e] a k]. reflexivity. Qed.

(** What the statements about a store read of it. *)
Lemma same_store_backups s s' :
  same_store s s' -> BackupSpec.same_but_output (store s) (store s').
Proof. intros (H1 & H2 & H3 & H4 & _). repeat split; assumption. Qed.

Lemma quiet_records_of b b' path :
  BackupSpec.same_but_output b b' -> records_of b' path = records_of b path.
Proof.
  intros (Hself & _ & Hcwd & _). unfold records_of. rewrite Hself, Hcwd.
  reflexivity.
Qed.

Lemma quiet_indexed b b' r :
  BackupSpec.same_but_output b b' -> indexed b' r -> indexed b r.
Proof.
  intros (Hself & _) (key & l & Hl & Hr). exists key, l.
  rewrite <- Hself. auto.
Qed.

Lemma quiet_backup_path_for strftime_ms b b' now path :
  BackupSpec.same_but_output b b' ->
  backup_path_for strftime_ms b' now path
  = backup_path_for strftime_ms b now path.
Proof.
  intros (Hself & _ & Hcwd & _).
  unfold backup_path_for, backup_target. rewrite Hself, Hcwd. reflexivity.
Qed.

Lemma quiet_file_at b b' p :
  BackupSpec.same_but_output b b' ->
  file_at (BackupManager.machine b') p = file_at (BackupManager.machine b) p.
Proof.
  intros (_ & Hfiles & Hcwd & _). unfold file_at. rewrite Hfiles, Hcwd.
  reflexivity.
Qed.

(** One step of a run: the computation at the head does not raise and
    leaves the store as it is. *)
Tactic Notation "run" uconstr(lemma) "as" ident(s1) ident(Hs) :=
  match goal with
  | |- context [(?c ≫= ?k) ?s] =>
      let a := fresh "a" in
      destruct (runs_step c k s lemma) as (a & s1 & -> & Hs)
  end.

Section Response.

Variable clock : nat -> Z.
Variable strftime_ms : Z -> string.
Variable sha256 : string -> string.
Variable list_of_set : list string -> list string.
Variable file_monitor_is_active : bool.

Lemma runs_datetime_now : runs (datetime_now clock).
Proof. intros s. eexists. split; [reflexivity |]. repeat split. Qed.

Lemma runs_log_response_action action_type path ok text score :
  runs (_log_response_action clock action_type path ok text score).
Proof.
  unfold _log_response_action.
  apply runs_bind; [apply runs_datetime_now |]. intros now.
  apply runs_bind; [apply runs_modify_self; intros s; repeat split |].
  intros _.
  apply runs_bind; [apply runs_set_last_response_action |]. intros _.
  destruct (String.eqb action_type "alert"); [apply runs_log |].
  destruct ok; apply runs_log.
Qed.

Lemma quiet_update_response_statistics : quiet _update_response_statistics.
Proof.
  unfold _update_response_statistics.
  apply quiet_bind; [intros s; apply same_store_refl |].
  intros [| a rest]; [apply runs_quiet, runs_ret |].
  destruct (truediv _ _); [apply quiet_raise |].
  apply runs_quiet, runs_set_response_success_rate.
Qed.

Lemma runs_process_results results score :
  forall count, runs (process_results clock results score count).
Proof.
  induction results as [| result rest IH]; intros count;
    cbn [process_results]; [apply runs_ret |].
  apply runs_bind; [| intros count'; apply IH].
  destruct (RecoveryEngine.success result).
  - apply runs_bind; [apply runs_incr_automatic_recoveries_performed |].
    intros _. apply runs_bind; [apply runs_log |]. intros _.
    apply runs_bind; [apply runs_log_response_action |]. intros _.
    apply runs_ret.
  - apply runs_bind; [apply runs_log |]. intros _.
    apply runs_bind; [apply runs_log_response_action |]. intros _.
    apply runs_ret.
Qed.

(** [_create_emergency_backups] on one file that is on disk, when no
    system call fails: a backup of the file is taken at some clock
    reading, and the store afterwards is the one that [create_backup]
    leaves, the text written out apart. *)
Lemma emergency_backup_of_one path score s content :
  (forall op q, faults (disk s) op q = None) ->
  file_at (disk s) path = Some content ->
  exists k b record b' s',
    BackupSpec.same_but_output (store s) b
    /\ BackupManager.create_backup strftime_ms (clock k) path b
       = (inr (Some record), b')
    /\ _create_emergency_backups clock strftime_ms [path] score s
       = (inr tt, s')
    /\ BackupSpec.same_but_output b' (store s')
    /\ RecoveryEngine.self (engine s') = RecoveryEngine.self (engine s)
    /\ response_threshold (self s') = response_threshold (self s).
Proof.
  intros Hfaults Hfile. unfold _create_emergency_backups.
  run (runs_log _ _) as s0 Hs0.
  pose proof (same_store_backups _ _ Hs0) as Hb0.
  assert (Hfaults0 : forall op q, faults (disk s0) op q = None).
  { intros op q. destruct Hs0 as (_ & _ & _ & -> & _). apply Hfaults. }
  assert (Hfile0 : file_at (disk s0) path = Some content).
  { unfold disk. rewrite (quiet_file_at _ _ _ Hb0). exact Hfile. }
  assert (Hexists : os_path_exists path (disk s0) = (inr true, disk s0)).
  { unfold os_path_exists. rewrite Hfaults0.
    unfold file_at in Hfile0. rewrite Hfile0. reflexivity. }
  destruct (create_backup_body_succeeds strftime_ms (clock (ticks s0)) path
              (store s0) content) as (record & b' & Hbody);
    try apply Hfaults0; [exact Hfile0 |].
  assert (Hcreate : BackupManager.create_backup strftime_ms
                      (clock (ticks s0)) path (store s0)
                    = (inr (Some record), b')).
  { rewrite create_backup_run, Hbody. reflexivity. }
  exists (ticks s0), (store s0), record, b'.
  rewrite bind_unfold. cbn [backup_each].
  rewrite bind_unfold, try_except_unfold.
  rewrite bind_unfold, response_io_run, Hexists. cbn [fst snd].
  rewrite set_disk_same.
  rewrite bind_unfold. unfold os_path_isfile.
  rewrite response_io_run, Hexists. cbn [fst snd andb].
  rewrite set_disk_same.
  rewrite bind_unfold. unfold datetime_now at 1. cbv beta iota.
  set (s1 := {| engine := engine s0; self := self s0;
                ticks := S (ticks s0) |}).
  rewrite bind_unfold, manager_run.
  change (store s1) with (store s0). rewrite Hcreate. cbn [fst snd].
  set (s2 := set_store b' s1).
  run runs_incr_automatic_backups_created as s3 Hs3.
  run (runs_log _ _) as s4 Hs4.
  run (runs_log_response_action _ _ _ _ _) as s5 Hs5.
  cbn [ret]. rewrite log_run.
  pose proof (same_store_trans _ _ _ Hs3
                (same_store_trans _ _ _ Hs4 Hs5)) as H25.
  eexists. split; [exact Hb0 |]. split; [reflexivity |].
  split; [reflexivity |].
  destruct H25 as (H1 & H2 & H3 & H4 & H5 & H6).
  destruct Hs0 as (_ & _ & _ & _ & G5 & G6).
  destruct s5 as [[[w5 m5] e5] r5 k5]. cbn in *.
  repeat split; try assumption; congruence.
Qed.

Lemma runs_if_log (b : bool) level message :
  runs (if b then log level message else ret tt).
Proof. destruct b; [apply runs_log | apply runs_ret]. Qed.

(** Once the batch has been restored, nothing that follows in
    [_trigger_automated_recovery] touches the store. *)
Lemma after_restoration {A B C} (c : M state A) (k : A -> M state B)
      (h : exn -> M state B) (rest : B -> M state C) s a s1 :
  c s = (inr a, s1) ->
  quiet (k a) -> (forall e, quiet (h e)) -> (forall x, quiet (rest x)) ->
  same_store s1 (snd ((try_except (c ≫= k) h ≫= rest) s)).
Proof.
  intros Hc Hk Hh Hrest.
  rewrite bind_unfold, try_except_unfold, bind_unfold, Hc.
  pose proof (Hk s1) as Hs2. destruct (k a s1) as [[e | b] s2];
    cbn [fst snd] in Hs2.
  - pose proof (Hh e s2) as Hs3. destruct (h e s2) as [[e' | b] s3];
      cbn [fst snd] in *.
    + eapply same_store_trans; eassumption.
    + eapply same_store_trans; [exact Hs2 |].
      eapply same_store_trans; [exact Hs3 | apply Hrest].
  - eapply same_store_trans; [exact Hs2 | apply Hrest].
Qed.

Lemma quiet_after_results affected score results :
  quiet (recovery_success_count ← process_results clock results score 0;
         log Critical ("AUTOMATED RECOVERY COMPLETED: "
                       +:+ str_int recovery_success_count +:+ "/"
                       +:+ str_int (len affected) +:+ " files recovered");;
         if recovery_success_count =? len affected then
           log Info "All files successfully recovered from automated response"
         else if 0 <? recovery_success_count then
           log Warning ("Partial recovery: "
                        +:+ str_int recovery_success_count
                        +:+ " of " +:+ str_int (len (A := string) affected)
                        +:+ " files recovered")
         else log Error "Automated recovery failed for all files").
Proof.
  apply runs_quiet.
  apply runs_bind; [apply runs_process_results |]. intros count.
  apply runs_bind; [apply runs_log |]. intros _.
  destruct (count =? len affected); [apply runs_log |].
  destruct (0 <? count); apply runs_log.
Qed.

End Response.

(** X21. When a threat is handled, the affected file is backed up as it is
    found and then restored from its latest backup, which is the one just
    taken: the file ends with the content it had when the threat was
    handled, whatever older backups there are, and the engine counts it
    as recovered. This is the case of one affected file that is on disk,
    with a score that reaches the response threshold, no failing system
    call, an absolute working directory, room for one record at least, a
    clock past the records of the file, and backup paths that are new. *)
Theorem response_restores_the_file_as_found clock strftime_ms sha256 active
        detection path content s :
  ThreatDetector.affected_files detection = [path] ->
  response_threshold (self s) <= ThreatDetector.threat_score detection ->
  (forall op q, faults (disk s) op q = None) ->
  is_absolute (cwd (disk s)) = true ->
  1 <= BackupManager.retention_count (BackupManager.self (store s)) ->
  (forall k, Forall (fun r => BackupManager.timestamp r < clock k)
                    (records_of (store s) path)) ->
  (forall k r, indexed (store s) r ->
               absolute_in (cwd (disk s)) (BackupManager.backup_path r)
               <> backup_path_for strftime_ms (store s) (clock k) path) ->
  (forall k, absolute_in (cwd (disk s)) path
             <> backup_path_for strftime_ms (store s) (clock k) path) ->
  file_at (disk s) path = Some content ->
  let s' := snd (_handle_threat_detection clock strftime_ms sha256 active
                   detection s) in
  let before := RecoveryEngine.recovery_stats (RecoveryEngine.self (engine s)) in
  let after := RecoveryEngine.recovery_stats (RecoveryEngine.self (engine s')) in
  file_at (disk s') path = Some content
  /\ RecoveryEngine.successful_recoveries after
     = RecoveryEngine.successful_recoveries before + 1
  /\ RecoveryEngine.files_recovered after
     = RecoveryEngine.files_recovered before ++ [path].
Proof.
  intros Haffected Hscore Hfaults Hcwd Hret Hnewer Hfresh Hself Hfile.
  cbv zeta. unfold _handle_threat_detection. rewrite Haffected.
  run runs_incr_total_threats_detected as s1 Hs1.
  run (runs_set_last_threat_detection _) as s2 Hs2.
  run (runs_log _ _) as s3 Hs3.
  run (runs_log _ _) as s4 Hs4.
  run (runs_log _ _) as s5 Hs5.
  run (runs_log_response_action _ _ _ _ _ _) as s6 Hs6.
  assert (H06 : same_store s s6).
  { exact (same_store_trans _ _ _ Hs1
             (same_store_trans _ _ _ Hs2
                (same_store_trans _ _ _ Hs3
                   (same_store_trans _ _ _ Hs4
                      (same_store_trans _ _ _ Hs5 Hs6))))). }
  clear Hs1 Hs2 Hs3 Hs4 Hs5 Hs6 s1 s2 s3 s4 s5.
  pose proof (same_store_backups _ _ H06) as Hb6.
  destruct (emergency_backup_of_one clock strftime_ms path
              (ThreatDetector.threat_score detection) s6 content)
    as (k & b & record & b' & s7 & Hb & Hcreate & Hrun & Hb' & Heng7 & Hthr7).
  { intros op q. destruct H06 as (_ & _ & _ & -> & _). apply Hfaults. }
  { unfold disk. rewrite (quiet_file_at _ _ _ Hb6). exact Hfile. }
  rewrite (bind_inr _ _ _ _ _ Hrun).
  rewrite bind_unfold. cbn [gets].
  assert (Hthreshold : response_threshold (self s7)
                       = response_threshold (self s)).
  { rewrite Hthr7. apply H06. }
  rewrite Hthreshold.
  destruct (Z.leb_spec (response_threshold (self s))
                       (ThreatDetector.threat_score detection)); [| lia].
  run (runs_log _ _) as s8 Hs8.
  run (runs_log _ _) as s9 Hs9.
  unfold _trigger_automated_recovery.
  run (runs_log _ _) as s10 Hs10.
  run (runs_if_log _ _ _) as s11 Hs11.
  assert (H711 : same_store s7 s11).
  { exact (same_store_trans _ _ _ Hs8
             (same_store_trans _ _ _ Hs9
                (same_store_trans _ _ _ Hs10 Hs11))). }
  clear Hs8 Hs9 Hs10 Hs11 s8 s9 s10.
  (* the store in which the backup was taken *)
  assert (Hbb : BackupSpec.same_but_output (store s) b).
  { destruct Hb6 as (A1 & A2 & A3 & A4). destruct Hb as (B1 & B2 & B3 & B4).
    repeat split; congruence. }
  assert (Hcwd_b : cwd (BackupManager.machine b) = cwd (disk s))
    by apply Hbb.
  destruct (fresh_backup_on_disk strftime_ms (clock k) path b record b'
              content) as (Hpath & Habs & _ & Hdisk & Hlist & _).
  { rewrite Hcwd_b. exact Hcwd. }
  { destruct Hbb as (-> & _). exact Hret. }
  { rewrite (quiet_records_of _ _ _ Hbb). apply Hnewer. }
  { intros r Hr. rewrite Hcwd_b, (quiet_backup_path_for _ _ _ _ _ Hbb).
    apply Hfresh. eapply quiet_indexed; eassumption. }
  { rewrite (quiet_file_at _ _ _ Hbb). exact Hfile. }
  { exact Hcreate. }
  destruct (create_backup_step strftime_ms (clock k) path b record b')
    as (_ & Hcwd' & Hfaults' & _);
    [destruct Hbb as (-> & _); lia | exact Hcreate |].
  (* the store in which the batch is restored *)
  assert (Hb11 : BackupSpec.same_but_output b' (store s11)).
  { pose proof (same_store_backups _ _ H711) as (A1 & A2 & A3 & A4).
    destruct Hb' as (B1 & B2 & B3 & B4). repeat split; congruence. }
  assert (Hfaults11 : forall op q,
             faults (RecoverySpec.world_of (engine s11)) op q = None).
  { intros op q.
    change (RecoverySpec.world_of (engine s11))
      with (BackupManager.machine (store s11)).
    destruct Hb11 as (_ & _ & _ & ->). rewrite Hfaults'.
    destruct Hbb as (_ & _ & _ & ->). apply Hfaults. }
  destruct (restore_multiple_from_latest sha256 path true (engine s11)
              record
              (take (Z.to_nat (BackupManager.retention_count
                                 (BackupManager.self b) - 1))
                    (BackupManager.sort_newest_first (records_of b path)))
              content)
    as (result & e12 & Hrestore & Hsuccess & _ & Hcontent & _ & Hrpath & Hstats);
    try apply Hfaults11.
  { unfold versions. change (RecoveryEngine.backup_manager (engine s11))
      with (store s11).
    rewrite (quiet_records_of _ _ _ Hb11). exact Hlist. }
  { unfold file_at.
    change (RecoverySpec.world_of (engine s11))
      with (BackupManager.machine (store s11)).
    destruct Hb11 as (_ & -> & -> & _).
    rewrite (absolute_in_idem _ _ Habs). exact Hdisk. }
  assert (Hbatch :
            recovery (RecoveryEngine.restore_multiple sha256 [path] true) s11
            = (inr [result], set_engine e12 s11)).
  { rewrite recovery_run, Hrestore. reflexivity. }
  match goal with
  | |- context [(try_except (?c ≫= ?body) ?h ≫= ?rest) s11] =>
      pose proof (after_restoration c body h rest s11 [result]
                    (set_engine e12 s11) Hbatch) as Hafter
  end.
  match type of Hafter with
  | ?A -> ?B -> ?C -> _ =>
      assert (HA : A) by apply quiet_after_results;
      assert (HB : B)
        by (intros e; apply runs_quiet;
            apply runs_bind; [apply runs_log |]; intros _;
            apply runs_log_response_action);
      assert (HC : C)
        by (intros _; apply quiet_bind;
            [apply runs_quiet, runs_if_log |];
            intros _; apply quiet_update_response_statistics)
  end.
  specialize (Hafter HA HB HC). clear HA HB HC.
  destruct Hafter as (_ & Hfiles & Hcwd_end & _ & Hengine & _).
  split.
  - unfold file_at. rewrite Hfiles, Hcwd_end. exact Hcontent.
  - rewrite Hengine. cbn [engine set_engine]. rewrite Hstats.
    assert (Hself11 : RecoveryEngine.self (engine s11)
                      = RecoveryEngine.self (engine s)).
    { destruct H711 as (_ & _ & _ & _ & -> & _). rewrite Heng7.
      apply H06. }
    rewrite Hself11. unfold booked. rewrite Hsuccess, Hrpath.
    split; reflexivity.
Qed.

Lemma emit_run lines :
  forall s,
  exists s',
    emit lines s = (inr tt, s')
    /\ same_store s s' /\ self s' = self s /\ ticks s' = ticks s.
Proof.
  induction lines as [| [level text] rest IH]; intros s; cbn [emit].
  - exists s. split; [reflexivity |]. split; [apply same_store_refl |].
    split; reflexivity.
  - rewrite bind_unfold, log_run.
    destruct (IH (set_disk (add_output (Logger level, text) (disk s)) s))
      as (s' & Hrun & Hsame & Hself & Hticks).
    exists s'. split; [exact Hrun |].
    split; [| split; [rewrite Hself | rewrite Hticks];
              destruct s as [[[w m] e] a k]; reflexivity].
    eapply same_store_trans; [| exact Hsame].
    destruct s as [[[w m] e] a k]. repeat split.
Qed.

(** X22. A turn of the loop in which the monitor has no creation and no
    modification of the last 10 seconds to hand over takes no action: it
    returns, the store, the response actions and the statistics are as
    before, and three clock readings at most have been taken. This is so
    whatever older events the ledger holds and however long the window of
    the detector is. *)
Theorem turn_without_recent_changes clock strftime_ms sha256 order active
        detector monitor s :
  0 < ThreatDetector.detection_threshold detector ->
  order [] = [] ->
  (forall e,
      In e (FileSystemMonitor.get_recent_events monitor (clock (ticks s)) 10) ->
      DetectionSpec.created_or_modified e = false) ->
  exists s',
    monitoring_turn clock strftime_ms sha256 order active detector monitor s
    = (inr tt, s')
    /\ same_store s s'
    /\ self s' = self s
    /\ (ticks s' <= ticks s + 3)%nat.
Proof.
  intros Hthr Horder Hquiet. unfold monitoring_turn.
  rewrite try_except_unfold, bind_unfold. unfold datetime_now at 1.
  cbv beta iota.
  set (s1 := {| engine := engine s; self := self s; ticks := S (ticks s) |}).
  destruct (FileSystemMonitor.get_recent_events monitor (clock (ticks s)) 10)
    as [| e rest] eqn:Hrecent.
  { exists s1. split; [reflexivity |]. split; [repeat split |].
    split; [reflexivity | cbn; lia]. }
  rewrite bind_unfold. unfold datetime_now at 1. cbv beta iota.
  rewrite bind_unfold. unfold datetime_now at 1. cbv beta iota.
  cbn [ticks self engine s1].
  set (s3 := {| engine := engine s; self := self s;
                ticks := S (S (S (ticks s))) |}).
  destruct (DetectorMoreFacts.quiet_batch_no_threat detector order
              (clock (S (ticks s))) (clock (S (S (ticks s)))) (e :: rest)
              Hthr Horder) as (_ & Hnone & _).
  { intros x Hx _. apply Hquiet. exact Hx. }
  destruct (ThreatDetector.analyze_events detector order
              (clock (S (ticks s))) (clock (S (S (ticks s)))) (e :: rest))
    as [result lines].
  cbn [fst] in Hnone. rewrite bind_unfold.
  destruct (emit_run lines s3) as (s4 & -> & Hsame & Hself & Hticks).
  rewrite Hnone. cbn [ret].
  exists s4. split; [reflexivity |].
  split; [eapply same_store_trans; [| exact Hsame]; repeat split |].
  split; [rewrite Hself; reflexivity | rewrite Hticks; cbn; lia].
Qed.

(** A burst of encrypted files a quarter of a minute old, a detector with
    a window of a minute. *)
Lemma turn_without_recent_changes_witness :
  let s := example_response (example_store 3 no_faults) 50 in
  let monitor :=
    {| FileSystemMonitor.monitored_directory := "/data";
       FileSystemMonitor.is_monitoring := true;
       FileSystemMonitor.recent_events := DetectionSpec.six_encrypted |} in
  exists s',
    monitoring_turn (fun k => DetectionSpec.at_second 20 + Z.of_nat k) str_int (fun x => x)
      (fun l => l) true (ThreatDetector.init 5 60 None) monitor s
    = (inr tt, s')
    /\ self s' = self s.
Proof.
  cbv zeta.
  destruct (turn_without_recent_changes
              (fun k => DetectionSpec.at_second 20 + Z.of_nat k) str_int (fun x => x)
              (fun l => l) true (ThreatDetector.init 5 60 None)
              {| FileSystemMonitor.monitored_directory := "/data";
                 FileSystemMonitor.is_monitoring := true;
                 FileSystemMonitor.recent_events :=
                   DetectionSpec.six_encrypted |}
              (example_response (example_store 3 no_faults) 50))
    as (s' & Hrun & _ & Hself & _).
  - vm_compute. reflexivity.
  - reflexivity.
  - intros e He. vm_compute in He. destruct He.
  - exists s'. split; [exact Hrun | exact Hself].
Defined.

(** A file with a good backup is overwritten; the threat is handled with
    the default threshold. The file keeps the bytes written over it, and
    the good backup is still on disk. *)
Lemma response_restores_the_file_as_found_witness :
  let b := snd (BackupManager.create_backup str_int 1000 "/data/a.txt"
                  (example_store 3 no_faults)) in
  let hit :=
    RecoveryEngine.backup_manager
      (damaged b (RecoveryEngine.init true) "/data/a.txt"
               (Some "ENCRYPTED!")) in
  let s := example_response hit 50 in
  let s' := snd (_handle_threat_detection (fun _ => 2000) str_int
                   (fun x => x) true
                   (example_detection ["/data/a.txt"] 95) s) in
  file_at (disk s') "/data/a.txt" = Some "ENCRYPTED!"
  /\ file_at (disk s') "/backups/a_1000.txt" = Some "hello".
Proof.
  cbv zeta. split; [| vm_compute; reflexivity].
  apply (response_restores_the_file_as_found (fun _ => 2000) str_int
           (fun x => x) true (example_detection ["/data/a.txt"] 95)
           "/data/a.txt" "ENCRYPTED!").
  - reflexivity.
  - vm_compute. discriminate.
  - intros op q. reflexivity.
  - reflexivity.
  - vm_compute. discriminate.
  - intros _. vm_compute. repeat constructor.
  - intros _ r (key & l & Hl & Hr). vm_compute in Hl.
    destruct (decide (key = "/data/a.txt")) as [-> | Hne].
    + vm_compute in Hl. injection Hl as <-.
      destruct Hr as [<- | []]. vm_compute. discriminate.
    + exfalso. revert Hl. 
      change (({[ "/data/a.txt" := [example_record 1000] ]}
               : gmap string (list BackupManager.BackupRecord)) !! key
              = Some l -> False).
      rewrite lookup_singleton_ne by congruence. discriminate.
  - intros _. vm_compute. discriminate.
  - vm_compute. reflexivity.
Defined.

End ResponseFacts.

(** ** config_manager.py and the validation of main.py *)

Module ConfigFacts.
Import Py ConfigManager Main ConfigSpec.

Lemma dict_get_set_eq d key v : dict_get (dict_set d key v) key = Some v.
Proof.
  induction d as [| [k w] rest IH]; cbn [dict_set dict_get].
  - rewrite String.eqb_refl. reflexivity.
  - destruct (String.eqb k key) eqn:Hk; cbn [dict_get]; rewrite Hk;
      [reflexivity | exact IH].
Qed.

Lemma dict_get_set_ne d key key' v :
  key' <> key -> dict_get (dict_set d key v) key' = dict_get d key'.
Proof.
  intros Hne. induction d as [| [k w] rest IH]; cbn [dict_set dict_get].
  - destruct (String.eqb_spec key key'); [congruence | reflexivity].
  - destruct (String.eqb_spec k key) as [-> | Hk]; cbn [dict_get].
    + destruct (String.eqb_spec key key'); [congruence | reflexivity].
    + destruct (String.eqb k key'); [reflexivity | exact IH].
Qed.

Lemma key_in_get key d :
  key_in key d = match dict_get d key with Some _ => true | None => false end.
Proof.
  induction d as [| [k w] rest IH]; [reflexivity |].
  cbn [key_in existsb dict_get fst]. destruct (String.eqb k key);
    [reflexivity | exact IH].
Qed.

Lemma dict_set_same d key v :
  dict_get d key = Some v -> dict_set d key v = d.
Proof.
  induction d as [| [k w] rest IH]; cbn [dict_get dict_set]; [discriminate |].
  destruct (String.eqb k key); intros H.
  - injection H as ->. reflexivity.
  - rewrite (IH H). reflexivity.
Qed.

(** The first loop: a key that is there keeps its value, a key that is
    missing gets its default. *)
Lemma fill_missing_get defaults :
  forall config key,
    dict_get (fst (fill_missing defaults config)) key
    = match dict_get config key with
      | Some v => Some v
      | None => dict_get defaults key
      end.
Proof.
  induction defaults as [| [k v] rest IH]; intros config key;
    cbn [fill_missing].
  - cbn. destruct (dict_get config key); reflexivity.
  - rewrite key_in_get.
    destruct (dict_get config k) as [w |] eqn:Hk; cbn [negb].
    + rewrite IH. cbn [dict_get].
      destruct (String.eqb_spec k key) as [-> | Hne]; [| reflexivity].
      rewrite Hk. reflexivity.
    + destruct (fill_missing rest (dict_set config k v)) as [c' printed]
        eqn:Hrest.
      cbn [fst]. replace c' with (fst (fill_missing rest (dict_set config k v)))
        by (rewrite Hrest; reflexivity).
      rewrite IH. cbn [dict_get].
      destruct (String.eqb_spec k key) as [-> | Hne].
      * rewrite dict_get_set_eq, Hk. reflexivity.
      * rewrite dict_get_set_ne by congruence. reflexivity.
Qed.

Lemma fill_missing_full defaults :
  forall config,
    (forall k, key_in k defaults = true -> key_in k config = true) ->
    fill_missing defaults config = (config, []).
Proof.
  induction defaults as [| [k v] rest IH]; intros config Hall;
    cbn [fill_missing]; [reflexivity |].
  rewrite (Hall k) by (cbn; rewrite String.eqb_refl; reflexivity).
  cbn [negb]. apply IH. intros k' Hk'. apply Hall. cbn [key_in existsb fst].
  unfold key_in in Hk'. rewrite Hk'. apply orb_true_r.
Qed.

Lemma reset_unless_get test key config key' :
  dict_get (reset_unless test key config) key'
  = if String.eqb key key' && negb (test (get_or_None config key))
    then Some (get_or_None default_config key)
    else dict_get config key'.
Proof.
  unfold reset_unless.
  destruct (test (get_or_None config key)); cbn [negb].
  - rewrite andb_false_r. reflexivity.
  - rewrite andb_true_r.
    destruct (String.eqb_spec key key') as [<- | Hne].
    + apply dict_get_set_eq.
    + apply dict_get_set_ne. congruence.
Qed.

Lemma get_or_None_reset test key config key' :
  key <> key' ->
  get_or_None (reset_unless test key config) key' = get_or_None config key'.
Proof.
  intros Hne. unfold get_or_None. rewrite reset_unless_get.
  destruct (String.eqb_spec key key'); [congruence | reflexivity].
Qed.

(** The lookups of a configuration after [_validate_config]. *)
Lemma validate_config_get config key :
  dict_get (fst (_validate_config config)) key
  = match dict_get config key with
    | Some v =>
        if well_typed key v then Some v else dict_get default_config key
    | None => dict_get default_config key
    end.
Proof.
  unfold _validate_config.
  pose proof (fill_missing_get default_config config) as Hfill.
  destruct (fill_missing default_config config) as [c1 printed].
  cbn [fst] in *.
  rewrite !reset_unless_get.
  rewrite !get_or_None_reset by discriminate.
  unfold get_or_None. rewrite !Hfill.
  unfold well_typed, type_test.
  destruct (String.eqb_spec "suspicious_extensions" key) as [<- | H5].
  { destruct (dict_get config "suspicious_extensions") as [v |];
      cbn; [destruct (isinstance_list v) |]; reflexivity. }
  destruct (String.eqb_spec "response_threshold" key) as [<- | H4].
  { destruct (dict_get config "response_threshold") as [v |];
      cbn; [destruct (isinstance_int v) |]; reflexivity. }
  destruct (String.eqb_spec "time_window_seconds" key) as [<- | H3].
  { destruct (dict_get config "time_window_seconds") as [v |];
      cbn; [destruct (isinstance_int v) |]; reflexivity. }
  destruct (String.eqb_spec "backup_retention" key) as [<- | H2].
  { destruct (dict_get config "backup_retention") as [v |];
      cbn; [destruct (isinstance_int v) |]; reflexivity. }
  destruct (String.eqb_spec "detection_threshold" key) as [<- | H1].
  { destruct (dict_get config "detection_threshold") as [v |];
      cbn; [destruct (isinstance_int v) |]; reflexivity. }
  cbn [andb].
  destruct (String.eqb_spec key "detection_threshold"); [congruence |].
  destruct (String.eqb_spec key "backup_retention"); [congruence |].
  destruct (String.eqb_spec key "time_window_seconds"); [congruence |].
  destruct (String.eqb_spec key "response_threshold"); [congruence |].
  destruct (String.eqb_spec key "suspicious_extensions"); [congruence |].
  destruct (dict_get config key); reflexivity.
Qed.

Lemma default_config_typed key v :
  dict_get default_config key = Some v -> well_typed key v = true.
Proof.
  unfold default_config. cbn [dict_get].
  repeat match goal with
         | |- (if String.eqb ?k key then _ else _) = _ -> _ =>
             destruct (String.eqb_spec k key) as [<- | ?];
             [intros H; injection H as <-; reflexivity |]
         end.
  discriminate.
Qed.

Lemma validated_typed config key v :
  dict_get (fst (_validate_config config)) key = Some v ->
  well_typed key v = true.
Proof.
  rewrite validate_config_get.
  destruct (dict_get config key) as [w |].
  - destruct (well_typed key w) eqn:Hw.
    + intros H. injection H as <-. exact Hw.
    + apply default_config_typed.
  - apply default_config_typed.
Qed.

Lemma validated_has_defaults config key :
  key_in key default_config = true ->
  key_in key (fst (_validate_config config)) = true.
Proof.
  rewrite !key_in_get, validate_config_get.
  destruct (dict_get default_config key) as [d |]; [intros _ | discriminate].
  destruct (dict_get config key) as [w |]; [| reflexivity].
  destruct (well_typed key w); reflexivity.
Qed.

Lemma reset_unless_typed test key config :
  type_test key = Some test ->
  key_in key default_config = true ->
  reset_unless test key (fst (_validate_config config))
  = fst (_validate_config config).
Proof.
  intros Htest Hkey. unfold reset_unless, get_or_None.
  pose proof (validated_has_defaults config key Hkey) as Hin.
  rewrite key_in_get in Hin.
  destruct (dict_get (fst (_validate_config config)) key) as [v |] eqn:Hv;
    [| discriminate].
  pose proof (validated_typed config key v Hv) as Hty.
  unfold well_typed in Hty. rewrite Htest in Hty.
  cbn [default from_option]. change (id v) with v. rewrite Hty.
  reflexivity.
Qed.

(** X23. [_validate_config] leaves a configuration in which every key of the
    defaults is present and the five checked keys have the type wanted, a
    [bool] passing for an [int]. A value that is there and passes the
    test of its key is kept, every other key of the defaults gets its
    default, and keys that the defaults do not know stay as they are. A
    second call changes nothing and prints nothing. *)
Theorem validate_config_fills_and_types config :
  let config' := fst (_validate_config config) in
  (forall key,
      dict_get config' key
      = match dict_get config key with
        | Some v =>
            if well_typed key v then Some v else dict_get default_config key
        | None => dict_get default_config key
        end)
  /\ (forall key, key_in key default_config = true ->
                  key_in key config' = true)
  /\ (forall key v, dict_get config' key = Some v ->
                    well_typed key v = true)
  /\ _validate_config config' = (config', []).
Proof.
  cbv zeta. split; [apply validate_config_get |].
  split; [apply validated_has_defaults |].
  split; [apply validated_typed |].
  unfold _validate_config at 1.
  rewrite fill_missing_full by apply validated_has_defaults.
  rewrite !reset_unless_typed by reflexivity. reflexivity.
Qed.

(** *** [validate_configuration] *)

Lemma V_bind_unfold {A B} (c : V A) (k : A -> V B) lines :
  (c ≫= k) lines
  = match c lines with
    | (lines', inl e) => (lines', inl e)
    | (lines', inr a) => k a lines'
    end.
Proof. reflexivity. Qed.

Lemma V_bind_inv {A B} (c : V A) (k : A -> V B) lines lines' b :
  (c ≫= k) lines = (lines', inr b) ->
  exists a l1, c lines = (l1, inr a) /\ k a l1 = (lines', inr b).
Proof.
  rewrite V_bind_unfold. destruct (c lines) as [l1 [e | a]];
    [discriminate |]. intros H. exists a, l1. auto.
Qed.

Lemma V_ret_inv {A} (a b : A) lines lines' :
  (mret a : V A) lines = (lines', inr b) -> a = b.
Proof. intros H. injection H as _ H. exact H. Qed.

Lemma V_log_then {A} level message (a b : A) lines lines' :
  (log level message;; (mret a : V A)) lines = (lines', inr b) -> a = b.
Proof. intros H. injection H as _ H. exact H. Qed.

Section Validation.

Variable abspath : string -> string.
Variable str_json : json -> string.

Lemma check_extensions_true extensions :
  forall is_valid lines lines',
    check_extensions str_json extensions is_valid lines = (lines', inr true) ->
    is_valid = true
    /\ Forall (fun e => exists x, e = JStr x /\ startswith x "." = true)
              extensions.
Proof.
  induction extensions as [| ext rest IH]; intros is_valid lines lines' H;
    cbn [check_extensions] in H.
  - apply V_ret_inv in H. split; [exact H | constructor].
  - apply V_bind_inv in H as (v & l1 & Hstage & Hrest).
    apply IH in Hrest as [-> Hall].
    destruct ext as [| b | n | x | e | l | fields]; cbn in Hstage;
      try (apply V_log_then in Hstage; discriminate).
    destruct (startswith e ".") eqn:Hdot; cbn in Hstage.
    + apply V_ret_inv in Hstage. split; [exact Hstage |].
      constructor; [exists e; auto | exact Hall].
    + apply V_log_then in Hstage. discriminate.
Qed.

Lemma warn_or_keep (warn : bool) level message (v : bool) lines lines' :
  (if warn then log level message;; (mret v : V bool) else mret v) lines
  = (lines', inr true) ->
  v = true.
Proof.
  destruct warn; intros H; [apply V_log_then in H | apply V_ret_inv in H];
    exact H.
Qed.

Lemma monitored_stage_true (monitored_dir : json) lines lines' :
  (if negb (truthy monitored_dir) then
     log Error "Monitored directory not specified";;
     (mret false : V bool)
   else
     absolute ← os_path_isabs monitored_dir;
     if negb absolute
        && negb (match monitored_dir with
                 | JStr d => startswith d "./"
                 | _ => false
                 end)
     then
       log Warning ("Monitored directory '" +:+ str_json monitored_dir
                    +:+ "' should be absolute or relative path");;
       mret true
     else mret true) lines = (lines', inr true) ->
  exists s, monitored_dir = JStr s /\ s <> "".
Proof.
  destruct monitored_dir as [| b | n | x | s | l | fields]; cbn [truthy].
  - intros H. apply V_log_then in H. discriminate.
  - destruct b; intros H; [discriminate H |].
    apply V_log_then in H. discriminate.
  - destruct (n =? 0); intros H; [| discriminate H].
    apply V_log_then in H. discriminate.
  - destruct (mant x =? 0); intros H; [| discriminate H].
    apply V_log_then in H. discriminate.
  - destruct (String.eqb_spec s "") as [-> | Hs]; intros H.
    + apply V_log_then in H. discriminate.
    + exists s. auto.
  - destruct l; intros H; [| discriminate H].
    apply V_log_then in H. discriminate.
  - destruct fields; intros H; [| discriminate H].
    apply V_log_then in H. discriminate.
Qed.

Lemma backup_stage_true (monitored_dir backup_dir : json) (is_valid : bool)
      lines lines' :
  (if negb (truthy backup_dir) then
     log Error "Backup directory not specified";;
     (mret false : V bool)
   else if truthy monitored_dir then
     backup_absolute ← os_path_abspath abspath backup_dir;
     monitored_absolute ← os_path_abspath abspath monitored_dir;
     if String.eqb backup_absolute monitored_absolute then
       log Error
         "Backup directory cannot be the same as monitored directory";;
       mret false
     else mret is_valid
   else mret is_valid) lines = (lines', inr true) ->
  is_valid = true
  /\ truthy backup_dir = true
  /\ (truthy monitored_dir = true ->
       exists b m,
         backup_dir = JStr b /\ monitored_dir = JStr m
         /\ abspath b <> abspath m).
Proof.
  destruct (truthy backup_dir) eqn:Hb; cbn [negb];
    [| intros H; apply V_log_then in H; discriminate].
  destruct (truthy monitored_dir) eqn:Hm.
  2: { intros H. apply V_ret_inv in H. split; [exact H |].
       split; [reflexivity | discriminate]. }
  intros H.
  apply V_bind_inv in H as (b & l1 & Hba & H).
  apply V_bind_inv in H as (m & l2 & Hma & H).
  destruct backup_dir as [| ? | ? | ? | bs | ? | ?]; try discriminate Hba.
  destruct monitored_dir as [| ? | ? | ? | ms | ? | ?]; try discriminate Hma.
  apply V_ret_inv in Hba. apply V_ret_inv in Hma. subst b m.
  destruct (String.eqb_spec (abspath bs) (abspath ms)) as [Heq | Hne].
  - apply V_log_then in H. discriminate.
  - apply V_ret_inv in H. split; [exact H |]. split; [reflexivity |].
    intros _. exists bs, ms. auto.
Qed.

End Validation.

(** X24. A configuration that [validate_configuration] accepts is in range:
    the two directories are strings that are not empty and name different
    places, the detection threshold, the time window and the retention are
    integers from 1 on, the response threshold is an integer from 0 to
    100, and the suspicious extensions are a list of strings that start
    with a dot. A [bool] counts as the integer 0 or 1. *)
Theorem accepted_configuration_is_in_range abspath str_json config
        lines lines' :
  validate_configuration abspath str_json config lines = (lines', inr true) ->
  (exists monitored backup,
      get_or_None config "monitored_directory" = JStr monitored
      /\ monitored <> ""
      /\ get_or_None config "backup_directory" = JStr backup
      /\ backup <> ""
      /\ abspath backup <> abspath monitored)
  /\ int_between 1 None (get_or_None config "detection_threshold")
  /\ int_between 1 None (get_or_None config "time_window_seconds")
  /\ int_between 1 None (get_or_None config "backup_retention")
  /\ int_between 0 (Some 100) (get_or_None config "response_threshold")
  /\ dotted_extensions (get_or_None config "suspicious_extensions").
Proof.
  intros H. unfold validate_configuration in H.
  apply V_bind_inv in H as ([] & l0 & _ & H).
  apply V_bind_inv in H as (v1 & l1 & H1 & H).
  apply V_bind_inv in H as (v2 & l2 & H2 & H).
  apply V_bind_inv in H as (v3 & l3 & H3 & H).
  apply V_bind_inv in H as (v4 & l4 & H4 & H).
  apply V_bind_inv in H as (v5 & l5 & H5 & H).
  apply V_bind_inv in H as (v6 & l6 & H6 & H).
  apply V_bind_inv in H as (v7 & l7 & H7 & H).
  apply V_bind_inv in H as ([] & l8 & _ & H).
  apply V_bind_inv in H as ([] & l9 & _ & H).
  apply V_ret_inv in H. subst v7.
  (* the extensions *)
  assert (Hext : v6 = true
                 /\ dotted_extensions
                      (get_or_None config "suspicious_extensions")).
  { unfold dotted_extensions.
    destruct (get_or_None config "suspicious_extensions")
      as [| b | n | x | e | l | fields];
      try (apply V_log_then in H7; discriminate).
    destruct l as [| ext rest].
    - apply V_log_then in H7. split; [exact H7 |].
      exists []. split; [reflexivity | constructor].
    - apply check_extensions_true in H7 as [-> Hall].
      split; [reflexivity |]. eexists. split; [reflexivity | exact Hall]. }
  destruct Hext as [-> Hext].
  (* the response threshold *)
  rewrite <- orb_assoc in H6.
  assert (Hresponse : v5 = true
                      /\ int_between 0 (Some 100)
                           (get_or_None config "response_threshold")).
  { set (v := get_or_None config "response_threshold") in *.
    unfold int_between.
    destruct (isinstance_int v); cbn [negb orb] in H6;
      [| apply V_log_then in H6; discriminate].
    destruct (Z.ltb_spec (int_value v) 0); cbn [orb] in H6;
      [apply V_log_then in H6; discriminate |].
    destruct (Z.ltb_spec 100 (int_value v));
      [apply V_log_then in H6; discriminate |].
    apply V_ret_inv in H6. repeat split; [exact H6 | lia | lia]. }
  destruct Hresponse as [-> Hresponse].
  (* the retention, the window, the threshold *)
  assert (Hint : forall (v : json) (bound : Z) text text' (prev : bool) l l',
             (if negb (isinstance_int v) || (int_value v <? 1)
              then log Error text;; (mret false : V bool)
              else if bound <? int_value v
                   then log Warning text';; mret prev
                   else mret prev) l = (l', inr true) ->
             prev = true /\ int_between 1 None v).
  { intros v bound text text' prev l l' Hv. unfold int_between.
    destruct (isinstance_int v); cbn [negb orb] in Hv;
      [| apply V_log_then in Hv; discriminate].
    destruct (Z.ltb_spec (int_value v) 1);
      [apply V_log_then in Hv; discriminate |].
    apply warn_or_keep in Hv. repeat split; [exact Hv | lia]. }
  apply Hint in H5 as [-> Hretention].
  apply Hint in H4 as [-> Hwindow].
  apply Hint in H3 as [-> Hthreshold].
  clear Hint.
  (* the directories *)
  split; [| exact (conj Hthreshold (conj Hwindow (conj Hretention
                       (conj Hresponse Hext))))].
  apply backup_stage_true in H2 as (-> & Hbackup & Hboth).
  apply monitored_stage_true in H1 as (monitored & Hmonitored & Hm).
  rewrite Hmonitored in Hboth.
  destruct Hboth as (backup & ms & Hb & Hms & Hdiff).
  { cbn. destruct (String.eqb_spec monitored ""); [contradiction | reflexivity]. }
  injection Hms as <-.
  exists monitored, backup. rewrite Hb in Hbackup. cbn in Hbackup.
  repeat split; try assumption.
  intros ->. discriminate.
Qed.

(** A file that gives a string for the detection threshold and [true]
    for the time window: [_validate_config] puts the default threshold in
    and keeps [true], and the validation accepts the result, [true]
    counting as a window of 1 second. *)
Lemma accepted_configuration_is_in_range_witness :
  let config := fst (_validate_config example_config) in
  get_or_None config "detection_threshold" = JInt 5
  /\ get_or_None config "time_window_seconds" = JBool true
  /\ int_between 1 None (get_or_None config "time_window_seconds").
Proof.
  cbv zeta. split; [reflexivity |]. split; [reflexivity |].
  eapply (accepted_configuration_is_in_range (fun p => p) (fun _ => "")
            (fst (_validate_config example_config)) []).
  vm_compute. reflexivity.
Defined.

End ConfigFacts.
